(** * A limit order book with price-time priority matching

    Shallow embedding of the C++17 order book (types.hpp, order.hpp,
    order_pool.hpp, price_level.hpp, order_book.hpp, order_book.cpp).

    - Unsigned machine integers are [Z] with the wrap-around written out
      ([wrap64], [wrap32]).
    - [Order*] is a slot index into the pool's contiguous [orders_] vector;
      [nullptr] is [None].  The intrusive [prev]/[next] links of the
      doubly-linked queues therefore live in the pool store, and the order
      index, the price levels and the matching engine all alias the same
      records, as in the source.
    - [std::map<Price, PriceLevel>] is an association list kept in strictly
      increasing key order ([begin] is its first entry, [rbegin] its last);
      [std::unordered_map<OrderId, Order*>] is a [gmap].
    - The book's member functions are state transformers in a small state and
      error monad; the [std::runtime_error] of the pool is [PoolExhausted],
      dereferencing an invalid pointer or indexing out of range is
      [InvalidAccess].  The [while] loops recurse on a fuel computed from the
      state; running out of it is [OutOfFuel].
    - The optional trade callback is an external sink that may not re-enter
      the book; it is not part of the book state and is left out. *)

From stdpp Require Import functions gmap list sorting.
From Stdlib Require Import ZArith Lia.

Local Open Scope Z_scope.
Set Warnings "-clear-no-such-hyp".

(** ** types.hpp *)

Definition wrap64 (z : Z) : Z := z mod 2 ^ 64.
Definition wrap32 (z : Z) : Z := z mod 2 ^ 32.

Definition INVALID_PRICE : Z := 0.

Inductive Side := Buy | Sell.
Inductive OrderType := Limit | Market.
Inductive OrderStatus := New | Active | PartiallyFilled | Filled | Cancelled.

Global Instance Side_eq_dec : EqDecision Side.
Proof. solve_decision. Defined.
Global Instance OrderType_eq_dec : EqDecision OrderType.
Proof. solve_decision. Defined.
Global Instance OrderStatus_eq_dec : EqDecision OrderStatus.
Proof. solve_decision. Defined.

(** ** order.hpp *)

Module Order.
Record t := mk {
  id : Z;
  price : Z;
  quantity : Z;
  filled_quantity : Z;
  side : Side;
  type : OrderType;
  status : OrderStatus;
  prev : option nat;
  next : option nat;
  timestamp : Z
}.

Definition remaining (o : t) : Z := wrap64 (quantity o - filled_quantity o).
Definition is_filled (o : t) : bool := quantity o <=? filled_quantity o.

Definition reset (_ : t) : t :=
  mk 0 INVALID_PRICE 0 0 Buy Limit New None None 0.

Definition set_id (v : Z) (o : t) : t :=
  mk v (price o) (quantity o) (filled_quantity o) (side o) (type o)
     (status o) (prev o) (next o) (timestamp o).
Definition set_price (v : Z) (o : t) : t :=
  mk (id o) v (quantity o) (filled_quantity o) (side o) (type o)
     (status o) (prev o) (next o) (timestamp o).
Definition set_quantity (v : Z) (o : t) : t :=
  mk (id o) (price o) v (filled_quantity o) (side o) (type o)
     (status o) (prev o) (next o) (timestamp o).
Definition set_filled_quantity (v : Z) (o : t) : t :=
  mk (id o) (price o) (quantity o) v (side o) (type o)
     (status o) (prev o) (next o) (timestamp o).
Definition set_side (v : Side) (o : t) : t :=
  mk (id o) (price o) (quantity o) (filled_quantity o) v (type o)
     (status o) (prev o) (next o) (timestamp o).
Definition set_type (v : OrderType) (o : t) : t :=
  mk (id o) (price o) (quantity o) (filled_quantity o) (side o) v
     (status o) (prev o) (next o) (timestamp o).
Definition set_status (v : OrderStatus) (o : t) : t :=
  mk (id o) (price o) (quantity o) (filled_quantity o) (side o) (type o)
     v (prev o) (next o) (timestamp o).
Definition set_prev (v : option nat) (o : t) : t :=
  mk (id o) (price o) (quantity o) (filled_quantity o) (side o) (type o)
     (status o) v (next o) (timestamp o).
Definition set_next (v : option nat) (o : t) : t :=
  mk (id o) (price o) (quantity o) (filled_quantity o) (side o) (type o)
     (status o) (prev o) v (timestamp o).
Definition set_timestamp (v : Z) (o : t) : t :=
  mk (id o) (price o) (quantity o) (filled_quantity o) (side o) (type o)
     (status o) (prev o) (next o) v.
End Order.

Module Trade.
Record t := mk {
  buy_order_id : Z;
  sell_order_id : Z;
  price : Z;
  quantity : Z;
  timestamp : Z
}.
End Trade.

(** The order storage: the pool's [orders_] vector.  [load] and [update] are
    a read and a write through an [Order*]; [None] is an invalid pointer. *)
Abbreviation store := (list Order.t).

Definition load (st : store) (p : nat) : option Order.t := st !! p.

Definition update (st : store) (p : nat) (f : Order.t → Order.t) : option store :=
  match st !! p with
  | Some _ => Some (alter f p st)
  | None => None
  end.

(** ** order_pool.hpp *)

Inductive Error := PoolExhausted | InvalidAccess | OutOfFuel.

Module OrderPool.
Record t := mk {
  orders_ : store;
  free_stack_ : list nat;
  capacity_ : Z;
  size_ : Z;
  free_count_ : Z
}.

(** [free_stack_[i] = capacity - 1 - i], so the top of the stack is slot 0. *)
Definition make (capacity : nat) : t :=
  mk (replicate capacity (Order.mk 0 INVALID_PRICE 0 0 Buy Limit New None None 0))
     (reverse (seq 0 capacity))
     (Z.of_nat capacity) 0 (Z.of_nat capacity).

Definition allocate (pl : t) : Error + (nat * t) :=
  if free_count_ pl =? 0 then inl PoolExhausted
  else
    let fc := wrap64 (free_count_ pl - 1) in
    match free_stack_ pl !! Z.to_nat fc with
    | None => inl InvalidAccess
    | Some idx =>
        match update (orders_ pl) idx Order.reset with
        | None => inl InvalidAccess
        | Some st =>
            inr (idx, mk st (free_stack_ pl) (capacity_ pl)
                         (wrap64 (size_ pl + 1)) fc)
        end
    end.

Definition deallocate (order : nat) (pl : t) : option t :=
  let fc := Z.to_nat (free_count_ pl) in
  if decide (fc < length (free_stack_ pl))%nat then
    Some (mk (orders_ pl) (<[fc := order]> (free_stack_ pl)) (capacity_ pl)
             (wrap64 (size_ pl - 1)) (wrap64 (free_count_ pl + 1)))
  else None.

Definition size (pl : t) : Z := size_ pl.
Definition capacity (pl : t) : Z := capacity_ pl.
Definition available (pl : t) : Z := free_count_ pl.
End OrderPool.

(** ** price_level.hpp *)

Module PriceLevel.
Record t := mk {
  price : Z;
  total_quantity : Z;
  order_count : Z;
  head : option nat;
  tail : option nat
}.

Definition make (p : Z) : t := mk p 0 0 None None.

Definition empty (l : t) : bool :=
  match head l with None => true | Some _ => false end.

Definition front (l : t) : option nat := head l.

Definition set_total_quantity (v : Z) (l : t) : t :=
  mk (price l) v (order_count l) (head l) (tail l).
Definition set_order_count (v : Z) (l : t) : t :=
  mk (price l) (total_quantity l) v (head l) (tail l).
Definition set_head (v : option nat) (l : t) : t :=
  mk (price l) (total_quantity l) (order_count l) v (tail l).
Definition set_tail (v : option nat) (l : t) : t :=
  mk (price l) (total_quantity l) (order_count l) (head l) v.

(** Append at the tail.  The level and the order records it links are
    returned updated. *)
Definition add_order (order : nat) (l : t) (st : store) : option (t * store) :=
  st1 ← update st order (Order.set_prev (tail l));
  st2 ← update st1 order (Order.set_next None);
  '(l1, st3) ← match tail l with
               | Some tl =>
                   st' ← update st2 tl (Order.set_next (Some order));
                   Some (l, st')
               | None => Some (set_head (Some order) l, st2)
               end;
  let l2 := set_tail (Some order) l1 in
  o ← load st3 order;
  let l3 := set_total_quantity
              (wrap64 (total_quantity l2 + Order.remaining o)) l2 in
  Some (set_order_count (wrap32 (order_count l3 + 1)) l3, st3).

(** Unlink from anywhere in the list. *)
Definition remove_order (order : nat) (l : t) (st : store) : option (t * store) :=
  o ← load st order;
  '(l1, st1) ← match Order.prev o with
               | Some pv =>
                   st' ← update st pv (Order.set_next (Order.next o));
                   Some (l, st')
               | None => Some (set_head (Order.next o) l, st)
               end;
  o1 ← load st1 order;
  '(l2, st2) ← match Order.next o1 with
               | Some nx =>
                   st' ← update st1 nx (Order.set_prev (Order.prev o1));
                   Some (l1, st')
               | None => Some (set_tail (Order.prev o1) l1, st1)
               end;
  o2 ← load st2 order;
  let l3 := set_total_quantity
              (wrap64 (total_quantity l2 - Order.remaining o2)) l2 in
  let l4 := set_order_count (wrap32 (order_count l3 - 1)) l3 in
  st3 ← update st2 order (Order.set_prev None);
  st4 ← update st3 order (Order.set_next None);
  Some (l4, st4).
End PriceLevel.

(** ** std::map<Price, V>

    The entries in increasing key order.  The book instantiates [V] with
    [PriceLevel.t]. *)

Module PriceMap.
Abbreviation t V := (list (Z * V)).

Section ops.
Context {V : Type}.

Fixpoint find (k : Z) (m : t V) : option V :=
  match m with
  | [] => None
  | (k', v) :: m' => if k' =? k then Some v else find k m'
  end.

(** Write through an iterator or a reference to the mapped value. *)
Fixpoint set (k : Z) (v : V) (m : t V) : t V :=
  match m with
  | [] => []
  | (k', v') :: m' =>
      if k' =? k then (k', v) :: m' else (k', v') :: set k v m'
  end.

Fixpoint erase (k : Z) (m : t V) : t V :=
  match m with
  | [] => []
  | (k', v') :: m' => if k' =? k then m' else (k', v') :: erase k m'
  end.

(** Inserts [v] at key [k] when the key is absent, in key order. *)
Fixpoint try_emplace (k : Z) (v : V) (m : t V) : t V :=
  match m with
  | [] => [(k, v)]
  | (k', v') :: m' =>
      if k' =? k then m
      else if k <? k' then (k, v) :: m
      else (k', v') :: try_emplace k v m'
  end.

Definition begin (m : t V) : option Z := fst <$> head m.
Definition rbegin (m : t V) : option Z := fst <$> last m.

(** [++it] on a forward iterator at key [k]: the first greater key. *)
Fixpoint succ (k : Z) (m : t V) : option Z :=
  match m with
  | [] => None
  | (k', _) :: m' => if k <? k' then Some k' else succ k m'
  end.

(** [++it] on a reverse iterator at key [k]: the last smaller key. *)
Fixpoint pred (k : Z) (m : t V) : option Z :=
  match m with
  | [] => None
  | (k', _) :: m' =>
      match pred k m' with
      | Some r => Some r
      | None => if k' <? k then Some k' else None
      end
  end.

Definition empty (m : t V) : bool :=
  match m with [] => true | _ => false end.
Definition size (m : t V) : nat := length m.
End ops.
End PriceMap.

(** ** order_book.hpp, order_book.cpp *)

Module OrderResult.
Record t := mk {
  order_id : Z;
  status : OrderStatus;
  filled_quantity : Z;
  remaining_quantity : Z;
  trades : list Trade.t
}.

Definition init : t := mk 0 New 0 0 [].

Definition set_order_id (v : Z) (r : t) : t :=
  mk v (status r) (filled_quantity r) (remaining_quantity r) (trades r).
Definition push_trade (tr : Trade.t) (r : t) : t :=
  mk (order_id r) (status r) (filled_quantity r) (remaining_quantity r)
     (trades r ++ [tr]).
Definition finish (s : OrderStatus) (f q : Z) (r : t) : t :=
  mk (order_id r) s f q (trades r).
End OrderResult.

Module OrderBook.
Record t := mk {
  bids_ : PriceMap.t PriceLevel.t;
  asks_ : PriceMap.t PriceLevel.t;
  orders_ : gmap Z nat;
  pool_ : OrderPool.t;
  next_id_ : Z;
  timestamp_counter_ : Z;
  trade_count_ : Z;
  total_volume_ : Z
}.

Definition make (pool_capacity : nat) : t :=
  mk [] [] ∅ (OrderPool.make pool_capacity) 0 0 0 0.

(** *** Field access *)

Definition levels (s : Side) (b : t) : PriceMap.t PriceLevel.t :=
  match s with Buy => bids_ b | Sell => asks_ b end.

Definition set_levels (s : Side) (m : PriceMap.t PriceLevel.t) (b : t) : t :=
  match s with
  | Buy => mk m (asks_ b) (orders_ b) (pool_ b) (next_id_ b)
              (timestamp_counter_ b) (trade_count_ b) (total_volume_ b)
  | Sell => mk (bids_ b) m (orders_ b) (pool_ b) (next_id_ b)
               (timestamp_counter_ b) (trade_count_ b) (total_volume_ b)
  end.
Definition set_orders_ (v : gmap Z nat) (b : t) : t :=
  mk (bids_ b) (asks_ b) v (pool_ b) (next_id_ b)
     (timestamp_counter_ b) (trade_count_ b) (total_volume_ b).
Definition set_pool_ (v : OrderPool.t) (b : t) : t :=
  mk (bids_ b) (asks_ b) (orders_ b) v (next_id_ b)
     (timestamp_counter_ b) (trade_count_ b) (total_volume_ b).
Definition set_next_id_ (v : Z) (b : t) : t :=
  mk (bids_ b) (asks_ b) (orders_ b) (pool_ b) v
     (timestamp_counter_ b) (trade_count_ b) (total_volume_ b).
Definition set_timestamp_counter_ (v : Z) (b : t) : t :=
  mk (bids_ b) (asks_ b) (orders_ b) (pool_ b) (next_id_ b)
     v (trade_count_ b) (total_volume_ b).
Definition set_stats (tc tv : Z) (b : t) : t :=
  mk (bids_ b) (asks_ b) (orders_ b) (pool_ b) (next_id_ b)
     (timestamp_counter_ b) tc tv.

Definition mem (b : t) : store := OrderPool.orders_ (pool_ b).
Definition set_mem (st : store) (b : t) : t :=
  set_pool_ (OrderPool.mk st (OrderPool.free_stack_ (pool_ b))
               (OrderPool.capacity_ (pool_ b)) (OrderPool.size_ (pool_ b))
               (OrderPool.free_count_ (pool_ b))) b.

(** *** The state and error monad of the member functions *)

Definition M (A : Type) : Type := t → (Error + A) * t.

#[export] Instance M_ret : MRet M := λ A a b, (inr a, b).
#[export] Instance M_bind : MBind M := λ A B f m b,
  match m b with
  | (inr a, b') => f a b'
  | (inl e, b') => (inl e, b')
  end.

Definition throw {A} (e : Error) : M A := λ b, (inl e, b).
Definition get : M t := λ b, (inr b, b).
Definition put (b' : t) : M unit := λ _, (inr tt, b').
Definition lift {A} (x : option A) : M A :=
  match x with Some a => mret a | None => throw InvalidAccess end.

(** [*p] and [p->field = v]. *)
Definition deref (p : nat) : M Order.t :=
  b ← get; lift (load (mem b) p).
Definition assign (p : nat) (f : Order.t → Order.t) : M unit :=
  b ← get; st ← lift (update (mem b) p f); put (set_mem st b).

Definition pool_allocate : M nat := λ b,
  match OrderPool.allocate (pool_ b) with
  | inl e => (inl e, b)
  | inr (p, pl) => (inr p, set_pool_ pl b)
  end.
Definition pool_deallocate (p : nat) : M unit :=
  b ← get; pl ← lift (OrderPool.deallocate p (pool_ b)); put (set_pool_ pl b).

(** The level an iterator at key [k] of side [s] refers to. *)
Definition level_at (s : Side) (k : Z) : M PriceLevel.t :=
  b ← get; lift (PriceMap.find k (levels s b)).

(** [level.remove_order(order)] for the level at key [k] of side [s]. *)
Definition level_remove_order (s : Side) (k : Z) (order : nat) : M unit :=
  l ← level_at s k;
  b ← get;
  r ← lift (PriceLevel.remove_order order l (mem b));
  put (set_mem r.2 (set_levels s (PriceMap.set k r.1 (levels s b)) b)).

Definition next_order_id : M Z := λ b,
  let v := wrap64 (next_id_ b + 1) in (inr v, set_next_id_ v b).
Definition next_timestamp : M Z := λ b,
  let v := wrap64 (timestamp_counter_ b + 1) in
  (inr v, set_timestamp_counter_ v b).

(** *** Matching engine *)

Definition execute_trade (aggressive passive : nat) (qty : Z)
    (result : OrderResult.t) : M OrderResult.t :=
  a ← deref aggressive;
  assign aggressive
    (Order.set_filled_quantity (wrap64 (Order.filled_quantity a + qty)));;
  p ← deref passive;
  assign passive
    (Order.set_filled_quantity (wrap64 (Order.filled_quantity p + qty)));;
  p ← deref passive;
  b ← get;
  let s := Order.side p in
  match PriceMap.find (Order.price p) (levels s b) with
  | Some l =>
      put (set_levels s
             (PriceMap.set (Order.price p)
                (PriceLevel.set_total_quantity
                   (wrap64 (PriceLevel.total_quantity l - qty)) l)
                (levels s b)) b)
  | None => mret tt
  end;;
  b ← get;
  a ← deref aggressive;
  let trade :=
    match Order.side a with
    | Buy => Trade.mk (Order.id a) (Order.id p) (Order.price p) qty
               (timestamp_counter_ b)
    | Sell => Trade.mk (Order.id p) (Order.id a) (Order.price p) qty
                (timestamp_counter_ b)
    end in
  put (set_stats (wrap64 (trade_count_ b + 1))
         (wrap64 (total_volume_ b + qty)) b);;
  mret (OrderResult.push_trade trade result).

(** The inner loop of [match_against_asks] and [match_against_bids], which
    is the same text in both: walk the queue of the level at key [k] of
    side [s] from [passive] on. *)
Fixpoint match_level (fuel : nat) (s : Side) (k : Z) (order : nat)
    (passive : option nat) (result : OrderResult.t) : M OrderResult.t :=
  match passive with
  | None => mret result
  | Some p =>
      a ← deref order;
      if 0 <? Order.remaining a then
        match fuel with
        | O => throw OutOfFuel
        | S fuel' =>
            po ← deref p;
            let next_passive := Order.next po in
            let trade_qty := Z.min (Order.remaining a) (Order.remaining po) in
            result ← execute_trade order p trade_qty result;
            po ← deref p;
            (if Order.is_filled po then
               level_remove_order s k p;;
               po ← deref p;
               b ← get;
               put (set_orders_ (delete (Order.id po) (orders_ b)) b);;
               assign p (Order.set_status Filled);;
               pool_deallocate p
             else mret tt);;
            match_level fuel' s k order next_passive result
        end
      else mret result
  end.

Fixpoint match_against_asks_loop (fuel : nat) (it : option Z) (order : nat)
    (result : OrderResult.t) : M OrderResult.t :=
  match it with
  | None => mret result
  | Some k =>
      a ← deref order;
      if 0 <? Order.remaining a then
        if bool_decide (Order.type a = Limit) && (Order.price a <? k)
        then mret result
        else
          match fuel with
          | O => throw OutOfFuel
          | S fuel' =>
              level ← level_at Sell k;
              b ← get;
              result ← match_level (length (mem b)) Sell k order
                         (PriceLevel.front level) result;
              level ← level_at Sell k;
              (if PriceLevel.empty level then
                 b ← get; put (set_levels Sell (PriceMap.erase k (asks_ b)) b)
               else mret tt);;
              b ← get;
              match_against_asks_loop fuel' (PriceMap.succ k (asks_ b))
                order result
          end
      else mret result
  end.

Definition match_against_asks (order : nat) (result : OrderResult.t)
    : M OrderResult.t :=
  b ← get;
  match_against_asks_loop (length (asks_ b)) (PriceMap.begin (asks_ b))
    order result.

Fixpoint match_against_bids_loop (fuel : nat) (it : option Z) (order : nat)
    (result : OrderResult.t) : M OrderResult.t :=
  match it with
  | None => mret result
  | Some k =>
      a ← deref order;
      if 0 <? Order.remaining a then
        if bool_decide (Order.type a = Limit) && (k <? Order.price a)
        then mret result
        else
          match fuel with
          | O => throw OutOfFuel
          | S fuel' =>
              level ← level_at Buy k;
              b ← get;
              result ← match_level (length (mem b)) Buy k order
                         (PriceLevel.front level) result;
              level ← level_at Buy k;
              it' ← (if PriceLevel.empty level then
                       b ← get;
                       put (set_levels Buy (PriceMap.erase k (bids_ b)) b);;
                       b ← get;
                       mret (PriceMap.rbegin (bids_ b))
                     else
                       b ← get;
                       mret (PriceMap.pred k (bids_ b)));
              match_against_bids_loop fuel' it' order result
          end
      else mret result
  end.

Definition match_against_bids (order : nat) (result : OrderResult.t)
    : M OrderResult.t :=
  b ← get;
  match_against_bids_loop (length (bids_ b)) (PriceMap.rbegin (bids_ b))
    order result.

Definition match_order (order : nat) (result : OrderResult.t)
    : M OrderResult.t :=
  o ← deref order;
  match Order.side o with
  | Buy => match_against_asks order result
  | Sell => match_against_bids order result
  end.

Definition insert_into_book (order : nat) : M unit :=
  o ← deref order;
  b ← get;
  let s := Order.side o in
  let m := PriceMap.try_emplace (Order.price o)
             (PriceLevel.make (Order.price o)) (levels s b) in
  l ← lift (PriceMap.find (Order.price o) m);
  r ← lift (PriceLevel.add_order order l (mem b));
  put (set_mem r.2 (set_levels s (PriceMap.set (Order.price o) r.1 m) b)).

(** *** Core operations *)

Definition add_order (side : Side) (type : OrderType) (price quantity : Z)
    : M OrderResult.t :=
  let result := OrderResult.init in
  order ← pool_allocate;
  oid ← next_order_id;
  assign order (λ o,
    Order.set_status Active (Order.set_filled_quantity 0
      (Order.set_quantity quantity (Order.set_price price
        (Order.set_type type (Order.set_side side (Order.set_id oid o)))))));;
  ts ← next_timestamp;
  assign order (Order.set_timestamp ts);;
  let result := OrderResult.set_order_id oid result in
  result ← match_order order result;
  o ← deref order;
  if Order.is_filled o then
    assign order (Order.set_status Filled);;
    pool_deallocate order;;
    mret (OrderResult.finish Filled (Order.filled_quantity o) 0 result)
  else
    match type with
    | Limit =>
        (if 0 <? Order.filled_quantity o
         then assign order (Order.set_status PartiallyFilled)
         else mret tt);;
        insert_into_book order;;
        o ← deref order;
        b ← get;
        put (set_orders_ (<[Order.id o := order]> (orders_ b)) b);;
        mret (OrderResult.finish (Order.status o) (Order.filled_quantity o)
                (Order.remaining o) result)
    | Market =>
        pool_deallocate order;;
        mret (OrderResult.finish Cancelled (Order.filled_quantity o)
                (Order.remaining o) result)
    end.

Definition cancel_order (order_id : Z) : M bool :=
  b ← get;
  match orders_ b !! order_id with
  | None => mret false
  | Some order =>
      o ← deref order;
      let price := Order.price o in
      let side := Order.side o in
      match PriceMap.find price (levels side b) with
      | Some _ =>
          level_remove_order side price order;;
          level ← level_at side price;
          if PriceLevel.empty level then
            b ← get;
            put (set_levels side (PriceMap.erase price (levels side b)) b)
          else mret tt
      | None => mret tt
      end;;
      b ← get;
      put (set_orders_ (delete order_id (orders_ b)) b);;
      assign order (Order.set_status Cancelled);;
      pool_deallocate order;;
      mret true
  end.

Definition modify_order (order_id new_quantity : Z) : M bool :=
  b ← get;
  match orders_ b !! order_id with
  | None => mret false
  | Some order =>
      o ← deref order;
      if new_quantity <=? Order.filled_quantity o then
        cancel_order order_id
      else if new_quantity <? Order.quantity o then
        let old_remaining := Order.remaining o in
        assign order (Order.set_quantity new_quantity);;
        o ← deref order;
        let new_remaining := Order.remaining o in
        b ← get;
        let s := Order.side o in
        match PriceMap.find (Order.price o) (levels s b) with
        | Some l =>
            put (set_levels s
                   (PriceMap.set (Order.price o)
                      (PriceLevel.set_total_quantity
                         (wrap64 (PriceLevel.total_quantity l
                                  - wrap64 (old_remaining - new_remaining))) l)
                      (levels s b)) b)
        | None => mret tt
        end;;
        mret true
      else if Order.quantity o <? new_quantity then
        let side := Order.side o in
        let price := Order.price o in
        cancel_order order_id;;
        add_order side Limit price new_quantity;;
        mret true
      else mret true
  end.

(** *** Market data queries *)

Definition best_bid (b : t) : Z :=
  match PriceMap.rbegin (bids_ b) with
  | None => INVALID_PRICE
  | Some k => k
  end.

Definition best_ask (b : t) : Z :=
  match PriceMap.begin (asks_ b) with
  | None => INVALID_PRICE
  | Some k => k
  end.

Definition spread (b : t) : Z :=
  let bid := best_bid b in
  let ask := best_ask b in
  if (bid =? INVALID_PRICE) || (ask =? INVALID_PRICE) then INVALID_PRICE
  else wrap64 (ask - bid).

Definition volume_at_price (side : Side) (price : Z) : M Z :=
  b ← get;
  match PriceMap.find price (levels side b) with
  | None => mret 0
  | Some l => mret (PriceLevel.total_quantity l)
  end.

Definition order_count_at_price (side : Side) (price : Z) : M Z :=
  b ← get;
  match PriceMap.find price (levels side b) with
  | None => mret 0
  | Some l => mret (PriceLevel.order_count l)
  end.

(** The loop of [bid_depth] and [ask_depth]: [it] is what is left of the
    levels in the direction of the iteration. *)
Fixpoint depth_loop (it : list (Z * PriceLevel.t)) (count levels : nat)
    (depth : list (Z * Z)) : list (Z * Z) :=
  match it with
  | [] => depth
  | e :: it' =>
      if (count <? levels)%nat then
        depth_loop it' (S count) levels
          (depth ++ [(e.1, PriceLevel.total_quantity e.2)])
      else depth
  end.


Definition ask_depth (levels : nat) (b : t) : list (Z * Z) :=
  depth_loop (asks_ b) 0 levels [].

Definition total_orders (b : t) : nat := size (orders_ b).
Definition bid_levels (b : t) : nat := PriceMap.size (bids_ b).
Definition ask_levels (b : t) : nat := PriceMap.size (asks_ b).
Definition empty (b : t) : bool := bool_decide (orders_ b = ∅).
Definition total_trades (b : t) : Z := trade_count_ b.
Definition total_volume (b : t) : Z := total_volume_ b.
End OrderBook.


(** * The representation invariant

    A side of the book is viewed as the list of its levels' queues: for each
    key, the slots of the queued orders from the head to the tail. *)

Import OrderBook.

Abbreviation queues := (list (Z * list nat)).

Definition slots (qs : queues) : list nat := mjoin qs.*2.

(** The two halves of an order record: its queue links, and the rest. *)
Definition links_of (o : Order.t) : option nat * option nat :=
  (Order.prev o, Order.next o).

Definition strip (o : Order.t) : Order.t :=
  Order.set_prev None (Order.set_next None o).

(** A relation between the entries of two maps that respects the keys. *)
Definition keyed {V W : Type} (R : Z * V → Z * W → Prop) : Prop :=
  ∀ e f, R e f → e.1 = f.1.

(** [dllseg st pv hd q tl nx]: following [next] from [hd] visits exactly [q]
    and then reaches [nx]; every [prev] points to the predecessor ([pv] for
    the first); [tl] is the last slot ([pv] when [q] is empty). *)
Fixpoint dllseg (st : store) (pv hd : option nat) (q : list nat)
    (tl nx : option nat) : Prop :=
  match q with
  | [] => hd = nx ∧ tl = pv
  | p :: q' =>
      hd = Some p ∧
      match st !! p with
      | Some o => Order.prev o = pv ∧ dllseg st (Some p) (Order.next o) q' tl nx
      | None => False
      end
  end.

(** A whole queue ends in [nullptr]. *)
Definition dll (st : store) (pv hd : option nat) (q : list nat)
    (tl : option nat) : Prop :=
  dllseg st pv hd q tl None.

(** The queue of a level as the code can observe it: follow [next] from the
    head, at most once per slot of the store. *)
Fixpoint walk (st : store) (fuel : nat) (hd : option nat) : list nat :=
  match fuel, hd with
  | S fuel', Some p =>
      p :: match st !! p with
           | Some o => walk st fuel' (Order.next o)
           | None => []
           end
  | _, _ => []
  end.

Definition queue_of (st : store) (l : PriceLevel.t) : list nat :=
  walk st (length st) (PriceLevel.head l).

(** [quantity - filled_quantity] of the order in slot [p]. *)
Definition open_quantity (st : store) (p : nat) : Z :=
  match st !! p with
  | Some o => Order.quantity o - Order.filled_quantity o
  | None => 0
  end.

Definition sum_open (st : store) (q : list nat) : Z :=
  foldr (λ p acc, open_quantity st p + acc) 0 q.

(** A queued order: it is on side [s] at price [k], and it is not filled. *)
Definition resting (st : store) (s : Side) (k : Z) (p : nat) : Prop :=
  match st !! p with
  | Some o =>
      Order.side o = s ∧ Order.price o = k ∧
      0 ≤ Order.filled_quantity o ∧
      Order.filled_quantity o < Order.quantity o ∧
      Order.quantity o < 2 ^ 64
  | None => False
  end.

Definition level_ok (st : store) (s : Side) (e : Z * PriceLevel.t)
    (kq : Z * list nat) : Prop :=
  e.1 = kq.1 ∧
  dll st None (PriceLevel.head e.2) kq.2 (PriceLevel.tail e.2) ∧
  PriceLevel.order_count e.2 = wrap32 (Z.of_nat (length kq.2)) ∧
  PriceLevel.total_quantity e.2 = wrap64 (sum_open st kq.2) ∧
  Forall (resting st s e.1) kq.2.

Definition side_ok (st : store) (s : Side) (m : PriceMap.t PriceLevel.t)
    (qs : queues)
    : Prop :=
  Forall2 (level_ok st s) m qs ∧ StronglySorted Z.lt m.*1.

(** The free slots: the live part of the pool's stack. *)
Definition free (pl : OrderPool.t) : list nat :=
  take (Z.to_nat (OrderPool.free_count_ pl)) (OrderPool.free_stack_ pl).

Definition pool_ok (pl : OrderPool.t) : Prop :=
  length (OrderPool.free_stack_ pl) = length (OrderPool.orders_ pl) ∧
  OrderPool.capacity_ pl = Z.of_nat (length (OrderPool.orders_ pl)) ∧
  OrderPool.capacity_ pl < 2 ^ 64 ∧
  0 ≤ OrderPool.free_count_ pl ∧
  OrderPool.free_count_ pl ≤ OrderPool.capacity_ pl ∧
  OrderPool.size_ pl = OrderPool.capacity_ pl - OrderPool.free_count_ pl.

(** The order index only refers to handed-out slots, under the id stored
    in the slot. *)
Definition index_ok (st : store) (idx : gmap Z nat) (live : list nat)
    : Prop :=
  map_Forall (λ oid p,
    p ∈ live ∧
    match st !! p with Some o => Order.id o = oid | None => False end) idx.

Definition queued (Q : Side → queues) : list nat :=
  slots (Q Buy) ++ slots (Q Sell).

Definition opp (s : Side) : Side :=
  match s with Buy => Sell | Sell => Buy end.

(** The queued slots other than those of the level at key [k] of side [s]. *)
Definition rest (Q : Side → queues) (s : Side) (k : Z) : list nat :=
  slots (PriceMap.erase k (Q s)) ++ slots (Q (opp s)).

(** [repr fl b Q]: the book [b] represents the queues [Q Buy] of the bids
    and [Q Sell] of the asks; the slots [fl] are handed out by the pool but
    not queued.  Every slot of the store is in at most one of: [fl], a queue,
    the free stack. *)
Definition repr (fl : list nat) (b : t) (Q : Side → queues) : Prop :=
  pool_ok (pool_ b) ∧
  side_ok (mem b) Buy (bids_ b) (Q Buy) ∧
  side_ok (mem b) Sell (asks_ b) (Q Sell) ∧
  NoDup (fl ++ queued Q ++ free (pool_ b)) ∧
  Forall (λ p, (p < length (mem b))%nat) (fl ++ queued Q ++ free (pool_ b)) ∧
  index_ok (mem b) (orders_ b) (fl ++ queued Q).

Definition abs (b : t) (s : Side) : queues :=
  (λ e, (e.1, queue_of (mem b) e.2)) <$> levels s b.

Definition nonempty (qs : queues) : Prop := Forall (λ kq, kq.2 ≠ []) qs.

(** The invariant of the book between two public operations. *)
Definition wf (b : t) : Prop :=
  repr [] b (abs b) ∧ nonempty (abs b Buy) ∧ nonempty (abs b Sell).

(** No entry of the order index points to slot [p]. *)
Definition unindexed (p : nat) (b : t) : Prop :=
  map_Forall (λ _ p', p' ≠ p) (orders_ b).

(** ** Matching: what a submission may change

    The fields of an order that never change while it is handed out. *)
Definition static (o : Order.t) : Z * Z * Side * OrderType * Z :=
  (Order.id o, Order.price o, Order.side o, Order.type o, Order.timestamp o).

(** The trade [tr] is an execution of the aggressive order [oa] against the
    passive order in slot [p]: it carries the two order ids on the sides of
    the two orders, and prints at the price of the passive order. *)
Definition traded (st : store) (oa : Order.t) (p : nat) (tr : Trade.t)
    : Prop :=
  match st !! p with
  | Some op =>
      Trade.price tr = Order.price op ∧
      match Order.side oa with
      | Buy => Trade.buy_order_id tr = Order.id oa ∧
               Trade.sell_order_id tr = Order.id op
      | Sell => Trade.buy_order_id tr = Order.id op ∧
                Trade.sell_order_id tr = Order.id oa
      end
  | None => False
  end.

(** The trade record that [execute_trade] builds. *)
Definition trade_of (oa op : Order.t) (qty ts : Z) : Trade.t :=
  match Order.side oa with
  | Buy => Trade.mk (Order.id oa) (Order.id op) (Order.price op) qty ts
  | Sell => Trade.mk (Order.id op) (Order.id oa) (Order.price op) qty ts
  end.

(** A result with further trades appended. *)
Definition add_trades (ts : list Trade.t) (r : OrderResult.t) : OrderResult.t :=
  OrderResult.mk (OrderResult.order_id r) (OrderResult.status r)
    (OrderResult.filled_quantity r) (OrderResult.remaining_quantity r)
    (OrderResult.trades r ++ ts).

(** What the matching loops do with a passive order that is filled. *)
Definition retire (s : Side) (k : Z) (p : nat) : M unit :=
  level_remove_order s k p;;
  po ← deref p;
  b ← get;
  put (set_orders_ (delete (Order.id po) (orders_ b)) b);;
  assign p (Order.set_status Filled);;
  pool_deallocate p.

(** ** Submission in three steps

    The record of a submitted order when matching starts. *)
Definition new_order (oid price quantity : Z) (side : Side) (type : OrderType)
    (ts : Z) : Order.t :=
  Order.mk oid price quantity 0 side type Active None None ts.

(** The book when matching starts: slot [a] has left the free stack and
    holds the new order, and the two counters are advanced. *)
Definition begun (a : nat) (side : Side) (type : OrderType)
    (price quantity : Z) (b : t) : t :=
  let oid := wrap64 (next_id_ b + 1) in
  let ts := wrap64 (timestamp_counter_ b + 1) in
  set_timestamp_counter_ ts (set_next_id_ oid
    (set_pool_
       (OrderPool.mk (<[a := new_order oid price quantity side type ts]> (mem b))
          (OrderPool.free_stack_ (pool_ b))
          (OrderPool.capacity_ (pool_ b))
          (OrderPool.size_ (pool_ b) + 1)
          (OrderPool.free_count_ (pool_ b) - 1)) b)).

(** What [add_order] does with the order once matching is over. *)
Definition finish_order (type : OrderType) (order : nat)
    (result : OrderResult.t) : M OrderResult.t :=
  o ← deref order;
  if Order.is_filled o then
    assign order (Order.set_status Filled);;
    pool_deallocate order;;
    mret (OrderResult.finish Filled (Order.filled_quantity o) 0 result)
  else
    match type with
    | Limit =>
        (if 0 <? Order.filled_quantity o
         then assign order (Order.set_status PartiallyFilled)
         else mret tt);;
        insert_into_book order;;
        o ← deref order;
        b ← get;
        put (set_orders_ (<[Order.id o := order]> (orders_ b)) b);;
        mret (OrderResult.finish (Order.status o) (Order.filled_quantity o)
                (Order.remaining o) result)
    | Market =>
        pool_deallocate order;;
        mret (OrderResult.finish Cancelled (Order.filled_quantity o)
                (Order.remaining o) result)
    end.

(** The opposite side does not reach the price of a limit order: it is
    empty, or its best level is beyond the limit. *)
Definition no_cross (side : Side) (price : Z) (b : t) : Prop :=
  match side with
  | Buy => match PriceMap.begin (asks_ b) with
           | Some k => price < k
           | None => True
           end
  | Sell => match PriceMap.rbegin (bids_ b) with
            | Some k => k < price
            | None => True
            end
  end.

(** Each queue of [qs'] is what is left of the queue of [qs] at the same
    key after some orders were taken out of it. *)
Definition shrunk (qs qs' : queues) : Prop :=
  Forall (λ kq', ∃ q, PriceMap.find kq'.1 qs = Some q ∧ kq'.2 `sublist_of` q)
    qs'.

(** Each queue of [qs'] is made of orders of the queue of [qs] at the same
    key, if any, in the same order, with possibly the new order [a] last. *)
Definition grown (a : nat) (qs qs' : queues) : Prop :=
  Forall (λ kq', ∃ q, kq'.2 `sublist_of` q ++ [a] ∧
                      (q = [] ∨ (kq'.1, q) ∈ qs)) qs'.

(** The levels of a side from the best price on: asks from the lowest, bids
    from the highest. *)
Definition best_first (s : Side) (qs : queues) : queues :=
  match s with Sell => qs | Buy => reverse qs end.

(** ** Time priority

    The timestamp and the id of the order in slot [p]. *)
Definition stamp (st : store) (p : nat) : Z :=
  match st !! p with Some o => Order.timestamp o | None => 0 end.

Definition ident (st : store) (p : nat) : Z :=
  match st !! p with Some o => Order.id o | None => 0 end.

Definition older (st : store) (p1 p2 : nat) : Prop := stamp st p1 < stamp st p2.

(** Every queue is in the order of submission, and no queued order is from
    the future: its timestamp and its id have been issued. *)
Definition stamps (b : t) (Q : Side → queues) : Prop :=
  Forall (λ kq, StronglySorted (older (mem b)) kq.2) (Q Buy) ∧
  Forall (λ kq, StronglySorted (older (mem b)) kq.2) (Q Sell) ∧
  Forall (λ p, stamp (mem b) p ≤ timestamp_counter_ b ∧
               ident (mem b) p ≤ next_id_ b) (queued Q).

(** Price-time priority between two orders resting on side [s]: the better
    price first (the lower ask, the higher bid), then the older order. *)
Definition before (st : store) (s : Side) (p1 p2 : nat) : Prop :=
  match st !! p1, st !! p2 with
  | Some o1, Some o2 =>
      match s with
      | Sell => Order.price o1 < Order.price o2
      | Buy => Order.price o2 < Order.price o1
      end ∨
      (Order.price o1 = Order.price o2 ∧
       Order.timestamp o1 < Order.timestamp o2)
  | _, _ => False
  end.

Global Instance older_dec st p1 p2 : Decision (older st p1 p2).
Proof. unfold older. apply _. Defined.

Global Instance before_dec st s p1 p2 : Decision (before st s p1 p2).
Proof.
  unfold before. destruct (st !! p1), (st !! p2), s; apply _.
Defined.

Global Instance stamps_dec b Q : Decision (stamps b Q).
Proof. unfold stamps. apply _. Defined.

Global Instance dllseg_dec st pv hd q tl nx :
  Decision (dllseg st pv hd q tl nx).
Proof.
  revert pv hd. induction q as [|p q IH]; intros pv hd; simpl.
  - apply _.
  - destruct (st !! p) as [o|]; apply _.
Defined.

Global Instance dll_dec st pv hd q tl : Decision (dll st pv hd q tl).
Proof. unfold dll. apply _. Defined.

Global Instance resting_dec st s k p : Decision (resting st s k p).
Proof. unfold resting. destruct (st !! p); apply _. Defined.

Global Instance level_ok_dec st s e kq : Decision (level_ok st s e kq).
Proof. unfold level_ok. apply _. Defined.

Global Instance side_ok_dec st s m qs : Decision (side_ok st s m qs).
Proof. unfold side_ok. apply _. Defined.

Global Instance pool_ok_dec pl : Decision (pool_ok pl).
Proof. unfold pool_ok. apply _. Defined.

Global Instance index_ok_dec st idx live : Decision (index_ok st idx live).
Proof.
  unfold index_ok. apply map_Forall_dec. intros oid p.
  destruct (st !! p); apply _.
Defined.

Global Instance repr_dec fl b Q : Decision (repr fl b Q).
Proof. unfold repr. apply _. Defined.

Global Instance no_cross_dec side price b : Decision (no_cross side price b).
Proof.
  unfold no_cross.
  destruct side, (PriceMap.begin (asks_ b)), (PriceMap.rbegin (bids_ b));
    apply _.
Defined.

Global Instance wf_dec b : Decision (wf b).
Proof. unfold wf, nonempty. apply _. Defined.

(** * The states of a running book *)

(** The book after a call, whatever the call returned. *)
Definition after {A : Type} (m : M A) (b : t) : t := (m b).2.

(** The books that the public operations produce from a new book.  The
    quantities are those of the 64-bit argument type. *)
Inductive reachable : t → Prop :=
  | reach_make (capacity : nat) :
      Z.of_nat capacity < 2 ^ 64 → reachable (make capacity)
  | reach_add b side type price quantity :
      reachable b → 0 ≤ quantity < 2 ^ 64 →
      reachable (after (add_order side type price quantity) b)
  | reach_cancel b order_id :
      reachable b → reachable (after (cancel_order order_id) b)
  | reach_modify b order_id new_quantity :
      reachable b → 0 ≤ new_quantity < 2 ^ 64 →
      reachable (after (modify_order order_id new_quantity) b).

(** The same, counting the calls. *)
Inductive reached : nat → t → Prop :=
  | reached_make (capacity : nat) :
      Z.of_nat capacity < 2 ^ 64 → reached 0 (make capacity)
  | reached_add n b side type price quantity :
      reached n b → 0 ≤ quantity < 2 ^ 64 →
      reached (S n) (after (add_order side type price quantity) b)
  | reached_cancel n b order_id :
      reached n b → reached (S n) (after (cancel_order order_id) b)
  | reached_modify n b order_id new_quantity :
      reached n b → 0 ≤ new_quantity < 2 ^ 64 →
      reached (S n) (after (modify_order order_id new_quantity) b).

(** What a level caches about its queue, in the arithmetic of its fields:
    [order_count] is a 32-bit and [total_quantity] a 64-bit unsigned
    integer. *)
Definition level_consistent (st : store) (l : PriceLevel.t) : Prop :=
  let q := queue_of st l in
  q ≠ [] ∧
  PriceLevel.order_count l = wrap32 (Z.of_nat (length q)) ∧
  PriceLevel.total_quantity l = wrap64 (sum_open st q).

(** The invariant together with time priority, while the two counters have
    not wrapped around. *)
Definition ordered (b : t) : Prop :=
  wf b ∧ stamps b (abs b) ∧ 0 ≤ next_id_ b ∧ 0 ≤ timestamp_counter_ b.

Global Instance ordered_dec b : Decision (ordered b).
Proof. unfold ordered. apply _. Defined.

(** * Sample books

    Books reached from a new book by a few submissions; the examples below
    evaluate the operations on them. *)

(** One resting bid: 100 at 10000. *)
Definition bid_book : t := after (add_order Buy Limit 10000 100) (make 4).

(** One resting ask at price 0. *)
Definition zero_ask_book : t := after (add_order Sell Limit 0 100) (make 4).

(** Three resting asks: 50 and 30 at 10100, then 20 at 10200. *)
Definition ask_book : t :=
  after (add_order Sell Limit 10200 20)
    (after (add_order Sell Limit 10100 30)
       (after (add_order Sell Limit 10100 50) (make 8))).

(** A pool of one slot, taken by a resting bid. *)
Definition full_book : t := after (add_order Buy Limit 10000 100) (make 1).

(** Two resting asks of [2 ^ 63] each at the same price. *)
Definition big_book : t :=
  after (add_order Sell Limit 10000 (2 ^ 63))
    (after (add_order Sell Limit 10000 (2 ^ 63)) (make 4)).

(** The first ask of [ask_book], as the pool holds it in slot 0. *)
Definition first_ask : Order.t :=
  Order.mk 1 10100 50 0 Sell Limit Active None (Some 1%nat) 1.

(** The three asks of [ask_book] and a bid below them: 100 at 10000. *)
Definition two_sided_book : t :=
  after (add_order Buy Limit 10000 100) ask_book.

(** The two ask levels of [ask_book]. *)
Definition first_level : PriceLevel.t :=
  PriceLevel.mk 10100 80 2 (Some 0%nat) (Some 1%nat).

Definition second_level : PriceLevel.t :=
  PriceLevel.mk 10200 20 1 (Some 2%nat) (Some 2%nat).

(** Four resting asks: 50 and 30 at 10100, then 20 and 40 at 10200. *)
Definition four_ask_book : t :=
  after (add_order Sell Limit 10200 40) ask_book.

(** A fourth ask, 40 at 10100, and the store of [ask_book] when [add_order]
    has put it in slot 3 and has not queued it yet. *)
Definition fourth_ask : Order.t := new_order 4 10100 40 Sell Limit 4.

Definition pending_store : store :=
  mem (begun 3 Sell Limit 10100 40 ask_book).

(** Decides a closed decidable proposition by evaluation. *)
Ltac evaluate := apply (bool_decide_unpack _); vm_compute; exact I.

(** * What a sweep of the matching engine accounts for *)

(** The traded quantity of a list of trades. *)
Definition volume (ts : list Trade.t) : Z :=
  foldr (λ tr acc, Trade.quantity tr + acc) 0 ts.

(** The order [o] with [qty] more of it filled. *)
Definition fill (qty : Z) (o : Order.t) : Order.t :=
  Order.set_filled_quantity (Order.filled_quantity o + qty) o.

(** [sweep a b b' rs ps ts f f']: from the book [b] to the book [b'] the
    order in slot [a] traded with the resting orders [ps], in this order,
    giving the trades [ts], and its filled quantity went from [f] to [f'].
    The orders [rs], all of [ps] or all but the last, were filled and left
    the book; the last of [ps], if it is not one of them, was filled in
    part. *)
Definition sweep (a : nat) (b b' : t) (rs ps : list nat) (ts : list Trade.t)
    (f f' : Z) : Prop :=
  Forall2 (λ p tr, 0 < Trade.quantity tr ≤ open_quantity (mem b) p ∧
                   Trade.timestamp tr = timestamp_counter_ b) ps ts ∧
  Forall2 (λ p tr, Trade.quantity tr = open_quantity (mem b) p)
    rs (take (length rs) ts) ∧
  rs `prefix_of` ps ∧ (length ps ≤ S (length rs))%nat ∧
  f' = f + volume ts ∧
  (0 ≤ trade_count_ b < 2 ^ 64 →
   trade_count_ b' = wrap64 (trade_count_ b + Z.of_nat (length ts))) ∧
  (0 ≤ total_volume_ b < 2 ^ 64 →
   total_volume_ b' = wrap64 (total_volume_ b + volume ts)) ∧
  (∀ oid, orders_ b' !! oid =
     if decide (oid ∈ ident (mem b) <$> rs) then None
     else orders_ b !! oid) ∧
  OrderPool.free_count_ (pool_ b')
    = OrderPool.free_count_ (pool_ b) + Z.of_nat (length rs) ∧
  (∀ x, x ≠ a → x ∉ ps → strip <$> mem b' !! x = strip <$> mem b !! x) ∧
  (∀ x, x ∈ ps → x ∉ rs →
     ∃ tr, last ts = Some tr ∧
           Trade.quantity tr < open_quantity (mem b) x ∧
           strip <$> mem b' !! x
             = strip <$> (fill (Trade.quantity tr) <$> mem b !! x)).

(** The opposite side [qs] has nothing left for the order [oa]: it is empty,
    or [oa] is a limit order and the best level is beyond its price. *)
Definition out_of_reach (oa : Order.t) (qs : queues) : Prop :=
  match Order.side oa with
  | Buy => match PriceMap.begin qs with
           | None => True
           | Some k => Order.type oa = Limit ∧ Order.price oa < k
           end
  | Sell => match PriceMap.rbegin qs with
            | None => True
            | Some k => Order.type oa = Limit ∧ k < Order.price oa
            end
  end.

(** The price of the order in slot [p]. *)
Definition price_at (st : store) (p : nat) : Z :=
  match st !! p with Some o => Order.price o | None => 0 end.

(** The order in slot [p] is within the price of the order [oa]: if [oa] is
    a limit order, a buy does not pay more and a sell does not get less than
    its price. *)
Definition within (oa : Order.t) (st : store) (p : nat) : Prop :=
  Order.type oa = Limit →
  match Order.side oa with
  | Buy => price_at st p ≤ Order.price oa
  | Sell => Order.price oa ≤ price_at st p
  end.

(** Whether a submitted order is queued when matching is over: it is a limit
    order and it is not filled. *)
Definition rests (type : OrderType) (quantity f : Z) : bool :=
  if quantity <=? f then false
  else match type with Limit => true | Market => false end.

(** ** Invariants of a running book

    The book is not crossed: every bid level is below every ask level. *)
Definition uncrossed (b : t) : Prop :=
  Forall (λ kb, Forall (λ ka, kb < ka) (asks_ b).*1) (bids_ b).*1.

(** Every slot of the pool is free or holds a resting order. *)
Definition balanced (b : t) : Prop :=
  OrderPool.free_count_ (pool_ b) + Z.of_nat (length (queued (abs b)))
    = OrderPool.capacity_ (pool_ b).

(** Every resting order is found in the index under its id. *)
Definition indexed (b : t) : Prop :=
  Forall (λ p, orders_ b !! ident (mem b) p = Some p) (queued (abs b)).

Global Instance uncrossed_dec b : Decision (uncrossed b).
Proof. unfold uncrossed. apply _. Defined.

Global Instance balanced_dec b : Decision (balanced b).
Proof. unfold balanced. apply _. Defined.

Global Instance indexed_dec b : Decision (indexed b).
Proof. unfold indexed. apply _. Defined.
(** * Reasoning about the monad *)

Import OrderBook.

Section monad_steps.
Context {A B : Type}.

Lemma bind_ok (m : M A) (f : A → M B) (b b' : t) (a : A) :
  m b = (inr a, b') → (m ≫= f) b = f a b'.
Proof. unfold mbind, M_bind. by intros ->. Qed.

Lemma bind_err (m : M A) (f : A → M B) (b b' : t) (e : Error) :
  m b = (inl e, b') → (m ≫= f) b = (inl e, b').
Proof. unfold mbind, M_bind. by intros ->. Qed.

Lemma bind_inv (m : M A) (f : A → M B) (b b2 : t) (r : B) :
  (m ≫= f) b = (inr r, b2) →
  ∃ a b1, m b = (inr a, b1) ∧ f a b1 = (inr r, b2).
Proof.
  unfold mbind, M_bind. destruct (m b) as [[e|a] b1]; [done|]. eauto.
Qed.
End monad_steps.

Lemma deref_ok (p : nat) (o : Order.t) (b : t) :
  mem b !! p = Some o → deref p b = (inr o, b).
Proof. unfold deref, load, mbind, M_bind, get. by intros ->. Qed.

Lemma assign_ok (p : nat) (f : Order.t → Order.t) (b : t) :
  is_Some (mem b !! p) →
  assign p f b = (inr tt, set_mem (alter f p (mem b)) b).
Proof. unfold assign, update, mbind, M_bind, get. by intros [o ->]. Qed.


(** * Arithmetic of the wrap-around *)

Lemma wrap64_small (z : Z) : 0 ≤ z < 2 ^ 64 → wrap64 z = z.
Proof. intros. unfold wrap64. by apply Z.mod_small. Qed.

Lemma wrap32_small (z : Z) : 0 ≤ z < 2 ^ 32 → wrap32 z = z.
Proof. intros. unfold wrap32. by apply Z.mod_small. Qed.

Lemma wrap64_range (z : Z) : 0 ≤ wrap64 z < 2 ^ 64.
Proof. unfold wrap64. apply Z.mod_pos_bound. lia. Qed.

Lemma wrap32_range (z : Z) : 0 ≤ wrap32 z < 2 ^ 32.
Proof. unfold wrap32. apply Z.mod_pos_bound. lia. Qed.

Lemma wrap64_0 : wrap64 0 = 0.
Proof. done. Qed.

Lemma wrap64_idemp (z : Z) : wrap64 (wrap64 z) = wrap64 z.
Proof. unfold wrap64. apply Zmod_mod. Qed.

Lemma wrap32_idemp (z : Z) : wrap32 (wrap32 z) = wrap32 z.
Proof. unfold wrap32. apply Zmod_mod. Qed.

Lemma wrap64_add_l (x y : Z) : wrap64 (wrap64 x + y) = wrap64 (x + y).
Proof. unfold wrap64. by rewrite Zplus_mod_idemp_l. Qed.

Lemma wrap64_sub_l (x y : Z) : wrap64 (wrap64 x - y) = wrap64 (x - y).
Proof. unfold wrap64. by rewrite Zminus_mod_idemp_l. Qed.

Lemma wrap32_add_l (x y : Z) : wrap32 (wrap32 x + y) = wrap32 (x + y).
Proof. unfold wrap32. by rewrite Zplus_mod_idemp_l. Qed.

Lemma wrap32_sub_l (x y : Z) : wrap32 (wrap32 x - y) = wrap32 (x - y).
Proof. unfold wrap32. by rewrite Zminus_mod_idemp_l. Qed.

(** * The store: links and data of a slot *)

Lemma update_ok (st : store) (p : nat) (f : Order.t → Order.t) :
  is_Some (st !! p) → update st p f = Some (alter f p st).
Proof. unfold update. by intros [o ->]. Qed.

Lemma alter_is_Some (st : store) (f : Order.t → Order.t) (p x : nat) :
  is_Some (alter f p st !! x) ↔ is_Some (st !! x).
Proof. by rewrite !lookup_lt_is_Some, length_alter. Qed.

Lemma links_alter (st : store) (f : Order.t → Order.t) (p x : nat) :
  (∀ o, links_of (f o) = links_of o) →
  links_of <$> alter f p st !! x = links_of <$> st !! x.
Proof.
  intros Hf. rewrite list_lookup_alter. case_decide as Hpx; [subst x|done].
  destruct (st !! p); simpl; [|done]. by rewrite Hf.
Qed.

Lemma strip_alter (st : store) (f : Order.t → Order.t) (p x : nat) :
  (∀ o, strip (f o) = strip o) →
  strip <$> alter f p st !! x = strip <$> st !! x.
Proof.
  intros Hf. rewrite list_lookup_alter. case_decide as Hpx; [subst x|done].
  destruct (st !! p); simpl; [|done]. by rewrite Hf.
Qed.

(** * Doubly-linked segments *)

Lemma dllseg_ext (st st' : store) pv hd q tl nx :
  (∀ p, p ∈ q → links_of <$> st' !! p = links_of <$> st !! p) →
  dllseg st pv hd q tl nx → dllseg st' pv hd q tl nx.
Proof.
  revert pv hd. induction q as [|p q IH]; intros pv hd Hext; simpl; [done|].
  intros [-> H]. split; [done|].
  pose proof (Hext p (list_elem_of_here _ _)) as Hp.
  destruct (st !! p) as [o|]; [|done].
  destruct (st' !! p) as [o'|]; [|done].
  simpl in Hp. injection Hp as Hpv Hnx. destruct H as [<- H].
  split; [done|]. rewrite Hnx. apply IH; [|done].
  intros x Hx. apply Hext. by apply list_elem_of_further.
Qed.

Lemma dllseg_valid (st : store) pv hd q tl nx :
  dllseg st pv hd q tl nx → Forall (λ p, is_Some (st !! p)) q.
Proof.
  revert pv hd. induction q as [|p q IH]; intros pv hd; simpl; [by constructor|].
  intros [-> H]. destruct (st !! p) as [o|] eqn:Hp; [|done].
  destruct H as [_ H]. constructor; [by rewrite Hp|]. by eapply IH.
Qed.

Lemma dllseg_head (st : store) pv hd q tl nx :
  dllseg st pv hd q tl nx → hd = match q with [] => nx | p :: _ => Some p end.
Proof. destruct q; simpl; by intros [-> _]. Qed.

Lemma dllseg_app (st : store) pv hd q1 q2 tl nx :
  dllseg st pv hd (q1 ++ q2) tl nx ↔
  ∃ tl1 mid, dllseg st pv hd q1 tl1 mid ∧ dllseg st tl1 mid q2 tl nx.
Proof.
  revert pv hd. induction q1 as [|p q1 IH]; intros pv hd; simpl.
  - split.
    + intros H. exists pv, hd. done.
    + intros (tl1 & mid & [-> ->] & H). done.
  - split.
    + intros [-> H]. destruct (st !! p) as [o|]; [|done].
      destruct H as [Hpv H]. apply IH in H as (tl1 & mid & H1 & H2).
      exists tl1, mid. done.
    + intros (tl1 & mid & [-> H1] & H2). split; [done|].
      destruct (st !! p) as [o|]; [|done].
      destruct H1 as [Hpv H1]. split; [done|]. apply IH. eauto.
Qed.

Lemma dllseg_snoc (st : store) pv hd q p tl nx :
  dllseg st pv hd (q ++ [p]) tl nx ↔
  ∃ tl1 o, dllseg st pv hd q tl1 (Some p) ∧ st !! p = Some o ∧
           Order.prev o = tl1 ∧ Order.next o = nx ∧ tl = Some p.
Proof.
  rewrite dllseg_app. simpl. split.
  - intros (tl1 & mid & H1 & -> & H2).
    destruct (st !! p) as [o|] eqn:Hp; [|done].
    destruct H2 as (? & ? & ?). exists tl1, o. done.
  - intros (tl1 & o & H1 & Hp & ? & ? & ->). exists tl1, (Some p).
    rewrite Hp. done.
Qed.

Lemma dllseg_last (st : store) pv hd q tl nx :
  dllseg st pv hd q tl nx →
  tl = match last q with Some x => Some x | None => pv end.
Proof.
  destruct q as [|p q _] using rev_ind.
  - simpl. by intros [_ ->].
  - rewrite dllseg_snoc. intros (? & ? & _ & _ & _ & _ & ->).
    by rewrite last_snoc.
Qed.

(** Re-targeting the outgoing [next] of a segment, as [remove_order] and
    [add_order] of a level do at the predecessor. *)
Lemma dllseg_set_next (st : store) pv hd q x tl nx nx' :
  dllseg st pv hd (q ++ [x]) tl nx → x ∉ q →
  dllseg (alter (Order.set_next nx') x st) pv hd (q ++ [x]) tl nx'.
Proof.
  rewrite !dllseg_snoc. intros (tl1 & o & H1 & Hx & Hpv & Hnx & ->) Hnotin.
  exists tl1, (Order.set_next nx' o). split_and!; try done.
  - eapply dllseg_ext; [|done]. intros y Hy.
    rewrite list_lookup_alter_ne; [done|]. intros ->. done.
  - by rewrite list_lookup_alter_eq, Hx.
Qed.

(** Re-targeting the incoming [prev] of a segment. *)
Lemma dllseg_set_prev (st : store) pv hd x q tl nx pv' :
  dllseg st pv hd (x :: q) tl nx → x ∉ q →
  dllseg (alter (Order.set_prev pv') x st) pv' hd (x :: q) tl nx.
Proof.
  simpl. intros [-> H] Hnotin. split; [done|].
  rewrite list_lookup_alter_eq.
  destruct (st !! x) as [ox|]; [|done]. destruct H as [Hpv H].
  simpl. split; [done|].
  eapply dllseg_ext; [|done].
  intros y Hy. rewrite list_lookup_alter_ne; [done|]. intros ->. done.
Qed.

(** * The operations of a price level on a queue *)

Lemma strip_set_prev v o : strip (Order.set_prev v o) = strip o.
Proof. done. Qed.
Lemma strip_set_next v o : strip (Order.set_next v o) = strip o.
Proof. done. Qed.

Lemma level_add_order_spec (st : store) (l : PriceLevel.t) (q : list nat)
    (p : nat) (op : Order.t) :
  dll st None (PriceLevel.head l) q (PriceLevel.tail l) → NoDup q →
  p ∉ q → st !! p = Some op →
  ∃ l' st',
    PriceLevel.add_order p l st = Some (l', st') ∧
    dll st' None (PriceLevel.head l') (q ++ [p]) (PriceLevel.tail l') ∧
    PriceLevel.price l' = PriceLevel.price l ∧
    PriceLevel.order_count l' = wrap32 (PriceLevel.order_count l + 1) ∧
    PriceLevel.total_quantity l' =
      wrap64 (PriceLevel.total_quantity l + Order.remaining op) ∧
    length st' = length st ∧
    (∀ x, strip <$> st' !! x = strip <$> st !! x) ∧
    st' !! p = Some (Order.set_next None (Order.set_prev (PriceLevel.tail l) op)) ∧
    (∀ x, x ≠ p → st' !! x =
        if decide (last q = Some x)
        then Order.set_next (Some p) <$> st !! x
        else st !! x).
Proof.
  intros Hdll Hnd Hnotin Hp. unfold PriceLevel.add_order.
  rewrite update_ok by (by rewrite Hp). simpl.
  rewrite update_ok by (by rewrite alter_is_Some, Hp). simpl.
  set (st2 := alter (Order.set_next None) p (alter (Order.set_prev (PriceLevel.tail l)) p st)).
  assert (st2 !! p = Some (Order.set_next None (Order.set_prev (PriceLevel.tail l) op))) as Hp2.
  { subst st2. by rewrite !list_lookup_alter_eq, Hp. }
  assert (∀ x, x ≠ p → st2 !! x = st !! x) as Hfr2.
  { intros x Hx. subst st2. by rewrite !list_lookup_alter_ne. }
  assert (∀ x, strip <$> st2 !! x = strip <$> st !! x) as Hstrip2.
  { intros x. subst st2. by rewrite !strip_alter. }
  assert (length st2 = length st) as Hlen2.
  { subst st2. by rewrite !length_alter. }
  clearbody st2.
  destruct q as [|t q0 _] using rev_ind.
  - destruct Hdll as [Hhd Htl]. rewrite Htl in *. simpl.
    unfold load. rewrite Hp2. simpl.
    eexists _, _. split; [done|]. simpl. split_and!; try done.
    unfold dll. simpl. rewrite Hp2. done.
  - pose proof Hdll as Hd. unfold dll in Hd.
    apply dllseg_snoc in Hd as (tl1 & ot & Hq0 & Ht & Hpv & Hnx & Htl).
    rewrite Htl in *. simpl.
    assert (p ≠ t) as Hne by (intros ->; apply Hnotin; set_solver).
    apply NoDup_app in Hnd as (_ & Hnd & _).
    rewrite update_ok by (rewrite Hfr2, Ht; done). simpl.
    unfold load. rewrite list_lookup_alter_ne, Hp2 by done. simpl.
    eexists _, _. split; [done|]. simpl. split_and!; try done.
    + unfold dll. apply dllseg_snoc.
      exists (Some t), (Order.set_next None (Order.set_prev (Some t) op)).
      split_and!; try done.
      * eapply dllseg_set_next.
        -- eapply dllseg_ext; [|exact Hdll].
           intros y Hy. rewrite Hfr2; [done|]. intros ->. done.
        -- intros Hin. eapply Hnd; [done|]. set_solver.
      * by rewrite list_lookup_alter_ne.
    + by rewrite length_alter.
    + intros x. by rewrite strip_alter.
    + by rewrite list_lookup_alter_ne.
    + intros x Hx. rewrite last_snoc, list_lookup_alter.
      destruct (decide (t = x)) as [->|Hxt].
      * rewrite decide_True by done. by rewrite Hfr2.
      * rewrite decide_False by congruence. by apply Hfr2.
Qed.

Lemma level_remove_order_spec (st : store) (l : PriceLevel.t)
    (q1 : list nat) (p : nat) (q2 : list nat) (op : Order.t) :
  dll st None (PriceLevel.head l) (q1 ++ p :: q2) (PriceLevel.tail l) →
  NoDup (q1 ++ p :: q2) → st !! p = Some op →
  ∃ l' st',
    PriceLevel.remove_order p l st = Some (l', st') ∧
    dll st' None (PriceLevel.head l') (q1 ++ q2) (PriceLevel.tail l') ∧
    PriceLevel.price l' = PriceLevel.price l ∧
    PriceLevel.order_count l' = wrap32 (PriceLevel.order_count l - 1) ∧
    PriceLevel.total_quantity l' =
      wrap64 (PriceLevel.total_quantity l - Order.remaining op) ∧
    length st' = length st ∧
    (∀ x, strip <$> st' !! x = strip <$> st !! x) ∧
    st' !! p = Some (Order.set_next None (Order.set_prev None op)) ∧
    (∀ x, x ≠ p → st' !! x =
        if decide (last q1 = Some x)
        then Order.set_next (Order.next op) <$> st !! x
        else if decide (head q2 = Some x)
             then Order.set_prev (Order.prev op) <$> st !! x
             else st !! x).
Proof.
  intros Hdll Hnd Hp. unfold PriceLevel.remove_order, load.
  rewrite Hp. simpl.
  pose proof Hdll as Hd. unfold dll in Hd.
  apply dllseg_app in Hd as (tl1 & mid & Hq1 & Hq2).
  simpl in Hq2. destruct Hq2 as [-> Hq2]. rewrite Hp in Hq2.
  destruct Hq2 as [Hpv Hq2].
  apply NoDup_app in Hnd as (Hnd1 & Hnd12 & Hnd2).
  apply NoDup_cons in Hnd2 as [Hp2 Hnd2].
  assert (p ∉ q1) as Hp1 by (intros Hin; eapply Hnd12; [done|set_solver]).
  (* the predecessor *)
  assert (∃ l1 st1,
    match Order.prev op with
    | Some pv => update st pv (Order.set_next (Order.next op))
                   ≫= λ st', Some (l, st')
    | None => Some (PriceLevel.set_head (Order.next op) l, st)
    end = Some (l1, st1) ∧
    dllseg st1 None (PriceLevel.head l1) q1 tl1 (Order.next op) ∧
    PriceLevel.price l1 = PriceLevel.price l ∧
    PriceLevel.order_count l1 = PriceLevel.order_count l ∧
    PriceLevel.total_quantity l1 = PriceLevel.total_quantity l ∧
    PriceLevel.tail l1 = PriceLevel.tail l ∧
    length st1 = length st ∧
    (∀ x, strip <$> st1 !! x = strip <$> st !! x) ∧
    (∀ x, st1 !! x = if decide (last q1 = Some x)
                     then Order.set_next (Order.next op) <$> st !! x
                     else st !! x))
    as (l1 & st1 & -> & Hq1' & Hpr1 & Hc1 & Ht1 & Htl1 & Hlen1 & Hstrip1 & Hpt1).
  { destruct q1 as [|t q1' _] using rev_ind.
    - simpl in *. destruct Hq1 as [Hhd ->]. rewrite Hpv.
      eexists _, _. split; [done|]. simpl. done.
    - apply dllseg_snoc in Hq1 as Hs.
      destruct Hs as (tl0 & ot & H0 & Ht & Hpt & Hnt & ->).
      rewrite Hpv. rewrite update_ok by (by rewrite Ht). simpl.
      eexists _, _. split; [done|]. split_and!; try done.
      + eapply dllseg_set_next; [done|].
        apply NoDup_app in Hnd1 as (_ & Hnd1 & _).
        intros Hin. eapply Hnd1; [done|set_solver].
      + by rewrite length_alter.
      + intros x. by rewrite strip_alter.
      + intros x. rewrite last_snoc, list_lookup_alter.
        destruct (decide (t = x)) as [->|Hxt].
        * by rewrite decide_True.
        * rewrite decide_False by congruence. done. }
  simpl.
  assert (st1 !! p = Some op) as Hp'.
  { rewrite Hpt1. rewrite decide_False; [done|].
    intros Hl. apply Hp1. by apply last_Some_elem_of. }
  rewrite Hp'. simpl.
  (* the successor *)
  assert (∃ l2 st2,
    match Order.next op with
    | Some nx => update st1 nx (Order.set_prev (Order.prev op))
                   ≫= λ st', Some (l1, st')
    | None => Some (PriceLevel.set_tail (Order.prev op) l1, st1)
    end = Some (l2, st2) ∧
    dllseg st2 tl1 (Order.next op) q2 (PriceLevel.tail l2) None ∧
    PriceLevel.price l2 = PriceLevel.price l ∧
    PriceLevel.order_count l2 = PriceLevel.order_count l ∧
    PriceLevel.total_quantity l2 = PriceLevel.total_quantity l ∧
    PriceLevel.head l2 = PriceLevel.head l1 ∧
    length st2 = length st ∧
    (∀ x, strip <$> st2 !! x = strip <$> st !! x) ∧
    (∀ x, st2 !! x = if decide (head q2 = Some x)
                     then Order.set_prev (Order.prev op) <$> st1 !! x
                     else st1 !! x))
    as (l2 & st2 & -> & Hq2' & Hpr2 & Hc2 & Ht2 & Hhd2 & Hlen2 & Hstrip2 & Hpt2).
  { destruct q2 as [|n q2'].
    - simpl in *. destruct Hq2 as [Hnx Htl]. rewrite Hnx.
      eexists _, _. split; [done|]. simpl. split_and!; try done.
    - assert (dllseg st1 (Some p) (Order.next op) (n :: q2') (PriceLevel.tail l) None) as Hq2s.
      { eapply dllseg_ext; [|done]. intros y Hy. rewrite Hpt1.
        rewrite decide_False; [done|]. intros Hl.
        eapply Hnd12; [by apply last_Some_elem_of|]. by apply list_elem_of_further. }
      pose proof Hq2s as [Hnx Hn]. rewrite Hnx.
      destruct (st1 !! n) as [on|] eqn:Hon; [|done].
      rewrite update_ok by (by rewrite Hon). simpl.
      eexists _, _. split; [done|]. split_and!; try done.
      + rewrite Hpv, Htl1. eapply dllseg_set_prev; [done|].
        by apply NoDup_cons in Hnd2 as [? _].
      + by rewrite length_alter.
      + intros x. by rewrite strip_alter.
      + intros x. simpl. rewrite list_lookup_alter.
        destruct (decide (n = x)) as [->|Hxn].
        * by rewrite decide_True.
        * rewrite decide_False by congruence. done. }
  simpl.
  assert (st2 !! p = Some op) as Hp''.
  { rewrite Hpt2. rewrite decide_False; [done|].
    intros Hl. apply Hp2. by apply head_Some_elem_of. }
  rewrite Hp''. simpl.
  rewrite update_ok by (by rewrite Hp''). simpl.
  rewrite update_ok by (by rewrite alter_is_Some, Hp''). simpl.
  eexists _, _. split; [done|]. simpl. split_and!.
  - unfold dll. apply dllseg_app. exists tl1, (Order.next op). split.
    + rewrite Hhd2. eapply dllseg_ext; [|exact Hq1'].
      intros y Hy. rewrite !list_lookup_alter_ne by (intros ->; done).
      rewrite Hpt2. rewrite decide_False; [done|].
      intros Hl. eapply Hnd12; [done|]. apply list_elem_of_further.
      by apply head_Some_elem_of.
    + eapply dllseg_ext; [|exact Hq2'].
      intros y Hy. rewrite !list_lookup_alter_ne; [done|intros ->; done..].
  - done.
  - by rewrite Hc2.
  - by rewrite Ht2.
  - by rewrite !length_alter.
  - intros x. by rewrite !strip_alter.
  - by rewrite !list_lookup_alter_eq, Hp''.
  - intros x Hx. rewrite !list_lookup_alter_ne by done.
    rewrite Hpt2, Hpt1.
    destruct (decide (last q1 = Some x)) as [Hl|Hl].
    + rewrite decide_False; [done|]. intros Hh.
      eapply Hnd12; [by apply last_Some_elem_of|]. apply list_elem_of_further.
      by apply head_Some_elem_of.
    + done.
Qed.

(** * The ordered map *)

Section price_map.
Context {V : Type}.
Implicit Types (m : PriceMap.t V) (k : Z) (v : V).

Lemma find_Some_elem_of k v m :
  PriceMap.find k m = Some v → (k, v) ∈ m.
Proof.
  induction m as [|[k' v'] m IH]; simpl; [done|].
  destruct (Z.eqb_spec k' k) as [->|Hne].
  - intros [= ->]. by left.
  - intros H. right. by apply IH.
Qed.

Lemma find_None_keys k m :
  PriceMap.find k m = None ↔ k ∉ m.*1.
Proof.
  induction m as [|[k' v'] m IH]; simpl.
  - split; [intros _|done]. apply not_elem_of_nil.
  - rewrite not_elem_of_cons. destruct (Z.eqb_spec k' k) as [->|Hne].
    + split; [done|]. intros [? _]. done.
    + rewrite IH. split; [intros ?; split; [congruence|done]|intros [_ ?]; done].
Qed.

Lemma keys_set k v m : (PriceMap.set k v m).*1 = m.*1.
Proof.
  induction m as [|[k' v'] m IH]; csimpl; [done|].
  destruct (k' =? k); csimpl; [done|]. by rewrite IH.
Qed.

Lemma find_set k k' v m :
  PriceMap.find k' (PriceMap.set k v m) =
  if decide (k' = k) then (λ _, v) <$> PriceMap.find k m
  else PriceMap.find k' m.
Proof.
  induction m as [|[k0 v0] m IH]; simpl.
  - by case_decide.
  - destruct (Z.eqb_spec k0 k) as [->|Hne]; simpl.
    + destruct (Z.eqb_spec k k') as [->|Hne'].
      * by rewrite decide_True.
      * by rewrite decide_False.
    + rewrite IH. destruct (Z.eqb_spec k0 k') as [->|Hne'].
      * by rewrite decide_False.
      * done.
Qed.

Lemma set_absent k v m : PriceMap.find k m = None → PriceMap.set k v m = m.
Proof.
  induction m as [|[k0 v0] m IH]; simpl; [done|].
  destruct (k0 =? k); [done|]. intros H. by rewrite IH.
Qed.

Lemma set_same k v m : PriceMap.find k m = Some v → PriceMap.set k v m = m.
Proof.
  induction m as [|[k0 v0] m IH]; simpl; [done|].
  destruct (k0 =? k); [by intros [= ->]|]. intros H. by rewrite IH.
Qed.

Lemma set_set k v v' m :
  PriceMap.set k v (PriceMap.set k v' m) = PriceMap.set k v m.
Proof.
  induction m as [|[k0 v0] m IH]; simpl; [done|].
  destruct (k0 =? k) eqn:E; simpl; rewrite E; [done|]. by rewrite IH.
Qed.

Lemma erase_absent k m : PriceMap.find k m = None → PriceMap.erase k m = m.
Proof.
  induction m as [|[k0 v0] m IH]; simpl; [done|].
  destruct (k0 =? k); [done|]. intros H. by rewrite IH.
Qed.

Lemma erase_set k v m :
  PriceMap.erase k (PriceMap.set k v m) = PriceMap.erase k m.
Proof.
  induction m as [|[k0 v0] m IH]; simpl; [done|].
  destruct (k0 =? k) eqn:E; simpl; rewrite E; [done|]. by rewrite IH.
Qed.

Lemma elem_of_erase k m e : e ∈ m → e.1 ≠ k → e ∈ PriceMap.erase k m.
Proof.
  induction m as [|[k0 v0] m IH]; simpl; [done|].
  rewrite elem_of_cons. intros [->|Hin] Hne.
  - simpl in Hne. destruct (Z.eqb_spec k0 k); [done|]. by left.
  - destruct (k0 =? k); [done|]. right. by apply IH.
Qed.

Lemma keys_erase k m x : x ∈ (PriceMap.erase k m).*1 → x ∈ m.*1.
Proof.
  induction m as [|[k0 v0] m IH]; csimpl; [done|].
  destruct (k0 =? k); csimpl.
  - by right.
  - rewrite !elem_of_cons. intros [->|?]; [by left|right; by apply IH].
Qed.

Lemma sorted_erase k m :
  StronglySorted Z.lt m.*1 → StronglySorted Z.lt (PriceMap.erase k m).*1.
Proof.
  induction m as [|[k0 v0] m IH]; csimpl; [done|].
  rewrite StronglySorted_cons. intros [Hlt Hs].
  destruct (k0 =? k); csimpl; [done|].
  rewrite StronglySorted_cons. split; [|by apply IH].
  rewrite Forall_forall in Hlt. apply Forall_forall. intros x Hx.
  by apply Hlt, (keys_erase k).
Qed.

Lemma find_erase k k' m :
  StronglySorted Z.lt m.*1 →
  PriceMap.find k' (PriceMap.erase k m) =
  if decide (k' = k) then None else PriceMap.find k' m.
Proof.
  induction m as [|[k0 v0] m IH]; csimpl; intros Hs.
  - by case_decide.
  - apply StronglySorted_inv in Hs as [Hs Hlt].
    destruct (Z.eqb_spec k0 k) as [->|Hne]; simpl.
    + case_decide as Hk; [subst k'|].
      * apply find_None_keys. intros Hin.
        rewrite Forall_forall in Hlt. apply Hlt in Hin. lia.
      * destruct (Z.eqb_spec k k'); [congruence|done].
    + rewrite IH by done. destruct (Z.eqb_spec k0 k') as [->|Hne'].
      * by rewrite decide_False.
      * done.
Qed.

Lemma find_try_emplace k k' v m :
  StronglySorted Z.lt m.*1 →
  PriceMap.find k' (PriceMap.try_emplace k v m) =
  if decide (k' = k)
  then Some (default v (PriceMap.find k m))
  else PriceMap.find k' m.
Proof.
  induction m as [|[k0 v0] m IH]; csimpl; intros Hs.
  - destruct (Z.eqb_spec k k') as [->|Hne].
    + by rewrite decide_True.
    + by rewrite decide_False.
  - apply StronglySorted_inv in Hs as [Hs Hlt].
    destruct (Z.eqb_spec k0 k) as [->|Hne]; simpl.
    + destruct (Z.eqb_spec k k') as [->|Hne'].
      * by rewrite decide_True.
      * by rewrite decide_False.
    + destruct (Z.ltb_spec k k0) as [Hlt'|Hge]; simpl.
      * destruct (Z.eqb_spec k k') as [->|Hne'].
        -- rewrite decide_True by done.
           assert (PriceMap.find k' m = None) as ->; [|done].
           apply find_None_keys. intros Hin.
           rewrite Forall_forall in Hlt. apply Hlt in Hin. lia.
        -- rewrite decide_False by done. done.
      * rewrite IH by done. destruct (Z.eqb_spec k0 k') as [->|Hne'].
        -- by rewrite decide_False.
        -- done.
Qed.

Lemma try_emplace_present k v m :
  StronglySorted Z.lt m.*1 →
  is_Some (PriceMap.find k m) → PriceMap.try_emplace k v m = m.
Proof.
  induction m as [|[k0 v0] m IH]; csimpl; intros Hs [v' Hf]; [done|].
  apply StronglySorted_inv in Hs as [Hs Hlt].
  destruct (Z.eqb_spec k0 k) as [->|Hne]; [done|].
  destruct (Z.ltb_spec k k0) as [Hlt'|Hge].
  - apply find_Some_elem_of in Hf.
    rewrite Forall_forall in Hlt.
    assert (k ∈ m.*1) as Hin by (apply list_elem_of_fmap; by exists (k, v')).
    apply Hlt in Hin. lia.
  - by rewrite IH.
Qed.

Lemma keys_try_emplace k v m x :
  x ∈ (PriceMap.try_emplace k v m).*1 → x = k ∨ x ∈ m.*1.
Proof.
  induction m as [|[k0 v0] m IH]; csimpl.
  - rewrite list_elem_of_singleton. by left.
  - destruct (k0 =? k); csimpl; [by right|].
    destruct (k <? k0); csimpl.
    + rewrite elem_of_cons. intros [->|?]; [by left|by right].
    + rewrite !elem_of_cons. intros [->|?]; [right; by left|].
      destruct IH as [->|?]; [done|by left|right; by right].
Qed.

Lemma sorted_try_emplace k v m :
  StronglySorted Z.lt m.*1 →
  StronglySorted Z.lt (PriceMap.try_emplace k v m).*1.
Proof.
  induction m as [|[k0 v0] m IH]; csimpl; intros Hs.
  - repeat constructor.
  - apply StronglySorted_inv in Hs as [Hs Hlt].
    destruct (Z.eqb_spec k0 k) as [->|Hne]; csimpl.
    + by constructor.
    + destruct (Z.ltb_spec k k0) as [Hlt'|Hge]; csimpl.
      * constructor; [by constructor|]. constructor; [done|].
        eapply Forall_impl; [done|]. simpl. lia.
      * constructor; [by apply IH|].
        apply Forall_forall. intros x Hx.
        apply keys_try_emplace in Hx as [->|Hx]; [lia|].
        rewrite Forall_forall in Hlt. by apply Hlt.
Qed.

Lemma erase_try_emplace k v m :
  StronglySorted Z.lt m.*1 → PriceMap.find k m = None →
  PriceMap.erase k (PriceMap.try_emplace k v m) = m.
Proof.
  induction m as [|[k0 v0] m IH]; simpl; intros Hs Hf.
  - by rewrite Z.eqb_refl.
  - apply StronglySorted_inv in Hs as [Hs Hlt].
    destruct (Z.eqb_spec k0 k) as [->|Hne]; [done|].
    destruct (Z.ltb_spec k k0) as [Hlt'|Hge]; simpl.
    + by rewrite Z.eqb_refl.
    + destruct (Z.eqb_spec k0 k); [done|]. by rewrite IH.
Qed.
End price_map.

(** Two maps related entry by entry, as the levels and their queues are. *)
Section price_map_rel.
Context {V W : Type}.
Implicit Types (m : PriceMap.t V) (n : PriceMap.t W) (k : Z).
Implicit Types (R : Z * V → Z * W → Prop).

Lemma Forall2_keys R m n : keyed R → Forall2 R m n → m.*1 = n.*1.
Proof.
  intros HR. induction 1 as [|e f m n He _ IH]; csimpl; [done|].
  by rewrite IH, (HR _ _ He).
Qed.

Lemma Forall2_find R m n k v :
  keyed R → Forall2 R m n → PriceMap.find k m = Some v →
  ∃ w, PriceMap.find k n = Some w ∧ R (k, v) (k, w).
Proof.
  intros HR. induction 1 as [|[k0 v0] [k1 w1] m n He _ IH]; simpl; [done|].
  pose proof (HR _ _ He) as Hk. simpl in Hk. subst k1.
  destruct (Z.eqb_spec k0 k) as [->|Hne]; [|done].
  intros [= ->]. eauto.
Qed.

Lemma Forall2_find_None R m n k :
  keyed R → Forall2 R m n → PriceMap.find k m = None →
  PriceMap.find k n = None.
Proof.
  intros HR H. rewrite !find_None_keys. by rewrite (Forall2_keys R m n).
Qed.

Lemma Forall2_frame R R' m n :
  Forall2 R m n → (∀ e f, e ∈ m → f ∈ n → R e f → R' e f) →
  Forall2 R' m n.
Proof.
  induction 1 as [|e f m n He _ IH]; csimpl; intros Himp; constructor.
  - apply Himp; [by left|by left|done].
  - apply IH. intros e' f' Hin Hin'. apply Himp; by right.
Qed.

Lemma Forall2_set R R' m n k v w :
  keyed R → StronglySorted Z.lt m.*1 → Forall2 R m n →
  (∀ e f, f ∈ n → R e f → e.1 ≠ k → R' e f) → R' (k, v) (k, w) →
  Forall2 R' (PriceMap.set k v m) (PriceMap.set k w n).
Proof.
  intros HR Hs H Hframe Hnew. revert Hs.
  induction H as [|[k0 v0] [k1 w1] m n He Hmn IH]; csimpl; intros Hs.
  - constructor.
  - pose proof (HR _ _ He) as Hk. simpl in Hk. subst k1.
    apply StronglySorted_cons in Hs as [Hlt Hs].
    destruct (Z.eqb_spec k0 k) as [->|Hne].
    + constructor; [done|].
      eapply Forall2_frame; [done|]. intros e f Hin Hin' HRef.
      apply Hframe; [by right|done|]. rewrite Forall_forall in Hlt.
      assert (e.1 ∈ m.*1) as Hk by (apply list_elem_of_fmap; eauto).
      apply Hlt in Hk. lia.
    + constructor; [apply Hframe; [by left|done..]|].
      apply IH; [|done]. intros e f Hin. apply Hframe. by right.
Qed.

Lemma Forall2_erase R R' m n k :
  keyed R → StronglySorted Z.lt m.*1 → Forall2 R m n →
  (∀ e f, f ∈ n → R e f → e.1 ≠ k → R' e f) →
  Forall2 R' (PriceMap.erase k m) (PriceMap.erase k n).
Proof.
  intros HR Hs H Hframe. revert Hs.
  induction H as [|[k0 v0] [k1 w1] m n He Hmn IH]; csimpl; intros Hs.
  - constructor.
  - pose proof (HR _ _ He) as Hk. simpl in Hk. subst k1.
    apply StronglySorted_cons in Hs as [Hlt Hs].
    destruct (Z.eqb_spec k0 k) as [->|Hne].
    + eapply Forall2_frame; [done|]. intros e f Hin Hin' HRef.
      apply Hframe; [by right|done|]. rewrite Forall_forall in Hlt.
      assert (e.1 ∈ m.*1) as Hk by (apply list_elem_of_fmap; eauto).
      apply Hlt in Hk. lia.
    + constructor; [apply Hframe; [by left|done..]|].
      apply IH; [|done]. intros e f Hin. apply Hframe. by right.
Qed.

Lemma Forall2_try_emplace R m n k v w :
  keyed R → Forall2 R m n → R (k, v) (k, w) →
  Forall2 R (PriceMap.try_emplace k v m) (PriceMap.try_emplace k w n).
Proof.
  intros HR H Hnew.
  induction H as [|[k0 v0] [k1 w1] m n He Hmn IH]; csimpl.
  - by repeat constructor.
  - pose proof (HR _ _ He) as Hk. simpl in Hk. subst k1.
    destruct (k0 =? k); [by constructor|].
    destruct (k <? k0); by repeat constructor.
Qed.
End price_map_rel.

(** The slots of a side when one of its queues changes. *)
Section slots.
Implicit Types (qs : queues) (k : Z) (q : list nat).

Lemma slots_cons k q qs : slots ((k, q) :: qs) = q ++ slots qs.
Proof. done. Qed.

Lemma slots_app (qs1 qs2 : queues) : slots (qs1 ++ qs2) = slots qs1 ++ slots qs2.
Proof. unfold slots. by rewrite fmap_app, join_app. Qed.

Lemma slots_find k q qs :
  PriceMap.find k qs = Some q → slots qs ≡ₚ q ++ slots (PriceMap.erase k qs).
Proof.
  induction qs as [|[k0 q0] qs IH]; simpl; [done|].
  destruct (k0 =? k).
  - by intros [= ->].
  - intros H. rewrite !slots_cons, (IH H).
    by rewrite !(assoc (++)), (comm (++) q0).
Qed.

Lemma slots_set k q' qs :
  is_Some (PriceMap.find k qs) →
  slots (PriceMap.set k q' qs) ≡ₚ q' ++ slots (PriceMap.erase k qs).
Proof.
  induction qs as [|[k0 q0] qs IH]; simpl; [by intros [? ?]|].
  destruct (k0 =? k).
  - done.
  - intros H. rewrite !slots_cons, (IH H).
    by rewrite !(assoc (++)), (comm (++) q0).
Qed.

Lemma slots_try_emplace k qs :
  slots (PriceMap.try_emplace k [] qs) = slots qs.
Proof.
  induction qs as [|[k0 q0] qs IH]; simpl; [done|].
  destruct (k0 =? k); [done|]. destruct (k <? k0); [done|].
  by rewrite !slots_cons, IH.
Qed.

Lemma slots_erase_empty k qs :
  PriceMap.find k qs = Some [] → slots (PriceMap.erase k qs) ≡ₚ slots qs.
Proof. intros H. by rewrite (slots_find k [] qs H). Qed.
End slots.

(** * Framing the invariant *)

Lemma resting_strip (st st' : store) s k p :
  strip <$> st' !! p = strip <$> st !! p → resting st s k p → resting st' s k p.
Proof.
  unfold resting. intros H.
  destruct (st !! p) as [o|], (st' !! p) as [o'|]; simpl in H; try done.
  injection H as H. destruct o, o'. unfold strip in H. simpl in *. by simplify_eq.
Qed.

Lemma open_quantity_strip (st st' : store) p :
  strip <$> st' !! p = strip <$> st !! p →
  open_quantity st' p = open_quantity st p.
Proof.
  unfold open_quantity. intros H.
  destruct (st !! p) as [o|], (st' !! p) as [o'|]; simpl in H; try done.
  injection H as H. destruct o, o'. unfold strip in H. simpl in *. by simplify_eq.
Qed.

Lemma sum_open_strip (st st' : store) q :
  (∀ p, p ∈ q → strip <$> st' !! p = strip <$> st !! p) →
  sum_open st' q = sum_open st q.
Proof.
  induction q as [|p q IH]; simpl; intros H; [done|].
  rewrite IH, (open_quantity_strip st st' p); [done| |].
  - apply H. by left.
  - intros x Hx. apply H. by right.
Qed.

Lemma sum_open_app (st : store) q1 q2 :
  sum_open st (q1 ++ q2) = sum_open st q1 + sum_open st q2.
Proof. induction q1 as [|p q1 IH]; simpl; [done|]. rewrite IH. lia. Qed.

Lemma level_ok_keyed (st : store) s : keyed (level_ok st s).
Proof. by intros e f [? _]. Qed.

(** The data of a level's queue only depends on the stripped records. *)
Lemma level_ok_intro (st st' : store) s k l l' q :
  level_ok st s (k, l) (k, q) →
  dll st' None (PriceLevel.head l') q (PriceLevel.tail l') →
  PriceLevel.order_count l' = PriceLevel.order_count l →
  PriceLevel.total_quantity l' = PriceLevel.total_quantity l →
  (∀ p, p ∈ q → strip <$> st' !! p = strip <$> st !! p) →
  level_ok st' s (k, l') (k, q).
Proof.
  intros (Hk & Hdll & Hc & Ht & Hr) Hdll' Hc' Ht' Hstrip. simpl in *.
  split_and!; simpl; try done.
  - by rewrite Hc'.
  - by rewrite Ht', Ht, (sum_open_strip st st' q Hstrip).
  - apply Forall_forall. intros p Hp. rewrite Forall_forall in Hr.
    eapply resting_strip; [by apply Hstrip|by apply Hr].
Qed.

(** A level is unaffected by writes to slots outside its queue. *)
Lemma level_ok_frame (st st' : store) s e kq :
  (∀ p, p ∈ kq.2 → st' !! p = st !! p) →
  level_ok st s e kq → level_ok st' s e kq.
Proof.
  intros Hfr H. destruct e as [k l], kq as [k' q].
  pose proof H as (Hk & Hdll & _). simpl in *. subst k'.
  eapply level_ok_intro; try done.
  - eapply dllseg_ext; [|exact Hdll]. intros p Hp. by rewrite Hfr.
  - intros p Hp. by rewrite Hfr.
Qed.

Lemma elem_of_slots (qs : queues) p :
  p ∈ slots qs ↔ ∃ kq, kq ∈ qs ∧ p ∈ kq.2.
Proof.
  unfold slots. rewrite list_elem_of_join. split.
  - intros (q & Hp & Hq). apply list_elem_of_fmap in Hq as (kq & -> & Hkq). eauto.
  - intros (kq & Hkq & Hp). exists kq.2. split; [done|].
    apply list_elem_of_fmap. eauto.
Qed.

Lemma side_ok_frame (st st' : store) s m qs :
  (∀ p, p ∈ slots qs → st' !! p = st !! p) →
  side_ok st s m qs → side_ok st' s m qs.
Proof.
  intros Hfr [H Hs]. split; [|done].
  eapply Forall2_frame; [done|]. intros e f _ Hf. apply level_ok_frame.
  intros p Hp. apply Hfr. apply elem_of_slots. eauto.
Qed.

Lemma index_ok_frame (st st' : store) idx live live' :
  (∀ p, p ∈ live → Order.id <$> st' !! p = Order.id <$> st !! p) →
  (∀ p, p ∈ live → p ∈ live') →
  index_ok st idx live → index_ok st' idx live'.
Proof.
  intros Hid Hsub H oid p Hp. destruct (H oid p Hp) as [Hlive Hst].
  split; [by apply Hsub|]. specialize (Hid p Hlive).
  destruct (st !! p) as [o|], (st' !! p) as [o'|]; simpl in Hid; try done.
  congruence.
Qed.

(** * Reading the components of [repr] *)

Lemma levels_set_mem s st b : levels s (set_mem st b) = levels s b.
Proof. by destruct s. Qed.
Lemma levels_set_levels s m b : levels s (set_levels s m b) = m.
Proof. by destruct s. Qed.
Lemma levels_set_levels_ne s s' m b :
  s ≠ s' → levels s' (set_levels s m b) = levels s' b.
Proof. by destruct s, s'. Qed.
Lemma mem_set_levels s m b : mem (set_levels s m b) = mem b.
Proof. by destruct s. Qed.
Lemma pool_set_levels s m b : pool_ (set_levels s m b) = pool_ b.
Proof. by destruct s. Qed.
Lemma orders_set_levels s m b : orders_ (set_levels s m b) = orders_ b.
Proof. by destruct s. Qed.

Lemma repr_side fl b Q s :
  repr fl b Q → side_ok (mem b) s (levels s b) (Q s).
Proof. intros (_ & HB & HA & _). by destruct s. Qed.

Lemma repr_intro fl b Q :
  pool_ok (pool_ b) →
  (∀ s, side_ok (mem b) s (levels s b) (Q s)) →
  NoDup (fl ++ queued Q ++ free (pool_ b)) →
  Forall (λ p, (p < length (mem b))%nat) (fl ++ queued Q ++ free (pool_ b)) →
  index_ok (mem b) (orders_ b) (fl ++ queued Q) →
  repr fl b Q.
Proof. intros ? Hs ? ? ?. pose proof (Hs Buy). pose proof (Hs Sell). done. Qed.

Lemma perm_mid {A} (a b c d : list A) :
  a ++ b ++ c ++ d ≡ₚ b ++ (a ++ c) ++ d.
Proof. by rewrite (assoc (++) a b), (comm (++) a b), <- !(assoc (++)). Qed.

Lemma queued_find (Q : Side → queues) s k q :
  PriceMap.find k (Q s) = Some q → queued Q ≡ₚ q ++ rest Q s k.
Proof.
  intros Hf. unfold queued, rest.
  pose proof (slots_find k q (Q s) Hf) as H1.
  destruct s; simpl; rewrite H1.
  - by rewrite (assoc (++)).
  - by rewrite (comm (++)), (assoc (++)).
Qed.

Lemma queued_set (Q : Side → queues) s k q' :
  is_Some (PriceMap.find k (Q s)) →
  queued (<[s := PriceMap.set k q' (Q s)]> Q) ≡ₚ q' ++ rest Q s k.
Proof.
  intros Hf. unfold queued, rest.
  pose proof (slots_set k q' (Q s) Hf) as H2.
  destruct s; simpl; rewrite fn_lookup_insert, fn_lookup_insert_ne by done;
    rewrite H2.
  - by rewrite (assoc (++)).
  - by rewrite (comm (++)), (assoc (++)).
Qed.

Lemma live_erase_level (Q : Side → queues) s k :
  PriceMap.find k (Q s) = Some [] →
  queued (<[s := PriceMap.erase k (Q s)]> Q) ≡ₚ queued Q.
Proof.
  intros Hf. unfold queued. pose proof (slots_erase_empty k (Q s) Hf) as H1.
  destruct s; rewrite fn_lookup_insert, fn_lookup_insert_ne by done;
    by rewrite H1.
Qed.

Lemma live_try_emplace (Q : Side → queues) s k :
  queued (<[s := PriceMap.try_emplace k [] (Q s)]> Q) = queued Q.
Proof.
  unfold queued.
  destruct s; rewrite fn_lookup_insert, fn_lookup_insert_ne by done;
    by rewrite slots_try_emplace.
Qed.

Lemma elem_of_queued (Q : Side → queues) p :
  p ∈ queued Q ↔ ∃ s, p ∈ slots (Q s).
Proof.
  unfold queued. rewrite elem_of_app. split.
  - intros [?|?]; eauto.
  - intros [[] ?]; eauto.
Qed.

(** * Transitions that preserve the representation *)

Lemma mem_set_mem st b : mem (set_mem st b) = st.
Proof. done. Qed.
Lemma free_set_mem st b : free (pool_ (set_mem st b)) = free (pool_ b).
Proof. done. Qed.
Lemma orders_set_mem st b : orders_ (set_mem st b) = orders_ b.
Proof. done. Qed.
Lemma pool_ok_set_mem st b :
  length st = length (mem b) → pool_ok (pool_ b) → pool_ok (pool_ (set_mem st b)).
Proof. unfold pool_ok, mem. simpl. by intros ->. Qed.

Lemma index_ok_live (st : store) idx live live' :
  (∀ p, p ∈ live → p ∈ live') → index_ok st idx live → index_ok st idx live'.
Proof. intros. by eapply index_ok_frame. Qed.

Lemma opp_ne s : opp s ≠ s.
Proof. by destruct s. Qed.

Lemma side_cases s s' : s' = s ∨ s' = opp s.
Proof. destruct s, s'; auto. Qed.

Lemma repr_floating_not_queued fl b Q a :
  repr fl b Q → a ∈ fl → (a ∉ queued Q) ∧ (a ∉ free (pool_ b)).
Proof.
  intros (_ & _ & _ & Hnd & _) Ha.
  apply NoDup_app in Hnd as (_ & Hnd & _). specialize (Hnd a Ha).
  rewrite elem_of_app in Hnd. naive_solver.
Qed.

Lemma repr_valid fl b Q p :
  repr fl b Q → p ∈ fl ++ queued Q → is_Some (mem b !! p).
Proof.
  intros (_ & _ & _ & _ & Hval & _) Hp.
  apply lookup_lt_is_Some. rewrite Forall_forall in Hval. apply Hval.
  rewrite (assoc (++)). apply elem_of_app. by left.
Qed.

Lemma live_perm (Q : Side → queues) s k q fl fr :
  PriceMap.find k (Q s) = Some q →
  fl ++ queued Q ++ fr ≡ₚ (fl ++ q) ++ rest Q s k ++ fr.
Proof.
  intros Hf. rewrite (queued_find Q s k q Hf). by rewrite <- !(assoc (++)).
Qed.

Lemma live_perm_set (Q : Side → queues) s k q' fl fr :
  is_Some (PriceMap.find k (Q s)) →
  fl ++ queued (<[s := PriceMap.set k q' (Q s)]> Q) ++ fr
  ≡ₚ (fl ++ q') ++ rest Q s k ++ fr.
Proof.
  intros Hf. rewrite (queued_set Q s k q' Hf). by rewrite <- !(assoc (++)).
Qed.

Lemma repr_rest_disjoint fl b Q s k q p :
  repr fl b Q → PriceMap.find k (Q s) = Some q → p ∈ rest Q s k →
  p ∉ fl ++ q.
Proof.
  intros (_ & _ & _ & Hnd & _) Hf Hp Hin.
  rewrite (live_perm Q s k q fl _ Hf) in Hnd.
  apply NoDup_app in Hnd as (_ & Hnd & _).
  apply (Hnd p Hin). apply elem_of_app. by left.
Qed.

(** A write to a slot that is handed out but not queued. *)
Lemma repr_assign_floating fl b Q a f :
  repr fl b Q → a ∈ fl →
  unindexed a b ∨ (∀ o, Order.id (f o) = Order.id o) →
  repr fl (set_mem (alter f a (mem b)) b) Q.
Proof.
  intros Hrepr Ha Hid.
  destruct (repr_floating_not_queued fl b Q a Hrepr Ha) as [Hnq _].
  pose proof Hrepr as (Hpool & _ & _ & Hnd & Hval & Hidx).
  apply repr_intro.
  - apply pool_ok_set_mem; [by rewrite length_alter|done].
  - intros s. rewrite levels_set_mem, mem_set_mem.
    eapply side_ok_frame; [|by apply (repr_side fl)].
    intros p Hp. apply list_lookup_alter_ne. intros ->.
    apply Hnq, elem_of_queued. eauto.
  - by rewrite free_set_mem.
  - by rewrite free_set_mem, mem_set_mem, length_alter.
  - intros oid p Hp. destruct (Hidx oid p Hp) as [Hl Hst]. split; [done|].
    rewrite mem_set_mem, list_lookup_alter. case_decide as Hap; [subst p|done].
    destruct Hid as [Hun|Hid]; [by destruct (Hun oid a Hp)|].
    unfold mem in *. destruct (OrderPool.orders_ (pool_ b) !! a); simpl; [|done].
    by rewrite Hid.
Qed.

(** The level at key [k] of side [s] goes from queue [q] to [q'] while the
    store goes to [st']. *)
Lemma repr_update_level fl fl' b Q s k q q' l' st' :
  repr fl b Q → PriceMap.find k (Q s) = Some q →
  level_ok st' s (k, l') (k, q') →
  length st' = length (mem b) →
  (∀ p, p ∈ rest Q s k → st' !! p = mem b !! p) →
  (∀ p, Order.id <$> st' !! p = Order.id <$> mem b !! p) →
  fl' ++ q' ≡ₚ fl ++ q →
  repr fl' (set_mem st' (set_levels s (PriceMap.set k l' (levels s b)) b))
    (<[s := PriceMap.set k q' (Q s)]> Q).
Proof.
  intros Hrepr Hf Hlev Hlen Hfr Hid Hperm.
  pose proof Hrepr as (Hpool & _ & _ & Hnd & Hval & Hidx).
  assert (is_Some (PriceMap.find k (Q s))) as Hf' by (by rewrite Hf).
  apply repr_intro.
  - apply pool_ok_set_mem; [by rewrite mem_set_levels|by rewrite pool_set_levels].
  - intros s'. rewrite levels_set_mem, mem_set_mem.
    destruct (side_cases s s') as [->| ->].
    + rewrite levels_set_levels, fn_lookup_insert.
      destruct (repr_side fl b Q s Hrepr) as [HF Hsorted].
      split; [|by rewrite keys_set].
      eapply (Forall2_set (level_ok (mem b) s)); try done.
      * apply level_ok_keyed.
      * intros e f Hin Hef Hne. eapply level_ok_frame; [|done].
        intros p Hp. apply Hfr. unfold rest. apply elem_of_app. left.
        apply elem_of_slots. exists f. split; [|done].
        apply elem_of_erase; [done|]. by rewrite <- (level_ok_keyed _ _ _ _ Hef).
    + rewrite levels_set_levels_ne, fn_lookup_insert_ne by (symmetry; apply opp_ne).
      eapply side_ok_frame; [|by apply (repr_side fl)].
      intros p Hp. apply Hfr. unfold rest. apply elem_of_app. by right.
  - rewrite free_set_mem, pool_set_levels.
    rewrite (live_perm_set Q s k q' fl' _ Hf'), Hperm.
    by rewrite <- (live_perm Q s k q fl _ Hf).
  - rewrite free_set_mem, mem_set_mem, pool_set_levels, Hlen.
    rewrite (live_perm_set Q s k q' fl' _ Hf'), Hperm.
    by rewrite <- (live_perm Q s k q fl _ Hf).
  - rewrite mem_set_mem, orders_set_mem, orders_set_levels.
    eapply index_ok_frame; [| |done].
    + intros p _. apply Hid.
    + intros p. 
      pose proof (live_perm_set Q s k q' fl' [] Hf') as H1.
      pose proof (live_perm Q s k q fl [] Hf) as H2.
      rewrite !app_nil_r in H1, H2. rewrite H1, H2, Hperm. done.
Qed.

Lemma repr_erase_level fl b Q s k :
  repr fl b Q → PriceMap.find k (Q s) = Some [] →
  repr fl (set_levels s (PriceMap.erase k (levels s b)) b)
    (<[s := PriceMap.erase k (Q s)]> Q).
Proof.
  intros Hrepr Hf.
  pose proof Hrepr as (Hpool & _ & _ & Hnd & Hval & Hidx).
  pose proof (live_erase_level Q s k Hf) as Hlive.
  apply repr_intro.
  - by rewrite pool_set_levels.
  - intros s'. rewrite mem_set_levels.
    destruct (side_cases s s') as [->| ->].
    + rewrite levels_set_levels, fn_lookup_insert.
      destruct (repr_side fl b Q s Hrepr) as [HF Hsorted].
      split; [|by apply sorted_erase].
      eapply (Forall2_erase (level_ok (mem b) s)); try done.
      apply level_ok_keyed.
    + rewrite levels_set_levels_ne, fn_lookup_insert_ne by (symmetry; apply opp_ne).
      by apply (repr_side fl).
  - by rewrite pool_set_levels, Hlive.
  - by rewrite pool_set_levels, mem_set_levels, Hlive.
  - rewrite mem_set_levels, orders_set_levels.
    eapply index_ok_live; [|done]. intros p. by rewrite Hlive.
Qed.

Lemma level_ok_make st s k : level_ok st s (k, PriceLevel.make k) (k, []).
Proof. unfold level_ok, dll. simpl. split_and!; try done. Qed.

Lemma repr_try_emplace fl b Q s k :
  repr fl b Q →
  repr fl (set_levels s (PriceMap.try_emplace k (PriceLevel.make k) (levels s b)) b)
    (<[s := PriceMap.try_emplace k [] (Q s)]> Q).
Proof.
  intros Hrepr.
  pose proof Hrepr as (Hpool & _ & _ & Hnd & Hval & Hidx).
  pose proof (live_try_emplace Q s k) as Hlive.
  apply repr_intro.
  - by rewrite pool_set_levels.
  - intros s'. rewrite mem_set_levels.
    destruct (side_cases s s') as [->| ->].
    + rewrite levels_set_levels, fn_lookup_insert.
      destruct (repr_side fl b Q s Hrepr) as [HF Hsorted].
      split; [|by apply sorted_try_emplace].
      apply Forall2_try_emplace; [apply level_ok_keyed|done|apply level_ok_make].
    + rewrite levels_set_levels_ne, fn_lookup_insert_ne by (symmetry; apply opp_ne).
      by apply (repr_side fl).
  - by rewrite pool_set_levels, Hlive.
  - by rewrite pool_set_levels, mem_set_levels, Hlive.
  - rewrite mem_set_levels, orders_set_levels.
    eapply index_ok_live; [|done]. intros p. by rewrite Hlive.
Qed.

(** * The order index and the pool *)

Lemma repr_index_delete fl b Q oid :
  repr fl b Q → repr fl (set_orders_ (delete oid (orders_ b)) b) Q.
Proof.
  intros (Hpool & HB & HA & Hnd & Hval & Hidx).
  split_and!; try done. by apply map_Forall_delete.
Qed.

Lemma unindexed_delete fl b Q p o :
  repr fl b Q → mem b !! p = Some o →
  unindexed p (set_orders_ (delete (Order.id o) (orders_ b)) b).
Proof.
  intros (_ & _ & _ & _ & _ & Hidx) Hp oid p' Hl -> .
  simpl in Hl. apply lookup_delete_Some in Hl as [Hne Hl].
  destruct (Hidx oid p Hl) as [_ Hid]. rewrite Hp in Hid. done.
Qed.

Lemma repr_index_insert fl b Q p o :
  repr fl b Q → p ∈ fl ++ queued Q → mem b !! p = Some o →
  repr fl (set_orders_ (<[Order.id o := p]> (orders_ b)) b) Q.
Proof.
  intros (Hpool & HB & HA & Hnd & Hval & Hidx) Hp Ho.
  split_and!; try done. apply map_Forall_insert_2; [|done].
  split; [done|]. unfold mem in *. simpl. by rewrite Ho.
Qed.

Lemma NoDup_bounded_length (l : list nat) (n : nat) :
  NoDup l → Forall (λ p, (p < n)%nat) l → (length l ≤ n)%nat.
Proof.
  intros Hnd Hb.
  assert (l ⊆+ seq 0%nat n) as Hsub.
  { apply NoDup_submseteq; [done|]. intros x Hx.
    rewrite Forall_forall in Hb. apply elem_of_seq. specialize (Hb x Hx). lia. }
  apply submseteq_length in Hsub. by rewrite length_seq in Hsub.
Qed.

Lemma free_length pl :
  pool_ok pl → length (free pl) = Z.to_nat (OrderPool.free_count_ pl).
Proof.
  intros (Hlen & Hcap & _ & Hfc0 & Hfc & _). unfold free.
  rewrite length_take. lia.
Qed.

Lemma repr_allocate fl b Q :
  repr fl b Q → 0 < OrderPool.free_count_ (pool_ b) →
  ∃ a,
    OrderPool.free_stack_ (pool_ b)
      !! Z.to_nat (OrderPool.free_count_ (pool_ b) - 1) = Some a ∧
    let b1 := set_pool_
                (OrderPool.mk (alter Order.reset a (mem b))
                   (OrderPool.free_stack_ (pool_ b))
                   (OrderPool.capacity_ (pool_ b))
                   (OrderPool.size_ (pool_ b) + 1)
                   (OrderPool.free_count_ (pool_ b) - 1)) b in
    pool_allocate b = (inr a, b1) ∧ repr (a :: fl) b1 Q ∧ unindexed a b1.
Proof.
  intros Hrepr Hpos.
  pose proof Hrepr as (Hpool & HB & HA & Hnd & Hval & Hidx).
  pose proof Hpool as (Hlen & Hcap & Hcap64 & Hfc0 & Hfc & Hsz).
  set (fc := OrderPool.free_count_ (pool_ b)) in *.
  destruct (lookup_lt_is_Some_2 (OrderPool.free_stack_ (pool_ b))
              (Z.to_nat (fc - 1))) as [a Ha]; [lia|].
  exists a. split; [done|]. intros b1.
  assert (free (pool_ b) = take (Z.to_nat (fc - 1)) (OrderPool.free_stack_ (pool_ b)) ++ [a]) as Hfree.
  { unfold free. fold fc. replace (Z.to_nat fc) with (S (Z.to_nat (fc - 1))) by lia.
    by apply take_S_r. }
  assert (a ∈ free (pool_ b)) as Hafree by (rewrite Hfree; set_solver).
  assert (a < length (mem b))%nat as Halt.
  { rewrite Forall_forall in Hval. apply Hval. set_solver. }
  assert (a ∉ fl ++ queued Q) as Hanl.
  { rewrite (assoc (++)) in Hnd. apply NoDup_app in Hnd as (_ & Hnd & _).
    intros Hin. by apply (Hnd a Hin). }
  split_and!.
  - unfold pool_allocate, OrderPool.allocate. fold fc.
    destruct (Z.eqb_spec fc 0) as [|_]; [lia|].
    rewrite (wrap64_small (fc - 1)) by lia. rewrite Ha.
    rewrite update_ok by (by apply lookup_lt_is_Some).
    rewrite (wrap64_small (_ + 1)) by lia. done.
  - apply repr_intro.
    + unfold pool_ok. simpl. rewrite length_alter. fold fc. split_and!; try done; lia.
    + intros s. replace (levels s b1) with (levels s b) by (by destruct s).
      eapply side_ok_frame; [|by apply (repr_side fl)].
      intros p Hp. apply list_lookup_alter_ne. intros ->.
      apply Hanl. apply elem_of_app. right. apply elem_of_queued. eauto.
    + replace (free (pool_ b1)) with (take (Z.to_nat (fc - 1)) (OrderPool.free_stack_ (pool_ b))) by done.
      rewrite Hfree in Hnd. simpl.
      rewrite !(assoc (++)), <- Permutation_cons_append in Hnd.
      by rewrite <- !(assoc (++)) in Hnd.
    + replace (free (pool_ b1)) with (take (Z.to_nat (fc - 1)) (OrderPool.free_stack_ (pool_ b))) by done.
      replace (mem b1) with (alter Order.reset a (mem b)) by done.
      rewrite length_alter. rewrite Hfree in Hval.
      rewrite !(assoc (++)), <- Permutation_cons_append in Hval.
      by rewrite <- !(assoc (++)) in Hval.
    + replace (mem b1) with (alter Order.reset a (mem b)) by done.
      replace (orders_ b1) with (orders_ b) by done.
      eapply index_ok_frame; [| |done].
      * intros p Hp. rewrite list_lookup_alter_ne; [done|]. by intros ->.
      * intros p Hp. by right.
  - intros oid p Hp ->. destruct (Hidx oid a Hp) as [Hin _]. done.
Qed.

Lemma repr_deallocate fl b Q p :
  repr (p :: fl) b Q → unindexed p b →
  let b' := set_pool_
              (OrderPool.mk (mem b)
                 (<[Z.to_nat (OrderPool.free_count_ (pool_ b)) := p]>
                    (OrderPool.free_stack_ (pool_ b)))
                 (OrderPool.capacity_ (pool_ b))
                 (OrderPool.size_ (pool_ b) - 1)
                 (OrderPool.free_count_ (pool_ b) + 1)) b in
  pool_deallocate p b = (inr tt, b') ∧ repr fl b' Q.
Proof.
  intros Hrepr Hun b'.
  pose proof Hrepr as (Hpool & HB & HA & Hnd & Hval & Hidx).
  pose proof Hpool as (Hlen & Hcap & Hcap64 & Hfc0 & Hfc & Hsz).
  pose proof (NoDup_bounded_length _ _ Hnd Hval) as Hbound.
  simpl in Hbound. rewrite !length_app, (free_length _ Hpool) in Hbound.
  set (fc := OrderPool.free_count_ (pool_ b)) in *.
  assert (Z.to_nat fc < length (OrderPool.free_stack_ (pool_ b)))%nat as Hlt.
  { rewrite Hlen. unfold mem in Hbound. lia. }
  assert (free (pool_ b') = free (pool_ b) ++ [p]) as Hfree.
  { unfold free. simpl. fold fc.
    replace (Z.to_nat (fc + 1)) with (S (Z.to_nat fc)) by lia.
    erewrite take_S_r by (by apply list_lookup_insert_eq).
    by rewrite take_insert_ge. }
  split.
  - unfold pool_deallocate, OrderPool.deallocate, mbind, M_bind, get, lift. simpl.
    fold fc. rewrite decide_True by done. simpl.
    rewrite (wrap64_small (_ - 1)), (wrap64_small (fc + 1)); [done|lia|].
    unfold mem in *. lia.
  - apply repr_intro.
    + unfold pool_ok. simpl. rewrite length_insert. fold fc.
      unfold mem in *. split_and!; try done; lia.
    + intros s. replace (levels s b') with (levels s b) by (by destruct s).
      exact (repr_side (p :: fl) b Q s Hrepr).
    + rewrite Hfree. rewrite !(assoc (++)), <- Permutation_cons_append.
      by rewrite <- !(assoc (++)).
    + rewrite Hfree. replace (mem b') with (mem b) by done.
      rewrite !(assoc (++)), <- Permutation_cons_append.
      by rewrite <- !(assoc (++)).
    + intros oid p' Hp'. destruct (Hidx oid p' Hp') as [Hin Hid].
      split; [|done]. simpl in Hin. apply elem_of_cons in Hin as [->|Hin]; [|done].
      by destruct (Hun oid p Hp').
Qed.

(** * The queues are determined by the book *)

Lemma repr_ext fl b Q Q' : (∀ s, Q s = Q' s) → repr fl b Q → repr fl b Q'.
Proof.
  intros HQ. unfold repr, queued. by rewrite !HQ.
Qed.

Lemma walk_dllseg (st : store) pv hd q tl fuel :
  dllseg st pv hd q tl None → (length q ≤ fuel)%nat → walk st fuel hd = q.
Proof.
  revert pv hd fuel. induction q as [|p q IH]; intros pv hd fuel; simpl.
  - intros [-> _] _. by destruct fuel.
  - intros [-> H] Hlen. destruct fuel as [|fuel]; [lia|]. simpl.
    destruct (st !! p) as [o|]; [|done]. destruct H as [_ H].
    f_equal. eapply IH; [done|lia].
Qed.

Lemma slots_queue_sublist (qs : queues) kq :
  kq ∈ qs → kq.2 `sublist_of` slots qs.
Proof.
  induction qs as [|[k q] qs IH]; [by intros ?%elem_of_nil|].
  rewrite elem_of_cons, slots_cons. intros [->|Hin]; simpl.
  - by apply sublist_inserts_r.
  - apply sublist_inserts_l. by apply IH.
Qed.

Lemma queued_queue_sublist (Q : Side → queues) s kq :
  kq ∈ Q s → kq.2 `sublist_of` queued Q.
Proof.
  intros Hin. apply slots_queue_sublist in Hin. unfold queued.
  destruct s; [by apply sublist_inserts_r|by apply sublist_inserts_l].
Qed.

Lemma repr_queue_NoDup fl b Q s kq : repr fl b Q → kq ∈ Q s → NoDup kq.2.
Proof.
  intros (_ & _ & _ & Hnd & _) Hin.
  apply NoDup_app in Hnd as (_ & _ & Hnd). apply NoDup_app in Hnd as (Hnd & _).
  eapply sublist_NoDup; [done|]. by eapply queued_queue_sublist.
Qed.

Lemma repr_queue_length fl b Q s kq :
  repr fl b Q → kq ∈ Q s → (length kq.2 ≤ length (mem b))%nat.
Proof.
  intros Hrepr Hin. apply NoDup_bounded_length.
  - by eapply repr_queue_NoDup.
  - destruct Hrepr as (_ & _ & _ & _ & Hval & _).
    apply Forall_app in Hval as [_ Hval]. apply Forall_app in Hval as [Hval _].
    apply Forall_forall. intros p Hp. rewrite Forall_forall in Hval.
    apply Hval. eapply elem_of_sublist; [done|]. by eapply queued_queue_sublist.
Qed.

Lemma repr_abs fl b Q s : repr fl b Q → abs b s = Q s.
Proof.
  intros Hrepr. pose proof (repr_side fl b Q s Hrepr) as [HF _].
  pose proof (λ kq, repr_queue_length fl b Q s kq Hrepr) as Hlen.
  unfold abs. revert Hlen. generalize (Q s) (levels s b) HF.
  intros qs m. induction 1 as [|[k l] [k' q] m qs Hl _ IH]; intros Hlen; csimpl; [done|].
  destruct Hl as (Hk & Hdll & _). simpl in *. subst k'.
  unfold queue_of. erewrite walk_dllseg; [|done|apply (Hlen (k, q)); by left].
  f_equal. apply IH. intros kq Hin. apply Hlen. by right.
Qed.

Lemma wf_repr b :
  wf b ↔ ∃ Q, repr [] b Q ∧ nonempty (Q Buy) ∧ nonempty (Q Sell).
Proof.
  split.
  - intros (? & ? & ?). by exists (abs b).
  - intros (Q & Hrepr & HB & HA).
    pose proof (repr_abs [] b Q Buy Hrepr) as HeB.
    pose proof (repr_abs [] b Q Sell Hrepr) as HeA.
    split_and!.
    + eapply repr_ext; [|done]. intros []; done.
    + by rewrite HeB.
    + by rewrite HeA.
Qed.

(** * Running the member functions *)

Lemma level_at_ok s k l b :
  PriceMap.find k (levels s b) = Some l → level_at s k b = (inr l, b).
Proof. unfold level_at, mbind, M_bind, get, lift. by intros ->. Qed.

Lemma level_remove_order_ok s k p l l' st' b :
  PriceMap.find k (levels s b) = Some l →
  PriceLevel.remove_order p l (mem b) = Some (l', st') →
  level_remove_order s k p b =
    (inr tt, set_mem st' (set_levels s (PriceMap.set k l' (levels s b)) b)).
Proof.
  intros Hf Hr. unfold level_remove_order.
  erewrite bind_ok by (by apply level_at_ok).
  unfold mbind, M_bind, get, lift. by rewrite Hr.
Qed.

Lemma execute_trade_ok a p qty r b oa op l :
  mem b !! a = Some oa → mem b !! p = Some op → a ≠ p →
  PriceMap.find (Order.price op) (levels (Order.side op) b) = Some l →
  execute_trade a p qty r b =
    (inr (OrderResult.push_trade
            (trade_of oa op qty (timestamp_counter_ b)) r),
     set_stats (wrap64 (trade_count_ b + 1)) (wrap64 (total_volume_ b + qty))
       (set_levels (Order.side op)
          (PriceMap.set (Order.price op)
             (PriceLevel.set_total_quantity
                (wrap64 (PriceLevel.total_quantity l - qty)) l)
             (levels (Order.side op) b))
          (set_mem
             (alter (Order.set_filled_quantity
                       (wrap64 (Order.filled_quantity op + qty))) p
                (alter (Order.set_filled_quantity
                          (wrap64 (Order.filled_quantity oa + qty))) a
                   (mem b))) b))).
Proof.
  intros Ha Hp Hne Hf. unfold execute_trade.
  erewrite bind_ok by (by apply deref_ok).
  erewrite bind_ok by (apply assign_ok; by rewrite Ha).
  erewrite bind_ok.
  2:{ apply deref_ok. rewrite mem_set_mem, list_lookup_alter_ne by done. done. }
  erewrite bind_ok.
  2:{ apply assign_ok. rewrite mem_set_mem, list_lookup_alter_ne by done.
      by rewrite Hp. }
  erewrite bind_ok.
  2:{ apply deref_ok. rewrite !mem_set_mem, list_lookup_alter_eq.
      rewrite list_lookup_alter_ne by done. rewrite Hp. done. }
  simpl Order.side. simpl Order.price.
  erewrite bind_ok by reflexivity.
  rewrite !levels_set_mem, Hf.
  erewrite bind_ok by reflexivity.
  erewrite bind_ok by reflexivity.
  erewrite bind_ok.
  2:{ apply deref_ok. rewrite mem_set_levels, !mem_set_mem.
      rewrite list_lookup_alter_ne by done. rewrite list_lookup_alter_eq, Ha. done. }
  erewrite bind_ok by reflexivity.
  unfold mret, M_ret, trade_of. simpl.
  destruct (Order.side oa), (Order.side op); reflexivity.
Qed.

(** * One passive order of the matching loop *)

Section price_map_rel_r.
Context {V W : Type}.
Implicit Types (m : PriceMap.t V) (n : PriceMap.t W) (k : Z).
Implicit Types (R : Z * V → Z * W → Prop).

Lemma Forall2_find_r R m n k w :
  keyed R → Forall2 R m n → PriceMap.find k n = Some w →
  ∃ v, PriceMap.find k m = Some v ∧ R (k, v) (k, w).
Proof.
  intros HR. induction 1 as [|[k0 v0] [k1 w1] m n He _ IH]; simpl; [done|].
  pose proof (HR _ _ He) as Hk. simpl in Hk. subst k1.
  destruct (Z.eqb_spec k0 k) as [->|Hne]; [|done].
  intros [= ->]. eauto.
Qed.
End price_map_rel_r.

Lemma repr_find_level fl b Q s k q :
  repr fl b Q → PriceMap.find k (Q s) = Some q →
  ∃ l, PriceMap.find k (levels s b) = Some l ∧
       level_ok (mem b) s (k, l) (k, q).
Proof.
  intros Hrepr Hf. destruct (repr_side fl b Q s Hrepr) as [HF _].
  eapply Forall2_find_r; [apply level_ok_keyed|done..].
Qed.

Lemma find_elem_of_slots (qs : queues) k q p :
  PriceMap.find k qs = Some q → p ∈ q → p ∈ slots qs.
Proof.
  intros Hf Hp. apply elem_of_slots. exists (k, q). split; [|done].
  by apply find_Some_elem_of.
Qed.

Lemma find_elem_of_queued (Q : Side → queues) s k q p :
  PriceMap.find k (Q s) = Some q → p ∈ q → p ∈ queued Q.
Proof. intros Hf Hp. apply elem_of_queued. exists s. by eapply find_elem_of_slots. Qed.

Lemma set_levels_set_mem s m st b :
  set_levels s m (set_mem st b) = set_mem st (set_levels s m b).
Proof. by destruct s. Qed.

Lemma remaining_open (o : Order.t) :
  0 ≤ Order.filled_quantity o ≤ Order.quantity o → Order.quantity o < 2 ^ 64 →
  Order.remaining o = Order.quantity o - Order.filled_quantity o.
Proof. intros. unfold Order.remaining. apply wrap64_small. lia. Qed.

Lemma sum_open_frame (st st' : store) q :
  (∀ p, p ∈ q → st' !! p = st !! p) → sum_open st' q = sum_open st q.
Proof. intros H. apply sum_open_strip. intros p Hp. by rewrite H. Qed.

Lemma proj_alter {B} (g : Order.t → B) (st : store) f (p x : nat) :
  (∀ o, g (f o) = g o) → g <$> alter f p st !! x = g <$> st !! x.
Proof.
  intros Hf. rewrite list_lookup_alter. case_decide as Hpx; [subst x|done].
  destruct (st !! p); simpl; [|done]. by rewrite Hf.
Qed.

Lemma not_elem_of_floating_queue (a p x : nat) (q : list nat) :
  x ∉ [a] ++ p :: q → x ≠ a ∧ x ≠ p ∧ x ∉ q.
Proof. rewrite elem_of_app, !elem_of_cons. pose proof (not_elem_of_nil x). naive_solver. Qed.

Lemma sum_open_cons (st : store) p q :
  sum_open st (p :: q) = open_quantity st p + sum_open st q.
Proof. done. Qed.

Lemma open_quantity_lookup (st : store) p o :
  st !! p = Some o →
  open_quantity st p = Order.quantity o - Order.filled_quantity o.
Proof. unfold open_quantity. by intros ->. Qed.

Lemma resting_frame (st st' : store) s k p :
  st' !! p = st !! p → resting st s k p → resting st' s k p.
Proof. intros H. apply resting_strip. by rewrite H. Qed.

Lemma wrap64_sub_wrap (x y : Z) : wrap64 (wrap64 x - y) = wrap64 (x - y).
Proof. apply wrap64_sub_l. Qed.

(** A trade that leaves the passive order partly filled. *)
Lemma repr_trade_keep b Q s k p q2 a oa op l qty :
  repr [a] b Q → PriceMap.find k (Q s) = Some (p :: q2) →
  PriceMap.find k (levels s b) = Some l →
  mem b !! a = Some oa → mem b !! p = Some op →
  0 ≤ Order.filled_quantity oa → 0 < qty →
  qty < Order.quantity op - Order.filled_quantity op →
  repr [a]
    (set_levels s
       (PriceMap.set k
          (PriceLevel.set_total_quantity
             (wrap64 (PriceLevel.total_quantity l - qty)) l)
          (levels s b))
       (set_mem
          (alter (Order.set_filled_quantity
                    (wrap64 (Order.filled_quantity op + qty))) p
             (alter (Order.set_filled_quantity
                       (wrap64 (Order.filled_quantity oa + qty))) a
                (mem b))) b)) Q.
Proof.
  intros Hrepr Hf Hfl Ha Hp Hfa Hqty Hlt.
  destruct (repr_find_level [a] b Q s k _ Hrepr Hf) as (l0 & Hfl0 & Hlev).
  rewrite Hfl in Hfl0. injection Hfl0 as <-.
  pose proof Hlev as (_ & Hdll & Hc & Ht & Hr). simpl in *.
  apply Forall_cons in Hr as [Hrp Hr2]. unfold resting in Hrp. rewrite Hp in Hrp.
  destruct Hrp as (Hside & Hprice & Hf0 & Hfq & Hq64).
  assert (a ∉ p :: q2) as Hanq.
  { intros Hin.
    destruct (repr_floating_not_queued [a] b Q a Hrepr) as [Hn _]; [by left|].
    apply Hn. by eapply find_elem_of_queued. }
  assert (NoDup (p :: q2)) as Hnd.
  { eapply (repr_queue_NoDup [a] b Q s (k, p :: q2)); [done|].
    by apply find_Some_elem_of. }
  apply NoDup_cons in Hnd as [Hp2 Hnd2].
  set (st1 := alter _ p (alter _ a (mem b))).
  assert (∀ x, x ≠ a → x ≠ p → st1 !! x = mem b !! x) as Hfr.
  { intros x ? ?. subst st1. by rewrite !list_lookup_alter_ne. }
  assert (st1 !! p = Some (Order.set_filled_quantity (Order.filled_quantity op + qty) op)) as Hp1.
  { subst st1. rewrite list_lookup_alter_eq, list_lookup_alter_ne by set_solver.
    rewrite Hp. simpl. by rewrite wrap64_small by lia. }
  rewrite set_levels_set_mem.
  eapply repr_ext; [|eapply (repr_update_level [a] [a] b Q s k (p :: q2) (p :: q2)
                       _ st1 Hrepr Hf)].
  - intros s'. destruct (side_cases s s') as [->| ->].
    + rewrite fn_lookup_insert. by apply set_same.
    + rewrite fn_lookup_insert_ne; [done|]. symmetry. apply opp_ne.
  - split_and!; simpl; try done.
    + eapply dllseg_ext; [|exact Hdll]. intros x Hx. subst st1.
      by rewrite !links_alter.
    + rewrite Ht, wrap64_sub_wrap. f_equal.
      rewrite ?sum_open_cons, (open_quantity_lookup _ _ _ Hp1),
        (open_quantity_lookup _ _ _ Hp). simpl.
      rewrite (sum_open_frame (mem b) st1 q2); [lia|].
      intros x Hx. apply Hfr; set_solver.
    + constructor.
      * unfold resting. rewrite Hp1. simpl. split_and!; try done; lia.
      * apply Forall_forall. intros x Hx. rewrite Forall_forall in Hr2.
        eapply resting_frame; [|by apply Hr2]. apply Hfr; set_solver.
  - subst st1. by rewrite !length_alter.
  - intros x Hx.
    pose proof (repr_rest_disjoint [a] b Q s k _ x Hrepr Hf Hx) as Hnot.
    apply not_elem_of_floating_queue in Hnot as (? & ? & ?). by apply Hfr.
  - intros x. subst st1. by rewrite !proj_alter.
  - done.
Qed.

Lemma repr_proj fl b b' Q :
  (∀ s, levels s b' = levels s b) → orders_ b' = orders_ b →
  pool_ b' = pool_ b → repr fl b Q → repr fl b' Q.
Proof.
  intros Hl Ho Hp. pose proof (Hl Buy) as HB. pose proof (Hl Sell) as HA.
  simpl in HB, HA. unfold repr, mem. by rewrite Ho, Hp, HB, HA.
Qed.

Lemma unindexed_proj p b b' : orders_ b' = orders_ b → unindexed p b → unindexed p b'.
Proof. unfold unindexed. by intros ->. Qed.

(** A trade that fills the passive order at the head of its queue, and the
    removal of that order from the book. *)
Lemma retire_after_trade b Q s k p q2 a oa op l tc tv :
  repr [a] b Q → PriceMap.find k (Q s) = Some (p :: q2) →
  PriceMap.find k (levels s b) = Some l →
  mem b !! a = Some oa → mem b !! p = Some op → unindexed a b →
  let qty := Order.quantity op - Order.filled_quantity op in
  let fa := wrap64 (Order.filled_quantity oa + qty) in
  let b1 := set_stats tc tv
              (set_levels s
                 (PriceMap.set k
                    (PriceLevel.set_total_quantity
                       (wrap64 (PriceLevel.total_quantity l - qty)) l)
                    (levels s b))
                 (set_mem
                    (alter (Order.set_filled_quantity
                              (wrap64 (Order.filled_quantity op + qty))) p
                       (alter (Order.set_filled_quantity fa) a (mem b))) b)) in
  ∃ b2,
    retire s k p b1 = (inr tt, b2) ∧
    repr [a] b2 (<[s := PriceMap.set k q2 (Q s)]> Q) ∧
    mem b2 !! a = Some (Order.set_filled_quantity fa oa) ∧
    unindexed a b2 ∧
    (∀ x, static <$> mem b2 !! x = static <$> mem b !! x) ∧
    next_id_ b2 = next_id_ b ∧
    timestamp_counter_ b2 = timestamp_counter_ b ∧
    Order.next op = head q2 ∧
    orders_ b2 = delete (Order.id op) (orders_ b) ∧
    OrderPool.free_count_ (pool_ b2) = OrderPool.free_count_ (pool_ b) + 1 ∧
    trade_count_ b2 = tc ∧ total_volume_ b2 = tv ∧
    (∀ x, x ≠ a → x ≠ p → strip <$> mem b2 !! x = strip <$> mem b !! x).
Proof.
  intros Hrepr Hf Hfl Ha Hp Hun qty fa b1.
  destruct (repr_find_level [a] b Q s k _ Hrepr Hf) as (l0 & Hfl0 & Hlev).
  rewrite Hfl in Hfl0. injection Hfl0 as <-.
  pose proof Hlev as (_ & Hdll & Hc & Ht & Hr). simpl in *.
  apply Forall_cons in Hr as [Hrp Hr2]. unfold resting in Hrp. rewrite Hp in Hrp.
  destruct Hrp as (Hside & Hprice & Hf0 & Hfq & Hq64).
  assert (a ∉ p :: q2) as Hanq.
  { intros Hin.
    destruct (repr_floating_not_queued [a] b Q a Hrepr) as [Hn _]; [by left|].
    apply Hn. by eapply find_elem_of_queued. }
  assert (a ≠ p) as Hap by (intros ->; apply Hanq; by left).
  assert (a ∉ q2) as Haq2 by (intros ?; apply Hanq; by right).
  assert (NoDup (p :: q2)) as Hnd.
  { eapply (repr_queue_NoDup [a] b Q s (k, p :: q2)); [done|].
    by apply find_Some_elem_of. }
  pose proof Hnd as [Hp2 Hnd2]%NoDup_cons.
  set (l1 := PriceLevel.set_total_quantity _ l) in *.
  set (st1 := alter _ p (alter _ a (mem b))) in *.
  set (op1 := Order.set_filled_quantity (Order.quantity op) op).
  assert (∀ x, x ≠ a → x ≠ p → st1 !! x = mem b !! x) as Hfr1.
  { intros x ? ?. subst st1. by rewrite !list_lookup_alter_ne. }
  assert (st1 !! p = Some op1) as Hp1.
  { subst st1 op1. rewrite list_lookup_alter_eq, list_lookup_alter_ne by done.
    rewrite Hp. simpl. rewrite wrap64_small by (subst qty; lia).
    do 2 f_equal. subst qty. lia. }
  assert (st1 !! a = Some (Order.set_filled_quantity fa oa)) as Ha1.
  { subst st1. rewrite list_lookup_alter_ne, list_lookup_alter_eq by done.
    by rewrite Ha. }
  assert (dll st1 None (PriceLevel.head l1) ([] ++ p :: q2) (PriceLevel.tail l1)) as Hdll1.
  { eapply dllseg_ext; [|exact Hdll]. intros x Hx. subst st1.
    by rewrite !links_alter. }
  destruct (level_remove_order_spec st1 l1 [] p q2 op1 Hdll1 Hnd Hp1)
    as (l2 & st2 & Hrm & Hdll2 & Hpr2 & Hc2 & Ht2 & Hlen2 & Hstrip2 & Hp2' & Hpt2).
  simpl in Hdll2, Hpt2.
  assert (Order.next op = head q2) as Hnext.
  { destruct Hdll as [_ Hd]. rewrite Hp in Hd. destruct Hd as [_ Hd].
    apply dllseg_head in Hd. rewrite Hd. by destruct q2. }
  assert (∀ x, x ∉ p :: q2 → st2 !! x = st1 !! x) as Hfr2.
  { intros x Hx. rewrite Hpt2 by (intros ->; apply Hx; by left).
    rewrite decide_False; [done|]. intros Hh. apply Hx. right.
    by apply head_Some_elem_of. }
  (* the book after the removal, before the index is touched *)
  set (b2 := set_mem st2 (set_levels s (PriceMap.set k l2 (levels s b1)) b1)).
  assert (level_remove_order s k p b1 = (inr tt, b2)) as Hrun1.
  { assert (mem b1 = st1) as Hmem1 by (subst b1; by destruct s).
    apply (level_remove_order_ok s k p l1); [|by rewrite Hmem1].
    subst b1. replace (levels s (set_stats tc tv _)) with (PriceMap.set k l1 (levels s b))
      by (by destruct s).
    rewrite find_set, decide_True by done. by rewrite Hfl. }
  assert (repr [p; a] b2 (<[s := PriceMap.set k q2 (Q s)]> Q)) as Hrepr2.
  { eapply (repr_proj _ (set_mem st2 (set_levels s (PriceMap.set k l2 (levels s b)) b))).
    - intros s'. subst b2 b1. destruct s, s'; simpl; by rewrite ?set_set.
    - subst b2 b1. by destruct s.
    - subst b2 b1. by destruct s.
    - eapply (repr_update_level [a] [p; a] b Q s k (p :: q2) q2 l2 st2 Hrepr Hf).
      + split_and!; simpl; try done.
        * rewrite Hc2. subst l1. simpl. rewrite Hc, wrap32_sub_l. f_equal. lia.
        * rewrite Ht2. subst l1 op1. simpl. rewrite Ht.
          unfold Order.remaining. simpl. rewrite Z.sub_diag.
          rewrite wrap64_0, Z.sub_0_r, wrap64_idemp, wrap64_sub_l.
          f_equal. rewrite (open_quantity_lookup _ _ _ Hp).
          rewrite (sum_open_strip (mem b) st2 q2); [subst qty; lia|].
          intros x Hx. rewrite Hstrip2, Hfr1; [done|set_solver..].
        * apply Forall_forall. intros x Hx. rewrite Forall_forall in Hr2.
          eapply resting_strip; [|by apply Hr2].
          rewrite Hstrip2, Hfr1; [done|set_solver..].
      + rewrite Hlen2. subst st1. by rewrite !length_alter.
      + intros x Hx.
        pose proof (repr_rest_disjoint [a] b Q s k _ x Hrepr Hf Hx) as Hnot.
        apply not_elem_of_floating_queue in Hnot as (? & ? & ?).
        rewrite Hfr2 by (rewrite not_elem_of_cons; done). by apply Hfr1.
      + intros x. 
        assert (Order.id <$> st2 !! x = Order.id <$> st1 !! x) as ->.
        { pose proof (Hstrip2 x) as Hs.
          destruct (st2 !! x) as [[]|], (st1 !! x) as [[]|]; simpl in *; by simplify_eq. }
        subst st1. by rewrite !proj_alter.
      + by rewrite (Permutation_swap). }
  assert (mem b2 = st2) as Hmem2 by done.
  assert (orders_ b2 = orders_ b) as Hord2 by (subst b2 b1; by destruct s).
  assert (next_id_ b2 = next_id_ b ∧ timestamp_counter_ b2 = timestamp_counter_ b)
    as [Hnid2 Hts2] by (subst b2 b1; by destruct s).
  set (op2 := Order.set_next None (Order.set_prev None op1)) in *.
  set (b3 := set_orders_ (delete (Order.id op2) (orders_ b2)) b2).
  pose proof (repr_index_delete _ b2 _ (Order.id op2) Hrepr2) as Hrepr3.
  fold b3 in Hrepr3.
  assert (unindexed p b3) as Hun3.
  { eapply unindexed_delete; [done|]. by rewrite Hmem2. }
  set (b4 := set_mem (alter (Order.set_status Filled) p (mem b3)) b3).
  assert (repr [p; a] b4 (<[s := PriceMap.set k q2 (Q s)]> Q)) as Hrepr4.
  { apply repr_assign_floating; [done|by left|by right]. }
  assert (unindexed p b4) as Hun4 by done.
  destruct (repr_deallocate [a] b4 _ p Hrepr4 Hun4) as [Hrun5 Hrepr5].
  set (b5 := set_pool_ _ b4) in *.
  assert (mem b5 = alter (Order.set_status Filled) p st2) as Hmem5 by done.
  assert (orders_ b5 = delete (Order.id op2) (orders_ b)) as Hord5
    by (by rewrite <- Hord2).
  assert (next_id_ b5 = next_id_ b ∧ timestamp_counter_ b5 = timestamp_counter_ b)
    as [Hnid5 Hts5] by (by rewrite <- Hnid2, <- Hts2).
  exists b5. split_and!; [|exact Hrepr5|..].
  - rewrite <- Hrun5. unfold retire.
    erewrite bind_ok by exact Hrun1.
    erewrite bind_ok by (apply deref_ok; rewrite Hmem2; exact Hp2').
    erewrite bind_ok by reflexivity.
    erewrite bind_ok by reflexivity.
    erewrite bind_ok; [reflexivity|].
    apply assign_ok. exists op2. exact Hp2'.
  - rewrite Hmem5, list_lookup_alter_ne by done.
    rewrite Hfr2 by done. done.
  - unfold unindexed. rewrite Hord5. by apply map_Forall_delete.
  - intros x. rewrite Hmem5, proj_alter by done.
    assert (static <$> st2 !! x = static <$> st1 !! x) as ->.
    { pose proof (Hstrip2 x) as Hs.
      destruct (st2 !! x) as [[]|], (st1 !! x) as [[]|]; simpl in *; by simplify_eq. }
    subst st1. by rewrite !proj_alter.
  - done.
  - done.
  - done.
  - exact Hord5.
  - subst b5 b4 b3 b2 b1. simpl. by destruct s.
  - subst b5 b4 b3 b2 b1. by destruct s.
  - subst b5 b4 b3 b2 b1. by destruct s.
  - intros x Hxa Hxp. rewrite Hmem5, list_lookup_alter_ne by done.
    rewrite Hstrip2. by rewrite Hfr1.
Qed.

(** * Accounting of the matching loops *)

Lemma volume_app ts1 ts2 : volume (ts1 ++ ts2) = volume ts1 + volume ts2.
Proof. induction ts1 as [|t ts1 IH]; simpl; [done|]. rewrite IH. lia. Qed.

Lemma trade_of_quantity oa op qty ts :
  Trade.quantity (trade_of oa op qty ts) = qty ∧
  Trade.timestamp (trade_of oa op qty ts) = ts.
Proof. unfold trade_of. by destruct (Order.side oa). Qed.

Lemma ident_static (st st' : store) p :
  static <$> st' !! p = static <$> st !! p → ident st' p = ident st p.
Proof.
  unfold ident.
  destruct (st' !! p) as [[]|], (st !! p) as [[]|]; simpl; intros;
    by simplify_eq.
Qed.

Lemma Forall2_impl_strong {A B} (R R' : A → B → Prop) l k :
  Forall2 R l k → (∀ x y, x ∈ l → R x y → R' x y) → Forall2 R' l k.
Proof.
  induction 1 as [|x y l k Hxy HF IH]; intros Himp; constructor.
  - apply Himp; [by left|done].
  - apply IH. intros x' y' Hx'. apply Himp. by right.
Qed.

Lemma elem_of_prefix {A} (l1 l2 : list A) x :
  l1 `prefix_of` l2 → x ∈ l1 → x ∈ l2.
Proof. intros [k ->] Hx. apply elem_of_app. by left. Qed.

Lemma strip_fill (st st' : store) qty x :
  strip <$> st' !! x = strip <$> st !! x →
  strip <$> (fill qty <$> st' !! x) = strip <$> (fill qty <$> st !! x).
Proof.
  destruct (st' !! x) as [[]|], (st !! x) as [[]|]; simpl; intros H;
    try done.
  unfold strip, fill in *. simpl in *. by simplify_eq.
Qed.

Lemma sweep_nil a b f : sweep a b b [] [] [] f f.
Proof.
  unfold sweep. simpl. split_and!; try done; try lia.
  - intros H. rewrite Z.add_0_r. by rewrite wrap64_small.
  - intros H. rewrite Z.add_0_r. by rewrite wrap64_small.
Qed.

Lemma sweep_app a b b1 b2 ps1 rs2 ps2 ts1 ts2 f f1 f2 :
  sweep a b b1 ps1 ps1 ts1 f f1 → sweep a b1 b2 rs2 ps2 ts2 f1 f2 →
  (∀ x, static <$> mem b1 !! x = static <$> mem b !! x) →
  timestamp_counter_ b1 = timestamp_counter_ b →
  a ∉ ps2 → (∀ x, x ∈ ps2 → x ∉ ps1) →
  sweep a b b2 (ps1 ++ rs2) (ps1 ++ ps2) (ts1 ++ ts2) f f2.
Proof.
  intros (H1 & H2 & H3 & H4 & H5 & H6 & H7 & H8 & H9 & H10 & H11)
         (G1 & G2 & G3 & G4 & G5 & G6 & G7 & G8 & G9 & G10 & G11)
         Hst Hts Ha Hdis.
  pose proof (Forall2_length _ _ _ H1) as Hlen1.
  assert (Hopen : ∀ x, x ∈ ps2 →
            open_quantity (mem b1) x = open_quantity (mem b) x).
  { intros x Hx. apply open_quantity_strip. apply H10; [|by apply Hdis].
    by intros ->. }
  unfold sweep. split_and!.
  - apply Forall2_app; [done|].
    eapply Forall2_impl_strong; [exact G1|]. intros x t Hx [Hq Ht].
    rewrite <- Hopen, <- Hts by done. done.
  - rewrite length_app, take_app_add' by lia. apply Forall2_app.
    + by rewrite Hlen1, take_ge in H2 by lia.
    + eapply Forall2_impl_strong; [exact G2|]. intros x t Hx Hq.
      rewrite <- Hopen; [done|]. by eapply elem_of_prefix.
  - by apply prefix_app.
  - rewrite !length_app. lia.
  - rewrite volume_app. lia.
  - intros Hr. rewrite G6 by (rewrite H6 by done; apply wrap64_range).
    rewrite H6 by done. rewrite wrap64_add_l, length_app. f_equal. lia.
  - intros Hr. rewrite G7 by (rewrite H7 by done; apply wrap64_range).
    rewrite H7 by done. rewrite wrap64_add_l, volume_app. f_equal. lia.
  - intros oid. rewrite G8, H8, fmap_app.
    assert (Hid : ident (mem b1) <$> rs2 = ident (mem b) <$> rs2).
    { apply list_fmap_ext. intros i x _. apply ident_static, Hst. }
    rewrite Hid.
    destruct (decide (oid ∈ ident (mem b) <$> rs2)) as [Hin|Hin].
    + rewrite decide_True; [done|]. apply elem_of_app. by right.
    + destruct (decide (oid ∈ ident (mem b) <$> ps1)) as [Hin1|Hin1].
      * rewrite decide_True; [done|]. apply elem_of_app. by left.
      * rewrite decide_False; [done|]. intros [?|?]%elem_of_app; done.
  - rewrite G9, H9, length_app. lia.
  - intros x Hxa Hx. apply not_elem_of_app in Hx as [Hx1 Hx2].
    rewrite G10 by done. by apply H10.
  - intros x Hx Hxr. apply not_elem_of_app in Hxr as [Hx1 Hx2].
    apply elem_of_app in Hx as [Hx|Hx]; [done|].
    destruct (G11 x Hx Hx2) as (tr & Hl & Hlt & Heq).
    exists tr. split_and!.
    + by rewrite last_app, Hl.
    + by rewrite <- Hopen.
    + rewrite Heq. apply strip_fill. apply H10; [by intros ->|done].
Qed.

(** One trade: the resting order in slot [p] is filled and leaves the book
    ([retired]), or it is filled in part and stays. *)
Lemma sweep_one a b b' p tr f qty (retired : bool) :
  Trade.quantity tr = qty → Trade.timestamp tr = timestamp_counter_ b →
  0 < qty ≤ open_quantity (mem b) p →
  (retired → qty = open_quantity (mem b) p) →
  trade_count_ b' = wrap64 (trade_count_ b + 1) →
  total_volume_ b' = wrap64 (total_volume_ b + qty) →
  orders_ b' = (if retired then delete (ident (mem b) p) (orders_ b)
                else orders_ b) →
  OrderPool.free_count_ (pool_ b')
    = OrderPool.free_count_ (pool_ b) + (if retired then 1 else 0) →
  (∀ x, x ≠ a → x ≠ p → strip <$> mem b' !! x = strip <$> mem b !! x) →
  (retired = false →
   qty < open_quantity (mem b) p ∧
   strip <$> mem b' !! p = strip <$> (fill qty <$> mem b !! p)) →
  sweep a b b' (if retired then [p] else []) [p] [tr] f (f + qty).
Proof.
  intros Hq Ht Hqty Hret Htc Htv Hord Hfc Hstrip Hpart. unfold sweep.
  split_and!.
  - constructor; [|constructor]. by rewrite Hq.
  - destruct retired; simpl; [|constructor].
    constructor; [|constructor]. rewrite Hq. by apply Hret.
  - destruct retired; [done|apply prefix_nil].
  - destruct retired; simpl; lia.
  - simpl. lia.
  - intros _. by rewrite Htc.
  - intros _. rewrite Htv. simpl. f_equal. lia.
  - intros oid. rewrite Hord.
    destruct (decide (oid ∈ _)) as [Hin|Hin]; destruct retired;
      try (by apply elem_of_nil in Hin); try done.
    + apply list_elem_of_singleton in Hin as ->. apply lookup_delete_eq.
    + apply lookup_delete_ne. intros <-. apply Hin.
      by apply list_elem_of_singleton.
  - rewrite Hfc. by destruct retired.
  - intros x Hxa Hxp. apply Hstrip; [done|].
    intros ->. apply Hxp. by left.
  - intros x ->%list_elem_of_singleton Hxr. destruct retired.
    + destruct Hxr. by left.
    + destruct Hpart as [Hlt Heq]; [done|]. exists tr. by rewrite Hq.
Qed.

(** * The inner matching loop *)

Lemma add_trades_nil r : add_trades [] r = r.
Proof. destruct r. unfold add_trades. simpl. by rewrite app_nil_r. Qed.

Lemma add_trades_push tr ts r :
  add_trades ts (OrderResult.push_trade tr r) = add_trades (tr :: ts) r.
Proof. unfold add_trades, OrderResult.push_trade. simpl. by rewrite <- (assoc (++)). Qed.

Lemma traded_static (st st' : store) oa p tr :
  static <$> st' !! p = static <$> st !! p →
  traded st' oa p tr → traded st oa p tr.
Proof.
  unfold traded. intros H.
  destruct (st !! p) as [o|], (st' !! p) as [o'|]; simpl in H; try done.
  unfold static in H. injection H as Hid Hpr _ _ _. by rewrite Hid, Hpr.
Qed.

Lemma traded_trade_of (st : store) oa oa' op p qty ts :
  st !! p = Some op → Order.side oa' = Order.side oa → Order.id oa' = Order.id oa →
  traded st oa p (trade_of oa' op qty ts).
Proof.
  intros Hp Hs Hi. unfold traded, trade_of. rewrite Hp, Hs, Hi.
  by destruct (Order.side oa).
Qed.

Lemma match_level_done fuel s k a passive r b oa :
  mem b !! a = Some oa → Order.remaining oa = 0 →
  match_level fuel s k a passive r b = (inr r, b).
Proof.
  intros Ha Hrem. destruct fuel, passive as [p|]; simpl; try done.
  all: erewrite bind_ok by (by apply deref_ok); by rewrite Hrem.
Qed.

Lemma match_level_unfold fuel s k a p r b oa op :
  mem b !! a = Some oa → 0 < Order.remaining oa → mem b !! p = Some op →
  match_level (S fuel) s k a (Some p) r b =
    (r1 ← execute_trade a p (Z.min (Order.remaining oa) (Order.remaining op)) r;
     po ← deref p;
     (if Order.is_filled po then retire s k p else mret tt);;
     match_level fuel s k a (Order.next op) r1) b.
Proof.
  intros Ha Hrem Hp. simpl.
  erewrite bind_ok by (by apply deref_ok).
  destruct (Z.ltb_spec 0 (Order.remaining oa)); [|lia].
  erewrite bind_ok by (by apply deref_ok). done.
Qed.

Lemma repr_set_stats fl tc tv b Q : repr fl b Q → repr fl (set_stats tc tv b) Q.
Proof. done. Qed.

Lemma insert_set_set (Q : Side → queues) s k q q' s' :
  (<[s := PriceMap.set k q (PriceMap.set k q' (Q s))]> (<[s := PriceMap.set k q' (Q s)]> Q)) s'
  = (<[s := PriceMap.set k q (Q s)]> Q) s'.
Proof.
  destruct (side_cases s s') as [->| ->].
  - by rewrite !fn_lookup_insert, set_set.
  - by rewrite !fn_lookup_insert_ne by (symmetry; apply opp_ne).
Qed.

Lemma insert_set_same (Q : Side → queues) s k q s' :
  PriceMap.find k (Q s) = Some q →
  (<[s := PriceMap.set k q (Q s)]> Q) s' = Q s'.
Proof.
  intros Hf. destruct (side_cases s s') as [->| ->].
  - by rewrite fn_lookup_insert, set_same.
  - by rewrite fn_lookup_insert_ne by (symmetry; apply opp_ne).
Qed.

Section match_level.
Variables (s : Side) (k : Z) (a : nat) (oa : Order.t).
Hypothesis Hqa : Order.quantity oa < 2 ^ 64.

Lemma match_level_spec q : ∀ fuel b Q r f,
  repr [a] b Q → PriceMap.find k (Q s) = Some q →
  mem b !! a = Some (Order.set_filled_quantity f oa) →
  0 ≤ f ≤ Order.quantity oa →
  unindexed a b → (length q ≤ fuel)%nat →
  ∃ n n' f' b' ts,
    match_level fuel s k a (head q) r b = (inr (add_trades ts r), b') ∧
    repr [a] b' (<[s := PriceMap.set k (drop n q) (Q s)]> Q) ∧
    mem b' !! a = Some (Order.set_filled_quantity f' oa) ∧
    f ≤ f' ≤ Order.quantity oa ∧
    unindexed a b' ∧
    (drop n q = [] ∨ f' = Order.quantity oa) ∧
    (n' = n ∨ (n' = S n ∧ f' = Order.quantity oa)) ∧
    (n' ≤ length q)%nat ∧
    (∀ x, static <$> mem b' !! x = static <$> mem b !! x) ∧
    next_id_ b' = next_id_ b ∧
    timestamp_counter_ b' = timestamp_counter_ b ∧
    Forall2 (traded (mem b) oa) (take n' q) ts ∧
    sweep a b b' (take n q) (take n' q) ts f f'.
Proof.
  induction q as [|p q2 IH]; intros fuel b Q r f Hrepr Hf Ha Hfr Hun Hfuel.
  - exists 0%nat, 0%nat, f, b, []. rewrite add_trades_nil.
    split_and!; [by destruct fuel| |done|lia|lia|done|by left|by left|done
                |done|done|done|constructor|apply sweep_nil].
    eapply repr_ext; [|done]. intros s'. symmetry. by apply insert_set_same.
  - simpl head.
    destruct (repr_find_level [a] b Q s k _ Hrepr Hf) as (l & Hfl & Hlev).
    pose proof Hlev as (_ & Hdll & Hc & Ht & Hr). simpl in Hdll, Hr.
    pose proof Hdll as [_ Hd].
    destruct (mem b !! p) as [op|] eqn:Hp; [|done]. destruct Hd as [Hpv Hd].
    apply Forall_cons in Hr as [Hrp Hr2]. unfold resting in Hrp. rewrite Hp in Hrp.
    destruct Hrp as (Hside & Hprice & Hf0 & Hfq & Hq64).
    assert (a ≠ p) as Hap.
    { intros Heq.
      destruct (repr_floating_not_queued [a] b Q a Hrepr) as [Hn _]; [by left|].
      apply Hn. eapply find_elem_of_queued; [done|]. rewrite Heq. by left. }
    set (oaf := Order.set_filled_quantity f oa) in *.
    assert (Order.remaining oaf = Order.quantity oa - f) as Hrema.
    { unfold Order.remaining. simpl. apply wrap64_small. lia. }
    assert (Order.remaining op = Order.quantity op - Order.filled_quantity op) as Hremp.
    { apply remaining_open; lia. }
    destruct (decide (f = Order.quantity oa)) as [Hfull|Hnotfull].
    { (* the aggressive order is already filled *)
      exists 0%nat, 0%nat, f, b, []. rewrite add_trades_nil.
      split_and!; [| |done|lia|lia|done|by right|by left|simpl; lia|done
                  |done|done|constructor|apply sweep_nil].
      + eapply match_level_done; [done|]. lia.
      + eapply repr_ext; [|done]. intros s'. symmetry. by apply insert_set_same. }
    destruct fuel as [|fuel]; [simpl in Hfuel; lia|].
    set (qty := Z.min (Order.quantity oa - f)
                  (Order.quantity op - Order.filled_quantity op)).
    set (st1 := alter (Order.set_filled_quantity
                         (wrap64 (Order.filled_quantity op + qty))) p
                  (alter (Order.set_filled_quantity
                            (wrap64 (Order.filled_quantity oaf + qty))) a
                     (mem b))).
    set (l1 := PriceLevel.set_total_quantity
                 (wrap64 (PriceLevel.total_quantity l - qty)) l).
    set (b1 := set_stats (wrap64 (trade_count_ b + 1))
                 (wrap64 (total_volume_ b + qty))
                 (set_levels s (PriceMap.set k l1 (levels s b))
                    (set_mem st1 b))).
    set (tr := trade_of oaf op qty (timestamp_counter_ b)).
    assert (execute_trade a p qty r b = (inr (OrderResult.push_trade tr r), b1))
      as Hexec.
    { subst b1 l1 st1 tr. rewrite <- Hside at 1 2. rewrite <- Hprice at 1.
      eapply (execute_trade_ok a p qty r b oaf op l); try done.
      by rewrite Hside, Hprice. }
    assert (mem b1 = st1) as Hmem1 by (subst b1; by destruct s).
    assert (traded (mem b) oa p tr) as Htr by (by apply traded_trade_of).
    set (op1 := Order.set_filled_quantity (Order.filled_quantity op + qty) op).
    assert (mem b1 !! p = Some op1) as Hp1.
    { rewrite Hmem1. subst st1 op1. rewrite list_lookup_alter_eq.
      rewrite list_lookup_alter_ne, Hp by done. simpl.
      rewrite wrap64_small; [done|]. subst qty. lia. }
    assert (∀ R,
      ((if Order.is_filled op1 then retire s k p else mret tt);;
       match_level fuel s k a (Order.next op)
         (OrderResult.push_trade tr r)) b1 = R →
      match_level (S fuel) s k a (Some p) r b = R) as Hstep.
    { intros R <-. erewrite match_level_unfold; [|done|lia|done].
      rewrite Hrema, Hremp. fold qty. erewrite bind_ok by exact Hexec.
      by erewrite bind_ok by (apply deref_ok; exact Hp1). }
    destruct (decide (Order.quantity op - Order.filled_quantity op
                      ≤ Order.quantity oa - f)) as [Hle|Hgt].
    + (* the passive order is filled and leaves the book *)
      assert (qty = Order.quantity op - Order.filled_quantity op) as Hqty
        by (subst qty; lia).
      assert (Order.is_filled op1 = true) as Hfilled.
      { unfold Order.is_filled. subst op1. simpl. apply Z.leb_le. lia. }
      destruct (retire_after_trade b Q s k p q2 a oaf op l
                  (wrap64 (trade_count_ b + 1)) (wrap64 (total_volume_ b + qty))
                  Hrepr Hf Hfl Ha Hp Hun)
        as (b2 & Hret & Hrepr2 & Ha2 & Hun2 & Hst2 & Hnid2 & Hts2 & Hnext
            & Hord2 & Hfc2 & Htc2 & Htv2 & Hstrip2).
      rewrite <- Hqty in Hret. fold st1 l1 b1 in Hret.
      rewrite <- Hqty in Ha2. simpl in Ha2.
      rewrite wrap64_small in Ha2 by lia.
      destruct (IH fuel b2 _ (OrderResult.push_trade tr r) (f + qty) Hrepr2)
        as (n2 & n2' & f' & b' & ts & Hrun & Hrepr' & Ha' & Hf' & Hun' & Hend
            & Hn & Hlen & Hst' & Hnid' & Hts' & Htrs & Hsw).
      { by rewrite fn_lookup_insert, find_set, decide_True, Hf. }
      { done. }
      { lia. }
      { done. }
      { simpl in Hfuel. lia. }
      exists (S n2), (S n2'), f', b', (tr :: ts).
      split_and!; [| |done|lia|lia|done|exact Hend| |simpl; lia| |congruence
                  |congruence| |].
      * simpl head. apply Hstep. rewrite Hfilled.
        erewrite bind_ok by exact Hret.
        by rewrite Hnext, Hrun, add_trades_push.
      * eapply repr_ext; [|done]. intros s'. rewrite (fn_lookup_insert Q s).
        apply insert_set_set.
      * destruct Hn as [->|[-> ->]]; [by left|by right].
      * intros x. by rewrite Hst', Hst2.
      * simpl. constructor; [done|].
        eapply Forall2_impl; [done|]. intros x t. apply traded_static.
        apply Hst2.
      * assert (NoDup (p :: q2)) as [Hpq2 _]%NoDup_cons.
        { eapply (repr_queue_NoDup [a] b Q s (k, p :: q2)); [done|].
          by apply find_Some_elem_of. }
        assert (a ∉ q2) as Haq2.
        { intros Hin.
          destruct (repr_floating_not_queued [a] b Q a Hrepr) as [Hna _];
            [by left|].
          apply Hna. eapply find_elem_of_queued; [done|]. by right. }
        assert (open_quantity (mem b) p = qty) as Hopen
          by (by rewrite (open_quantity_lookup _ _ _ Hp)).
        assert (ident (mem b) p = Order.id op) as Hident
          by (unfold ident; by rewrite Hp).
        destruct (trade_of_quantity oaf op qty (timestamp_counter_ b))
          as [Htq Htt]. fold tr in Htq, Htt.
        apply (sweep_app a b b2 b' [p] (take n2 q2) (take n2' q2) [tr] ts
                 f (f + qty) f'); try done.
        -- apply (sweep_one a b b2 p tr f qty true); try done; try lia.
           by rewrite Hident.
        -- intros Hin. apply Haq2.
           eapply elem_of_sublist; [exact Hin|apply sublist_take].
        -- intros x Hx ->%list_elem_of_singleton. apply Hpq2.
           eapply elem_of_sublist; [exact Hx|apply sublist_take].
    + (* the aggressive order is filled; the passive order stays *)
      assert (qty = Order.quantity oa - f) as Hqty by (subst qty; lia).
      assert (Order.is_filled op1 = false) as Hfilled.
      { unfold Order.is_filled. subst op1. simpl. apply Z.leb_gt. lia. }
      assert (mem b1 !! a = Some (Order.set_filled_quantity (Order.quantity oa) oa))
        as Ha1.
      { rewrite Hmem1. subst st1. rewrite list_lookup_alter_ne by done.
        rewrite list_lookup_alter_eq, Ha. simpl.
        rewrite wrap64_small by lia.
        by replace (f + qty) with (Order.quantity oa) by lia. }
      exists 0%nat, 1%nat, (Order.quantity oa), b1, [tr].
      split_and!; [| |done|lia|lia| |by right|by right|simpl; lia
                  | |subst b1; by destruct s|subst b1; by destruct s| |].
      * simpl head. apply Hstep. rewrite Hfilled.
        erewrite bind_ok by reflexivity.
        eapply match_level_done; [exact Ha1|].
        unfold Order.remaining. simpl. by rewrite Z.sub_diag.
      * eapply repr_ext; [intros s'; symmetry; by apply insert_set_same|].
        apply repr_set_stats. subst b1 l1 st1.
        eapply (repr_trade_keep b Q s k p q2 a oaf op l qty); try done;
          subst oaf; simpl; lia.
      * eapply unindexed_proj; [|exact Hun]. subst b1. by destruct s.
      * intros x. rewrite Hmem1. subst st1. by rewrite !proj_alter.
      * simpl. rewrite take_0. by repeat constructor.
      * destruct (trade_of_quantity oaf op qty (timestamp_counter_ b))
          as [Htq Htt]. fold tr in Htq, Htt.
        replace (Order.quantity oa) with (f + qty) by lia.
        apply (sweep_one a b b1 p tr f qty false); try done.
        -- rewrite (open_quantity_lookup _ _ _ Hp). lia.
        -- subst b1. by destruct s.
        -- subst b1. simpl. destruct s; simpl; lia.
        -- intros x Hxa Hxp. rewrite Hmem1. subst st1.
           by rewrite !list_lookup_alter_ne.
        -- intros _. rewrite (open_quantity_lookup _ _ _ Hp).
           split; [lia|]. rewrite Hmem1. subst st1.
           rewrite list_lookup_alter_eq, list_lookup_alter_ne by done.
           rewrite Hp. simpl. unfold fill.
           by rewrite wrap64_small by lia.
Qed.
End match_level.

(** * The outer matching loops *)

Section iterators.
Context {V W : Type}.
Implicit Types (m : PriceMap.t V) (n : PriceMap.t W) (k : Z).

Lemma begin_keys m n : m.*1 = n.*1 → PriceMap.begin m = PriceMap.begin n.
Proof.
  unfold PriceMap.begin. destruct m as [|[]], n as [|[]]; csimpl; congruence.
Qed.

Lemma rbegin_keys m n : m.*1 = n.*1 → PriceMap.rbegin m = PriceMap.rbegin n.
Proof.
  unfold PriceMap.rbegin. intros H. by rewrite <- !fmap_last, H.
Qed.

Lemma succ_keys k m n : m.*1 = n.*1 → PriceMap.succ k m = PriceMap.succ k n.
Proof.
  revert n. induction m as [|[k0 v0] m IH]; intros [|[k1 w1] n]; csimpl;
    try done.
  intros [= -> H]. destruct (k <? k1); [done|]. by apply IH.
Qed.

Lemma pred_keys k m n : m.*1 = n.*1 → PriceMap.pred k m = PriceMap.pred k n.
Proof.
  revert n. induction m as [|[k0 v0] m IH]; intros [|[k1 w1] n]; csimpl;
    try done.
  intros [= -> H]. by rewrite (IH n H).
Qed.

Lemma succ_begin k m :
  Forall (Z.lt k) m.*1 → PriceMap.succ k m = PriceMap.begin m.
Proof.
  destruct m as [|[k0 v0] m]; csimpl; [done|].
  intros [Hlt _]%Forall_cons. by destruct (Z.ltb_spec k k0); [|lia].
Qed.
End iterators.

Lemma match_asks_done fuel it a r b oa :
  mem b !! a = Some oa → Order.remaining oa = 0 →
  match_against_asks_loop fuel it a r b = (inr r, b).
Proof.
  intros Ha Hrem. destruct fuel, it as [k|]; simpl; try done.
  all: erewrite bind_ok by (by apply deref_ok); by rewrite Hrem.
Qed.

Lemma match_bids_done fuel it a r b oa :
  mem b !! a = Some oa → Order.remaining oa = 0 →
  match_against_bids_loop fuel it a r b = (inr r, b).
Proof.
  intros Ha Hrem. destruct fuel, it as [k|]; simpl; try done.
  all: erewrite bind_ok by (by apply deref_ok); by rewrite Hrem.
Qed.

(** A limit order stops at the first level that its price does not reach. *)
Lemma match_asks_break fuel k a r b oa :
  mem b !! a = Some oa → Order.type oa = Limit → Order.price oa < k →
  match_against_asks_loop fuel (Some k) a r b = (inr r, b).
Proof.
  intros Ha Hty Hlt. destruct fuel; simpl.
  all: erewrite bind_ok by (by apply deref_ok).
  all: destruct (0 <? Order.remaining oa); [|done].
  all: rewrite bool_decide_true by done.
  all: by destruct (Z.ltb_spec (Order.price oa) k); [|lia].
Qed.

Lemma match_bids_break fuel k a r b oa :
  mem b !! a = Some oa → Order.type oa = Limit → k < Order.price oa →
  match_against_bids_loop fuel (Some k) a r b = (inr r, b).
Proof.
  intros Ha Hty Hlt. destruct fuel; simpl.
  all: erewrite bind_ok by (by apply deref_ok).
  all: destruct (0 <? Order.remaining oa); [|done].
  all: rewrite bool_decide_true by done.
  all: by destruct (Z.ltb_spec k (Order.price oa)); [|lia].
Qed.

Lemma shrunk_refl (qs : queues) : StronglySorted Z.lt qs.*1 → shrunk qs qs.
Proof.
  intros Hs. apply Forall_forall. intros [k q] Hin. exists q. split; [|done].
  simpl. induction qs as [|[k0 q0] qs IH]; [by apply elem_of_nil in Hin|].
  csimpl in *. apply StronglySorted_cons in Hs as [Hlt Hs].
  apply elem_of_cons in Hin as [[= -> ->]|Hin].
  - by rewrite Z.eqb_refl.
  - destruct (Z.eqb_spec k0 k) as [->|Hne]; [|by apply IH].
    rewrite Forall_forall in Hlt.
    assert (k ∈ qs.*1) as Hk by (apply list_elem_of_fmap; by exists (k, q)).
    apply Hlt in Hk. lia.
Qed.

Lemma shrunk_cons_skip (k : Z) (q : list nat) (qs qs' : queues) :
  Forall (Z.lt k) qs.*1 → shrunk qs qs' → shrunk ((k, q) :: qs) qs'.
Proof.
  intros Hlt H. apply Forall_forall. intros [k' q'] Hin.
  unfold shrunk in H. rewrite Forall_forall in H.
  destruct (H _ Hin) as (q0 & Hf & Hsuf).
  exists q0. split; [|done]. simpl in *.
  destruct (Z.eqb_spec k k') as [->|Hne]; [|done].
  apply find_Some_elem_of in Hf. rewrite Forall_forall in Hlt.
  assert (k' ∈ qs.*1) as Hk by (apply list_elem_of_fmap; by exists (k', q0)).
  apply Hlt in Hk. lia.
Qed.

Lemma add_trades_app ts1 ts2 r :
  add_trades ts2 (add_trades ts1 r) = add_trades (ts1 ++ ts2) r.
Proof. unfold add_trades. simpl. by rewrite (assoc (++)). Qed.

Lemma match_asks_unfold fuel k a r b oa :
  mem b !! a = Some oa → 0 < Order.remaining oa →
  ¬ (Order.type oa = Limit ∧ Order.price oa < k) →
  match_against_asks_loop (S fuel) (Some k) a r b =
    (level ← level_at Sell k;
     b0 ← get;
     result ← match_level (length (mem b0)) Sell k a (PriceLevel.front level) r;
     level ← level_at Sell k;
     (if PriceLevel.empty level then
        b ← get; put (set_levels Sell (PriceMap.erase k (asks_ b)) b)
      else mret tt);;
     b ← get;
     match_against_asks_loop fuel (PriceMap.succ k (asks_ b)) a result) b.
Proof.
  intros Ha Hrem Hno. simpl.
  erewrite bind_ok by (by apply deref_ok).
  destruct (Z.ltb_spec 0 (Order.remaining oa)); [|lia].
  destruct (bool_decide_reflect (Order.type oa = Limit)) as [Hty|Hty]; simpl;
    [|done].
  destruct (Z.ltb_spec (Order.price oa) k); [|done]. destruct Hno. done.
Qed.

Lemma level_empty_queue (st : store) s k l q :
  level_ok st s (k, l) (k, q) → PriceLevel.empty l = bool_decide (q = []).
Proof.
  intros (_ & Hdll & _). simpl in Hdll. apply dllseg_head in Hdll.
  unfold PriceLevel.empty. rewrite Hdll. by destruct q.
Qed.

Lemma level_front_queue (st : store) s k l q :
  level_ok st s (k, l) (k, q) → PriceLevel.front l = head q.
Proof.
  intros (_ & Hdll & _). simpl in Hdll. apply dllseg_head in Hdll.
  unfold PriceLevel.front. rewrite Hdll. by destruct q.
Qed.

Lemma repr_sorted fl b Q s : repr fl b Q → StronglySorted Z.lt (Q s).*1.
Proof.
  intros Hrepr. destruct (repr_side fl b Q s Hrepr) as [HF Hs].
  by rewrite <- (Forall2_keys _ _ _ (level_ok_keyed _ _) HF).
Qed.

Lemma repr_keys fl b Q s : repr fl b Q → (levels s b).*1 = (Q s).*1.
Proof.
  intros Hrepr. destruct (repr_side fl b Q s Hrepr) as [HF Hs].
  by apply (Forall2_keys _ _ _ (level_ok_keyed _ _) HF).
Qed.

Lemma insert_insert_ext (Q : Side → queues) s qs qs' s' :
  (<[s := qs]> (<[s := qs']> Q)) s' = (<[s := qs]> Q) s'.
Proof.
  destruct (side_cases s s') as [->| ->].
  - by rewrite !fn_lookup_insert.
  - by rewrite !fn_lookup_insert_ne by (symmetry; apply opp_ne).
Qed.

Lemma insert_same_ext (Q : Side → queues) s s' : (<[s := Q s]> Q) s' = Q s'.
Proof.
  destruct (side_cases s s') as [->| ->].
  - by rewrite !fn_lookup_insert.
  - by rewrite !fn_lookup_insert_ne by (symmetry; apply opp_ne).
Qed.


Section price_map_app.
Context {V : Type}.
Implicit Types (m : PriceMap.t V) (k : Z) (v : V).

Lemma find_app_l k v m1 m2 :
  PriceMap.find k m1 = Some v → PriceMap.find k (m1 ++ m2) = Some v.
Proof.
  induction m1 as [|[k0 v0] m1 IH]; simpl; [done|].
  destruct (k0 =? k); [done|]. apply IH.
Qed.

Lemma find_app_r k m1 m2 :
  PriceMap.find k m1 = None →
  PriceMap.find k (m1 ++ m2) = PriceMap.find k m2.
Proof.
  induction m1 as [|[k0 v0] m1 IH]; simpl; [done|].
  destruct (k0 =? k); [done|]. apply IH.
Qed.

Lemma set_app_r k v m1 m2 :
  PriceMap.find k m1 = None →
  PriceMap.set k v (m1 ++ m2) = m1 ++ PriceMap.set k v m2.
Proof.
  induction m1 as [|[k0 v0] m1 IH]; simpl; [done|].
  destruct (k0 =? k); [done|]. intros H. by rewrite IH.
Qed.

Lemma erase_app_r k m1 m2 :
  PriceMap.find k m1 = None →
  PriceMap.erase k (m1 ++ m2) = m1 ++ PriceMap.erase k m2.
Proof.
  induction m1 as [|[k0 v0] m1 IH]; simpl; [done|].
  destruct (k0 =? k); [done|]. intros H. by rewrite IH.
Qed.

Lemma find_None_below k m :
  Forall (λ k', k' < k) m.*1 → PriceMap.find k m = None.
Proof.
  intros Hlt. apply find_None_keys. intros Hin.
  rewrite Forall_forall in Hlt. apply Hlt in Hin. lia.
Qed.

Lemma rbegin_snoc m k v : PriceMap.rbegin (m ++ [(k, v)]) = Some k.
Proof. unfold PriceMap.rbegin. by rewrite last_snoc. Qed.
End price_map_app.

Lemma shrunk_snoc_skip (k : Z) (q : list nat) (qs qs' : queues) :
  shrunk qs qs' → shrunk (qs ++ [(k, q)]) qs'.
Proof.
  intros H. apply Forall_forall. intros [k' q'] Hin.
  unfold shrunk in H. rewrite Forall_forall in H.
  destruct (H _ Hin) as (q0 & Hf & Hsuf).
  exists q0. split; [|done]. simpl in *. by apply find_app_l.
Qed.

Lemma shrunk_snoc (k : Z) (q q' : list nat) (qs : queues) :
  StronglySorted Z.lt qs.*1 → Forall (λ k', k' < k) qs.*1 →
  q' `sublist_of` q → shrunk (qs ++ [(k, q)]) (qs ++ [(k, q')]).
Proof.
  intros Hs Hlt Hsuf. apply Forall_app. split.
  - by apply shrunk_snoc_skip, shrunk_refl.
  - constructor; [|constructor]. exists q. split; [|done]. simpl.
    rewrite find_app_r by (by apply find_None_below). simpl.
    by rewrite Z.eqb_refl.
Qed.

Lemma match_bids_unfold fuel k a r b oa :
  mem b !! a = Some oa → 0 < Order.remaining oa →
  ¬ (Order.type oa = Limit ∧ k < Order.price oa) →
  match_against_bids_loop (S fuel) (Some k) a r b =
    (level ← level_at Buy k;
     b0 ← get;
     result ← match_level (length (mem b0)) Buy k a (PriceLevel.front level) r;
     level ← level_at Buy k;
     it' ← (if PriceLevel.empty level then
              b ← get;
              put (set_levels Buy (PriceMap.erase k (bids_ b)) b);;
              b ← get;
              mret (PriceMap.rbegin (bids_ b))
            else
              b ← get;
              mret (PriceMap.pred k (bids_ b)));
     match_against_bids_loop fuel it' a result) b.
Proof.
  intros Ha Hrem Hno. simpl.
  erewrite bind_ok by (by apply deref_ok).
  destruct (Z.ltb_spec 0 (Order.remaining oa)); [|lia].
  destruct (bool_decide_reflect (Order.type oa = Limit)) as [Hty|Hty]; simpl;
    [|done].
  destruct (Z.ltb_spec k (Order.price oa)); [|done]. destruct Hno. done.
Qed.

Lemma queued_insert_Sell (Q : Side → queues) qs :
  queued (<[Sell := qs]> Q) = slots (Q Buy) ++ slots qs.
Proof.
  unfold queued. by rewrite fn_lookup_insert, fn_lookup_insert_ne.
Qed.

Lemma queued_insert_Buy (Q : Side → queues) qs :
  queued (<[Buy := qs]> Q) = slots qs ++ slots (Q Sell).
Proof.
  unfold queued. by rewrite fn_lookup_insert, fn_lookup_insert_ne.
Qed.

Lemma queued_insert_same (Q : Side → queues) s qs :
  Q s = qs → queued (<[s := qs]> Q) = queued Q.
Proof. intros <-. unfold queued. by rewrite !insert_same_ext. Qed.

Lemma queued_insert_insert (Q : Side → queues) s qs qs' :
  queued (<[s := qs']> (<[s := qs]> Q)) = queued (<[s := qs']> Q).
Proof. unfold queued. by rewrite !insert_insert_ext. Qed.

(** Erasing a level of the book leaves the orders, the index, the pool and
    the counters as they are. *)
Lemma sweep_set_levels a b b' s m rs ps ts f f' :
  sweep a b b' rs ps ts f f' → sweep a b (set_levels s m b') rs ps ts f f'.
Proof. by destruct s. Qed.

Lemma repr_top_fresh a b Q :
  repr [a] b Q → (a ∉ queued Q) ∧ NoDup (queued Q).
Proof.
  intros (_ & _ & _ & Hnd & _). simpl in Hnd.
  apply NoDup_cons in Hnd as [Ha Hnd].
  apply NoDup_app in Hnd as (Hnd & _ & _).
  split; [|done]. intros Hin. apply Ha. apply elem_of_app. by left.
Qed.

Lemma elem_of_slots_reverse (qs : queues) x :
  x ∈ slots (reverse qs) ↔ x ∈ slots qs.
Proof.
  unfold slots. rewrite fmap_reverse, !list_elem_of_join.
  by setoid_rewrite elem_of_reverse.
Qed.

Lemma price_at_static (st st' : store) p :
  static <$> st !! p = static <$> st' !! p → price_at st p = price_at st' p.
Proof.
  unfold price_at.
  destruct (st !! p) as [[]|], (st' !! p) as [[]|]; simpl; intros;
    by simplify_eq.
Qed.

Lemma Forall_sublist {A} (P : A → Prop) (l1 l2 : list A) :
  l1 `sublist_of` l2 → Forall P l2 → Forall P l1.
Proof.
  intros Hsub HF. rewrite Forall_forall in *. intros x Hx. apply HF.
  by eapply elem_of_sublist.
Qed.

Section match_loops.
Variables (a : nat) (oa : Order.t).
Hypothesis Hqa : Order.quantity oa < 2 ^ 64.

Lemma match_asks_spec qA : ∀ fuel b Q r f,
  repr [a] b Q → Q Sell = qA → nonempty qA →
  mem b !! a = Some (Order.set_filled_quantity f oa) →
  0 ≤ f ≤ Order.quantity oa → unindexed a b → (length qA ≤ fuel)%nat →
  ∃ f' b' qA' ps ts rs,
    match_against_asks_loop fuel (PriceMap.begin qA) a r b
      = (inr (add_trades ts r), b') ∧
    repr [a] b' (<[Sell := qA']> Q) ∧ nonempty qA' ∧ shrunk qA qA' ∧
    mem b' !! a = Some (Order.set_filled_quantity f' oa) ∧
    f ≤ f' ≤ Order.quantity oa ∧ unindexed a b' ∧
    (∀ x, static <$> mem b' !! x = static <$> mem b !! x) ∧
    next_id_ b' = next_id_ b ∧
    timestamp_counter_ b' = timestamp_counter_ b ∧
    ps `prefix_of` slots qA ∧ Forall2 (traded (mem b) oa) ps ts ∧
    sweep a b b' rs ps ts f f' ∧
    queued Q ≡ₚ rs ++ queued (<[Sell := qA']> Q) ∧
    (f' = Order.quantity oa ∨
     match PriceMap.begin qA' with
     | None => True
     | Some k => Order.type oa = Limit ∧ Order.price oa < k
     end) ∧
    Forall (λ p, Order.type oa = Limit →
                 price_at (mem b) p ≤ Order.price oa) ps.
Proof.
  induction qA as [|[k q] rest IH]; intros fuel b Q r f Hrepr HQ Hne Ha Hfr Hun Hfuel.
  - exists f, b, [], [], [], []. rewrite add_trades_nil.
    split_and!; [by destruct fuel| |done|by apply Forall_nil|done|lia|lia
                |done|done|done|done|done|constructor|apply sweep_nil
                |by rewrite queued_insert_same|right; exact I
                |by apply Forall_nil].
    eapply repr_ext; [|done]. intros s'. rewrite <- HQ. symmetry.
    apply insert_same_ext.
  - pose proof (repr_sorted [a] b Q Sell Hrepr) as Hsorted.
    rewrite HQ in Hsorted. csimpl in Hsorted.
    apply StronglySorted_cons in Hsorted as [Hklt Hsorted].
    set (oaf := Order.set_filled_quantity f oa) in *.
    assert (Order.remaining oaf = Order.quantity oa - f) as Hrema.
    { unfold Order.remaining. simpl. apply wrap64_small. lia. }
    assert (match_against_asks_loop fuel (Some k) a r b = (inr r, b) →
      f = Order.quantity oa ∨ (Order.type oa = Limit ∧ Order.price oa < k) →
      ∃ f' b' qA' ps ts rs,
        match_against_asks_loop fuel (PriceMap.begin ((k, q) :: rest)) a r b
          = (inr (add_trades ts r), b') ∧
        repr [a] b' (<[Sell := qA']> Q) ∧ nonempty qA' ∧
        shrunk ((k, q) :: rest) qA' ∧
        mem b' !! a = Some (Order.set_filled_quantity f' oa) ∧
        f ≤ f' ≤ Order.quantity oa ∧ unindexed a b' ∧
        (∀ x, static <$> mem b' !! x = static <$> mem b !! x) ∧
        next_id_ b' = next_id_ b ∧
        timestamp_counter_ b' = timestamp_counter_ b ∧
        ps `prefix_of` slots ((k, q) :: rest) ∧
        Forall2 (traded (mem b) oa) ps ts ∧
        sweep a b b' rs ps ts f f' ∧
        queued Q ≡ₚ rs ++ queued (<[Sell := qA']> Q) ∧
        (f' = Order.quantity oa ∨
         match PriceMap.begin qA' with
         | None => True
         | Some k => Order.type oa = Limit ∧ Order.price oa < k
         end) ∧
        Forall (λ p, Order.type oa = Limit →
                     price_at (mem b) p ≤ Order.price oa) ps) as Hstop.
    { intros Hrun Hend. exists f, b, ((k, q) :: rest), [], [], [].
      rewrite add_trades_nil.
      split_and!; [done| |done| |done|lia|lia|done|done|done|done
                  |apply prefix_nil|constructor|apply sweep_nil
                  |by rewrite queued_insert_same|exact Hend
                  |by apply Forall_nil].
      - eapply repr_ext; [|done]. intros s'. rewrite <- HQ. symmetry.
        apply insert_same_ext.
      - apply shrunk_refl. csimpl. by apply StronglySorted_cons. }
    destruct (decide (f = Order.quantity oa)) as [Hfull|Hnotfull].
    { apply Hstop; [|by left]. eapply match_asks_done; [done|]. lia. }
    destruct (decide (Order.type oa = Limit ∧ Order.price oa < k)) as [[Hty Hlt]|Hcross].
    { apply Hstop; [|by right]. by eapply match_asks_break. }
    clear Hstop.
    destruct fuel as [|fuel]; [simpl in Hfuel; lia|].
    assert (PriceMap.find k (Q Sell) = Some q) as Hf.
    { rewrite HQ. simpl. by rewrite Z.eqb_refl. }
    destruct (repr_find_level [a] b Q Sell k q Hrepr Hf) as (l & Hfl & Hlev).
    assert (Hwq : Forall (λ p, Order.type oa = Limit →
                               price_at (mem b) p ≤ Order.price oa) q).
    { destruct Hlev as (_ & _ & _ & _ & Hrest). simpl in Hrest.
      eapply Forall_impl; [exact Hrest|]. intros p Hp Hty.
      unfold resting in Hp. unfold price_at.
      destruct (mem b !! p); [|done]. destruct Hp as (_ & -> & _).
      destruct (decide (Order.price oa < k)); [|lia]. by destruct Hcross. }
    destruct (match_level_spec Sell k a oa Hqa q (length (mem b)) b Q r f
                Hrepr Hf Ha Hfr Hun)
      as (n & n' & f1 & b1 & ts1 & Hrun1 & Hrepr1 & Ha1 & Hf1 & Hun1 & Hend1
          & Hn1 & Hlen1 & Hst1 & Hnid1 & Hts1 & Htr1 & Hsw1).
    { apply (repr_queue_length [a] b Q Sell (k, q)); [done|].
      rewrite HQ. by left. }
    set (Q1 := <[Sell := PriceMap.set k (drop n q) (Q Sell)]> Q) in *.
    assert (Q1 Sell = (k, drop n q) :: rest) as HQ1.
    { subst Q1. rewrite fn_lookup_insert, HQ. simpl. by rewrite Z.eqb_refl. }
    assert (PriceMap.find k (Q1 Sell) = Some (drop n q)) as Hf1'.
    { rewrite HQ1. simpl. by rewrite Z.eqb_refl. }
    destruct (repr_find_level [a] b1 Q1 Sell k _ Hrepr1 Hf1')
      as (l1 & Hfl1 & Hlev1).
    assert (∀ R,
      ((if bool_decide (drop n q = []) then
          b ← get; put (set_levels Sell (PriceMap.erase k (asks_ b)) b)
        else mret tt);;
       b ← get;
       match_against_asks_loop fuel (PriceMap.succ k (asks_ b)) a
         (add_trades ts1 r)) b1 = R →
      match_against_asks_loop (S fuel) (PriceMap.begin ((k, q) :: rest)) a r b
        = R) as Hstep.
    { intros R <-. change (PriceMap.begin ((k, q) :: rest)) with (Some k).
      erewrite match_asks_unfold; [|done|lia|done].
      erewrite bind_ok by (by apply level_at_ok).
      erewrite bind_ok by reflexivity.
      rewrite (level_front_queue _ _ _ _ _ Hlev).
      erewrite bind_ok by exact Hrun1.
      erewrite bind_ok by (by apply level_at_ok).
      by rewrite (level_empty_queue _ _ _ _ _ Hlev1). }
    destruct (decide (drop n q = [])) as [Hemp|Hnemp].
    + (* the level is used up and erased; go on with the next level *)
      rewrite bool_decide_true in Hstep by done.
      set (b2 := set_levels Sell (PriceMap.erase k (asks_ b1)) b1).
      set (Q2 := <[Sell := rest]> Q).
      assert (repr [a] b2 Q2) as Hrepr2.
      { eapply repr_ext;
          [|apply (repr_erase_level [a] b1 Q1 Sell k Hrepr1); by rewrite Hf1', Hemp].
        intros s'. subst Q1 Q2. rewrite fn_lookup_insert, HQ.
        simpl. rewrite Z.eqb_refl. simpl. rewrite Z.eqb_refl.
        apply insert_insert_ext. }
      assert (PriceMap.succ k (asks_ b2) = PriceMap.begin rest) as Hit.
      { rewrite (succ_keys k (asks_ b2) rest).
        - by apply succ_begin.
        - change (asks_ b2) with (levels Sell b2).
          rewrite (repr_keys [a] b2 Q2 Sell Hrepr2). subst Q2.
          by rewrite fn_lookup_insert. }
      apply Forall_cons in Hne as [Hneq Hne].
      destruct (IH fuel b2 Q2 (add_trades ts1 r) f1 Hrepr2)
        as (f' & b' & qA' & ps2 & ts2 & rs2 & Hrun2 & Hrepr' & Hne' & Hsh'
            & Ha' & Hf' & Hun' & Hst' & Hnid' & Hts' & Hpre' & Htr' & Hsw'
            & Hperm' & Hend' & Hwi').
      { subst Q2. by rewrite fn_lookup_insert. }
      { done. }
      { exact Ha1. }
      { lia. }
      { done. }
      { simpl in Hfuel. lia. }
      assert (n' = length q) as Hn'.
      { apply (f_equal length) in Hemp. rewrite length_drop in Hemp.
        simpl in Hemp. destruct Hn1 as [->|[-> _]]; lia. }
      assert (take n q = q) as Hn.
      { apply take_ge. apply (f_equal length) in Hemp.
        rewrite length_drop in Hemp. simpl in Hemp. lia. }
      destruct (repr_top_fresh a b Q Hrepr) as [Haq Hndq].
      unfold queued in Haq, Hndq. rewrite HQ, slots_cons in Haq, Hndq.
      exists f', b', qA', (q ++ ps2), (ts1 ++ ts2), (q ++ rs2).
      split_and!; [| |done| |done|lia|lia|done| |rewrite Hnid'; exact Hnid1
                  |rewrite Hts'; exact Hts1| | | | |exact Hend'|].
      * apply Hstep. erewrite bind_ok by reflexivity.
        erewrite bind_ok by reflexivity. fold b2.
        by rewrite Hit, Hrun2, add_trades_app.
      * eapply repr_ext; [|done]. intros s'. apply insert_insert_ext.
      * by apply shrunk_cons_skip.
      * intros x. rewrite Hst'. apply Hst1.
      * rewrite slots_cons. by apply prefix_app.
      * apply Forall2_app.
        -- by rewrite Hn', take_ge in Htr1.
        -- eapply Forall2_impl; [done|]. intros x t. apply traded_static.
           apply Hst1.
      * rewrite Hn', Hn, firstn_all in Hsw1.
        eapply sweep_app; [by apply sweep_set_levels|exact Hsw'|exact Hst1
                          |exact Hts1| |].
        -- intros Hin. apply Haq. apply elem_of_app. right.
           apply elem_of_app. right. by eapply elem_of_prefix.
        -- intros x Hx Hxq.
           apply NoDup_app in Hndq as (_ & _ & Hndq).
           apply NoDup_app in Hndq as (_ & Hdis & _).
           apply (Hdis x Hxq). by eapply elem_of_prefix.
      * subst Q2. rewrite queued_insert_insert in Hperm'.
        rewrite <- (assoc (++)), <- Hperm', queued_insert_Sell.
        unfold queued. rewrite HQ, slots_cons.
        apply Permutation_app_swap_app.
      * apply Forall_app. split; [done|].
        eapply Forall_impl; [exact Hwi'|]. intros x Hx Hty.
        rewrite <- (price_at_static (mem b2) (mem b) x) by apply Hst1.
        by apply Hx.
    + (* the aggressive order is filled within this level *)
      rewrite bool_decide_false in Hstep by done.
      destruct Hend1 as [?|Hfull1]; [done|].
      exists f1, b1, ((k, drop n q) :: rest), (take n' q), ts1, (take n q).
      split_and!; [| | | |done|lia|lia|done|done|done|done| |done|done|
                  |by left|].
      * apply Hstep. erewrite bind_ok by reflexivity.
        erewrite bind_ok by reflexivity.
        eapply match_asks_done; [done|].
        unfold Order.remaining. simpl. rewrite Hfull1, Z.sub_diag. done.
      * eapply repr_ext; [|done]. intros s'. subst Q1.
        rewrite HQ. simpl. by rewrite Z.eqb_refl.
      * apply Forall_cons in Hne as [Hneq Hne]. by constructor.
      * constructor.
        -- exists q. simpl. rewrite Z.eqb_refl. split; [done|].
           apply sublist_drop.
        -- apply shrunk_cons_skip; [done|]. by apply shrunk_refl.
      * rewrite slots_cons. apply prefix_app_r. apply prefix_take.
      * rewrite queued_insert_Sell. unfold queued.
        rewrite HQ, !slots_cons. rewrite <- (take_drop n q) at 1.
        rewrite <- !(assoc (++)). apply Permutation_app_swap_app.
      * eapply Forall_sublist; [apply sublist_take|exact Hwq].
Qed.

Lemma match_bids_spec qB : ∀ fuel b Q r f,
  repr [a] b Q → Q Buy = qB → nonempty qB →
  mem b !! a = Some (Order.set_filled_quantity f oa) →
  0 ≤ f ≤ Order.quantity oa → unindexed a b → (length qB ≤ fuel)%nat →
  ∃ f' b' qB' ps ts rs,
    match_against_bids_loop fuel (PriceMap.rbegin qB) a r b
      = (inr (add_trades ts r), b') ∧
    repr [a] b' (<[Buy := qB']> Q) ∧ nonempty qB' ∧ shrunk qB qB' ∧
    mem b' !! a = Some (Order.set_filled_quantity f' oa) ∧
    f ≤ f' ≤ Order.quantity oa ∧ unindexed a b' ∧
    (∀ x, static <$> mem b' !! x = static <$> mem b !! x) ∧
    next_id_ b' = next_id_ b ∧
    timestamp_counter_ b' = timestamp_counter_ b ∧
    ps `prefix_of` slots (reverse qB) ∧ Forall2 (traded (mem b) oa) ps ts ∧
    sweep a b b' rs ps ts f f' ∧
    queued Q ≡ₚ rs ++ queued (<[Buy := qB']> Q) ∧
    (f' = Order.quantity oa ∨
     match PriceMap.rbegin qB' with
     | None => True
     | Some k => Order.type oa = Limit ∧ k < Order.price oa
     end) ∧
    Forall (λ p, Order.type oa = Limit →
                 Order.price oa ≤ price_at (mem b) p) ps.
Proof.
  induction qB as [|[k q] rest IH] using rev_ind;
    intros fuel b Q r f Hrepr HQ Hne Ha Hfr Hun Hfuel.
  - exists f, b, [], [], [], []. rewrite add_trades_nil.
    split_and!; [by destruct fuel| |done|by apply Forall_nil|done|lia|lia
                |done|done|done|done|done|constructor|apply sweep_nil
                |by rewrite queued_insert_same|right; exact I
                |by apply Forall_nil].
    eapply repr_ext; [|done]. intros s'. rewrite <- HQ. symmetry.
    apply insert_same_ext.
  - pose proof (repr_sorted [a] b Q Buy Hrepr) as Hsorted.
    rewrite HQ, fmap_app in Hsorted. csimpl in Hsorted.
    apply StronglySorted_app in Hsorted as (Hklt & Hsorted & _).
    assert (Forall (λ k', k' < k) rest.*1) as Hbelow.
    { apply Forall_forall. intros k' Hk'. apply Hklt; [done|by left]. }
    clear Hklt.
    rewrite rbegin_snoc.
    set (oaf := Order.set_filled_quantity f oa) in *.
    assert (Order.remaining oaf = Order.quantity oa - f) as Hrema.
    { unfold Order.remaining. simpl. apply wrap64_small. lia. }
    assert (match_against_bids_loop fuel (Some k) a r b = (inr r, b) →
      f = Order.quantity oa ∨ (Order.type oa = Limit ∧ k < Order.price oa) →
      ∃ f' b' qB' ps ts rs,
        match_against_bids_loop fuel (Some k) a r b
          = (inr (add_trades ts r), b') ∧
        repr [a] b' (<[Buy := qB']> Q) ∧ nonempty qB' ∧
        shrunk (rest ++ [(k, q)]) qB' ∧
        mem b' !! a = Some (Order.set_filled_quantity f' oa) ∧
        f ≤ f' ≤ Order.quantity oa ∧ unindexed a b' ∧
        (∀ x, static <$> mem b' !! x = static <$> mem b !! x) ∧
        next_id_ b' = next_id_ b ∧
        timestamp_counter_ b' = timestamp_counter_ b ∧
        ps `prefix_of` slots (reverse (rest ++ [(k, q)])) ∧
        Forall2 (traded (mem b) oa) ps ts ∧
        sweep a b b' rs ps ts f f' ∧
        queued Q ≡ₚ rs ++ queued (<[Buy := qB']> Q) ∧
        (f' = Order.quantity oa ∨
         match PriceMap.rbegin qB' with
         | None => True
         | Some k => Order.type oa = Limit ∧ k < Order.price oa
         end) ∧
        Forall (λ p, Order.type oa = Limit →
                     Order.price oa ≤ price_at (mem b) p) ps) as Hstop.
    { intros Hrun Hend. exists f, b, (rest ++ [(k, q)]), [], [], [].
      rewrite add_trades_nil.
      split_and!; [done| |done| |done|lia|lia|done|done|done|done
                  |apply prefix_nil|constructor|apply sweep_nil
                  |by rewrite queued_insert_same
                  |by rewrite rbegin_snoc|by apply Forall_nil].
      - eapply repr_ext; [|done]. intros s'. rewrite <- HQ. symmetry.
        apply insert_same_ext.
      - by apply shrunk_snoc. }
    destruct (decide (f = Order.quantity oa)) as [Hfull|Hnotfull].
    { apply Hstop; [|by left]. eapply match_bids_done; [done|]. lia. }
    destruct (decide (Order.type oa = Limit ∧ k < Order.price oa)) as [[Hty Hlt]|Hcross].
    { apply Hstop; [|by right]. by eapply match_bids_break. }
    clear Hstop.
    destruct fuel as [|fuel]; [rewrite length_app in Hfuel; simpl in Hfuel; lia|].
    assert (PriceMap.find k rest = None) as Hnone by (by apply find_None_below).
    assert (PriceMap.find k (Q Buy) = Some q) as Hf.
    { rewrite HQ, find_app_r by done. simpl. by rewrite Z.eqb_refl. }
    destruct (repr_find_level [a] b Q Buy k q Hrepr Hf) as (l & Hfl & Hlev).
    assert (Hwq : Forall (λ p, Order.type oa = Limit →
                               Order.price oa ≤ price_at (mem b) p) q).
    { destruct Hlev as (_ & _ & _ & _ & Hrest). simpl in Hrest.
      eapply Forall_impl; [exact Hrest|]. intros p Hp Hty.
      unfold resting in Hp. unfold price_at.
      destruct (mem b !! p); [|done]. destruct Hp as (_ & -> & _).
      destruct (decide (k < Order.price oa)); [|lia]. by destruct Hcross. }
    destruct (match_level_spec Buy k a oa Hqa q (length (mem b)) b Q r f
                Hrepr Hf Ha Hfr Hun)
      as (n & n' & f1 & b1 & ts1 & Hrun1 & Hrepr1 & Ha1 & Hf1 & Hun1 & Hend1
          & Hn1 & Hlen1 & Hst1 & Hnid1 & Hts1 & Htr1 & Hsw1).
    { apply (repr_queue_length [a] b Q Buy (k, q)); [done|].
      rewrite HQ. apply elem_of_app. right. by left. }
    set (Q1 := <[Buy := PriceMap.set k (drop n q) (Q Buy)]> Q) in *.
    assert (Q1 Buy = rest ++ [(k, drop n q)]) as HQ1.
    { subst Q1. rewrite fn_lookup_insert, HQ, set_app_r by done.
      simpl. by rewrite Z.eqb_refl. }
    assert (PriceMap.find k (Q1 Buy) = Some (drop n q)) as Hf1'.
    { rewrite HQ1, find_app_r by done. simpl. by rewrite Z.eqb_refl. }
    destruct (repr_find_level [a] b1 Q1 Buy k _ Hrepr1 Hf1')
      as (l1 & Hfl1 & Hlev1).
    assert (∀ R,
      (it' ← (if bool_decide (drop n q = []) then
                b ← get;
                put (set_levels Buy (PriceMap.erase k (bids_ b)) b);;
                b ← get;
                mret (PriceMap.rbegin (bids_ b))
              else
                b ← get;
                mret (PriceMap.pred k (bids_ b)));
       match_against_bids_loop fuel it' a (add_trades ts1 r)) b1 = R →
      match_against_bids_loop (S fuel) (Some k) a r b = R) as Hstep.
    { intros R <-.
      erewrite match_bids_unfold; [|done|lia|done].
      erewrite bind_ok by (by apply level_at_ok).
      erewrite bind_ok by reflexivity.
      rewrite (level_front_queue _ _ _ _ _ Hlev).
      erewrite bind_ok by exact Hrun1.
      erewrite bind_ok by (by apply level_at_ok).
      by rewrite (level_empty_queue _ _ _ _ _ Hlev1). }
    destruct (decide (drop n q = [])) as [Hemp|Hnemp].
    + (* the level is used up and erased; go on from the best level *)
      rewrite bool_decide_true in Hstep by done.
      set (b2 := set_levels Buy (PriceMap.erase k (bids_ b1)) b1).
      set (Q2 := <[Buy := rest]> Q).
      assert (repr [a] b2 Q2) as Hrepr2.
      { eapply repr_ext;
          [|apply (repr_erase_level [a] b1 Q1 Buy k Hrepr1); by rewrite Hf1', Hemp].
        intros s'. subst Q2. rewrite HQ1, erase_app_r by done.
        simpl. rewrite Z.eqb_refl, app_nil_r. subst Q1.
        apply insert_insert_ext. }
      assert (PriceMap.rbegin (bids_ b2) = PriceMap.rbegin rest) as Hit.
      { apply rbegin_keys. change (bids_ b2) with (levels Buy b2).
        rewrite (repr_keys [a] b2 Q2 Buy Hrepr2). subst Q2.
        by rewrite fn_lookup_insert. }
      apply Forall_app in Hne as [Hne Hneq].
      destruct (IH fuel b2 Q2 (add_trades ts1 r) f1 Hrepr2)
        as (f' & b' & qB' & ps2 & ts2 & rs2 & Hrun2 & Hrepr' & Hne' & Hsh'
            & Ha' & Hf' & Hun' & Hst' & Hnid' & Hts' & Hpre' & Htr' & Hsw'
            & Hperm' & Hend' & Hwi').
      { subst Q2. by rewrite fn_lookup_insert. }
      { done. }
      { exact Ha1. }
      { lia. }
      { done. }
      { rewrite length_app in Hfuel. simpl in Hfuel. lia. }
      assert (n' = length q) as Hn'.
      { apply (f_equal length) in Hemp. rewrite length_drop in Hemp.
        simpl in Hemp. destruct Hn1 as [->|[-> _]]; lia. }
      assert (take n q = q) as Hn.
      { apply take_ge. apply (f_equal length) in Hemp.
        rewrite length_drop in Hemp. simpl in Hemp. lia. }
      destruct (repr_top_fresh a b Q Hrepr) as [Haq Hndq].
      unfold queued in Haq, Hndq.
      rewrite HQ, slots_app, slots_cons in Haq, Hndq.
      change (slots []) with (@nil nat) in Haq, Hndq.
      rewrite app_nil_r in Haq, Hndq.
      assert (∀ x, x ∈ ps2 → x ∈ slots rest) as Hps2.
      { intros x Hx. apply elem_of_slots_reverse. by eapply elem_of_prefix. }
      exists f', b', qB', (q ++ ps2), (ts1 ++ ts2), (q ++ rs2).
      split_and!; [| |done| |done|lia|lia|done| |rewrite Hnid'; exact Hnid1
                  |rewrite Hts'; exact Hts1| | | | |exact Hend'|].
      * apply Hstep. erewrite bind_ok by reflexivity. fold b2.
        by rewrite Hit, Hrun2, add_trades_app.
      * eapply repr_ext; [|done]. intros s'. apply insert_insert_ext.
      * by apply shrunk_snoc_skip.
      * intros x. rewrite Hst'. apply Hst1.
      * rewrite reverse_snoc, slots_cons. by apply prefix_app.
      * apply Forall2_app.
        -- by rewrite Hn', take_ge in Htr1.
        -- eapply Forall2_impl; [done|]. intros x t. apply traded_static.
           apply Hst1.
      * rewrite Hn', Hn, firstn_all in Hsw1.
        eapply sweep_app; [by apply sweep_set_levels|exact Hsw'|exact Hst1
                          |exact Hts1| |].
        -- intros Hin. apply Haq. apply elem_of_app. left.
           apply elem_of_app. left. by apply Hps2.
        -- intros x Hx Hxq.
           apply NoDup_app in Hndq as (Hndq & _ & _).
           apply NoDup_app in Hndq as (_ & Hdis & _).
           apply (Hdis x); [by apply Hps2|done].
      * subst Q2. rewrite queued_insert_insert in Hperm'.
        rewrite <- (assoc (++)), <- Hperm', queued_insert_Buy.
        unfold queued. rewrite HQ, slots_app, slots_cons.
        change (slots []) with (@nil nat). rewrite app_nil_r.
        rewrite <- !(assoc (++)). apply Permutation_app_swap_app.
      * apply Forall_app. split; [done|].
        eapply Forall_impl; [exact Hwi'|]. intros x Hx Hty.
        rewrite <- (price_at_static (mem b2) (mem b) x) by apply Hst1.
        by apply Hx.
    + (* the aggressive order is filled within this level *)
      rewrite bool_decide_false in Hstep by done.
      destruct Hend1 as [?|Hfull1]; [done|].
      exists f1, b1, (rest ++ [(k, drop n q)]), (take n' q), ts1, (take n q).
      split_and!; [| | | |done|lia|lia|done|done|done|done| |done|done|
                  |by left|].
      * apply Hstep. erewrite bind_ok by reflexivity.
        eapply match_bids_done; [done|].
        unfold Order.remaining. simpl. rewrite Hfull1, Z.sub_diag. done.
      * eapply repr_ext; [|done]. intros s'. subst Q1.
        rewrite HQ, set_app_r by done. simpl. by rewrite Z.eqb_refl.
      * apply Forall_app in Hne as [Hne Hneq]. apply Forall_app.
        split; [done|]. by repeat constructor.
      * apply shrunk_snoc; [done..|]. apply sublist_drop.
      * rewrite reverse_snoc, slots_cons. apply prefix_app_r. apply prefix_take.
      * rewrite queued_insert_Buy. unfold queued.
        rewrite HQ, !slots_app, !slots_cons.
        change (slots []) with (@nil nat). rewrite !app_nil_r.
        rewrite <- (take_drop n q) at 1.
        rewrite !(assoc (++)). apply Permutation_app; [|done].
        rewrite <- !(assoc (++)). apply Permutation_app_swap_app.
      * eapply Forall_sublist; [apply sublist_take|exact Hwq].
Qed.
End match_loops.

(** * Submission *)

Lemma set_filled_quantity_same (o : Order.t) f :
  Order.filled_quantity o = f → Order.set_filled_quantity f o = o.
Proof. intros <-. by destruct o. Qed.

Lemma repr_length fl b Q s : repr fl b Q → length (levels s b) = length (Q s).
Proof.
  intros H. pose proof (f_equal length (repr_keys _ _ _ s H)) as Hlen.
  by rewrite !length_fmap in Hlen.
Qed.

Lemma match_order_spec a oa b Q r :
  Order.quantity oa < 2 ^ 64 → 0 ≤ Order.quantity oa →
  Order.filled_quantity oa = 0 →
  repr [a] b Q → nonempty (Q Buy) → nonempty (Q Sell) →
  mem b !! a = Some oa → unindexed a b →
  ∃ f' b' qs' ps ts rs,
    match_order a r b = (inr (add_trades ts r), b') ∧
    repr [a] b' (<[opp (Order.side oa) := qs']> Q) ∧ nonempty qs' ∧
    shrunk (Q (opp (Order.side oa))) qs' ∧
    mem b' !! a = Some (Order.set_filled_quantity f' oa) ∧
    0 ≤ f' ≤ Order.quantity oa ∧ unindexed a b' ∧
    (∀ x, static <$> mem b' !! x = static <$> mem b !! x) ∧
    next_id_ b' = next_id_ b ∧
    timestamp_counter_ b' = timestamp_counter_ b ∧
    ps `prefix_of` slots (best_first (opp (Order.side oa))
                            (Q (opp (Order.side oa)))) ∧
    Forall2 (traded (mem b) oa) ps ts ∧
    sweep a b b' rs ps ts 0 f' ∧
    queued Q ≡ₚ rs ++ queued (<[opp (Order.side oa) := qs']> Q) ∧
    (f' = Order.quantity oa ∨ out_of_reach oa qs') ∧
    Forall (within oa (mem b)) ps.
Proof.
  intros Hq Hq0 Hf Hr HnB HnS Ha Hu.
  unfold out_of_reach, within.
  unfold match_order. erewrite bind_ok by (by apply deref_ok).
  assert (Ha' : mem b !! a = Some (Order.set_filled_quantity 0 oa))
    by by rewrite set_filled_quantity_same.
  destruct (Order.side oa) eqn:Hs; simpl opp; simpl best_first.
  - destruct (match_asks_spec a oa Hq (Q Sell) (length (asks_ b)) b Q r 0)
      as (f' & b' & qs' & ps & ts & rs & Hrun & H); try done.
    { pose proof (repr_length _ _ _ Sell Hr) as Hl. simpl in Hl. lia. }
    exists f', b', qs', ps, ts, rs.
    split; [|destruct_and!; split_and!; done || lia].
    unfold match_against_asks. erewrite bind_ok by reflexivity.
    change (asks_ b) with (levels Sell b).
    by rewrite (begin_keys _ _ (repr_keys _ _ _ Sell Hr)).
  - destruct (match_bids_spec a oa Hq (Q Buy) (length (bids_ b)) b Q r 0)
      as (f' & b' & qs' & ps & ts & rs & Hrun & H); try done.
    { pose proof (repr_length _ _ _ Buy Hr) as Hl. simpl in Hl. lia. }
    exists f', b', qs', ps, ts, rs.
    split; [|destruct_and!; split_and!; done || lia].
    unfold match_against_bids. erewrite bind_ok by reflexivity.
    change (bids_ b) with (levels Buy b).
    by rewrite (rbegin_keys _ _ (repr_keys _ _ _ Buy Hr)).
Qed.

Lemma alter_insert_Some {A} (st : list A) (a : nat) (f : A → A) (o : A) :
  st !! a = Some o → alter f a st = <[a := f o]> st.
Proof.
  revert a. induction st as [|x st IH]; intros [|a]; simpl; try done.
  - by intros [= ->].
  - intros H. f_equal. by apply IH.
Qed.

Lemma alter_insert_eq {A} (st : list A) (a : nat) (f : A → A) (x : A) :
  alter f a (<[a := x]> st) = <[a := f x]> st.
Proof.
  revert a. induction st as [|y st IH]; intros [|a]; simpl; try done.
  f_equal. apply IH.
Qed.

Lemma repr_same fl b b' Q :
  bids_ b' = bids_ b → asks_ b' = asks_ b → orders_ b' = orders_ b →
  pool_ b' = pool_ b → repr fl b Q → repr fl b' Q.
Proof. unfold repr, mem. by intros -> -> -> ->. Qed.

Lemma add_order_begin side type price quantity b Q :
  repr [] b Q → 0 < OrderPool.free_count_ (pool_ b) →
  ∃ a,
    OrderPool.free_stack_ (pool_ b)
      !! Z.to_nat (OrderPool.free_count_ (pool_ b) - 1) = Some a ∧
    let b0 := begun a side type price quantity b in
    add_order side type price quantity b
      = (result ← match_order a
                    (OrderResult.set_order_id (wrap64 (next_id_ b + 1))
                       OrderResult.init);
         finish_order type a result) b0 ∧
    repr [a] b0 Q ∧ unindexed a b0 ∧
    mem b0 !! a = Some (new_order (wrap64 (next_id_ b + 1)) price quantity
                          side type (wrap64 (timestamp_counter_ b + 1))) ∧
    (∀ x, x ≠ a → mem b0 !! x = mem b !! x).
Proof.
  intros Hr Hfc.
  destruct (repr_allocate _ _ _ Hr Hfc) as (a & Htop & Halloc & Hr1 & Hu1).
  exists a. split; [done|]. intros b0.
  assert (Hlt : (a < length (mem b))%nat).
  { destruct Hr1 as (_ & _ & _ & _ & Hv & _).
    apply Forall_cons in Hv as [Hv _]. revert Hv. unfold mem. simpl.
    by rewrite length_alter. }
  destruct (lookup_lt_is_Some_2 _ _ Hlt) as [o Ho].
  assert (Hb0 : mem b0 !! a = Some (new_order (wrap64 (next_id_ b + 1)) price
                   quantity side type (wrap64 (timestamp_counter_ b + 1)))).
  { unfold b0, begun, mem. simpl. by apply list_lookup_insert_eq. }
  split_and!; [| | |done|].
  - unfold add_order. erewrite bind_ok by exact Halloc.
    erewrite bind_ok by reflexivity.
    erewrite bind_ok.
    2:{ apply assign_ok. unfold mem. simpl. rewrite list_lookup_alter_eq.
        fold (mem b). by rewrite Ho. }
    erewrite bind_ok by reflexivity.
    erewrite bind_ok.
    2:{ apply assign_ok. unfold mem. simpl. rewrite !list_lookup_alter_eq.
        fold (mem b). by rewrite Ho. }
    f_equal. unfold b0, begun, set_mem, mem. simpl. unfold mem in Ho.
    rewrite (alter_insert_Some _ _ Order.reset _ Ho).
    by rewrite !alter_insert_eq.
  - eapply (repr_assign_floating _ _ _ a
      (λ _, new_order (wrap64 (next_id_ b + 1)) price quantity side type
              (wrap64 (timestamp_counter_ b + 1)))) in Hr1;
      [|set_solver|by left].
    revert Hr1. apply repr_same; try done.
    unfold b0, begun, set_mem, mem. simpl. unfold mem in Ho.
    by rewrite (alter_insert_Some _ _ Order.reset _ Ho), alter_insert_eq.
  - exact Hu1.
  - intros x Hx. unfold b0, begun, mem. simpl.
    by apply list_lookup_insert_ne.
Qed.

(** * Queueing and unqueueing an order under the invariant *)

Lemma strip_static (x y : option Order.t) :
  strip <$> x = strip <$> y → static <$> x = static <$> y.
Proof. destruct x as [[]|], y as [[]|]; simpl; intros; by simplify_eq. Qed.

Lemma static_id (x y : option Order.t) :
  static <$> x = static <$> y → Order.id <$> x = Order.id <$> y.
Proof. destruct x as [[]|], y as [[]|]; simpl; intros; by simplify_eq. Qed.

Lemma set_levels_twice s m m' b :
  set_levels s m (set_levels s m' b) = set_levels s m b.
Proof. by destruct s. Qed.

(** The store, the level record and the queues after [level.add_order]. *)
Lemma repr_level_add fl b Q s k q a o :
  repr (a :: fl) b Q → PriceMap.find k (Q s) = Some q →
  mem b !! a = Some o →
  Order.side o = s → Order.price o = k →
  0 ≤ Order.filled_quantity o < Order.quantity o → Order.quantity o < 2 ^ 64 →
  ∃ l l' st',
    PriceMap.find k (levels s b) = Some l ∧
    level_ok (mem b) s (k, l) (k, q) ∧
    PriceLevel.add_order a l (mem b) = Some (l', st') ∧
    repr fl (set_mem st' (set_levels s (PriceMap.set k l' (levels s b)) b))
      (<[s := PriceMap.set k (q ++ [a]) (Q s)]> Q) ∧
    level_ok st' s (k, l') (k, q ++ [a]) ∧
    PriceLevel.price l' = PriceLevel.price l ∧
    (∀ x, strip <$> st' !! x = strip <$> mem b !! x) ∧
    st' !! a = Some (Order.set_next None (Order.set_prev (PriceLevel.tail l) o)) ∧
    (∀ x, x ≠ a → st' !! x =
        if decide (last q = Some x)
        then Order.set_next (Some a) <$> mem b !! x
        else mem b !! x).
Proof.
  intros Hr Hf Ha Hs Hk Hfq Hq64.
  destruct (repr_find_level _ _ _ _ _ _ Hr Hf) as (l & Hfl & Hlev).
  pose proof Hlev as (_ & Hdll & Hc & Ht & Hrest). simpl in *.
  assert (Haq : a ∉ q).
  { intros Hin.
    destruct (repr_floating_not_queued (a :: fl) b Q a Hr) as [Hn _]; [by left|].
    apply Hn. by eapply find_elem_of_queued. }
  assert (Hnd : NoDup q).
  { apply (repr_queue_NoDup _ b Q s (k, q) Hr). by apply find_Some_elem_of. }
  destruct (level_add_order_spec (mem b) l q a o Hdll Hnd Haq Ha)
    as (l' & st' & Hadd & Hdll' & Hpr & Hc' & Ht' & Hlen & Hstrip & Ha' & Hpt).
  assert (Hlev' : level_ok st' s (k, l') (k, q ++ [a])).
  { split_and!; simpl; try done.
    - rewrite Hc', Hc, wrap32_add_l, length_app. simpl. f_equal. lia.
    - rewrite Ht', Ht, wrap64_add_l, remaining_open by lia.
      rewrite sum_open_app. simpl.
      rewrite (open_quantity_lookup _ _ _ Ha'). simpl.
      rewrite (sum_open_strip (mem b) st' q) by (intros; apply Hstrip).
      f_equal. lia.
    - apply Forall_app. split.
      + apply Forall_forall. intros x Hx. rewrite Forall_forall in Hrest.
        eapply resting_strip; [apply Hstrip|by apply Hrest].
      + apply Forall_singleton. unfold resting. rewrite Ha'. simpl.
        split_and!; try done; lia. }
  exists l, l', st'. split_and!; try done.
  eapply (repr_update_level (a :: fl) fl b Q s k q (q ++ [a]) l' st' Hr Hf);
    try done.
  - intros x Hx.
    pose proof (repr_rest_disjoint _ b Q s k _ x Hr Hf Hx) as Hnot.
    assert (x ≠ a) by (intros ->; apply Hnot; by left).
    rewrite Hpt by done. rewrite decide_False; [done|].
    intros Hl%last_Some_elem_of. apply Hnot. apply elem_of_app. by right.
  - intros x. apply static_id, strip_static, Hstrip.
  - rewrite (Permutation_app_comm q). simpl.
    by rewrite Permutation_middle.
Qed.

(** The store, the level record and the queues after [level.remove_order]:
    the slot is handed out but no longer queued. *)
Lemma repr_level_remove fl b Q s k q1 p q2 :
  repr fl b Q → PriceMap.find k (Q s) = Some (q1 ++ p :: q2) →
  ∃ l op l' st',
    PriceMap.find k (levels s b) = Some l ∧
    level_ok (mem b) s (k, l) (k, q1 ++ p :: q2) ∧
    mem b !! p = Some op ∧
    PriceLevel.remove_order p l (mem b) = Some (l', st') ∧
    repr (p :: fl) (set_mem st' (set_levels s (PriceMap.set k l' (levels s b)) b))
      (<[s := PriceMap.set k (q1 ++ q2) (Q s)]> Q) ∧
    level_ok st' s (k, l') (k, q1 ++ q2) ∧
    PriceLevel.price l' = PriceLevel.price l ∧
    (∀ x, strip <$> st' !! x = strip <$> mem b !! x) ∧
    st' !! p = Some (Order.set_next None (Order.set_prev None op)) ∧
    (∀ x, x ≠ p → st' !! x =
        if decide (last q1 = Some x)
        then Order.set_next (Order.next op) <$> mem b !! x
        else if decide (head q2 = Some x)
             then Order.set_prev (Order.prev op) <$> mem b !! x
             else mem b !! x).
Proof.
  intros Hr Hf.
  destruct (repr_find_level _ _ _ _ _ _ Hr Hf) as (l & Hfl & Hlev).
  pose proof Hlev as (_ & Hdll & Hc & Ht & Hrest). simpl in *.
  assert (Hnd : NoDup (q1 ++ p :: q2)).
  { apply (repr_queue_NoDup _ b Q s (k, q1 ++ p :: q2) Hr).
    by apply find_Some_elem_of. }
  assert (Hpq : p ∈ q1 ++ p :: q2) by set_solver.
  pose proof Hrest as Hrp. rewrite Forall_forall in Hrp.
  specialize (Hrp p Hpq). unfold resting in Hrp.
  destruct (mem b !! p) as [op|] eqn:Hp; [|done].
  destruct Hrp as (Hside & Hprice & Hf0 & Hfq & Hq64).
  destruct (level_remove_order_spec (mem b) l q1 p q2 op Hdll Hnd Hp)
    as (l' & st' & Hrm & Hdll' & Hpr & Hc' & Ht' & Hlen & Hstrip & Hp' & Hpt).
  assert (Hsub : ∀ x, x ∈ q1 ++ q2 → x ∈ q1 ++ p :: q2) by set_solver.
  assert (Hlev' : level_ok st' s (k, l') (k, q1 ++ q2)).
  { split_and!; simpl; try done.
    - rewrite Hc', Hc, wrap32_sub_l, !length_app. simpl. f_equal. lia.
    - rewrite Ht', Ht, wrap64_sub_l, remaining_open by lia.
      rewrite (sum_open_strip (mem b) st' (q1 ++ q2)) by (intros; apply Hstrip).
      rewrite !sum_open_app, sum_open_cons, (open_quantity_lookup _ _ _ Hp).
      f_equal. lia.
    - apply Forall_forall. intros x Hx. rewrite Forall_forall in Hrest.
      eapply resting_strip; [apply Hstrip|]. by apply Hrest, Hsub. }
  exists l, op, l', st'. split_and!; try done.
  eapply (repr_update_level fl (p :: fl) b Q s k (q1 ++ p :: q2) (q1 ++ q2)
            l' st' Hr Hf); try done.
  - intros x Hx.
    pose proof (repr_rest_disjoint _ b Q s k _ x Hr Hf Hx) as Hnot.
    assert (Hxq : x ∉ q1 ++ p :: q2)
      by (intros ?; apply Hnot; apply elem_of_app; by right).
    assert (x ≠ p) by (intros ->; by apply Hxq).
    rewrite Hpt by done. rewrite !decide_False; [done| |].
    + intros Hh%head_Some_elem_of. apply Hxq. set_solver.
    + intros Hl%last_Some_elem_of. apply Hxq. set_solver.
  - intros x. apply static_id, strip_static, Hstrip.
  - simpl. by rewrite <- !Permutation_middle.
Qed.

Lemma insert_into_book_spec b Q s k a o :
  repr [a] b Q → mem b !! a = Some o →
  Order.side o = s → Order.price o = k →
  0 ≤ Order.filled_quantity o < Order.quantity o → Order.quantity o < 2 ^ 64 →
  ∃ l l' st',
    let q := default [] (PriceMap.find k (Q s)) in
    let m := PriceMap.try_emplace k (PriceLevel.make k) (levels s b) in
    PriceMap.find k m = Some l ∧
    level_ok (mem b) s (k, l) (k, q) ∧
    PriceLevel.add_order a l (mem b) = Some (l', st') ∧
    insert_into_book a b
      = (inr tt, set_mem st' (set_levels s (PriceMap.set k l' m) b)) ∧
    repr [] (set_mem st' (set_levels s (PriceMap.set k l' m) b))
      (<[s := PriceMap.set k (q ++ [a]) (PriceMap.try_emplace k [] (Q s))]> Q) ∧
    level_ok st' s (k, l') (k, q ++ [a]) ∧
    PriceLevel.price l' = PriceLevel.price l ∧
    (∀ x, strip <$> st' !! x = strip <$> mem b !! x) ∧
    st' !! a = Some (Order.set_next None (Order.set_prev (PriceLevel.tail l) o)) ∧
    (∀ x, x ≠ a → st' !! x =
        if decide (last q = Some x)
        then Order.set_next (Some a) <$> mem b !! x
        else mem b !! x).
Proof.
  intros Hr Ha Hs Hk Hfq Hq64.
  pose proof (repr_try_emplace _ _ _ s k Hr) as Hr2.
  set (m := PriceMap.try_emplace k (PriceLevel.make k) (levels s b)) in *.
  set (b2 := set_levels s m b) in *.
  set (Q2 := <[s := PriceMap.try_emplace k [] (Q s)]> Q) in *.
  set (q := default [] (PriceMap.find k (Q s))).
  assert (Hf2 : PriceMap.find k (Q2 s) = Some q).
  { subst Q2. rewrite fn_lookup_insert.
    rewrite find_try_emplace by by eapply repr_sorted.
    by rewrite decide_True. }
  assert (Hm2 : mem b2 = mem b) by apply mem_set_levels.
  assert (Hl2 : levels s b2 = m) by apply levels_set_levels.
  destruct (repr_level_add [] b2 Q2 s k q a o Hr2 Hf2)
    as (l & l' & st' & Hfl & Hlev & Hadd & Hr3 & Hlev' & Hpr & Hstrip & Ha' & Hpt);
    try done; [by rewrite Hm2|].
  rewrite Hm2 in *. rewrite Hl2 in *.
  exists l, l', st'. simpl. fold q m. split_and!; try done.
  - unfold insert_into_book.
    erewrite bind_ok by (by apply deref_ok).
    erewrite bind_ok by reflexivity. rewrite Hs, Hk. fold m.
    rewrite Hfl. erewrite bind_ok by reflexivity.
    rewrite Hadd. by erewrite bind_ok by reflexivity.
  - unfold b2 in Hr3. rewrite set_levels_twice in Hr3.
    revert Hr3. apply repr_ext. intros s'. subst Q2.
    by rewrite fn_lookup_insert, insert_insert_ext.
Qed.

(** * The end of a submission *)

Lemma elem_of_set_inv {V} k (v : V) (m : PriceMap.t V) e :
  StronglySorted Z.lt m.*1 → e ∈ PriceMap.set k v m →
  e = (k, v) ∨ (e ∈ m ∧ e.1 ≠ k).
Proof.
  induction m as [|[k' v'] m IH]; csimpl; [by intros _ ?%elem_of_nil|].
  intros [Hlt Hs]%StronglySorted_cons.
  destruct (Z.eqb_spec k' k) as [->|Hne].
  - intros [->|Hin]%elem_of_cons; [by left|]. right. split; [by right|].
    rewrite Forall_forall in Hlt.
    assert (k < e.1); [|lia]. apply Hlt. apply list_elem_of_fmap. by exists e.
  - intros [->|Hin]%elem_of_cons; [right; split; [by left|done]|].
    destruct (IH Hs Hin) as [->|[? ?]]; [by left|].
    right. split; [by right|done].
Qed.

Lemma elem_of_try_emplace_inv {V} k (v : V) (m : PriceMap.t V) e :
  e ∈ PriceMap.try_emplace k v m → e = (k, v) ∨ e ∈ m.
Proof.
  induction m as [|[k' v'] m IH]; csimpl.
  - intros ?%list_elem_of_singleton. by left.
  - destruct (k' =? k); [by right|]. destruct (k <? k').
    + intros [->|Hin]%elem_of_cons; [by left|by right].
    + intros [->|Hin]%elem_of_cons; [right; by left|].
      destruct (IH Hin) as [->|?]; [by left|]. right. by right.
Qed.

Lemma nonempty_set_emplace k (q : list nat) (qs : queues) :
  StronglySorted Z.lt qs.*1 → nonempty qs → q ≠ [] →
  nonempty (PriceMap.set k q (PriceMap.try_emplace k [] qs)).
Proof.
  intros Hs Hne Hq. apply Forall_forall. intros e He.
  apply elem_of_set_inv in He as [->|[He Hk]];
    [done| |by apply sorted_try_emplace].
  apply elem_of_try_emplace_inv in He as [->|He]; [done|].
  unfold nonempty in Hne. rewrite Forall_forall in Hne. by apply Hne.
Qed.

Lemma finish_order_spec type a o r b Q :
  repr [a] b Q → unindexed a b → mem b !! a = Some o →
  0 ≤ Order.filled_quantity o ≤ Order.quantity o → Order.quantity o < 2 ^ 64 →
  ∃ st b' Q',
    finish_order type a r b
      = (inr (OrderResult.finish st (Order.filled_quantity o)
                (if Order.is_filled o then 0 else Order.remaining o) r), b') ∧
    st = (if Order.is_filled o then Filled
          else match type with
               | Limit => if 0 <? Order.filled_quantity o
                          then PartiallyFilled else Order.status o
               | Market => Cancelled
               end) ∧
    repr [] b' Q' ∧
    Q' (opp (Order.side o)) = Q (opp (Order.side o)) ∧
    (if Order.is_filled o then Q' (Order.side o) = Q (Order.side o)
     else match type with
          | Limit =>
              Q' (Order.side o) =
                PriceMap.set (Order.price o)
                  (default [] (PriceMap.find (Order.price o) (Q (Order.side o)))
                   ++ [a])
                  (PriceMap.try_emplace (Order.price o) [] (Q (Order.side o)))
          | Market => Q' (Order.side o) = Q (Order.side o)
          end) ∧
    (∀ x, static <$> mem b' !! x = static <$> mem b !! x) ∧
    next_id_ b' = next_id_ b ∧
    timestamp_counter_ b' = timestamp_counter_ b ∧
    orders_ b' =
      (if Order.is_filled o then orders_ b
       else match type with
            | Limit => <[Order.id o := a]> (orders_ b)
            | Market => orders_ b
            end) ∧
    OrderPool.free_count_ (pool_ b') =
      OrderPool.free_count_ (pool_ b) +
      (if Order.is_filled o then 1
       else match type with Limit => 0 | Market => 1 end) ∧
    trade_count_ b' = trade_count_ b ∧ total_volume_ b' = total_volume_ b ∧
    (∀ x, x ≠ a → strip <$> mem b' !! x = strip <$> mem b !! x) ∧
    open_quantity (mem b') a = open_quantity (mem b) a.
Proof.
  intros Hr Hu Ha Hfq Hq64. unfold finish_order.
  erewrite bind_ok by (by apply deref_ok).
  destruct (Order.is_filled o) eqn:Hfill.
  - (* filled: the slot goes back to the pool *)
    erewrite bind_ok by (apply assign_ok; by rewrite Ha).
    set (b1 := set_mem _ b).
    assert (Hr1 : repr [a] b1 Q)
      by (apply repr_assign_floating; [done|by left|by left]).
    destruct (repr_deallocate [] b1 Q a Hr1 Hu) as [Hrun Hr2].
    erewrite bind_ok by exact Hrun.
    eexists Filled, _, Q. split_and!; try done.
    + intros x. unfold mem. simpl. fold (mem b). by rewrite proj_alter.
    + intros x Hx. unfold mem. simpl. fold (mem b).
      by rewrite list_lookup_alter_ne.
    + unfold open_quantity, mem. simpl. fold (mem b).
      by rewrite list_lookup_alter_eq, Ha.
  - destruct type.
    + (* limit: the rest is queued and indexed *)
      set (f := if 0 <? Order.filled_quantity o
                then Order.set_status PartiallyFilled else id).
      set (o1 := f o). set (b1 := set_mem (alter f a (mem b)) b).
      assert (Hrun1 : (if 0 <? Order.filled_quantity o
                       then assign a (Order.set_status PartiallyFilled)
                       else mret tt) b = (inr tt, b1)).
      { subst b1 f. destruct (0 <? Order.filled_quantity o).
        - apply assign_ok. by rewrite Ha.
        - unfold set_mem. rewrite (alter_insert_Some _ _ _ _ Ha).
          simpl. rewrite list_insert_id by done. by destruct b as [? ? ? []]. }
      assert (Hf : ∀ x, static (f x) = static x ∧
                   Order.quantity (f x) = Order.quantity x ∧
                   Order.filled_quantity (f x) = Order.filled_quantity x).
      { intros x. subst f. by destruct (0 <? Order.filled_quantity o). }
      assert (Hr1 : repr [a] b1 Q)
        by (apply repr_assign_floating; [done|by left|by left]).
      assert (Ha1 : mem b1 !! a = Some o1).
      { subst b1. rewrite mem_set_mem, list_lookup_alter_eq. by rewrite Ha. }
      apply Z.leb_gt in Hfill.
      destruct (Hf o) as (Hst & Hqo & Hfo). fold o1 in Hst, Hqo, Hfo.
      assert (Hside : Order.side o1 = Order.side o) by (by injection Hst).
      assert (Hprice : Order.price o1 = Order.price o) by (by injection Hst).
      destruct (insert_into_book_spec b1 Q (Order.side o) (Order.price o) a o1
                  Hr1 Ha1 Hside Hprice)
        as (l & l' & st' & Hfl & Hlev & Hadd & Hrun2 & Hr2 & Hlev' & Hpr
            & Hstrip & Ha' & Hpt); [lia..|].
      set (b2 := set_mem st' _) in *. set (Q2 := <[Order.side o := _]> Q) in *.
      set (o2 := Order.set_next None (Order.set_prev (PriceLevel.tail l) o1)) in *.
      assert (Ha2 : mem b2 !! a = Some o2) by done.
      assert (Hin : a ∈ [] ++ queued Q2).
      { simpl. apply elem_of_queued. exists (Order.side o). subst Q2.
        rewrite fn_lookup_insert. eapply find_elem_of_slots; [|by apply elem_of_app; right; left].
        rewrite find_set, decide_True by done.
        rewrite find_try_emplace by by eapply repr_sorted.
        by rewrite decide_True. }
      pose proof (repr_index_insert [] b2 Q2 a o2 Hr2 Hin Ha2) as Hr3.
      erewrite bind_ok by exact Hrun1.
      erewrite bind_ok by exact Hrun2.
      erewrite bind_ok by (by apply deref_ok).
      erewrite bind_ok by reflexivity.
      erewrite bind_ok by reflexivity.
      eexists _, _, Q2. split_and!; [| |exact Hr3|..].
      * unfold mret, OrderBook.M_ret. do 2 f_equal.
        unfold o2. simpl. unfold Order.remaining. simpl. rewrite Hqo, Hfo.
        reflexivity.
      * subst o1 f. by destruct (0 <? Order.filled_quantity o).
      * subst Q2. by rewrite fn_lookup_insert_ne by (symmetry; apply opp_ne).
      * subst Q2. by rewrite fn_lookup_insert.
      * intros x. change (static <$> st' !! x = static <$> mem b !! x).
        rewrite (strip_static _ _ (Hstrip x)). subst b1.
        rewrite mem_set_mem. apply proj_alter. intros y. apply Hf.
      * subst b2 b1. by destruct (Order.side o).
      * subst b2 b1. by destruct (Order.side o).
      * assert (Order.id o1 = Order.id o) as Hido by (by injection Hst).
        unfold o2. simpl. rewrite Hido. subst b2 b1.
        by destruct (Order.side o).
      * subst b2 b1. destruct (Order.side o); simpl; lia.
      * subst b2 b1. by destruct (Order.side o).
      * subst b2 b1. by destruct (Order.side o).
      * intros x Hx. change (strip <$> st' !! x = strip <$> mem b !! x).
        rewrite Hstrip. subst b1. rewrite mem_set_mem.
        by rewrite list_lookup_alter_ne.
      * change (open_quantity st' a = open_quantity (mem b) a).
        unfold open_quantity. rewrite Ha', Ha. simpl. by rewrite Hqo, Hfo.
    + (* market: the rest is discarded *)
      destruct (repr_deallocate [] b Q a Hr Hu) as [Hrun Hr2].
      erewrite bind_ok by exact Hrun.
      eexists Cancelled, _, Q. by split_and!.
Qed.

(** * Submission, as a whole *)

Lemma traded_frame (st st' : store) oa ps ts :
  (∀ p, p ∈ ps → st' !! p = st !! p) →
  Forall2 (traded st oa) ps ts → Forall2 (traded st' oa) ps ts.
Proof.
  intros H HF. induction HF as [|p t ps ts Hpt HF IH]; constructor.
  - unfold traded in *. rewrite H; [done|by left].
  - apply IH. intros x Hx. apply H. by right.
Qed.

Lemma static_length (st st' : store) :
  (∀ x, static <$> st !! x = static <$> st' !! x) → length st = length st'.
Proof.
  intros H.
  assert (Hle : ∀ st1 st2 : store,
    (∀ x, static <$> st1 !! x = static <$> st2 !! x) →
    (length st1 ≤ length st2)%nat).
  { intros st1 st2 H12.
    destruct (decide (length st1 ≤ length st2)%nat) as [|Hgt]; [done|].
    pose proof (H12 (length st2)) as Hx.
    rewrite (lookup_ge_None_2 st2) in Hx by lia.
    destruct (lookup_lt_is_Some_2 st1 (length st2)) as [o Ho]; [lia|].
    by rewrite Ho in Hx. }
  apply Nat.le_antisymm; by apply Hle.
Qed.

Lemma Forall_impl_elem_of {A} (P P' : A → Prop) (l : list A) :
  Forall P l → (∀ x, x ∈ l → P x → P' x) → Forall P' l.
Proof.
  intros HF Himp. rewrite Forall_forall in *. intros x Hx.
  apply Himp; [done|]. by apply HF.
Qed.

Lemma queued_ext (Q Q' : Side → queues) :
  (∀ s, Q s = Q' s) → queued Q = queued Q'.
Proof. intros H. unfold queued. by rewrite !H. Qed.

(** Queueing the order [a] at the tail of the level at [k], made if it is
    not there, adds [a] to the queued orders. *)
Lemma queued_enqueue (Q : Side → queues) s k a :
  StronglySorted Z.lt (Q s).*1 →
  queued (<[s := PriceMap.set k
                   (default [] (PriceMap.find k (Q s)) ++ [a])
                   (PriceMap.try_emplace k [] (Q s))]> Q)
    ≡ₚ a :: queued Q.
Proof.
  intros Hs. set (q0 := default [] (PriceMap.find k (Q s))).
  set (Q1 := <[s := PriceMap.try_emplace k [] (Q s)]> Q).
  assert (Hf : PriceMap.find k (Q1 s) = Some q0).
  { subst Q1. rewrite fn_lookup_insert, find_try_emplace by done.
    by rewrite decide_True. }
  rewrite (queued_ext _ (<[s := PriceMap.set k (q0 ++ [a]) (Q1 s)]> Q1)).
  - rewrite queued_set by (by rewrite Hf).
    rewrite <- (live_try_emplace Q s k). fold Q1.
    rewrite (queued_find Q1 s k q0 Hf).
    by rewrite (comm (++) q0 [a]).
  - intros s'. subst Q1. rewrite fn_lookup_insert.
    by rewrite insert_insert_ext.
Qed.

Lemma add_order_full side type price quantity b Q :
  repr [] b Q → nonempty (Q Buy) → nonempty (Q Sell) →
  0 < OrderPool.free_count_ (pool_ b) → 0 ≤ quantity < 2 ^ 64 →
  let oid := wrap64 (next_id_ b + 1) in
  let ts := wrap64 (timestamp_counter_ b + 1) in
  let oa := new_order oid price quantity side type ts in
  ∃ a f r b' Q' ps rs,
    OrderPool.free_stack_ (pool_ b)
      !! Z.to_nat (OrderPool.free_count_ (pool_ b) - 1) = Some a ∧
    add_order side type price quantity b = (inr r, b') ∧
    repr [] b' Q' ∧ nonempty (Q' Buy) ∧ nonempty (Q' Sell) ∧
    0 ≤ f ≤ quantity ∧
    OrderResult.order_id r = oid ∧
    OrderResult.filled_quantity r = f ∧
    OrderResult.remaining_quantity r = quantity - f ∧
    OrderResult.status r =
      (if quantity <=? f then Filled
       else match type with
            | Limit => if 0 <? f then PartiallyFilled else Active
            | Market => Cancelled
            end) ∧
    ps `prefix_of` slots (best_first (opp side) (Q (opp side))) ∧
    Forall2 (traded (mem b) oa) ps (OrderResult.trades r) ∧
    shrunk (Q (opp side)) (Q' (opp side)) ∧
    Q' side =
      (if quantity <=? f then Q side
       else match type with
            | Limit =>
                PriceMap.set price
                  (default [] (PriceMap.find price (Q side)) ++ [a])
                  (PriceMap.try_emplace price [] (Q side))
            | Market => Q side
            end) ∧
    (∀ x, x ≠ a → static <$> mem b' !! x = static <$> mem b !! x) ∧
    static <$> mem b' !! a = Some (static oa) ∧
    next_id_ b' = oid ∧ timestamp_counter_ b' = ts ∧
    Forall2 (λ p tr, 0 < Trade.quantity tr ≤ open_quantity (mem b) p ∧
                     Trade.timestamp tr = ts) ps (OrderResult.trades r) ∧
    Forall2 (λ p tr, Trade.quantity tr = open_quantity (mem b) p)
      rs (take (length rs) (OrderResult.trades r)) ∧
    rs `prefix_of` ps ∧ (length ps ≤ S (length rs))%nat ∧
    f = volume (OrderResult.trades r) ∧
    (0 ≤ trade_count_ b < 2 ^ 64 →
     trade_count_ b' =
       wrap64 (trade_count_ b + Z.of_nat (length (OrderResult.trades r)))) ∧
    (0 ≤ total_volume_ b < 2 ^ 64 →
     total_volume_ b' = wrap64 (total_volume_ b + f)) ∧
    (∀ oid', orders_ b' !! oid' =
       if rests type quantity f && bool_decide (oid' = oid) then Some a
       else if decide (oid' ∈ ident (mem b) <$> rs) then None
       else orders_ b !! oid') ∧
    OrderPool.free_count_ (pool_ b') =
      OrderPool.free_count_ (pool_ b) + Z.of_nat (length rs)
      - (if rests type quantity f then 1 else 0) ∧
    (if rests type quantity f then a :: queued Q ≡ₚ rs ++ queued Q'
     else queued Q ≡ₚ rs ++ queued Q') ∧
    (f = quantity ∨ out_of_reach oa (Q' (opp side))) ∧
    (∀ x, x ≠ a → x ∉ ps → strip <$> mem b' !! x = strip <$> mem b !! x) ∧
    open_quantity (mem b') a = quantity - f ∧
    OrderPool.capacity_ (pool_ b') = OrderPool.capacity_ (pool_ b) ∧
    Forall (within oa (mem b)) ps ∧
    (∀ x, x ∈ ps → x ∉ rs →
       ∃ tr, last (OrderResult.trades r) = Some tr ∧
             Trade.quantity tr < open_quantity (mem b) x ∧
             strip <$> mem b' !! x
               = strip <$> (fill (Trade.quantity tr) <$> mem b !! x)).
Proof.
  intros Hr HnB HnS Hfc Hq oid ts oa.
  destruct (add_order_begin side type price quantity b Q Hr Hfc)
    as (a & Htop & Hrun0 & Hr0 & Hu0 & Ha0 & Hfr0).
  set (b0 := begun a side type price quantity b) in *. fold oid ts oa in Ha0.
  destruct (match_order_spec a oa b0 Q
              (OrderResult.set_order_id oid OrderResult.init))
    as (f & b1 & qs' & ps & tr & rs & Hrun1 & Hr1 & Hne1 & Hsh & Ha1 & Hf & Hu1
        & Hst1 & Hid1 & Hts1 & Hps & Htr & Hsw & Hperm & Hend & Hwi);
    try done; [simpl; lia..|].
  simpl in Hr1, Hsh, Hps, Hf.
  set (o1 := Order.set_filled_quantity f oa) in *.
  destruct (finish_order_spec type a o1
              (add_trades tr (OrderResult.set_order_id oid OrderResult.init))
              b1 _ Hr1 Hu1 Ha1)
    as (st & b2 & Q' & Hrun2 & Hst & Hr2 & Hopp & Hown & Hst2 & Hid2 & Hts2
        & Hord2 & Hfc2 & Htc2 & Htv2 & Hstrip2 & Hopen2);
    [simpl; lia..|].
  simpl in Hrun2, Hst, Hopp, Hown. unfold Order.is_filled in *. simpl in *.
  rewrite fn_lookup_insert in Hopp.
  rewrite !fn_lookup_insert_ne in Hown by apply opp_ne.
  assert (Hpsq : ∀ x, x ∈ ps → x ≠ a).
  { intros x Hx ->.
    destruct (repr_floating_not_queued [a] b0 Q a Hr0) as [Hn _]; [by left|].
    apply Hn, elem_of_queued. exists (opp side).
    destruct Hps as [ps' Hps]. assert (Hin : a ∈ slots (best_first (opp side) (Q (opp side))))
      by (rewrite Hps; apply elem_of_app; by left).
    revert Hin. unfold best_first, slots. destruct (opp side); [|done].
    rewrite fmap_reverse. rewrite !list_elem_of_join.
    intros (q & ? & ?). exists q. split; [done|by apply elem_of_reverse]. }
  assert (Hown' : Q' side =
      (if quantity <=? f then Q side
       else match type with
            | Limit =>
                PriceMap.set price
                  (default [] (PriceMap.find price (Q side)) ++ [a])
                  (PriceMap.try_emplace price [] (Q side))
            | Market => Q side
            end))
    by (destruct (quantity <=? f); [done|by destruct type]).
  clear Hown.
  assert (Hown'' : nonempty (Q side) → nonempty (Q' side)).
  { intros Hne. rewrite Hown'.
    destruct (quantity <=? f); [done|]. destruct type; [|done].
    apply nonempty_set_emplace; [by eapply repr_sorted|done|].
    by destruct (default _ _). }
  destruct Hsw as (S1 & S2 & S3 & S4 & S5 & S6 & S7 & S8 & S9 & S10 & S11).
  assert (Hopen0 : ∀ x, x ≠ a →
            open_quantity (mem b0) x = open_quantity (mem b) x).
  { intros x Hx. unfold open_quantity. by rewrite Hfr0. }
  assert (Hids : ident (mem b0) <$> rs = ident (mem b) <$> rs).
  { apply Forall_fmap_ext, Forall_forall. intros x Hx. unfold ident.
    rewrite Hfr0; [done|]. apply Hpsq. by eapply elem_of_prefix. }
  assert (HQ' : queued Q'
            = queued (<[side := Q' side]> (<[opp side := qs']> Q))).
  { apply queued_ext. intros s'. destruct (side_cases side s') as [->| ->].
    - by rewrite fn_lookup_insert.
    - rewrite fn_lookup_insert_ne by (symmetry; apply opp_ne).
      by rewrite fn_lookup_insert. }
  assert (HQ1 : (<[opp side := qs']> Q) side = Q side)
    by (by rewrite fn_lookup_insert_ne by apply opp_ne).
  eexists a, f, _, b2, Q', ps, rs. split; [done|]. split.
  { rewrite Hrun0. erewrite bind_ok by exact Hrun1. exact Hrun2. }
  simpl. rewrite Hopp. split_and!; try done.
  - destruct side; simpl in *; [by apply Hown''|by rewrite Hopp].
  - destruct side; simpl in *; [by rewrite Hopp|by apply Hown''].
  - lia.
  - lia.
  - simpl. destruct (Z.leb_spec quantity f).
    + lia.
    + subst o1. unfold Order.remaining. simpl. rewrite wrap64_small; lia.
  - eapply traded_frame; [|exact Htr]. intros x Hx. symmetry.
    by apply Hfr0, Hpsq.
  - intros x Hx. by rewrite Hst2, Hst1, Hfr0.
  - by rewrite Hst2, Hst1, Ha0.
  - by rewrite Hid2, Hid1.
  - by rewrite Hts2, Hts1.
  - eapply Forall2_impl_strong; [exact S1|]. intros p t Hp [Hqt Ht].
    split; [|exact Ht]. by rewrite <- Hopen0 by by apply Hpsq.
  - eapply Forall2_impl_strong; [exact S2|]. intros p t Hp Hqt.
    rewrite <- Hopen0; [done|]. apply Hpsq. by eapply elem_of_prefix.
  - intros H. rewrite Htc2. by apply S6.
  - intros H. rewrite Htv2, S5. by apply S7.
  - intros oid'. rewrite Hord2. unfold rests. rewrite <- Hids.
    destruct (quantity <=? f); simpl; [apply S8|].
    destruct type; simpl; [|apply S8].
    destruct (bool_decide_reflect (oid' = oid)) as [->|Hne].
    + by rewrite lookup_insert_eq.
    + rewrite lookup_insert_ne by done. apply S8.
  - rewrite Hfc2, S9. unfold rests.
    change (OrderPool.free_count_ (pool_ b0))
      with (OrderPool.free_count_ (pool_ b) - 1).
    destruct (quantity <=? f), type; lia.
  - unfold rests. rewrite HQ', Hown'.
    destruct (quantity <=? f).
    { by rewrite queued_insert_same. }
    destruct type.
    + rewrite <- HQ1, queued_enqueue
        by (rewrite HQ1; by eapply repr_sorted).
      rewrite Hperm at 1. apply Permutation_middle.
    + by rewrite queued_insert_same.
  - intros x Hx Hxps. rewrite Hstrip2, S10 by done. by rewrite Hfr0.
  - rewrite Hopen2. unfold open_quantity. by rewrite Ha1.
  - destruct Hr2 as ((_ & -> & _) & _). destruct Hr as ((_ & -> & _) & _).
    f_equal. fold (mem b2) (mem b).
    rewrite (static_length (mem b2) (mem b1)) by done.
    rewrite (static_length (mem b1) (mem b0)) by done.
    unfold b0, begun, mem. simpl. by rewrite length_insert.
  - eapply Forall_impl_elem_of; [exact Hwi|]. intros x Hx Hw.
    unfold within, price_at in *. by rewrite <- Hfr0 by by apply Hpsq.
  - intros x Hx Hxr. destruct (S11 x Hx Hxr) as (t & Hl & Hlt & Heq).
    pose proof (Hpsq x Hx) as Hxa.
    exists t. rewrite <- Hopen0, <- Hfr0 by done. split_and!; [done|done|].
    rewrite <- Heq. by apply Hstrip2.
Qed.

Lemma add_order_spec side type price quantity b Q :
  repr [] b Q → nonempty (Q Buy) → nonempty (Q Sell) →
  0 < OrderPool.free_count_ (pool_ b) → 0 ≤ quantity < 2 ^ 64 →
  let oid := wrap64 (next_id_ b + 1) in
  let ts := wrap64 (timestamp_counter_ b + 1) in
  let oa := new_order oid price quantity side type ts in
  ∃ a f r b' Q' ps,
    OrderPool.free_stack_ (pool_ b)
      !! Z.to_nat (OrderPool.free_count_ (pool_ b) - 1) = Some a ∧
    add_order side type price quantity b = (inr r, b') ∧
    repr [] b' Q' ∧ nonempty (Q' Buy) ∧ nonempty (Q' Sell) ∧
    0 ≤ f ≤ quantity ∧
    OrderResult.order_id r = oid ∧
    OrderResult.filled_quantity r = f ∧
    OrderResult.remaining_quantity r = quantity - f ∧
    OrderResult.status r =
      (if quantity <=? f then Filled
       else match type with
            | Limit => if 0 <? f then PartiallyFilled else Active
            | Market => Cancelled
            end) ∧
    ps `prefix_of` slots (best_first (opp side) (Q (opp side))) ∧
    Forall2 (traded (mem b) oa) ps (OrderResult.trades r) ∧
    shrunk (Q (opp side)) (Q' (opp side)) ∧
    Q' side =
      (if quantity <=? f then Q side
       else match type with
            | Limit =>
                PriceMap.set price
                  (default [] (PriceMap.find price (Q side)) ++ [a])
                  (PriceMap.try_emplace price [] (Q side))
            | Market => Q side
            end) ∧
    (∀ x, x ≠ a → static <$> mem b' !! x = static <$> mem b !! x) ∧
    static <$> mem b' !! a = Some (static oa) ∧
    next_id_ b' = oid ∧ timestamp_counter_ b' = ts.
Proof.
  intros Hr HnB HnS Hfc Hq oid ts oa.
  destruct (add_order_full side type price quantity b Q Hr HnB HnS Hfc Hq)
    as (a & f & r & b' & Q' & ps & rs & H).
  exists a, f, r, b', Q', ps. destruct_and!. by split_and!.
Qed.

(** * Cancellation *)

Lemma elem_of_find_Some {V} k (v : V) (m : PriceMap.t V) :
  StronglySorted Z.lt m.*1 → (k, v) ∈ m → PriceMap.find k m = Some v.
Proof.
  induction m as [|[k' v'] m IH]; csimpl; [by intros _ ?%elem_of_nil|].
  intros [Hlt Hs]%StronglySorted_cons [Heq|Hin]%elem_of_cons.
  - simplify_eq. by rewrite Z.eqb_refl.
  - destruct (Z.eqb_spec k' k) as [->|Hne]; [|by apply IH].
    rewrite Forall_forall in Hlt.
    assert (k < k); [|lia]. apply Hlt. apply list_elem_of_fmap. by exists (k, v).
Qed.

(** An indexed order is queued at the level of its own side and price. *)
Lemma repr_indexed fl b Q oid p :
  repr fl b Q → orders_ b !! oid = Some p → p ∉ fl →
  ∃ o q1 q2,
    mem b !! p = Some o ∧ Order.id o = oid ∧
    PriceMap.find (Order.price o) (Q (Order.side o)) = Some (q1 ++ p :: q2).
Proof.
  intros Hr Hidx Hfl.
  pose proof Hr as (_ & _ & _ & _ & _ & Hi).
  destruct (Hi oid p Hidx) as [Hlive Hid].
  destruct (mem b !! p) as [o|] eqn:Hp; [|done].
  apply elem_of_app in Hlive as [?|Hq]; [done|].
  apply elem_of_queued in Hq as [s Hq].
  apply elem_of_slots in Hq as ([k q] & Hkq & Hpq). simpl in Hpq.
  assert (Hf : PriceMap.find k (Q s) = Some q)
    by (apply elem_of_find_Some; [by eapply repr_sorted|done]).
  destruct (repr_find_level _ _ _ _ _ _ Hr Hf) as (l & Hfl' & Hlev).
  destruct Hlev as (_ & _ & _ & _ & Hrest). simpl in Hrest.
  rewrite Forall_forall in Hrest. specialize (Hrest p Hpq).
  unfold resting in Hrest. rewrite Hp in Hrest.
  destruct Hrest as (<- & <- & _).
  apply list_elem_of_split in Hpq as (q1 & q2 & ->).
  by exists o, q1, q2.
Qed.

Lemma nonempty_erase k (qs : queues) :
  nonempty qs → nonempty (PriceMap.erase k qs).
Proof.
  unfold nonempty. induction qs as [|[k' q] qs IH]; csimpl; [done|].
  intros [Hq Hqs]%Forall_cons. destruct (k' =? k); [done|].
  apply Forall_cons. split; [done|by apply IH].
Qed.

Lemma nonempty_set k (q : list nat) (qs : queues) :
  nonempty qs → q ≠ [] → nonempty (PriceMap.set k q qs).
Proof.
  unfold nonempty. induction qs as [|[k' q'] qs IH]; csimpl; [done|].
  intros [Hq Hqs]%Forall_cons Hne. destruct (k' =? k).
  - by apply Forall_cons.
  - apply Forall_cons. split; [done|by apply IH].
Qed.

Lemma cancel_order_spec oid p b Q :
  repr [] b Q → nonempty (Q Buy) → nonempty (Q Sell) →
  orders_ b !! oid = Some p →
  ∃ o q1 q2 l l' st' b' Q',
    let s := Order.side o in
    let k := Order.price o in
    mem b !! p = Some o ∧ Order.id o = oid ∧
    PriceMap.find k (Q s) = Some (q1 ++ p :: q2) ∧
    cancel_order oid b = (inr true, b') ∧
    repr [] b' Q' ∧ nonempty (Q' Buy) ∧ nonempty (Q' Sell) ∧
    Q' (opp s) = Q (opp s) ∧
    Q' s = (if decide (q1 ++ q2 = []) then PriceMap.erase k (Q s)
            else PriceMap.set k (q1 ++ q2) (Q s)) ∧
    (∀ x, static <$> mem b' !! x = static <$> mem b !! x) ∧
    orders_ b' = delete oid (orders_ b) ∧
    next_id_ b' = next_id_ b ∧
    timestamp_counter_ b' = timestamp_counter_ b ∧
    trade_count_ b' = trade_count_ b ∧
    total_volume_ b' = total_volume_ b ∧
    (* the concrete level, store and pool *)
    PriceMap.find k (levels s b) = Some l ∧
    level_ok (mem b) s (k, l) (k, q1 ++ p :: q2) ∧
    PriceLevel.remove_order p l (mem b) = Some (l', st') ∧
    level_ok st' s (k, l') (k, q1 ++ q2) ∧
    PriceLevel.price l' = PriceLevel.price l ∧
    levels s b' = (if decide (q1 ++ q2 = []) then PriceMap.erase k (levels s b)
                   else PriceMap.set k l' (levels s b)) ∧
    levels (opp s) b' = levels (opp s) b ∧
    mem b' = alter (Order.set_status Cancelled) p st' ∧
    st' !! p = Some (Order.set_next None (Order.set_prev None o)) ∧
    (∀ x, x ≠ p → st' !! x =
        if decide (last q1 = Some x)
        then Order.set_next (Order.next o) <$> mem b !! x
        else if decide (head q2 = Some x)
             then Order.set_prev (Order.prev o) <$> mem b !! x
             else mem b !! x) ∧
    OrderPool.free_stack_ (pool_ b') =
      <[Z.to_nat (OrderPool.free_count_ (pool_ b)) := p]>
        (OrderPool.free_stack_ (pool_ b)) ∧
    OrderPool.free_count_ (pool_ b') = OrderPool.free_count_ (pool_ b) + 1 ∧
    OrderPool.size_ (pool_ b') = OrderPool.size_ (pool_ b) - 1 ∧
    OrderPool.capacity_ (pool_ b') = OrderPool.capacity_ (pool_ b).
Proof.
  intros Hr HnB HnS Hidx.
  destruct (repr_indexed _ _ _ _ _ Hr Hidx) as (o & q1 & q2 & Hp & Hid & Hf);
    [by intros ?%elem_of_nil|].
  set (s := Order.side o) in *. set (k := Order.price o) in *.
  destruct (repr_level_remove _ _ _ _ _ _ _ _ Hr Hf)
    as (l & o' & l' & st' & Hfl & Hlev & Hp' & Hrm & Hr1 & Hlev' & Hpr
        & Hstrip & Hp1 & Hpt).
  rewrite Hp in Hp'. injection Hp' as <-.
  set (b1 := set_mem st' (set_levels s (PriceMap.set k l' (levels s b)) b)) in *.
  set (Q1 := <[s := PriceMap.set k (q1 ++ q2) (Q s)]> Q) in *.
  set (o1 := Order.set_next None (Order.set_prev None o)) in *.
  assert (Hl1 : PriceMap.find k (levels s b1) = Some l').
  { subst b1. rewrite levels_set_mem, levels_set_levels, find_set.
    rewrite decide_True by done. by rewrite Hfl. }
  (* the level is erased when its queue has become empty *)
  set (b2 := if PriceLevel.empty l'
             then set_levels s (PriceMap.erase k (levels s b1)) b1 else b1).
  set (Q2 := <[s := if decide (q1 ++ q2 = [])
                    then PriceMap.erase k (Q s)
                    else PriceMap.set k (q1 ++ q2) (Q s)]> Q).
  assert (Hr2 : repr [p] b2 Q2).
  { subst b2 Q2. rewrite (level_empty_queue _ _ _ _ _ Hlev').
    destruct (decide (q1 ++ q2 = [])) as [He|He].
    - rewrite bool_decide_true by done.
      assert (Hf1 : PriceMap.find k (Q1 s) = Some []).
      { subst Q1. rewrite fn_lookup_insert, find_set, decide_True by done.
        by rewrite Hf, He. }
      pose proof (repr_erase_level _ _ _ _ _ Hr1 Hf1) as Hr2.
      revert Hr2. apply repr_ext. intros s'. subst Q1.
      by rewrite fn_lookup_insert, insert_insert_ext, erase_set.
    - by rewrite bool_decide_false by done. }
  assert (Hm2 : mem b2 = st').
  { subst b2. destruct (PriceLevel.empty l'); [|done].
    by rewrite mem_set_levels. }
  assert (Ho2 : orders_ b2 = orders_ b).
  { subst b2. destruct (PriceLevel.empty l'); [rewrite orders_set_levels|];
      subst b1; by destruct s. }
  assert (Hc2 : next_id_ b2 = next_id_ b ∧
                timestamp_counter_ b2 = timestamp_counter_ b ∧
                trade_count_ b2 = trade_count_ b ∧
                total_volume_ b2 = total_volume_ b).
  { subst b2 b1. destruct (PriceLevel.empty l'); by destruct s. }
  set (b3 := set_orders_ (delete oid (orders_ b2)) b2).
  pose proof (repr_index_delete _ _ _ oid Hr2) as Hr3. fold b3 in Hr3.
  assert (Hu3 : unindexed p b3).
  { subst b3. rewrite <- Hid.
    change (Order.id o) with (Order.id o1).
    eapply unindexed_delete; [done|]. by rewrite Hm2. }
  set (b4 := set_mem (alter (Order.set_status Cancelled) p (mem b3)) b3).
  assert (Hr4 : repr [p] b4 Q2)
    by (apply repr_assign_floating; [done|by left|by left]).
  destruct (repr_deallocate [] b4 Q2 p Hr4 Hu3) as [Hrun5 Hr5].
  set (b5 := set_pool_ _ b4) in *.
  assert (Hne2 : ∀ s', nonempty (Q s') → nonempty (Q2 s')).
  { intros s' Hne. subst Q2. destruct (side_cases s s') as [->| ->].
    - rewrite fn_lookup_insert. destruct (decide (q1 ++ q2 = [])).
      + by apply nonempty_erase.
      + by apply nonempty_set.
    - by rewrite fn_lookup_insert_ne by (symmetry; apply opp_ne). }
  assert (Hpool2 : pool_ b2 = pool_ b1).
  { subst b2. destruct (PriceLevel.empty l'); [|done]. apply pool_set_levels. }
  assert (Hpool1 : OrderPool.free_stack_ (pool_ b1) = OrderPool.free_stack_ (pool_ b) ∧
                   OrderPool.free_count_ (pool_ b1) = OrderPool.free_count_ (pool_ b) ∧
                   OrderPool.size_ (pool_ b1) = OrderPool.size_ (pool_ b) ∧
                   OrderPool.capacity_ (pool_ b1) = OrderPool.capacity_ (pool_ b))
    by (subst b1; by destruct s).
  exists o, q1, q2, l, l', st', b5, Q2. simpl. fold s k. split_and!; try done.
  - unfold cancel_order. erewrite bind_ok by reflexivity. rewrite Hidx.
    erewrite bind_ok by (by apply deref_ok). fold s k. rewrite Hfl.
    erewrite bind_ok.
    2:{ erewrite bind_ok by (by eapply level_remove_order_ok).
        fold b1. erewrite bind_ok by (by apply level_at_ok).
        instantiate (1 := b2). instantiate (1 := tt). subst b2.
        by destruct (PriceLevel.empty l'). }
    erewrite bind_ok by reflexivity.
    erewrite bind_ok by reflexivity. fold b3.
    erewrite bind_ok.
    2:{ apply assign_ok. subst b3. unfold mem in *. simpl.
        rewrite Hm2, Hp1. by eexists. }
    fold b4. by erewrite bind_ok by exact Hrun5.
  - by apply Hne2.
  - by apply Hne2.
  - subst Q2. by rewrite fn_lookup_insert_ne by (symmetry; apply opp_ne).
  - subst Q2. by rewrite fn_lookup_insert.
  - intros x. change (static <$> alter (Order.set_status Cancelled) p (mem b2) !! x
                      = static <$> mem b !! x).
    rewrite proj_alter by done. rewrite Hm2. apply strip_static, Hstrip.
  - change (delete oid (orders_ b2) = delete oid (orders_ b)). by rewrite Ho2.
  - apply Hc2.
  - apply Hc2.
  - apply Hc2.
  - apply Hc2.
  - change (levels s b2 = if decide (q1 ++ q2 = [])
                          then PriceMap.erase k (levels s b)
                          else PriceMap.set k l' (levels s b)).
    subst b2. rewrite (level_empty_queue _ _ _ _ _ Hlev').
    destruct (decide (q1 ++ q2 = [])) as [He|He].
    + rewrite bool_decide_true by done. subst b1.
      by rewrite levels_set_levels, levels_set_mem, levels_set_levels, erase_set.
    + rewrite bool_decide_false by done. subst b1.
      by rewrite levels_set_mem, levels_set_levels.
  - change (levels (opp s) b2 = levels (opp s) b).
    subst b2 b1. destruct (PriceLevel.empty l'); by destruct s.
  - change (alter (Order.set_status Cancelled) p (mem b2) = 
            alter (Order.set_status Cancelled) p st'). by rewrite Hm2.
  - change (<[Z.to_nat (OrderPool.free_count_ (pool_ b2)) := p]>
              (OrderPool.free_stack_ (pool_ b2)) =
            <[Z.to_nat (OrderPool.free_count_ (pool_ b)) := p]>
              (OrderPool.free_stack_ (pool_ b))).
    rewrite Hpool2. by destruct Hpool1 as (-> & -> & _).
  - change (OrderPool.free_count_ (pool_ b2) + 1 = OrderPool.free_count_ (pool_ b) + 1).
    rewrite Hpool2. by destruct Hpool1 as (_ & -> & _).
  - change (OrderPool.size_ (pool_ b2) - 1 = OrderPool.size_ (pool_ b) - 1).
    rewrite Hpool2. by destruct Hpool1 as (_ & _ & -> & _).
  - change (OrderPool.capacity_ (pool_ b2) = OrderPool.capacity_ (pool_ b)).
    rewrite Hpool2. by destruct Hpool1 as (_ & _ & _ & ->).
Qed.

(** * Submissions that do not trade *)

Lemma match_asks_end fuel a r b :
  match_against_asks_loop fuel None a r b = (inr r, b).
Proof. by destruct fuel. Qed.

Lemma match_bids_end fuel a r b :
  match_against_bids_loop fuel None a r b = (inr r, b).
Proof. by destruct fuel. Qed.

Lemma match_order_no_cross a oa r b :
  mem b !! a = Some oa → Order.type oa = Limit →
  no_cross (Order.side oa) (Order.price oa) b →
  match_order a r b = (inr r, b).
Proof.
  intros Ha Hty Hnc. unfold match_order.
  erewrite bind_ok by (by apply deref_ok).
  unfold no_cross in Hnc. destruct (Order.side oa).
  - unfold match_against_asks. erewrite bind_ok by reflexivity.
    destruct (PriceMap.begin (asks_ b)) as [k|].
    + by eapply match_asks_break.
    + apply match_asks_end.
  - unfold match_against_bids. erewrite bind_ok by reflexivity.
    destruct (PriceMap.rbegin (bids_ b)) as [k|].
    + by eapply match_bids_break.
    + apply match_bids_end.
Qed.

(** An order without quantity has nothing to match. *)
Lemma match_order_nothing a oa r b :
  mem b !! a = Some oa → Order.remaining oa = 0 →
  match_order a r b = (inr r, b).
Proof.
  intros Ha Hrem. unfold match_order.
  erewrite bind_ok by (by apply deref_ok).
  destruct (Order.side oa).
  - unfold match_against_asks. erewrite bind_ok by reflexivity.
    by eapply match_asks_done.
  - unfold match_against_bids. erewrite bind_ok by reflexivity.
    by eapply match_bids_done.
Qed.

(** A limit order with quantity that does not cross is queued as it is. *)
Lemma add_order_no_cross side price quantity b Q :
  repr [] b Q → 0 < OrderPool.free_count_ (pool_ b) →
  0 < quantity < 2 ^ 64 → no_cross side price b →
  let oid := wrap64 (next_id_ b + 1) in
  let ts := wrap64 (timestamp_counter_ b + 1) in
  let oa := new_order oid price quantity side Limit ts in
  let m := PriceMap.try_emplace price (PriceLevel.make price) (levels side b) in
  let q := default [] (PriceMap.find price (Q side)) in
  ∃ a l l' st',
    let b0 := begun a side Limit price quantity b in
    let b' := set_orders_ (<[oid := a]> (orders_ b))
                (set_mem st' (set_levels side (PriceMap.set price l' m) b0)) in
    OrderPool.free_stack_ (pool_ b)
      !! Z.to_nat (OrderPool.free_count_ (pool_ b) - 1) = Some a ∧
    add_order side Limit price quantity b
      = (inr (OrderResult.mk oid Active 0 quantity []), b') ∧
    repr [] b'
      (<[side := PriceMap.set price (q ++ [a])
                   (PriceMap.try_emplace price [] (Q side))]> Q) ∧
    PriceMap.find price m = Some l ∧
    level_ok (mem b0) side (price, l) (price, q) ∧
    PriceLevel.add_order a l (mem b0) = Some (l', st') ∧
    level_ok st' side (price, l') (price, q ++ [a]) ∧
    PriceLevel.price l' = PriceLevel.price l ∧
    st' !! a = Some (Order.set_next None (Order.set_prev (PriceLevel.tail l) oa)) ∧
    (∀ x, x ≠ a → st' !! x =
        if decide (last q = Some x)
        then Order.set_next (Some a) <$> mem b !! x
        else mem b !! x).
Proof.
  intros Hr Hfc Hq Hnc oid ts oa m q.
  destruct (add_order_begin side Limit price quantity b Q Hr Hfc)
    as (a & Htop & Hrun0 & Hr0 & Hu0 & Ha0 & Hfr0).
  set (b0 := begun a side Limit price quantity b) in *. fold oid ts oa in Ha0.
  destruct (insert_into_book_spec b0 Q side price a oa Hr0 Ha0)
    as (l & l' & st' & Hfl & Hlev & Hadd & Hrun2 & Hr2 & Hlev' & Hpr
        & Hstrip & Ha' & Hpt); [done|done|simpl; lia..|].
  assert (Hl0 : levels side b0 = levels side b) by (by destruct side).
  rewrite Hl0 in *. fold m q in Hfl, Hrun2, Hr2, Hlev, Hlev', Hpt.
  set (b1 := set_mem st' _) in *.
  set (Q1 := <[side := _]> Q) in *.
  set (o2 := Order.set_next None (Order.set_prev (PriceLevel.tail l) oa)) in *.
  assert (Ha2 : mem b1 !! a = Some o2) by done.
  assert (Hin : a ∈ [] ++ queued Q1).
  { simpl. apply elem_of_queued. exists side. subst Q1.
    rewrite fn_lookup_insert.
    eapply find_elem_of_slots; [|by apply elem_of_app; right; left].
    rewrite find_set, decide_True by done.
    rewrite find_try_emplace by by eapply repr_sorted.
    by rewrite decide_True. }
  pose proof (repr_index_insert [] b1 Q1 a o2 Hr2 Hin Ha2) as Hr3.
  assert (Ho1 : orders_ b1 = orders_ b) by (subst b1; by destruct side).
  exists a, l, l', st'. simpl. fold b0 b1. split_and!; try done.
  - rewrite Hrun0.
    erewrite bind_ok.
    2:{ eapply match_order_no_cross; [exact Ha0|done|].
        unfold no_cross in *. by destruct side. }
    unfold finish_order. erewrite bind_ok by (by apply deref_ok).
    unfold Order.is_filled. simpl.
    destruct (Z.leb_spec quantity 0) as [?|_]; [lia|].
    erewrite bind_ok by reflexivity.
    erewrite bind_ok by exact Hrun2.
    erewrite bind_ok by (by apply deref_ok).
    erewrite bind_ok by reflexivity.
    erewrite bind_ok by reflexivity.
    unfold mret, OrderBook.M_ret. rewrite Ho1. f_equal. f_equal.
    unfold OrderResult.finish, Order.remaining. simpl.
    f_equal. rewrite wrap64_small; lia.
  - rewrite <- Ho1. exact Hr3.
  - intros x Hx. rewrite (Hpt x Hx). by rewrite (Hfr0 x Hx).
Qed.

(** A submission without quantity is complete at once: its slot returns to
    the pool and nothing is queued or indexed. *)
Lemma add_order_zero side type price b Q :
  repr [] b Q → 0 < OrderPool.free_count_ (pool_ b) →
  ∃ a b',
    OrderPool.free_stack_ (pool_ b)
      !! Z.to_nat (OrderPool.free_count_ (pool_ b) - 1) = Some a ∧
    add_order side type price 0 b
      = (inr (OrderResult.mk (wrap64 (next_id_ b + 1)) Filled 0 0 []), b') ∧
    repr [] b' Q ∧
    bids_ b' = bids_ b ∧ asks_ b' = asks_ b ∧ orders_ b' = orders_ b ∧
    OrderPool.free_stack_ (pool_ b') = OrderPool.free_stack_ (pool_ b) ∧
    OrderPool.free_count_ (pool_ b') = OrderPool.free_count_ (pool_ b) ∧
    OrderPool.size_ (pool_ b') = OrderPool.size_ (pool_ b) ∧
    OrderPool.capacity_ (pool_ b') = OrderPool.capacity_ (pool_ b) ∧
    trade_count_ b' = trade_count_ b ∧ total_volume_ b' = total_volume_ b ∧
    next_id_ b' = wrap64 (next_id_ b + 1) ∧
    timestamp_counter_ b' = wrap64 (timestamp_counter_ b + 1) ∧
    (∀ x, x ≠ a → mem b' !! x = mem b !! x).
Proof.
  intros Hr Hfc.
  destruct (add_order_begin side type price 0 b Q Hr Hfc)
    as (a & Htop & Hrun0 & Hr0 & Hu0 & Ha0 & Hfr0).
  set (b0 := begun a side type price 0 b) in *.
  set (oa := new_order _ _ _ _ _ _) in *.
  set (b1 := set_mem (alter (Order.set_status Filled) a (mem b0)) b0).
  assert (Hr1 : repr [a] b1 Q)
    by (apply repr_assign_floating; [done|by left|by left]).
  destruct (repr_deallocate [] b1 Q a Hr1 Hu0) as [Hrun2 Hr2].
  set (b2 := set_pool_ _ b1) in *.
  exists a, b2. split_and!; try done.
  - rewrite Hrun0.
    erewrite bind_ok by (by eapply match_order_nothing).
    unfold finish_order. erewrite bind_ok by (by apply deref_ok).
    simpl. erewrite bind_ok by (apply assign_ok; by rewrite Ha0).
    fold b1. by erewrite bind_ok by exact Hrun2.
  - change (<[Z.to_nat (OrderPool.free_count_ (pool_ b) - 1) := a]>
              (OrderPool.free_stack_ (pool_ b))
            = OrderPool.free_stack_ (pool_ b)).
    by apply list_insert_id.
  - simpl. lia.
  - simpl. lia.
  - intros x Hx. change (alter (Order.set_status Filled) a (mem b0) !! x
                         = mem b !! x).
    rewrite list_lookup_alter_ne by done. by apply Hfr0.
Qed.

(** * Time priority is an invariant *)

Lemma StronglySorted_sublist {A} (R : relation A) (l1 l2 : list A) :
  l1 `sublist_of` l2 → StronglySorted R l2 → StronglySorted R l1.
Proof.
  induction 1 as [|x l1 l2 Hsub IH|x l1 l2 Hsub IH].
  - done.
  - intros [Hall Hs]%StronglySorted_cons. apply StronglySorted_cons.
    split; [|by apply IH]. eapply Forall_forall. intros y Hy.
    rewrite Forall_forall in Hall. apply Hall. by eapply elem_of_sublist.
  - intros [_ Hs]%StronglySorted_cons. by apply IH.
Qed.

Lemma StronglySorted_frame {A} (R R' : relation A) (l : list A) :
  (∀ x y, x ∈ l → y ∈ l → R x y → R' x y) →
  StronglySorted R l → StronglySorted R' l.
Proof.
  induction l as [|x l IH]; intros HR; [constructor|].
  intros [Hall Hs]%StronglySorted_cons. apply StronglySorted_cons. split.
  - rewrite Forall_forall in *. intros y Hy.
    apply HR; [by left|by right|by apply Hall].
  - apply IH; [|done]. intros y z Hy Hz. apply HR; by right.
Qed.

Lemma stamp_static (st st' : store) p :
  static <$> st' !! p = static <$> st !! p →
  stamp st' p = stamp st p ∧ ident st' p = ident st p.
Proof.
  unfold stamp, ident.
  destruct (st' !! p) as [[]|], (st !! p) as [[]|]; simpl; intros;
    by simplify_eq.
Qed.

Lemma shrunk_slots (qs qs' : queues) p :
  shrunk qs qs' → p ∈ slots qs' → p ∈ slots qs.
Proof.
  intros Hsh (kq' & Hkq' & Hp)%elem_of_slots.
  unfold shrunk in Hsh. rewrite Forall_forall in Hsh.
  destruct (Hsh kq' Hkq') as (q & Hf & Hsub).
  eapply find_elem_of_slots; [done|]. by eapply elem_of_sublist.
Qed.

(** Queues that only lost orders stay in the order of submission. *)
Lemma older_shrunk (st st' : store) (qs qs' : queues) :
  shrunk qs qs' →
  (∀ p, p ∈ slots qs' → static <$> st' !! p = static <$> st !! p) →
  Forall (λ kq, StronglySorted (older st) kq.2) qs →
  Forall (λ kq, StronglySorted (older st') kq.2) qs'.
Proof.
  intros Hsh Hst Hs. unfold shrunk in Hsh.
  rewrite Forall_forall in *. intros kq' Hkq'.
  destruct (Hsh kq' Hkq') as (q & Hf & Hsub).
  apply find_Some_elem_of in Hf.
  pose proof (StronglySorted_sublist _ _ _ Hsub (Hs _ Hf)) as Hq.
  revert Hq. apply StronglySorted_frame. intros x y Hx Hy. unfold older.
  destruct (stamp_static st st' x) as [-> _];
    [apply Hst, elem_of_slots; by exists kq'|].
  destruct (stamp_static st st' y) as [-> _];
    [apply Hst, elem_of_slots; by exists kq'|].
  done.
Qed.

Lemma shrunk_grown a (qs qs' : queues) : shrunk qs qs' → grown a qs qs'.
Proof.
  unfold shrunk, grown. intros H. eapply Forall_impl; [exact H|].
  intros kq' (q & Hf & Hsub).
  exists q. split; [by apply sublist_inserts_r|].
  right. by apply find_Some_elem_of.
Qed.

Lemma grown_append a k (qs : queues) :
  StronglySorted Z.lt qs.*1 →
  grown a qs (PriceMap.set k (default [] (PriceMap.find k qs) ++ [a])
                (PriceMap.try_emplace k [] qs)).
Proof.
  intros Hs. apply Forall_forall. intros e He.
  apply elem_of_set_inv in He as [->|[He Hk]]; [| |by apply sorted_try_emplace].
  - exists (default [] (PriceMap.find k qs)). split; [done|]. simpl.
    destruct (PriceMap.find k qs) as [q|] eqn:Hf; [|by left].
    right. by apply find_Some_elem_of.
  - apply elem_of_try_emplace_inv in He as [->|He]; [done|].
    exists e.2. split; [by apply sublist_inserts_r|]. right. by destruct e.
Qed.

Lemma grown_slots a (qs qs' : queues) p :
  grown a qs qs' → p ∈ slots qs' → p = a ∨ p ∈ slots qs.
Proof.
  intros Hg (kq' & Hkq' & Hp)%elem_of_slots.
  unfold grown in Hg. rewrite Forall_forall in Hg.
  destruct (Hg kq' Hkq') as (q & Hsub & Hq).
  pose proof (elem_of_sublist _ _ _ Hp Hsub) as [Hin|Hin]%elem_of_app.
  - right. destruct Hq as [->|Hq]; [by apply elem_of_nil in Hin|].
    apply elem_of_slots. by exists (kq'.1, q).
  - left. by apply list_elem_of_singleton in Hin.
Qed.

(** Queues that lost orders and gained the newest one at the tail stay in
    the order of submission. *)
Lemma older_grown (st st' : store) a (qs qs' : queues) :
  grown a qs qs' →
  (∀ p, p ∈ slots qs →
     static <$> st' !! p = static <$> st !! p ∧ stamp st p < stamp st' a) →
  Forall (λ kq, StronglySorted (older st) kq.2) qs →
  Forall (λ kq, StronglySorted (older st') kq.2) qs'.
Proof.
  intros Hg Hst Hs. unfold grown in Hg.
  rewrite Forall_forall in *. intros kq' Hkq'.
  destruct (Hg kq' Hkq') as (q & Hsub & Hq).
  eapply StronglySorted_sublist; [exact Hsub|].
  destruct Hq as [->|Hq]; [repeat constructor|].
  assert (Hin : ∀ x, x ∈ q → x ∈ slots qs).
  { intros x Hx. apply elem_of_slots. by exists (kq'.1, q). }
  apply StronglySorted_app. split_and!.
  - intros x y Hx ->%list_elem_of_singleton. unfold older.
    destruct (Hst x (Hin x Hx)) as [Hx1 Hx2].
    by destruct (stamp_static st st' x Hx1) as [-> _].
  - eapply StronglySorted_frame; [|exact (Hs _ Hq)].
    intros x y Hx Hy. unfold older. simpl in *.
    destruct (Hst x (Hin x Hx)) as [Hx1 _].
    destruct (Hst y (Hin y Hy)) as [Hy1 _].
    destruct (stamp_static st st' x Hx1) as [-> _].
    by destruct (stamp_static st st' y Hy1) as [-> _].
  - repeat constructor.
Qed.

Lemma stamps_grown b b' Q Q' a :
  stamps b Q → (∀ s, grown a (Q s) (Q' s)) →
  (∀ p, p ∈ queued Q → static <$> mem b' !! p = static <$> mem b !! p) →
  timestamp_counter_ b < stamp (mem b') a →
  stamp (mem b') a ≤ timestamp_counter_ b' →
  ident (mem b') a ≤ next_id_ b' →
  next_id_ b ≤ next_id_ b' →
  stamps b' Q'.
Proof.
  intros (HsB & HsS & Hq) Hg Hst Hnew Hts Hid Hnid.
  rewrite Forall_forall in Hq.
  assert (Hold : ∀ s p, p ∈ slots (Q s) →
            static <$> mem b' !! p = static <$> mem b !! p ∧
            stamp (mem b) p < stamp (mem b') a).
  { intros s p Hp.
    assert (Hpq : p ∈ queued Q) by (apply elem_of_queued; by exists s).
    split; [by apply Hst|]. destruct (Hq p Hpq). lia. }
  split_and!.
  - eapply older_grown; [apply Hg|apply Hold|done].
  - eapply older_grown; [apply Hg|apply Hold|done].
  - apply Forall_forall. intros p [s Hp]%elem_of_queued.
    destruct (grown_slots _ _ _ _ (Hg s) Hp) as [->|Hp'].
    + split; [done|done].
    + assert (Hpq : p ∈ queued Q) by (apply elem_of_queued; by exists s).
      destruct (stamp_static (mem b) (mem b') p (Hst p Hpq)) as [-> ->].
      destruct (Hq p Hpq). lia.
Qed.

Lemma stamps_shrunk b b' Q Q' :
  stamps b Q → (∀ s, shrunk (Q s) (Q' s)) →
  (∀ p, p ∈ queued Q → static <$> mem b' !! p = static <$> mem b !! p) →
  timestamp_counter_ b ≤ timestamp_counter_ b' →
  next_id_ b ≤ next_id_ b' →
  stamps b' Q'.
Proof.
  intros (HsB & HsS & Hq) Hsh Hst Hts Hnid.
  assert (Hsub : ∀ s p, p ∈ slots (Q' s) → p ∈ queued Q).
  { intros s p Hp. apply elem_of_queued. exists s.
    by eapply shrunk_slots. }
  split_and!.
  - eapply older_shrunk; [apply Hsh| |done]. intros p Hp. by eapply Hst, Hsub.
  - eapply older_shrunk; [apply Hsh| |done]. intros p Hp. by eapply Hst, Hsub.
  - rewrite Forall_forall in *. intros p [s Hp]%elem_of_queued.
    pose proof (Hsub s p Hp) as Hpq.
    destruct (stamp_static (mem b) (mem b') p (Hst p Hpq)) as [-> ->].
    destruct (Hq p Hpq). lia.
Qed.

Lemma stamps_ext b Q Q' : (∀ s, Q s = Q' s) → stamps b Q → stamps b Q'.
Proof. intros HQ. unfold stamps, queued. by rewrite !HQ. Qed.

Lemma top_not_queued fl b Q a :
  repr fl b Q → 0 < OrderPool.free_count_ (pool_ b) →
  OrderPool.free_stack_ (pool_ b)
    !! Z.to_nat (OrderPool.free_count_ (pool_ b) - 1) = Some a →
  a ∉ queued Q.
Proof.
  intros (_ & _ & _ & Hnd & _) Hfc Htop Hq.
  apply NoDup_app in Hnd as (_ & _ & Hnd).
  apply NoDup_app in Hnd as (_ & Hdis & _).
  apply (Hdis a Hq). unfold free.
  apply (list_elem_of_lookup_2 _ (Z.to_nat (OrderPool.free_count_ (pool_ b) - 1))).
  rewrite lookup_take_lt by lia. done.
Qed.

(** A submission keeps the invariants. *)
Lemma add_order_keeps side type price quantity b Q :
  repr [] b Q → nonempty (Q Buy) → nonempty (Q Sell) →
  0 < OrderPool.free_count_ (pool_ b) → 0 ≤ quantity < 2 ^ 64 →
  ∃ r b' Q',
    add_order side type price quantity b = (inr r, b') ∧
    repr [] b' Q' ∧ nonempty (Q' Buy) ∧ nonempty (Q' Sell) ∧
    next_id_ b' = wrap64 (next_id_ b + 1) ∧
    timestamp_counter_ b' = wrap64 (timestamp_counter_ b + 1) ∧
    (stamps b Q →
     0 ≤ next_id_ b → next_id_ b + 1 < 2 ^ 64 →
     0 ≤ timestamp_counter_ b → timestamp_counter_ b + 1 < 2 ^ 64 →
     stamps b' Q').
Proof.
  intros Hr HnB HnS Hfc Hq.
  destruct (add_order_spec side type price quantity b Q Hr HnB HnS Hfc Hq)
    as (a & f & r & b' & Q' & ps & Htop & Hrun & Hr' & HnB' & HnS' & Hf & _ & _
        & _ & _ & _ & _ & Hsh & Hown & Hst & Hsta & Hid & Hts).
  exists r, b', Q'. split_and!; try done.
  intros Hstamps Hi0 Hi1 Ht0 Ht1.
  rewrite wrap64_small in Hid, Hts by lia.
  assert (Ha : stamp (mem b') a = timestamp_counter_ b + 1 ∧
               ident (mem b') a = next_id_ b + 1).
  { unfold stamp, ident. destruct (mem b' !! a) as [o|]; [|done].
    simpl in Hsta. injection Hsta as Hi _ _ _ Ht.
    rewrite Hi, Ht, !wrap64_small by lia. done. }
  destruct Ha as [Hsa Hia].
  apply (stamps_grown b b' Q Q' a); try done; try lia.
  - intros s. destruct (side_cases side s) as [->| ->].
    + rewrite Hown. destruct (quantity <=? f);
        [apply shrunk_grown, shrunk_refl; by eapply repr_sorted|].
      destruct type; [|apply shrunk_grown, shrunk_refl; by eapply repr_sorted].
      apply grown_append. by eapply repr_sorted.
    + by apply shrunk_grown.
  - intros p Hp. apply Hst. intros Heq. rewrite Heq in Hp.
    exact (top_not_queued _ _ _ _ Hr Hfc Htop Hp).
Qed.

Lemma elem_of_erase_inv {V} k (m : PriceMap.t V) e :
  e ∈ PriceMap.erase k m → e ∈ m.
Proof.
  induction m as [|[k' v'] m IH]; csimpl; [done|].
  destruct (k' =? k); [by right|].
  intros [->|Hin]%elem_of_cons; [by left|]. right. by apply IH.
Qed.

Lemma shrunk_erase k (qs : queues) :
  StronglySorted Z.lt qs.*1 → shrunk qs (PriceMap.erase k qs).
Proof.
  intros Hs. apply Forall_forall. intros [k' q] He%elem_of_erase_inv.
  exists q. split; [by apply elem_of_find_Some|done].
Qed.

Lemma shrunk_set k (q q' : list nat) (qs : queues) :
  StronglySorted Z.lt qs.*1 → PriceMap.find k qs = Some q →
  q' `sublist_of` q → shrunk qs (PriceMap.set k q' qs).
Proof.
  intros Hs Hf Hsub. apply Forall_forall. intros e He.
  apply elem_of_set_inv in He as [->|[He _]]; [by exists q| |done].
  destruct e as [k' q'']. exists q''. split; [by apply elem_of_find_Some|done].
Qed.

(** A cancellation keeps the invariants. *)
Lemma cancel_order_keeps oid p b Q :
  repr [] b Q → nonempty (Q Buy) → nonempty (Q Sell) →
  orders_ b !! oid = Some p →
  ∃ o b' Q',
    mem b !! p = Some o ∧
    cancel_order oid b = (inr true, b') ∧
    repr [] b' Q' ∧ nonempty (Q' Buy) ∧ nonempty (Q' Sell) ∧
    next_id_ b' = next_id_ b ∧
    timestamp_counter_ b' = timestamp_counter_ b ∧
    OrderPool.free_count_ (pool_ b') = OrderPool.free_count_ (pool_ b) + 1 ∧
    (stamps b Q → stamps b' Q').
Proof.
  intros Hr HnB HnS Hidx.
  destruct (cancel_order_spec oid p b Q Hr HnB HnS Hidx)
    as (o & q1 & q2 & l & l' & st' & b' & Q' & Hp & Hid & Hf & Hrun & Hr'
        & HnB' & HnS' & Hopp & Hown & Hst & Hord & Hnid & Hts & _ & _ & _ & _
        & _ & _ & _ & _ & _ & _ & _ & _ & _ & Hfc & _).
  simpl in *. exists o, b', Q'. split_and!; try done.
  intros Hstamps. apply (stamps_shrunk b b' Q Q'); try done; try lia.
  intros s. destruct (side_cases (Order.side o) s) as [->| ->].
  - rewrite Hown. destruct (decide (q1 ++ q2 = [])).
    + apply shrunk_erase. by eapply repr_sorted.
    + eapply shrunk_set; [by eapply repr_sorted|done|].
      apply sublist_app; [done|]. by apply sublist_cons.
  - rewrite Hopp. apply shrunk_refl. by eapply repr_sorted.
Qed.

(** * Modification *)

Lemma sum_open_set_quantity (st : store) q p o v :
  NoDup q → p ∈ q → st !! p = Some o →
  sum_open (alter (Order.set_quantity v) p st) q
  = sum_open st q - (Order.quantity o - v).
Proof.
  intros Hnd Hin Hp. apply list_elem_of_split in Hin as (q1 & q2 & ->).
  apply NoDup_app in Hnd as (_ & Hdis & [Hp2 _]%NoDup_cons).
  rewrite !sum_open_app, !sum_open_cons.
  rewrite (sum_open_frame st _ q1), (sum_open_frame st _ q2).
  - rewrite (open_quantity_lookup st _ _ Hp).
    erewrite open_quantity_lookup
      by (rewrite list_lookup_alter_eq, Hp; reflexivity).
    simpl. lia.
  - intros x Hx. apply list_lookup_alter_ne. by intros ->.
  - intros x Hx. apply list_lookup_alter_ne. intros ->.
    apply (Hdis _ Hx). by left.
Qed.

(** Reducing the quantity of a resting order, above what is filled. *)
Lemma modify_order_reduce oid p o new_quantity b Q :
  repr [] b Q → orders_ b !! oid = Some p → mem b !! p = Some o →
  Order.filled_quantity o < new_quantity < Order.quantity o →
  ∃ l q,
    PriceMap.find (Order.price o) (levels (Order.side o) b) = Some l ∧
    PriceMap.find (Order.price o) (Q (Order.side o)) = Some q ∧ p ∈ q ∧
    level_ok (mem b) (Order.side o) (Order.price o, l) (Order.price o, q) ∧
    let l' := PriceLevel.set_total_quantity
                (wrap64 (PriceLevel.total_quantity l
                         - (Order.quantity o - new_quantity))) l in
    let b' := set_levels (Order.side o)
                (PriceMap.set (Order.price o) l' (levels (Order.side o) b))
                (set_mem (alter (Order.set_quantity new_quantity) p (mem b)) b) in
    modify_order oid new_quantity b = (inr true, b') ∧ repr [] b' Q.
Proof.
  intros Hr Hidx Hp Hnq.
  destruct (repr_indexed _ _ _ _ _ Hr Hidx) as (o' & q1 & q2 & Hp' & Hid & Hf);
    [by intros ?%elem_of_nil|].
  rewrite Hp in Hp'. injection Hp' as <-.
  set (s := Order.side o) in *. set (k := Order.price o) in *.
  set (q := q1 ++ p :: q2) in *.
  destruct (repr_find_level _ _ _ _ _ _ Hr Hf) as (l & Hfl & Hlev).
  assert (Hpq : p ∈ q) by (subst q; set_solver).
  exists l, q. split_and!; try done. intros l' b'.
  pose proof Hlev as (_ & Hdll & Hc & Ht & Hrest). simpl in *.
  pose proof Hrest as Hrp. rewrite Forall_forall in Hrp.
  specialize (Hrp p Hpq). unfold resting in Hrp. rewrite Hp in Hrp.
  destruct Hrp as (_ & _ & Hf0 & Hfq & Hq64).
  assert (Hnd : NoDup q).
  { apply (repr_queue_NoDup _ b Q s (k, q) Hr). by apply find_Some_elem_of. }
  set (st' := alter (Order.set_quantity new_quantity) p (mem b)).
  split.
  - unfold modify_order. erewrite bind_ok by reflexivity. rewrite Hidx.
    erewrite bind_ok by (by apply deref_ok).
    destruct (Z.leb_spec new_quantity (Order.filled_quantity o)); [lia|].
    destruct (Z.ltb_spec new_quantity (Order.quantity o)); [|lia].
    erewrite bind_ok by (apply assign_ok; by rewrite Hp).
    erewrite bind_ok.
    2:{ apply deref_ok. rewrite mem_set_mem, list_lookup_alter_eq, Hp.
        reflexivity. }
    erewrite bind_ok by reflexivity. simpl Order.side. simpl Order.price.
    fold s k st'. rewrite levels_set_mem, Hfl.
    erewrite bind_ok by reflexivity.
    unfold mret, OrderBook.M_ret. do 2 f_equal. subst b' l'. f_equal.
    do 3 f_equal. unfold Order.remaining. simpl.
    rewrite (wrap64_small (Order.quantity o - _)) by lia.
    rewrite (wrap64_small (new_quantity - _)) by lia.
    rewrite wrap64_small by lia. lia.
  - assert (Hlev' : level_ok st' s (k, l') (k, q)).
    { split_and!; simpl; try done.
      - eapply dllseg_ext; [|exact Hdll]. intros x Hx. subst st'.
        by rewrite links_alter.
      - subst st'. rewrite (sum_open_set_quantity _ _ _ _ _ Hnd Hpq Hp).
        by rewrite Ht, wrap64_sub_l.
      - apply Forall_forall. intros x Hx. rewrite Forall_forall in Hrest.
        specialize (Hrest x Hx). unfold resting in *. subst st'.
        destruct (decide (x = p)) as [->|Hne].
        + rewrite list_lookup_alter_eq, Hp. rewrite Hp in Hrest. simpl.
          destruct Hrest as (? & ? & ? & ? & ?). split_and!; try done; lia.
        + by rewrite list_lookup_alter_ne. }
    pose proof (repr_update_level [] [] b Q s k q q l' st' Hr Hf Hlev') as Hr'.
    unfold b'. rewrite set_levels_set_mem.
    eapply repr_ext; [|apply Hr'].
    + intros s'. rewrite (set_same _ _ _ Hf). apply insert_same_ext.
    + subst st'. by rewrite length_alter.
    + intros x Hx. subst st'. apply list_lookup_alter_ne. intros Heq.
      rewrite <- Heq in Hx.
      by apply (repr_rest_disjoint [] b Q s k q p Hr Hf Hx).
    + intros x. subst st'. by rewrite proj_alter.
    + done.
Qed.

Lemma repr_resting fl b Q oid p :
  repr fl b Q → orders_ b !! oid = Some p → p ∉ fl →
  ∃ o, mem b !! p = Some o ∧ Order.id o = oid ∧
       0 ≤ Order.filled_quantity o < Order.quantity o ∧
       Order.quantity o < 2 ^ 64.
Proof.
  intros Hr Hidx Hfl.
  destruct (repr_indexed _ _ _ _ _ Hr Hidx Hfl) as (o & q1 & q2 & Hp & Hid & Hf).
  destruct (repr_find_level _ _ _ _ _ _ Hr Hf) as (l & _ & Hlev).
  destruct Hlev as (_ & _ & _ & _ & Hrest). simpl in Hrest.
  rewrite Forall_forall in Hrest.
  assert (Hpq : p ∈ q1 ++ p :: q2) by set_solver.
  specialize (Hrest p Hpq). unfold resting in Hrest. rewrite Hp in Hrest.
  exists o. split_and!; try done; lia.
Qed.

(** A modification keeps the invariants. *)
Lemma modify_order_keeps oid new_quantity b Q :
  repr [] b Q → nonempty (Q Buy) → nonempty (Q Sell) →
  0 ≤ new_quantity < 2 ^ 64 →
  ∃ ok b' Q',
    modify_order oid new_quantity b = (inr ok, b') ∧
    repr [] b' Q' ∧ nonempty (Q' Buy) ∧ nonempty (Q' Sell) ∧
    (next_id_ b' = next_id_ b ∨ next_id_ b' = wrap64 (next_id_ b + 1)) ∧
    (timestamp_counter_ b' = timestamp_counter_ b ∨
     timestamp_counter_ b' = wrap64 (timestamp_counter_ b + 1)) ∧
    (stamps b Q →
     0 ≤ next_id_ b → next_id_ b + 1 < 2 ^ 64 →
     0 ≤ timestamp_counter_ b → timestamp_counter_ b + 1 < 2 ^ 64 →
     stamps b' Q').
Proof.
  intros Hr HnB HnS Hnq.
  destruct (orders_ b !! oid) as [p|] eqn:Hidx.
  2:{ exists false, b, Q. split_and!; try done; [|by left..].
      unfold modify_order. erewrite bind_ok by reflexivity. by rewrite Hidx. }
  destruct (repr_resting _ _ _ _ _ Hr Hidx) as (o & Hp & Hid & Hfq & Hq64);
    [by intros ?%elem_of_nil|].
  assert (Hrun : modify_order oid new_quantity b =
    (if new_quantity <=? Order.filled_quantity o then cancel_order oid
     else if new_quantity <? Order.quantity o then
       modify_order oid new_quantity
     else if Order.quantity o <? new_quantity then
       cancel_order oid;;
       add_order (Order.side o) Limit (Order.price o) new_quantity;;
       mret true
     else mret true) b).
  { destruct (new_quantity <=? Order.filled_quantity o) eqn:H1;
      [|destruct (new_quantity <? Order.quantity o) eqn:H2; [done|]].
    all: unfold modify_order; erewrite bind_ok by reflexivity.
    all: rewrite Hidx; erewrite bind_ok by (by apply deref_ok).
    all: by rewrite H1, ?H2. }
  revert Hrun.
  destruct (Z.leb_spec new_quantity (Order.filled_quantity o)) as [H1|H1];
    intros Hrun.
  { (* effectively a cancel *)
    destruct (cancel_order_keeps oid p b Q Hr HnB HnS Hidx)
      as (o' & b' & Q' & _ & Hc & Hr' & HnB' & HnS' & Hnid & Hts & _ & Hst).
    exists true, b', Q'. rewrite Hrun, Hnid, Hts.
    split_and!; try done; [by left..|].
    intros ? _ _ _ _. by apply Hst. }
  revert Hrun.
  destruct (Z.ltb_spec new_quantity (Order.quantity o)) as [H2|H2];
    intros Hrun.
  { (* reduce *)
    clear Hrun.
    destruct (modify_order_reduce oid p o new_quantity b Q Hr Hidx Hp)
      as (l & q & Hfl & Hf & Hpq & Hlev & Hrun & Hr'); [lia|].
    eexists true, _, Q. split_and!; try done;
      [left; by destruct (Order.side o)..|].
    intros Hst _ _ _ _.
    eapply stamps_shrunk; [exact Hst| | |destruct (Order.side o); simpl; lia..].
    - intros s. apply shrunk_refl. by eapply repr_sorted.
    - intros x _. rewrite mem_set_levels, mem_set_mem. by apply proj_alter. }
  revert Hrun.
  destruct (Z.ltb_spec (Order.quantity o) new_quantity) as [H3|H3];
    intros Hrun.
  2:{ exists true, b, Q. rewrite Hrun. split_and!; try done; by left. }
  (* increase: cancel, then submit again *)
  destruct (cancel_order_keeps oid p b Q Hr HnB HnS Hidx)
    as (o' & b1 & Q1 & _ & Hc & Hr1 & HnB1 & HnS1 & Hid1 & Hts1 & Hfc1 & Hst1).
  assert (Hfc : 0 < OrderPool.free_count_ (pool_ b1)).
  { destruct Hr as ((_ & _ & _ & ? & _) & _). lia. }
  destruct (add_order_keeps (Order.side o) Limit (Order.price o) new_quantity
              b1 Q1 Hr1 HnB1 HnS1 Hfc Hnq)
    as (r & b2 & Q2 & Ha & Hr2 & HnB2 & HnS2 & Hid2 & Hts2 & Hst2).
  exists true, b2, Q2. rewrite Hrun. split_and!; try done.
  - erewrite bind_ok by exact Hc. by erewrite bind_ok by exact Ha.
  - right. by rewrite Hid2, Hid1.
  - right. by rewrite Hts2, Hts1.
  - intros Hst ? ? ? ?. apply Hst2; [by apply Hst1|lia..].
Qed.

(** * The invariant holds in every reachable book *)

Lemma wf_make (capacity : nat) : Z.of_nat capacity < 2 ^ 64 → wf (make capacity).
Proof.
  intros Hcap. apply wf_repr. exists (λ _, []).
  split; [|by split; apply Forall_nil].
  assert (Hfree : free (pool_ (make capacity)) = reverse (seq 0 capacity)).
  { unfold free. simpl. apply take_ge. rewrite length_reverse, length_seq. lia. }
  unfold repr. rewrite Hfree. split_and!.
  - unfold pool_ok. simpl.
    rewrite length_reverse, length_seq, length_replicate. lia.
  - split; [apply Forall2_nil|constructor]. done.
  - split; [apply Forall2_nil|constructor]. done.
  - simpl. rewrite reverse_Permutation. apply NoDup_seq.
  - simpl. apply Forall_forall. intros p Hp%elem_of_reverse%elem_of_seq.
    unfold mem. simpl. rewrite length_replicate. lia.
  - apply map_Forall_empty.
Qed.

Lemma add_order_exhausted side type price quantity b :
  OrderPool.free_count_ (pool_ b) = 0 →
  add_order side type price quantity b = (inl PoolExhausted, b).
Proof.
  intros Hfree. unfold add_order. apply bind_err.
  unfold pool_allocate, OrderPool.allocate. by rewrite Hfree.
Qed.

Lemma cancel_order_unknown oid b :
  orders_ b !! oid = None → cancel_order oid b = (inr false, b).
Proof.
  intros Hnone. unfold cancel_order.
  erewrite bind_ok by reflexivity. by rewrite Hnone.
Qed.

Lemma modify_order_unknown oid new_quantity b :
  orders_ b !! oid = None → modify_order oid new_quantity b = (inr false, b).
Proof.
  intros Hnone. unfold modify_order.
  erewrite bind_ok by reflexivity. by rewrite Hnone.
Qed.

Lemma free_count_nonneg fl b Q :
  repr fl b Q → 0 ≤ OrderPool.free_count_ (pool_ b).
Proof. by intros ((_ & _ & _ & ? & _) & _). Qed.

Lemma add_order_wf side type price quantity b :
  wf b → 0 ≤ quantity < 2 ^ 64 →
  wf (after (add_order side type price quantity) b).
Proof.
  intros (Q & Hr & HnB & HnS)%wf_repr Hq. unfold after.
  destruct (decide (OrderPool.free_count_ (pool_ b) = 0)) as [Hfc|Hfc].
  - rewrite add_order_exhausted by done. apply wf_repr. by exists Q.
  - pose proof (free_count_nonneg _ _ _ Hr).
    destruct (add_order_keeps side type price quantity b Q Hr HnB HnS)
      as (r & b' & Q' & Hrun & Hr' & HnB' & HnS' & _); [lia|done|].
    rewrite Hrun. apply wf_repr. by exists Q'.
Qed.

Lemma cancel_order_wf oid b : wf b → wf (after (cancel_order oid) b).
Proof.
  intros (Q & Hr & HnB & HnS)%wf_repr. unfold after.
  destruct (orders_ b !! oid) as [p|] eqn:Hidx.
  - destruct (cancel_order_keeps oid p b Q Hr HnB HnS Hidx)
      as (o & b' & Q' & _ & Hrun & Hr' & HnB' & HnS' & _).
    rewrite Hrun. apply wf_repr. by exists Q'.
  - rewrite cancel_order_unknown by done. apply wf_repr. by exists Q.
Qed.

Lemma modify_order_wf oid new_quantity b :
  wf b → 0 ≤ new_quantity < 2 ^ 64 →
  wf (after (modify_order oid new_quantity) b).
Proof.
  intros (Q & Hr & HnB & HnS)%wf_repr Hq. unfold after.
  destruct (modify_order_keeps oid new_quantity b Q Hr HnB HnS Hq)
    as (ok & b' & Q' & Hrun & Hr' & HnB' & HnS' & _).
  rewrite Hrun. apply wf_repr. by exists Q'.
Qed.

Lemma reachable_wf b : reachable b → wf b.
Proof.
  induction 1.
  - by apply wf_make.
  - by apply add_order_wf.
  - by apply cancel_order_wf.
  - by apply modify_order_wf.
Qed.

Lemma sum_open_nonneg (st : store) s k q :
  Forall (resting st s k) q → 0 ≤ sum_open st q.
Proof.
  induction 1 as [|p q Hp _ IH]; simpl; [done|].
  unfold resting in Hp. unfold open_quantity.
  destruct (st !! p); [lia|done].
Qed.

Lemma wf_level b s k l :
  wf b → PriceMap.find k (levels s b) = Some l →
  level_ok (mem b) s (k, l) (k, queue_of (mem b) l) ∧
  queue_of (mem b) l ≠ [].
Proof.
  intros (Hr & HnB & HnS) Hf.
  pose proof (repr_side _ _ _ s Hr) as [HF _].
  destruct (Forall2_find _ _ _ _ _ (level_ok_keyed _ _) HF Hf)
    as (q & Hfq & Hlev).
  assert (Hq : queue_of (mem b) l = q).
  { destruct Hlev as (_ & Hdll & _). simpl in Hdll. unfold queue_of.
    eapply walk_dllseg; [exact Hdll|].
    apply (repr_queue_length _ _ _ s (k, q) Hr). by apply find_Some_elem_of. }
  rewrite Hq. split; [done|].
  assert (Hne : nonempty (abs b s)) by (by destruct s).
  unfold nonempty in Hne. rewrite Forall_forall in Hne.
  apply (Hne (k, q)). by apply find_Some_elem_of.
Qed.


(** ** Time priority *)

Lemma wf_abs b : wf b → repr [] b (abs b) ∧ nonempty (abs b Buy) ∧ nonempty (abs b Sell).
Proof. done. Qed.

Lemma stamps_abs b Q : repr [] b Q → stamps b Q → stamps b (abs b).
Proof.
  intros Hr. apply stamps_ext. intros s. symmetry. by eapply repr_abs.
Qed.

Lemma ordered_make (capacity : nat) :
  Z.of_nat capacity < 2 ^ 64 → ordered (make capacity).
Proof.
  intros Hcap. split; [by apply wf_make|].
  split; [|done]. by split_and!; apply Forall_nil.
Qed.

Lemma add_order_ordered side type price quantity b :
  ordered b → 0 ≤ quantity < 2 ^ 64 →
  next_id_ b + 1 < 2 ^ 64 → timestamp_counter_ b + 1 < 2 ^ 64 →
  ordered (after (add_order side type price quantity) b).
Proof.
  intros ((Hr & HnB & HnS) & Hst & Hi0 & Ht0) Hq Hi1 Ht1. unfold after.
  destruct (decide (OrderPool.free_count_ (pool_ b) = 0)) as [Hfc|Hfc].
  - by rewrite add_order_exhausted by done.
  - pose proof (free_count_nonneg _ _ _ Hr).
    destruct (add_order_keeps side type price quantity b _ Hr HnB HnS)
      as (r & b' & Q' & Hrun & Hr' & HnB' & HnS' & Hid & Hts & Hst');
      [lia|done|].
    rewrite Hrun. simpl. split_and!.
    + apply wf_repr. by exists Q'.
    + eapply stamps_abs; [done|]. by apply Hst'.
    + rewrite Hid. apply wrap64_range.
    + rewrite Hts. apply wrap64_range.
Qed.

Lemma cancel_order_ordered oid b :
  ordered b → ordered (after (cancel_order oid) b).
Proof.
  intros ((Hr & HnB & HnS) & Hst & Hi0 & Ht0). unfold after.
  destruct (orders_ b !! oid) as [p|] eqn:Hidx.
  - destruct (cancel_order_keeps oid p b _ Hr HnB HnS Hidx)
      as (o & b' & Q' & _ & Hrun & Hr' & HnB' & HnS' & Hid & Hts & _ & Hst').
    rewrite Hrun. simpl. split_and!.
    + apply wf_repr. by exists Q'.
    + eapply stamps_abs; [done|]. by apply Hst'.
    + by rewrite Hid.
    + by rewrite Hts.
  - by rewrite cancel_order_unknown by done.
Qed.

Lemma modify_order_ordered oid new_quantity b :
  ordered b → 0 ≤ new_quantity < 2 ^ 64 →
  next_id_ b + 1 < 2 ^ 64 → timestamp_counter_ b + 1 < 2 ^ 64 →
  ordered (after (modify_order oid new_quantity) b).
Proof.
  intros ((Hr & HnB & HnS) & Hst & Hi0 & Ht0) Hq Hi1 Ht1. unfold after.
  destruct (modify_order_keeps oid new_quantity b _ Hr HnB HnS Hq)
    as (ok & b' & Q' & Hrun & Hr' & HnB' & HnS' & Hid & Hts & Hst').
  rewrite Hrun. simpl. split_and!.
  - apply wf_repr. by exists Q'.
  - eapply stamps_abs; [done|]. by apply Hst'.
  - destruct Hid as [->| ->]; [done|apply wrap64_range].
  - destruct Hts as [->| ->]; [done|apply wrap64_range].
Qed.

(** The next id is not the id of a resting order. *)
Lemma ordered_fresh b :
  ordered b → next_id_ b + 1 < 2 ^ 64 →
  orders_ b !! wrap64 (next_id_ b + 1) = None.
Proof.
  intros ((Hr & _) & (_ & _ & Hq) & Hi0 & _) Hi1.
  rewrite wrap64_small by lia.
  destruct (orders_ b !! (next_id_ b + 1)) as [p|] eqn:Hidx; [|done].
  destruct Hr as (_ & _ & _ & _ & _ & Hi).
  destruct (Hi _ _ Hidx) as [Hlive Hid]. simpl in Hlive.
  rewrite Forall_forall in Hq. destruct (Hq p Hlive) as [_ Hle].
  unfold ident in Hle. destruct (mem b !! p); [lia|done].
Qed.


(** ** The calls return

    On a well-formed book the operations run to their end: the loops have
    fuel enough and every access is valid.  Only a submission can fail, and
    only for want of a free slot. *)
Lemma add_order_returns side type price quantity b :
  wf b → 0 ≤ quantity < 2 ^ 64 →
  (∃ r, (add_order side type price quantity b).1 = inr r) ∨
  (OrderPool.available (pool_ b) = 0 ∧
   (add_order side type price quantity b).1 = inl PoolExhausted).
Proof.
  intros (Hr & HnB & HnS) Hq.
  destruct (decide (OrderPool.free_count_ (pool_ b) = 0)) as [Hfc|Hfc].
  - right. split; [done|]. by rewrite add_order_exhausted.
  - left. pose proof (free_count_nonneg _ _ _ Hr).
    destruct (add_order_keeps side type price quantity b _ Hr HnB HnS)
      as (r & b' & Q' & Hrun & _); [lia|done|].
    exists r. by rewrite Hrun.
Qed.

Lemma cancel_order_returns oid b :
  wf b → ∃ ok, (cancel_order oid b).1 = inr ok.
Proof.
  intros (Hr & HnB & HnS).
  destruct (orders_ b !! oid) as [p|] eqn:Hidx.
  - destruct (cancel_order_keeps oid p b _ Hr HnB HnS Hidx)
      as (o & b' & Q' & _ & Hrun & _).
    exists true. by rewrite Hrun.
  - exists false. by rewrite cancel_order_unknown.
Qed.

Lemma modify_order_returns oid new_quantity b :
  wf b → 0 ≤ new_quantity < 2 ^ 64 →
  ∃ ok, (modify_order oid new_quantity b).1 = inr ok.
Proof.
  intros (Hr & HnB & HnS) Hq.
  destruct (modify_order_keeps oid new_quantity b _ Hr HnB HnS Hq)
    as (ok & b' & Q' & Hrun & _).
  exists ok. by rewrite Hrun.
Qed.

(** ** Books reached in a bounded number of calls *)

Lemma add_order_counters side type price quantity b :
  wf b → 0 ≤ quantity < 2 ^ 64 →
  let b' := after (add_order side type price quantity) b in
  (next_id_ b' = next_id_ b ∨ next_id_ b' = wrap64 (next_id_ b + 1)) ∧
  (timestamp_counter_ b' = timestamp_counter_ b ∨
   timestamp_counter_ b' = wrap64 (timestamp_counter_ b + 1)).
Proof.
  intros (Hr & HnB & HnS) Hq. unfold after. simpl.
  destruct (decide (OrderPool.free_count_ (pool_ b) = 0)) as [Hfc|Hfc].
  - rewrite add_order_exhausted by done. split; by left.
  - pose proof (free_count_nonneg _ _ _ Hr).
    destruct (add_order_keeps side type price quantity b _ Hr HnB HnS)
      as (r & b' & Q' & Hrun & _ & _ & _ & Hid & Hts & _); [lia|done|].
    rewrite Hrun. split; by right.
Qed.

Lemma cancel_order_counters oid b :
  wf b →
  next_id_ (after (cancel_order oid) b) = next_id_ b ∧
  timestamp_counter_ (after (cancel_order oid) b) = timestamp_counter_ b.
Proof.
  intros (Hr & HnB & HnS). unfold after.
  destruct (orders_ b !! oid) as [p|] eqn:Hidx.
  - destruct (cancel_order_keeps oid p b _ Hr HnB HnS Hidx)
      as (o & b' & Q' & _ & Hrun & _ & _ & _ & Hid & Hts & _).
    by rewrite Hrun.
  - by rewrite cancel_order_unknown.
Qed.

Lemma modify_order_counters oid new_quantity b :
  wf b → 0 ≤ new_quantity < 2 ^ 64 →
  let b' := after (modify_order oid new_quantity) b in
  (next_id_ b' = next_id_ b ∨ next_id_ b' = wrap64 (next_id_ b + 1)) ∧
  (timestamp_counter_ b' = timestamp_counter_ b ∨
   timestamp_counter_ b' = wrap64 (timestamp_counter_ b + 1)).
Proof.
  intros (Hr & HnB & HnS) Hq. unfold after. simpl.
  destruct (modify_order_keeps oid new_quantity b _ Hr HnB HnS Hq)
    as (ok & b' & Q' & Hrun & _ & _ & _ & Hid & Hts & _).
  by rewrite Hrun.
Qed.

(** Time priority and the freshness of the next id hold in every book
    reached in fewer calls than the counters can count. *)
Lemma reached_ordered n b :
  reached n b → Z.of_nat n < 2 ^ 64 →
  ordered b ∧ next_id_ b ≤ Z.of_nat n ∧ timestamp_counter_ b ≤ Z.of_nat n.
Proof.
  induction 1 as [cap Hcap|n b side type price quantity Hreach IH Hq
                  |n b oid Hreach IH|n b oid q Hreach IH Hq]; intros Hn.
  - split; [by apply ordered_make|]. simpl. lia.
  - destruct IH as (Hord & Hi & Ht); [lia|].
    pose proof Hord as (Hwf & _ & Hi0 & Ht0).
    split; [apply add_order_ordered; [done|done|lia..]|].
    destruct (add_order_counters side type price quantity b Hwf Hq)
      as [[->| ->] [->| ->]]; rewrite ?wrap64_small by lia; lia.
  - destruct IH as (Hord & Hi & Ht); [lia|].
    pose proof Hord as (Hwf & _).
    split; [by apply cancel_order_ordered|].
    destruct (cancel_order_counters oid b Hwf) as [-> ->]. lia.
  - destruct IH as (Hord & Hi & Ht); [lia|].
    pose proof Hord as (Hwf & _ & Hi0 & Ht0).
    split; [apply modify_order_ordered; [done|done|lia..]|].
    destruct (modify_order_counters oid q b Hwf Hq)
      as [[->| ->] [->| ->]]; rewrite ?wrap64_small by lia; lia.
Qed.

(** * Price-time priority of the resting orders *)

Lemma before_same_level (st : store) s k q :
  Forall (resting st s k) q → StronglySorted (older st) q →
  StronglySorted (before st s) q.
Proof.
  intros Hrest. apply StronglySorted_frame. intros x y Hx Hy.
  rewrite Forall_forall in Hrest.
  pose proof (Hrest x Hx) as Hrx. pose proof (Hrest y Hy) as Hry.
  unfold resting, older, stamp, before in *.
  destruct (st !! x) as [ox|]; [|done]. destruct (st !! y) as [oy|]; [|done].
  intros Hlt. right. split; [|done].
  destruct Hrx as (_ & -> & _). by destruct Hry as (_ & -> & _).
Qed.

Lemma before_across (st : store) s k1 k2 x y :
  resting st s k1 x → resting st s k2 y →
  match s with Sell => k1 < k2 | Buy => k2 < k1 end →
  before st s x y.
Proof.
  unfold resting, before.
  destruct (st !! x) as [ox|]; [|done]. destruct (st !! y) as [oy|]; [|done].
  intros (_ & -> & _) (_ & -> & _) Hlt. left. by destruct s.
Qed.

Lemma slots_resting (st : store) s (qs : queues) p :
  Forall (λ kq, Forall (resting st s kq.1) kq.2) qs → p ∈ slots qs →
  ∃ k, k ∈ qs.*1 ∧ resting st s k p.
Proof.
  intros Hg (kq & Hkq & Hp)%elem_of_slots.
  rewrite Forall_forall in Hg. pose proof (Hg kq Hkq) as Hrest.
  rewrite Forall_forall in Hrest. exists kq.1. split; [|by apply Hrest].
  apply list_elem_of_fmap. by exists kq.
Qed.

Lemma before_best_first (st : store) s (qs : queues) :
  Forall (λ kq, Forall (resting st s kq.1) kq.2) qs →
  Forall (λ kq, StronglySorted (older st) kq.2) qs →
  StronglySorted Z.lt qs.*1 →
  StronglySorted (before st s) (slots (best_first s qs)).
Proof.
  induction qs as [|[k q] qs IH]; [by destruct s; constructor|].
  intros [Hrest Hg]%Forall_cons [Hold Ho]%Forall_cons. csimpl.
  simpl in Hrest, Hold.
  intros [Hlt Hs]%StronglySorted_cons.
  specialize (IH Hg Ho Hs).
  pose proof (before_same_level st s k q Hrest Hold) as Hq.
  rewrite Forall_forall in Hlt. rewrite Forall_forall in Hrest.
  destruct s; simpl in *.
  - (* bids: the highest level first *)
    rewrite reverse_cons, slots_app, slots_cons. unfold slots at 2. simpl.
    rewrite app_nil_r. apply StronglySorted_app. split_and!; try done.
    intros x y Hx Hy.
    assert (Hx' : x ∈ slots qs).
    { revert Hx. unfold slots. rewrite fmap_reverse, !list_elem_of_join.
      intros (l & Hxl & Hl). exists l. split; [done|].
      by apply elem_of_reverse. }
    destruct (slots_resting st Buy qs x Hg Hx') as (k' & Hk' & Hrx).
    eapply before_across; [exact Hrx|by apply Hrest|]. by apply Hlt.
  - (* asks: the lowest level first *)
    rewrite slots_cons. apply StronglySorted_app. split_and!; try done.
    intros x y Hx Hy.
    destruct (slots_resting st Sell qs y Hg Hy) as (k' & Hk' & Hry).
    eapply before_across; [by apply Hrest|exact Hry|]. by apply Hlt.
Qed.

Lemma repr_before fl b Q s :
  repr fl b Q → stamps b Q →
  StronglySorted (before (mem b) s) (slots (best_first s (Q s))).
Proof.
  intros Hr (HB & HS & _).
  apply before_best_first; [|by destruct s|by eapply repr_sorted].
  pose proof (repr_side _ _ _ s Hr) as [HF _].
  apply Forall_forall. intros kq Hkq.
  apply list_elem_of_lookup_1 in Hkq as [i Hi].
  destruct (Forall2_lookup_r _ _ _ _ _ HF Hi) as (e & _ & Hlev).
  destruct Hlev as (Hk & _ & _ & _ & Hrest). by rewrite <- Hk.
Qed.

Lemma StronglySorted_prefix {A} (R : relation A) (l1 l2 : list A) :
  l1 `prefix_of` l2 → StronglySorted R l2 → StronglySorted R l1.
Proof. intros [k ->]. apply StronglySorted_app_1_l. Qed.

(** * Submitting and cancelling *)

(** A level record is determined by its price, its queue and the store. *)
Lemma level_ok_inj (st : store) s k l1 l2 q :
  level_ok st s (k, l1) (k, q) → level_ok st s (k, l2) (k, q) →
  PriceLevel.price l1 = PriceLevel.price l2 → l1 = l2.
Proof.
  intros (_ & Hd1 & Hc1 & Ht1 & _) (_ & Hd2 & Hc2 & Ht2 & _) Hp.
  simpl in *.
  pose proof (dllseg_head _ _ _ _ _ _ Hd1) as Hh1.
  pose proof (dllseg_head _ _ _ _ _ _ Hd2) as Hh2.
  pose proof (dllseg_last _ _ _ _ _ _ Hd1) as Hl1.
  pose proof (dllseg_last _ _ _ _ _ _ Hd2) as Hl2.
  destruct l1, l2; simpl in *. congruence.
Qed.

Lemma snoc_split_inj {A} (q1 q2 q : list A) (a : A) :
  q1 ++ a :: q2 = q ++ [a] → a ∉ q → q1 = q ∧ q2 = [].
Proof.
  intros Heq Ha.
  destruct q2 as [|x q2 _] using rev_ind.
  - apply app_inj_tail in Heq. by destruct Heq.
  - exfalso. apply Ha.
    rewrite app_comm_cons, app_assoc in Heq.
    apply app_inj_tail in Heq as [<- _]. set_solver.
Qed.

(** The last order of a queue has no successor. *)
Lemma dll_last_next (st : store) pv hd q tl x :
  dll st pv hd q tl → last q = Some x →
  ∃ o, st !! x = Some o ∧ Order.next o = None.
Proof.
  intros Hd Hl. destruct q as [|y q _] using rev_ind; [done|].
  rewrite last_snoc in Hl. injection Hl as ->.
  apply dllseg_snoc in Hd as (tl1 & o & _ & Ho & _ & Hn & _). by exists o.
Qed.

Lemma set_next_same (o : Order.t) nx :
  Order.next o = nx → Order.set_next nx o = o.
Proof. intros <-. by destruct o. Qed.

Lemma set_next_twice (o : Order.t) n1 n2 :
  Order.set_next n2 (Order.set_next n1 o) = Order.set_next n2 o.
Proof. done. Qed.

Lemma find_keys_None {V W} (m : PriceMap.t V) (n : PriceMap.t W) k :
  m.*1 = n.*1 → PriceMap.find k n = None → PriceMap.find k m = None.
Proof. intros Hk. rewrite !find_None_keys. by rewrite Hk. Qed.

(** A queued limit order that is cancelled at once leaves the book as it
    was, up to the two counters and the contents of the recycled slot. *)
Lemma submit_cancel_queued side price quantity b Q :
  repr [] b Q → nonempty (Q Buy) → nonempty (Q Sell) →
  0 < OrderPool.free_count_ (pool_ b) → 0 < quantity < 2 ^ 64 →
  no_cross side price b →
  orders_ b !! wrap64 (next_id_ b + 1) = None →
  ∃ a r b1 b2,
    OrderPool.free_stack_ (pool_ b)
      !! Z.to_nat (OrderPool.free_count_ (pool_ b) - 1) = Some a ∧
    add_order side Limit price quantity b = (inr r, b1) ∧
    OrderResult.order_id r = wrap64 (next_id_ b + 1) ∧
    cancel_order (OrderResult.order_id r) b1 = (inr true, b2) ∧
    (∀ s, levels s b2 = levels s b) ∧ orders_ b2 = orders_ b ∧
    OrderPool.free_stack_ (pool_ b2) = OrderPool.free_stack_ (pool_ b) ∧
    OrderPool.free_count_ (pool_ b2) = OrderPool.free_count_ (pool_ b) ∧
    OrderPool.size_ (pool_ b2) = OrderPool.size_ (pool_ b) ∧
    OrderPool.capacity_ (pool_ b2) = OrderPool.capacity_ (pool_ b) ∧
    trade_count_ b2 = trade_count_ b ∧ total_volume_ b2 = total_volume_ b ∧
    next_id_ b2 = wrap64 (next_id_ b + 1) ∧
    timestamp_counter_ b2 = wrap64 (timestamp_counter_ b + 1) ∧
    (∀ x, x ≠ a → mem b2 !! x = mem b !! x).
Proof.
  intros Hr HnB HnS Hfc Hq Hnc Hfresh.
  destruct (add_order_no_cross side price quantity b Q Hr Hfc Hq Hnc)
    as (a & l & l' & st' & Htop & Hadd & Hr1 & Hfl & Hlev & Hla & Hlev'
        & Hpr & Ha' & Hpt).
  set (oid := wrap64 (next_id_ b + 1)) in *.
  set (ts := wrap64 (timestamp_counter_ b + 1)) in *.
  set (oa := new_order oid price quantity side Limit ts) in *.
  set (m := PriceMap.try_emplace price (PriceLevel.make price) (levels side b)) in *.
  set (q0 := default [] (PriceMap.find price (Q side))) in *.
  set (b0 := begun a side Limit price quantity b) in *.
  set (b1 := set_orders_ _ (set_mem st' _)) in *.
  set (Q1 := <[side := _]> Q) in *.
  set (o2 := Order.set_next None (Order.set_prev (PriceLevel.tail l) oa)) in *.
  assert (Hsorted : StronglySorted Z.lt (Q side).*1) by (by eapply repr_sorted).
  assert (Haq : a ∉ q0).
  { intros Hin. apply (top_not_queued _ _ _ _ Hr Hfc Htop).
    subst q0. destruct (PriceMap.find price (Q side)) as [q|] eqn:Hf;
      [|by apply elem_of_nil in Hin].
    by eapply find_elem_of_queued. }
  assert (Hne1 : ∀ s, nonempty (Q1 s)).
  { intros s. subst Q1. destruct (side_cases side s) as [->| ->].
    - rewrite fn_lookup_insert. apply nonempty_set_emplace; [done| |].
      + by destruct side.
      + by destruct q0.
    - rewrite fn_lookup_insert_ne by (symmetry; apply opp_ne).
      by destruct side. }
  assert (Hidx1 : orders_ b1 !! oid = Some a) by apply lookup_insert_eq.
  destruct (cancel_order_spec oid a b1 Q1 Hr1 (Hne1 Buy) (Hne1 Sell) Hidx1)
    as (o & q1 & q2 & lc & lc' & stc & b2 & Q2 & Ho & Hid & Hf & Hcancel & Hr2
        & _ & _ & _ & _ & _ & Hord2 & Hnid2 & Hts2 & Htc2 & Htv2 & Hflc & _
        & Hrm & Hlevc & Hprc & Hlevs2 & Hopp2 & Hmem2 & Hstc & Hptc
        & Hstack2 & Hfc2 & Hsize2 & Hcap2).
  assert (Hoeq : o = o2).
  { assert (mem b1 !! a = Some o2) as Hm by exact Ha'. congruence. }
  subst o. simpl in Hf, Hflc, Hrm, Hlevc, Hlevs2, Hopp2, Hptc.
  assert (HfQ1 : PriceMap.find price (Q1 side) = Some (q0 ++ [a])).
  { subst Q1. rewrite fn_lookup_insert, find_set, decide_True by done.
    rewrite find_try_emplace, decide_True by done. done. }
  rewrite HfQ1 in Hf. injection Hf as Hf. symmetry in Hf.
  apply snoc_split_inj in Hf as [-> ->]; [|done].
  rewrite app_nil_r in *.
  assert (Hl1 : levels side b1 = PriceMap.set price l' m).
  { subst b1. by destruct side. }
  rewrite Hl1 in Hflc, Hlevs2.
  rewrite find_set, decide_True, Hfl in Hflc by done. injection Hflc as <-.
  (* the store is as before, except at the recycled slot *)
  assert (Hstore : ∀ x, x ≠ a → stc !! x = mem b !! x).
  { intros x Hx. rewrite (Hptc x Hx). simpl. change (mem b1) with st'.
    rewrite (Hpt x Hx). destruct (decide (last q0 = Some x)) as [Hl|Hl]; [|done].
    destruct Hlev as (_ & Hdll & _). simpl in Hdll.
    destruct (dll_last_next _ _ _ _ _ _ Hdll Hl) as (ox & Hox & Hnx).
    assert (Hbx : mem b !! x = Some ox).
    { rewrite <- Hox. symmetry. unfold b0, begun, mem. simpl.
      by apply list_lookup_insert_ne. }
    rewrite Hbx. simpl. f_equal. destruct ox; simpl in *. by subst. }
  assert (Hlevels : levels side b2 = levels side b).
  { rewrite Hlevs2. destruct (decide (q0 = [])) as [Hq0|Hq0].
    - assert (HfQ : PriceMap.find price (Q side) = None).
      { destruct (PriceMap.find price (Q side)) as [q|] eqn:HfQ; [|done].
        exfalso. assert (Hne : nonempty (Q side)) by (by destruct side).
        unfold nonempty in Hne. rewrite Forall_forall in Hne.
        apply (Hne (price, q)); [by apply find_Some_elem_of|].
        by subst q0. }
      assert (Hfb : PriceMap.find price (levels side b) = None)
        by (eapply find_keys_None; [by eapply repr_keys|done]).
      rewrite erase_set. subst m. apply erase_try_emplace; [|done].
      rewrite (repr_keys _ _ _ side Hr). done.
    - assert (HfQ : PriceMap.find price (Q side) = Some q0).
      { subst q0. by destruct (PriceMap.find price (Q side)). }
      destruct (repr_find_level _ _ _ _ _ _ Hr HfQ) as (l0 & Hfl0 & Hlev0).
      assert (Hm : m = levels side b).
      { subst m. apply try_emplace_present; [|by eexists].
        rewrite (repr_keys _ _ _ side Hr). done. }
      rewrite Hm in *. rewrite Hfl0 in Hfl. injection Hfl as <-.
      rewrite set_set. apply set_same. rewrite Hfl0. f_equal.
      eapply (level_ok_inj (mem b) side price); [exact Hlev0| |congruence].
      eapply level_ok_frame; [|exact Hlevc]. simpl. intros x Hx.
      symmetry. apply Hstore. by intros ->. }
  assert (Hb1 :
    OrderPool.free_stack_ (pool_ b1) = OrderPool.free_stack_ (pool_ b) ∧
    OrderPool.free_count_ (pool_ b1) = OrderPool.free_count_ (pool_ b) - 1 ∧
    OrderPool.size_ (pool_ b1) = OrderPool.size_ (pool_ b) + 1 ∧
    OrderPool.capacity_ (pool_ b1) = OrderPool.capacity_ (pool_ b) ∧
    trade_count_ b1 = trade_count_ b ∧ total_volume_ b1 = total_volume_ b ∧
    next_id_ b1 = oid ∧ timestamp_counter_ b1 = ts ∧
    levels (opp side) b1 = levels (opp side) b)
    by (subst b1; by destruct side).
  destruct Hb1 as (Hb1s & Hb1f & Hb1z & Hb1c & Hb1t & Hb1v & Hb1i & Hb1ts & Hb1o).
  exists a, (OrderResult.mk oid Active 0 quantity []), b1, b2.
  split_and!; try done.
  - intros s. destruct (side_cases side s) as [->| ->]; [done|].
    by rewrite Hopp2.
  - rewrite Hord2. change (orders_ b1) with (<[oid:=a]> (orders_ b)).
    rewrite delete_insert_eq. by apply delete_id.
  - rewrite Hstack2, Hb1s, Hb1f. by apply list_insert_id.
  - rewrite Hfc2, Hb1f. lia.
  - rewrite Hsize2, Hb1z. lia.
  - by rewrite Hcap2.
  - by rewrite Htc2.
  - by rewrite Htv2.
  - by rewrite Hnid2.
  - by rewrite Hts2.
  - intros x Hx. rewrite Hmem2, list_lookup_alter_ne by done. by apply Hstore.
Qed.

(** * Induction over the public operations

    A property of the books that the public operations produce is proved
    from four cases: the new book, a submission that gets a slot, the
    cancellation of an indexed order, and the reduction of an indexed order.
    The other paths of [modify_order] are a cancellation, a cancellation
    followed by a submission, or leave the book as it is. *)

Lemma after_bind {A B} (m : M A) (f : A → M B) b x b1 :
  m b = (inr x, b1) → after (m ≫= f) b = after (f x) b1.
Proof. intros H. unfold after. by erewrite bind_ok by exact H. Qed.

Lemma after_then_ret {A B} (m : M A) (y : B) b :
  after (m;; mret y) b = after m b.
Proof.
  unfold after, mbind, M_bind. by destruct (m b) as [[e|x] b1].
Qed.

(** The paths of [modify_order] for an indexed order. *)
Lemma modify_order_cases oid p new_quantity b Q :
  repr [] b Q → orders_ b !! oid = Some p →
  ∃ o, mem b !! p = Some o ∧ Order.id o = oid ∧
       0 ≤ Order.filled_quantity o < Order.quantity o ∧
       Order.quantity o < 2 ^ 64 ∧
       modify_order oid new_quantity b =
         (if new_quantity <=? Order.filled_quantity o then cancel_order oid
          else if new_quantity <? Order.quantity o then
            modify_order oid new_quantity
          else if Order.quantity o <? new_quantity then
            cancel_order oid;;
            add_order (Order.side o) Limit (Order.price o) new_quantity;;
            mret true
          else mret true) b.
Proof.
  intros Hr Hidx.
  destruct (repr_resting _ _ _ _ _ Hr Hidx) as (o & Hp & Hid & Hfq & Hq64);
    [by intros ?%elem_of_nil|].
  exists o. split_and!; try done; try lia.
  destruct (new_quantity <=? Order.filled_quantity o) eqn:H1;
    [|destruct (new_quantity <? Order.quantity o) eqn:H2; [done|]].
  all: unfold modify_order; erewrite bind_ok by reflexivity.
  all: rewrite Hidx; erewrite bind_ok by (by apply deref_ok).
  all: by rewrite H1, ?H2.
Qed.

Section steps.
Variables P G : t → Prop.
Hypothesis G_cancel : ∀ oid b, wf b → G b → G (after (cancel_order oid) b).
Hypothesis P_add : ∀ side type price quantity b,
  wf b → G b → P b → 0 ≤ quantity < 2 ^ 64 →
  0 < OrderPool.free_count_ (pool_ b) →
  P (after (add_order side type price quantity) b).
Hypothesis P_cancel : ∀ oid p b,
  wf b → G b → P b → orders_ b !! oid = Some p →
  P (after (cancel_order oid) b).
Hypothesis P_reduce : ∀ oid p o new_quantity b,
  wf b → G b → P b → orders_ b !! oid = Some p → mem b !! p = Some o →
  Order.filled_quantity o < new_quantity < Order.quantity o →
  P (after (modify_order oid new_quantity) b).

Lemma add_order_step side type price quantity b :
  wf b → G b → P b → 0 ≤ quantity < 2 ^ 64 →
  P (after (add_order side type price quantity) b).
Proof.
  intros Hwf HG HP Hq.
  destruct (decide (OrderPool.free_count_ (pool_ b) = 0)) as [Hfc|Hfc].
  - unfold after. by rewrite add_order_exhausted.
  - pose proof Hwf as (Hr & _).
    pose proof (free_count_nonneg _ _ _ Hr). apply P_add; [done..|lia].
Qed.

Lemma cancel_order_step oid b :
  wf b → G b → P b → P (after (cancel_order oid) b).
Proof.
  intros Hwf HG HP. destruct (orders_ b !! oid) as [p|] eqn:Hidx.
  - by eapply P_cancel.
  - unfold after. by rewrite cancel_order_unknown.
Qed.

Lemma modify_order_step oid new_quantity b :
  wf b → G b → P b → 0 ≤ new_quantity < 2 ^ 64 →
  P (after (modify_order oid new_quantity) b).
Proof.
  intros Hwf HG HP Hq. destruct (orders_ b !! oid) as [p|] eqn:Hidx.
  2:{ unfold after. by rewrite modify_order_unknown. }
  pose proof Hwf as (Hr & HnB & HnS).
  destruct (modify_order_cases oid p new_quantity b _ Hr Hidx)
    as (o & Hp & Hid & Hfq & Hq64 & Hrun).
  destruct (Z.leb_spec new_quantity (Order.filled_quantity o)) as [H1|H1].
  { unfold after. rewrite Hrun. by apply cancel_order_step. }
  destruct (Z.ltb_spec new_quantity (Order.quantity o)) as [H2|H2].
  { eapply P_reduce; [done..|lia]. }
  destruct (Z.ltb_spec (Order.quantity o) new_quantity) as [H3|H3].
  2:{ unfold after. by rewrite Hrun. }
  destruct (cancel_order_keeps oid p b _ Hr HnB HnS Hidx)
    as (o' & b1 & Q1 & _ & Hc & _).
  assert (Hb1 : b1 = after (cancel_order oid) b)
    by (unfold after; by rewrite Hc).
  unfold after at 1. rewrite Hrun. fold (after (cancel_order oid;;
    add_order (Order.side o) Limit (Order.price o) new_quantity;;
    mret true) b).
  rewrite (after_bind _ _ _ _ _ Hc), after_then_ret, Hb1.
  apply add_order_step; [by apply cancel_order_wf|by apply G_cancel
                        |by apply cancel_order_step|done].
Qed.
End steps.

Lemma reachable_ops_ind (P : t → Prop) :
  (∀ capacity : nat, Z.of_nat capacity < 2 ^ 64 → P (make capacity)) →
  (∀ side type price quantity b,
     wf b → P b → 0 ≤ quantity < 2 ^ 64 →
     0 < OrderPool.free_count_ (pool_ b) →
     P (after (add_order side type price quantity) b)) →
  (∀ oid p b,
     wf b → P b → orders_ b !! oid = Some p →
     P (after (cancel_order oid) b)) →
  (∀ oid p o new_quantity b,
     wf b → P b → orders_ b !! oid = Some p → mem b !! p = Some o →
     Order.filled_quantity o < new_quantity < Order.quantity o →
     P (after (modify_order oid new_quantity) b)) →
  ∀ b, reachable b → P b.
Proof.
  intros Hmake Hadd Hcancel Hreduce b Hreach.
  induction Hreach as [cap Hcap|b side type price quantity Hreach IH Hq
                      |b oid Hreach IH|b oid q Hreach IH Hq].
  - by apply Hmake.
  - apply (add_order_step P (λ _, True)); auto using reachable_wf.
  - apply (cancel_order_step P (λ _, True)); eauto using reachable_wf.
  - apply (modify_order_step P (λ _, True)); eauto using reachable_wf.
Qed.

(** The same for the books reached in fewer calls than the counters can
    count, where the ids and the timestamps are in the order of issue. *)
Lemma reached_ops_ind (P : t → Prop) :
  (∀ capacity : nat, Z.of_nat capacity < 2 ^ 64 → P (make capacity)) →
  (∀ side type price quantity b,
     ordered b → next_id_ b + 1 < 2 ^ 64 → P b → 0 ≤ quantity < 2 ^ 64 →
     0 < OrderPool.free_count_ (pool_ b) →
     P (after (add_order side type price quantity) b)) →
  (∀ oid p b,
     ordered b → P b → orders_ b !! oid = Some p →
     P (after (cancel_order oid) b)) →
  (∀ oid p o new_quantity b,
     ordered b → P b → orders_ b !! oid = Some p → mem b !! p = Some o →
     Order.filled_quantity o < new_quantity < Order.quantity o →
     P (after (modify_order oid new_quantity) b)) →
  ∀ n b, reached n b → Z.of_nat n < 2 ^ 64 → P b.
Proof.
  intros Hmake Hadd Hcancel Hreduce n b Hreach.
  set (G := λ b, ordered b ∧ next_id_ b + 1 < 2 ^ 64 ∧
                 timestamp_counter_ b + 1 < 2 ^ 64).
  assert (HGc : ∀ oid b, wf b → G b → G (after (cancel_order oid) b)).
  { intros oid b0 Hwf (Hord & Hi & Ht).
    destruct (cancel_order_counters oid b0 Hwf) as [Hi' Ht'].
    split; [by apply cancel_order_ordered|]. by rewrite Hi', Ht'. }
  assert (HG : ∀ n b, reached n b → Z.of_nat (S n) < 2 ^ 64 → G b).
  { intros n0 b0 Hr0 Hn0.
    destruct (reached_ordered n0 b0 Hr0) as (Hord & Hi & Ht); [lia|].
    split; [done|]. lia. }
  induction Hreach as [cap Hcap|n b side type price quantity Hreach IH Hq
                      |n b oid Hreach IH|n b oid q Hreach IH Hq]; intros Hn.
  - by apply Hmake.
  - pose proof (HG _ _ Hreach Hn) as HGb. pose proof HGb as ((Hwf & _) & _).
    apply (add_order_step P G); [|done|done|apply IH; lia|done].
    intros ? ? ? ? ? _ (? & ? & ?). by apply Hadd.
  - pose proof (HG _ _ Hreach Hn) as HGb. pose proof HGb as ((Hwf & _) & _).
    apply (cancel_order_step P G); [|done|done|apply IH; lia].
    intros ? ? ? _ (? & ? & ?). by apply Hcancel.
  - pose proof (HG _ _ Hreach Hn) as HGb. pose proof HGb as ((Hwf & _) & _).
    apply (modify_order_step P G); [done| | | |done|done|apply IH; lia|done].
    + intros ? ? ? ? ? _ (? & ? & ?). by apply Hadd.
    + intros ? ? ? _ (? & ? & ?). by apply Hcancel.
    + intros ? ? ? ? ? _ (? & ? & ?). by apply Hreduce.
Qed.

(** * The book is never crossed *)

Lemma begin_min {V} (m : PriceMap.t V) k :
  StronglySorted Z.lt m.*1 → k ∈ m.*1 →
  ∃ k0, PriceMap.begin m = Some k0 ∧ k0 ≤ k.
Proof.
  destruct m as [|[k0 v] m]; csimpl; [by intros _ ?%elem_of_nil|].
  intros [Hlt _]%StronglySorted_cons Hk. exists k0. split; [done|].
  apply elem_of_cons in Hk as [->|Hk]; [lia|].
  rewrite Forall_forall in Hlt. specialize (Hlt k Hk). lia.
Qed.

Lemma rbegin_max {V} (m : PriceMap.t V) k :
  StronglySorted Z.lt m.*1 → k ∈ m.*1 →
  ∃ k0, PriceMap.rbegin m = Some k0 ∧ k ≤ k0.
Proof.
  destruct m as [|[k0 v] m _] using rev_ind; [by intros _ ?%elem_of_nil|].
  rewrite fmap_app. csimpl. intros (Hlt & _ & _)%StronglySorted_app Hk.
  exists k0. split; [apply rbegin_snoc|].
  apply elem_of_app in Hk as [Hk|Hk%list_elem_of_singleton]; [|lia].
  assert (k < k0) by (apply Hlt; [done|by left]). lia.
Qed.

Lemma shrunk_keys (qs qs' : queues) k :
  shrunk qs qs' → k ∈ qs'.*1 → k ∈ qs.*1.
Proof.
  intros Hsh ([k' q'] & -> & Hin)%list_elem_of_fmap.
  unfold shrunk in Hsh. rewrite Forall_forall in Hsh.
  destruct (Hsh _ Hin) as (q & Hf & _). simpl in *.
  apply list_elem_of_fmap. exists (k', q). split; [done|].
  by apply find_Some_elem_of.
Qed.

Lemma uncrossed_keys fl b Q :
  repr fl b Q →
  uncrossed b ↔
  ∀ kb ka, kb ∈ (Q Buy).*1 → ka ∈ (Q Sell).*1 → kb < ka.
Proof.
  intros Hr. unfold uncrossed.
  change (bids_ b) with (levels Buy b). change (asks_ b) with (levels Sell b).
  rewrite !(repr_keys fl b Q _ Hr). split.
  - intros H kb ka Hkb Hka. rewrite Forall_forall in H.
    specialize (H kb Hkb). rewrite Forall_forall in H. by apply H.
  - intros H. apply Forall_forall. intros kb Hkb.
    apply Forall_forall. intros ka Hka. by apply H.
Qed.

Lemma uncrossed_make capacity : uncrossed (make capacity).
Proof. by apply Forall_nil. Qed.

Lemma add_order_uncrossed side type price quantity b :
  wf b → uncrossed b → 0 ≤ quantity < 2 ^ 64 →
  0 < OrderPool.free_count_ (pool_ b) →
  uncrossed (after (add_order side type price quantity) b).
Proof.
  intros (Hr & HnB & HnS) Hun Hq Hfc.
  destruct (add_order_full side type price quantity b _ Hr HnB HnS Hfc Hq)
    as (a & f & r & b' & Q' & ps & rs & _ & Hrun & Hr' & _ & _ & Hf & _ & _
        & _ & _ & _ & _ & Hsh & Hown & _ & _ & _ & _ & _ & _ & _ & _ & _ & _
        & _ & _ & _ & _ & Hend & _).
  unfold after. rewrite Hrun. simpl.
  rewrite (uncrossed_keys _ _ _ Hr) in Hun.
  apply (uncrossed_keys _ _ _ Hr'). intros kb ka Hkb Hka.
  pose proof (repr_sorted _ _ _ Buy Hr') as HsB.
  pose proof (repr_sorted _ _ _ Sell Hr') as HsS.
  assert (Hnew : ∀ k, k ∈ (Q' side).*1 →
            k ∈ (abs b side).*1 ∨
            (k = price ∧ f < quantity ∧
             out_of_reach (new_order (wrap64 (next_id_ b + 1)) price quantity
                             side type (wrap64 (timestamp_counter_ b + 1)))
               (Q' (opp side)))).
  { intros k Hk. rewrite Hown in Hk.
    destruct (Z.leb_spec quantity f) as [|Hlt]; [by left|].
    destruct type; [|by left].
    rewrite keys_set in Hk. apply keys_try_emplace in Hk as [->|Hk];
      [right|by left].
    split; [done|]. split; [done|]. destruct Hend as [->|Hend]; [lia|done]. }
  destruct side; simpl in *.
  - pose proof (shrunk_keys _ _ _ Hsh Hka) as Hka'.
    destruct (Hnew kb Hkb) as [Hkb'|(-> & _ & Hout)]; [by apply Hun|].
    unfold out_of_reach in Hout. simpl in Hout.
    destruct (begin_min _ _ HsS Hka) as (k0 & Hb & Hle).
    rewrite Hb in Hout. lia.
  - pose proof (shrunk_keys _ _ _ Hsh Hkb) as Hkb'.
    destruct (Hnew ka Hka) as [Hka'|(-> & _ & Hout)]; [by apply Hun|].
    unfold out_of_reach in Hout. simpl in Hout.
    destruct (rbegin_max _ _ HsB Hkb) as (k0 & Hb & Hle).
    rewrite Hb in Hout. lia.
Qed.

Lemma cancel_order_uncrossed oid p b :
  wf b → uncrossed b → orders_ b !! oid = Some p →
  uncrossed (after (cancel_order oid) b).
Proof.
  intros (Hr & HnB & HnS) Hun Hidx.
  destruct (cancel_order_spec oid p b _ Hr HnB HnS Hidx)
    as (o & q1 & q2 & l & l' & st' & b' & Q' & _ & _ & _ & Hrun & Hr'
        & _ & _ & Hopp & Hown & _).
  unfold after. rewrite Hrun. simpl.
  rewrite (uncrossed_keys _ _ _ Hr) in Hun.
  apply (uncrossed_keys _ _ _ Hr').
  assert (Hsub : ∀ s k, k ∈ (Q' s).*1 → k ∈ (abs b s).*1).
  { intros s k. destruct (side_cases (Order.side o) s) as [->| ->].
    - rewrite Hown. destruct (decide (q1 ++ q2 = [])).
      + apply keys_erase.
      + by rewrite keys_set.
    - by rewrite Hopp. }
  intros kb ka Hkb Hka. apply Hun; by apply Hsub.
Qed.

Lemma reduce_order_uncrossed oid p o new_quantity b :
  wf b → uncrossed b → orders_ b !! oid = Some p → mem b !! p = Some o →
  Order.filled_quantity o < new_quantity < Order.quantity o →
  uncrossed (after (modify_order oid new_quantity) b).
Proof.
  intros (Hr & _) Hun Hidx Hp Hnq.
  destruct (modify_order_reduce oid p o new_quantity b _ Hr Hidx Hp Hnq)
    as (l & q & _ & _ & _ & _ & Hrun & Hr').
  unfold after. rewrite Hrun. simpl.
  apply (uncrossed_keys _ _ _ Hr'). by apply (uncrossed_keys _ _ _ Hr).
Qed.

Lemma reachable_uncrossed b : reachable b → uncrossed b.
Proof.
  apply reachable_ops_ind.
  - intros. apply uncrossed_make.
  - intros. by apply add_order_uncrossed.
  - intros. by eapply cancel_order_uncrossed.
  - intros. by eapply reduce_order_uncrossed.
Qed.

(** * The pool and the index account for the resting orders *)

Lemma queued_abs fl b Q : repr fl b Q → queued (abs b) = queued Q.
Proof. intros Hr. apply queued_ext. intros s. by eapply repr_abs. Qed.

Lemma elem_of_best_first s (qs : queues) p :
  p ∈ slots (best_first s qs) → p ∈ slots qs.
Proof. destruct s; [|done]. apply elem_of_slots_reverse. Qed.

(** What a cancellation takes out of the queues. *)
Lemma cancel_queued (Q Q' : Side → queues) s k q1 p q2 :
  PriceMap.find k (Q s) = Some (q1 ++ p :: q2) →
  Q' (opp s) = Q (opp s) →
  Q' s = (if decide (q1 ++ q2 = []) then PriceMap.erase k (Q s)
          else PriceMap.set k (q1 ++ q2) (Q s)) →
  queued Q ≡ₚ p :: queued Q'.
Proof.
  intros Hf Hopp Hown.
  rewrite (queued_ext Q' (<[s := Q' s]> Q)).
  2:{ intros s'. destruct (side_cases s s') as [->| ->].
      - by rewrite fn_lookup_insert.
      - by rewrite fn_lookup_insert_ne by (symmetry; apply opp_ne). }
  rewrite (queued_find Q s k _ Hf), Hown.
  destruct (decide (q1 ++ q2 = [])) as [Hnil|Hne].
  - apply app_eq_nil in Hnil as [-> ->]. simpl. apply Permutation_skip.
    unfold queued, rest.
    destruct s; simpl; rewrite fn_lookup_insert, fn_lookup_insert_ne by done;
      [done|apply Permutation_app_comm].
  - rewrite queued_set by (by rewrite Hf).
    rewrite <- !(assoc (++)). simpl. symmetry. apply Permutation_middle.
Qed.

Lemma balanced_make capacity : balanced (make capacity).
Proof. unfold balanced. simpl. lia. Qed.

Lemma add_order_balanced side type price quantity b :
  wf b → balanced b → 0 ≤ quantity < 2 ^ 64 →
  0 < OrderPool.free_count_ (pool_ b) →
  balanced (after (add_order side type price quantity) b).
Proof.
  intros (Hr & HnB & HnS) Hbal Hq Hfc.
  destruct (add_order_full side type price quantity b _ Hr HnB HnS Hfc Hq)
    as (a & f & r & b' & Q' & ps & rs & _ & Hrun & Hr' & _ & _ & _ & _ & _
        & _ & _ & _ & _ & _ & _ & _ & _ & _ & _ & _ & _ & _ & _ & _ & _
        & _ & _ & Hfc' & Hperm & _ & _ & _ & Hcap & _).
  unfold after. rewrite Hrun. simpl. unfold balanced in *.
  rewrite (queued_abs _ _ _ Hr'), Hfc', Hcap, <- Hbal.
  destruct (rests type quantity f); apply Permutation_length in Hperm;
    rewrite length_app in Hperm; simpl in Hperm; lia.
Qed.

Lemma cancel_order_balanced oid p b :
  wf b → balanced b → orders_ b !! oid = Some p →
  balanced (after (cancel_order oid) b).
Proof.
  intros (Hr & HnB & HnS) Hbal Hidx.
  destruct (cancel_order_spec oid p b _ Hr HnB HnS Hidx)
    as (o & q1 & q2 & l & l' & st' & b' & Q' & _ & _ & Hf & Hrun & Hr'
        & _ & _ & Hopp & Hown & _ & _ & _ & _ & _ & _ & _ & _ & _ & _ & _
        & _ & _ & _ & _ & _ & _ & Hfc' & _ & Hcap).
  unfold after. rewrite Hrun. simpl. unfold balanced in *.
  rewrite (queued_abs _ _ _ Hr'), Hfc', Hcap, <- Hbal.
  pose proof (cancel_queued _ _ _ _ _ _ _ Hf Hopp Hown) as Hperm.
  apply Permutation_length in Hperm. simpl in Hperm. lia.
Qed.

Lemma reduce_order_balanced oid p o new_quantity b :
  wf b → balanced b → orders_ b !! oid = Some p → mem b !! p = Some o →
  Order.filled_quantity o < new_quantity < Order.quantity o →
  balanced (after (modify_order oid new_quantity) b).
Proof.
  intros (Hr & _) Hbal Hidx Hp Hnq.
  destruct (modify_order_reduce oid p o new_quantity b _ Hr Hidx Hp Hnq)
    as (l & q & _ & _ & _ & _ & Hrun & Hr').
  unfold after. rewrite Hrun. cbn [snd]. unfold balanced in *.
  rewrite (queued_abs _ _ _ Hr'), !pool_set_levels. exact Hbal.
Qed.

Lemma reachable_balanced b : reachable b → balanced b.
Proof.
  apply reachable_ops_ind.
  - intros. apply balanced_make.
  - intros. by apply add_order_balanced.
  - intros. by eapply cancel_order_balanced.
  - intros. by eapply reduce_order_balanced.
Qed.

(** ** The index *)

Lemma indexed_make capacity : indexed (make capacity).
Proof. by apply Forall_nil. Qed.

Lemma add_order_indexed side type price quantity b :
  ordered b → next_id_ b + 1 < 2 ^ 64 → indexed b →
  0 ≤ quantity < 2 ^ 64 → 0 < OrderPool.free_count_ (pool_ b) →
  indexed (after (add_order side type price quantity) b).
Proof.
  intros ((Hr & HnB & HnS) & (_ & _ & Hids) & Hi0 & _) Hi1 Hidx Hq Hfc.
  destruct (add_order_full side type price quantity b _ Hr HnB HnS Hfc Hq)
    as (a & f & r & b' & Q' & ps & rs & Htop & Hrun & Hr' & _ & _ & _ & _ & _
        & _ & _ & Hps & _ & _ & _ & Hst & Hsta & _ & _ & _ & _ & Hrs & _ & _
        & _ & _ & Hord & _ & Hperm & _).
  unfold after. rewrite Hrun. simpl. unfold indexed in *.
  rewrite (queued_abs _ _ _ Hr').
  set (Q := abs b) in *.
  pose proof (top_not_queued _ _ _ _ Hr Hfc Htop) as Haq.
  assert (Hnd : NoDup (queued Q)).
  { destruct Hr as (_ & _ & _ & Hnd & _). simpl in Hnd.
    by apply NoDup_app in Hnd as (Hnd & _). }
  assert (Hrsq : ∀ x, x ∈ rs → x ∈ queued Q).
  { intros x Hx. apply elem_of_queued. exists (opp side).
    apply (elem_of_best_first (opp side)).
    eapply elem_of_prefix; [exact Hps|]. by eapply elem_of_prefix. }
  rewrite wrap64_small in Hord, Hsta by lia.
  rewrite Forall_forall in Hidx, Hids.
  apply Forall_forall. intros p Hp.
  destruct (decide (p = a)) as [->|Hpa].
  - assert (Hida : ident (mem b') a = next_id_ b + 1).
    { unfold ident. destruct (mem b' !! a); by simplify_eq/=. }
    rewrite Hida, Hord.
    destruct (rests type quantity f).
    + by rewrite bool_decide_true.
    + destruct Haq. rewrite Hperm. apply elem_of_app. by right.
  - rewrite (ident_static (mem b) (mem b') p) by by apply Hst.
    assert (Hpq : p ∈ queued Q ∧ p ∉ rs).
    { destruct (rests type quantity f).
      - split.
        + assert (p ∈ a :: queued Q) as Hin
            by (rewrite Hperm; apply elem_of_app; by right).
          by apply elem_of_cons in Hin as [?|?].
        + assert (NoDup (rs ++ queued Q')) as Hnd'
            by (rewrite <- Hperm; by apply NoDup_cons).
          apply NoDup_app in Hnd' as (_ & Hdis & _). intros Hin.
          by apply (Hdis p).
      - split.
        + rewrite Hperm. apply elem_of_app. by right.
        + assert (NoDup (rs ++ queued Q')) as Hnd' by by rewrite <- Hperm.
          apply NoDup_app in Hnd' as (_ & Hdis & _). intros Hin.
          by apply (Hdis p). }
    destruct Hpq as [Hpq Hprs]. rewrite Hord.
    destruct (Hids p Hpq) as [_ Hle].
    rewrite bool_decide_false by lia. rewrite andb_false_r.
    destruct (decide (ident (mem b) p ∈ ident (mem b) <$> rs)) as [Hin|_].
    + apply list_elem_of_fmap in Hin as (p' & Heq & Hp').
      pose proof (Hidx p Hpq) as H1. pose proof (Hidx p' (Hrsq p' Hp')) as H2.
      rewrite Heq, H2 in H1. by simplify_eq.
    + by apply Hidx.
Qed.

Lemma cancel_order_indexed oid p b :
  wf b → indexed b → orders_ b !! oid = Some p →
  indexed (after (cancel_order oid) b).
Proof.
  intros (Hr & HnB & HnS) Hidx Hoid.
  destruct (cancel_order_spec oid p b _ Hr HnB HnS Hoid)
    as (o & q1 & q2 & l & l' & st' & b' & Q' & _ & _ & Hf & Hrun & Hr'
        & _ & _ & Hopp & Hown & Hst & Hord & _).
  unfold after. rewrite Hrun. simpl. unfold indexed in *.
  rewrite (queued_abs _ _ _ Hr').
  pose proof (cancel_queued _ _ _ _ _ _ _ Hf Hopp Hown) as Hperm.
  assert (Hnd : NoDup (p :: queued Q')).
  { rewrite <- Hperm. destruct Hr as (_ & _ & _ & Hnd & _). simpl in Hnd.
    by apply NoDup_app in Hnd as (Hnd & _). }
  apply NoDup_cons in Hnd as [Hp _].
  rewrite Forall_forall in Hidx. apply Forall_forall. intros x Hx.
  rewrite (ident_static (mem b) (mem b') x) by apply Hst.
  assert (Hxq : x ∈ queued (abs b))
    by (rewrite Hperm; by apply elem_of_cons; right).
  rewrite Hord, lookup_delete_ne; [by apply Hidx|].
  intros Heq. pose proof (Hidx x Hxq) as H1. rewrite <- Heq, Hoid in H1.
  by simplify_eq.
Qed.

Lemma reduce_order_indexed oid p o new_quantity b :
  wf b → indexed b → orders_ b !! oid = Some p → mem b !! p = Some o →
  Order.filled_quantity o < new_quantity < Order.quantity o →
  indexed (after (modify_order oid new_quantity) b).
Proof.
  intros (Hr & _) Hidx Hoid Hp Hnq.
  destruct (modify_order_reduce oid p o new_quantity b _ Hr Hoid Hp Hnq)
    as (l & q & _ & _ & _ & _ & Hrun & Hr').
  unfold after. rewrite Hrun. simpl. unfold indexed in *.
  rewrite (queued_abs _ _ _ Hr').
  eapply Forall_impl; [exact Hidx|]. intros x Hx. simpl in Hx.
  rewrite orders_set_levels, orders_set_mem.
  rewrite (ident_static (mem b)); [done|].
  rewrite mem_set_levels, mem_set_mem. by apply proj_alter.
Qed.

Lemma reached_indexed n b :
  reached n b → Z.of_nat n < 2 ^ 64 → indexed b.
Proof.
  apply reached_ops_ind.
  - intros. apply indexed_make.
  - intros. by apply add_order_indexed.
  - intros ? ? ? [? _] ? ?. by eapply cancel_order_indexed.
  - intros ? ? ? ? ? [? _] ? ? ? ?. by eapply reduce_order_indexed.
Qed.

(** With a complete index, [total_orders] counts the resting orders. *)
Lemma indexed_size b :
  wf b → indexed b → size (orders_ b) = length (queued (abs b)).
Proof.
  intros (Hr & _) Hidx.
  pose proof Hr as (_ & _ & _ & Hnd & _ & Hi). simpl in Hnd, Hi.
  apply NoDup_app in Hnd as (Hnd & _).
  rewrite <- (length_fmap (λ p, (ident (mem b) p, p)) (queued (abs b))).
  rewrite <- length_map_to_list. apply Permutation_length.
  apply NoDup_Permutation.
  - apply NoDup_map_to_list.
  - apply NoDup_fmap_2; [|done]. by intros x y [= _ ->].
  - intros [i p]. rewrite elem_of_map_to_list, list_elem_of_fmap. split.
    + intros Hip. destruct (Hi i p Hip) as [Hp Hid]. exists p.
      split; [|done]. unfold ident. destruct (mem b !! p); [|done].
      by rewrite Hid.
    + intros (p' & [= -> ->] & Hp'). unfold indexed in Hidx.
      rewrite Forall_forall in Hidx. by apply Hidx.
Qed.

(** * Properties of the public operations *)

Lemma Forall2_impl_elem_of {A B} (R R' : A → B → Prop) l k :
  Forall2 R l k → (∀ x y, x ∈ l → R x y → R' x y) → Forall2 R' l k.
Proof.
  induction 1 as [|x y l k Hxy HF IH]; intros Himp; constructor.
  - apply Himp; [by left|done].
  - apply IH. intros x' y' Hx'. apply Himp. by right.
Qed.

Lemma prefix_elem_of {A} (l1 l2 : list A) x :
  l1 `prefix_of` l2 → x ∈ l1 → x ∈ l2.
Proof. intros [k ->] Hx. apply elem_of_app. by left. Qed.

Lemma slots_best_first s (qs : queues) p :
  p ∈ slots (best_first s qs) ↔ p ∈ slots qs.
Proof.
  destruct s; [|done]. simpl. unfold slots.
  rewrite fmap_reverse, !list_elem_of_join.
  split; intros (l & ? & Hl); exists l; (split; [done|]);
    by apply elem_of_reverse.
Qed.

Lemma wf_queued_side b s p :
  wf b → p ∈ slots (abs b s) →
  ∃ o, mem b !! p = Some o ∧ Order.side o = s.
Proof.
  intros (Hr & _) Hp.
  pose proof (repr_side _ _ _ s Hr) as [HF _].
  assert (Hg : Forall (λ kq, Forall (resting (mem b) s kq.1) kq.2) (abs b s)).
  { apply Forall_forall. intros kq Hkq.
    apply list_elem_of_lookup_1 in Hkq as [i Hi].
    destruct (Forall2_lookup_r _ _ _ _ _ HF Hi) as (e & _ & Hlev).
    destruct Hlev as (Hk & _ & _ & _ & Hrest). by rewrite <- Hk. }
  destruct (slots_resting _ _ _ _ Hg Hp) as (k & _ & Hrest).
  unfold resting in Hrest. destruct (mem b !! p) as [o|]; [|done].
  exists o. split; [done|]. by destruct Hrest.
Qed.

(** C1: a limit order with quantity 0 is not queued.  On a well-formed book
    with a free slot, [add_order] reports it as [Filled] with filled 0,
    remaining 0 and no trades, and the order index and both side maps are
    as before the call: the order rests nowhere, and its status is not
    [Active]. *)
Theorem add_order_zero_quantity (side : Side) (price : Z) (b : t) :
  wf b → 0 < OrderPool.available (pool_ b) →
  ∃ r b',
    add_order side Limit price 0 b = (inr r, b') ∧
    OrderResult.status r = Filled ∧
    OrderResult.filled_quantity r = 0 ∧
    OrderResult.remaining_quantity r = 0 ∧
    OrderResult.trades r = [] ∧
    orders_ b' = orders_ b ∧ bids_ b' = bids_ b ∧ asks_ b' = asks_ b.
Proof.
  intros (Hr & _) Hfree.
  destruct (add_order_zero side Limit price b _ Hr Hfree)
    as (a & b' & _ & Hrun & _ & HB & HA & HO & _).
  eexists _, b'. split; [exact Hrun|]. by split_and!.
Qed.

Lemma add_order_zero_quantity_witness :
  wf (make 4) ∧ 0 < OrderPool.available (pool_ (make 4)) ∧
  ∃ r b',
    add_order Sell Limit 10000 0 (make 4) = (inr r, b') ∧
    OrderResult.status r = Filled ∧
    OrderResult.filled_quantity r = 0 ∧
    OrderResult.remaining_quantity r = 0 ∧
    OrderResult.trades r = [] ∧
    orders_ b' = orders_ (make 4) ∧ bids_ b' = bids_ (make 4) ∧
    asks_ b' = asks_ (make 4).
Proof.
  assert (Hwf : wf (make 4)) by evaluate.
  split; [exact Hwf|]. split; [reflexivity|].
  apply (add_order_zero_quantity Sell 10000 (make 4) Hwf). reflexivity.
Defined.

(** C2, as stated, fails: a sell limit at price 0 trades with a resting bid
    (at the price of the bid), and a buy limit at price 0 trades with an ask
    resting at price 0. *)
Lemma limit_at_price_zero_trades :
  (add_order Sell Limit 0 100 bid_book).1
    = inr (OrderResult.mk 2 Filled 100 0 [Trade.mk 1 2 10000 100 2]) ∧
  (add_order Buy Limit 0 100 zero_ask_book).1
    = inr (OrderResult.mk 2 Filled 100 0 [Trade.mk 2 1 0 100 2]).
Proof. split; vm_compute; reflexivity. Qed.

(** C2, amended: a buy limit at price 0 with a quantity, submitted to a
    well-formed book with a free slot in which every ask level is at a
    positive price, does not trade: the result is [Active] with filled 0 and
    no trades, and the order is indexed and is the last of the bid queue at
    price 0. *)
Theorem buy_limit_at_price_zero_rests (quantity : Z) (b : t) :
  wf b → 0 < OrderPool.available (pool_ b) → 0 < quantity < 2 ^ 64 →
  Forall (λ k, 0 < k) (asks_ b).*1 →
  ∃ r b' a q,
    add_order Buy Limit 0 quantity b = (inr r, b') ∧
    OrderResult.trades r = [] ∧
    OrderResult.status r = Active ∧
    OrderResult.filled_quantity r = 0 ∧
    OrderResult.remaining_quantity r = quantity ∧
    wf b' ∧
    orders_ b' !! OrderResult.order_id r = Some a ∧
    PriceMap.find 0 (abs b' Buy) = Some (q ++ [a]).
Proof.
  intros (Hr & HnB & HnS) Hfree Hq Hasks.
  assert (Hnc : no_cross Buy 0 b).
  { unfold no_cross, PriceMap.begin.
    destruct (asks_ b) as [|[k l] m]; simpl; [done|].
    by apply Forall_cons in Hasks as [? _]. }
  destruct (add_order_no_cross Buy 0 quantity b _ Hr Hfree Hq Hnc)
    as (a & l & l' & st' & _ & Hrun & Hr' & _).
  match type of Hrun with _ = (_, ?x) => set (b' := x) in * end.
  eexists _, b', a, _. split; [exact Hrun|]. split_and!; try done.
  - apply wf_repr. eexists. split; [exact Hr'|].
    rewrite fn_lookup_insert, fn_lookup_insert_ne by done. split; [|done].
    apply nonempty_set_emplace; [by eapply repr_sorted|done|].
    by destruct (default _ _).
  - apply lookup_insert_eq.
  - rewrite (repr_abs _ _ _ Buy Hr'), fn_lookup_insert.
    rewrite find_set, decide_True by done.
    rewrite find_try_emplace, decide_True by (done || by eapply repr_sorted).
    done.
Qed.

Lemma buy_limit_at_price_zero_rests_witness :
  wf ask_book ∧ 0 < OrderPool.available (pool_ ask_book) ∧
  0 < 100 < 2 ^ 64 ∧ Forall (λ k, 0 < k) (asks_ ask_book).*1 ∧
  ∃ r b' a q,
    add_order Buy Limit 0 100 ask_book = (inr r, b') ∧
    OrderResult.trades r = [] ∧
    OrderResult.status r = Active ∧
    OrderResult.filled_quantity r = 0 ∧
    OrderResult.remaining_quantity r = 100 ∧
    wf b' ∧
    orders_ b' !! OrderResult.order_id r = Some a ∧
    PriceMap.find 0 (abs b' Buy) = Some (q ++ [a]).
Proof.
  assert (Hwf : wf ask_book) by evaluate.
  assert (Hq : 0 < 100 < 2 ^ 64) by lia.
  assert (Hasks : Forall (λ k, 0 < k) (asks_ ask_book).*1) by evaluate.
  split; [exact Hwf|]. split; [reflexivity|]. split; [exact Hq|].
  split; [exact Hasks|].
  apply (buy_limit_at_price_zero_rests 100 ask_book Hwf); [reflexivity|exact Hq|exact Hasks].
Defined.

(** C3: every trade of a submission (limit or market, either side) is
    against an order [op] that rests on the opposite side before the call,
    carries the id of the submitted order and the id of [op], and prints at
    the price of [op]; so it prints at the price given to [add_order] only
    when that is also the price of [op]. *)
Theorem trades_print_at_passive_price (side : Side) (type : OrderType)
    (price quantity : Z) (b : t) :
  wf b → 0 < OrderPool.available (pool_ b) → 0 ≤ quantity < 2 ^ 64 →
  ∃ r b' ps,
    add_order side type price quantity b = (inr r, b') ∧
    Forall2 (λ p tr, ∃ op,
        p ∈ slots (abs b (opp side)) ∧
        mem b !! p = Some op ∧ Order.side op = opp side ∧
        Trade.price tr = Order.price op ∧
        (Order.price op ≠ price → Trade.price tr ≠ price) ∧
        match side with
        | Buy => Trade.buy_order_id tr = OrderResult.order_id r ∧
                 Trade.sell_order_id tr = Order.id op
        | Sell => Trade.sell_order_id tr = OrderResult.order_id r ∧
                  Trade.buy_order_id tr = Order.id op
        end) ps (OrderResult.trades r).
Proof.
  intros Hwf Hfree Hq. pose proof Hwf as (Hr & HnB & HnS).
  destruct (add_order_spec side type price quantity b _ Hr HnB HnS Hfree Hq)
    as (a & f & r & b' & Q' & ps & _ & Hrun & _ & _ & _ & _ & Hid & _ & _ & _
        & Hps & Htr & _).
  exists r, b', ps. split; [exact Hrun|].
  eapply Forall2_impl_elem_of; [exact Htr|]. intros p tr Hp Ht.
  apply (prefix_elem_of _ _ _ Hps), slots_best_first in Hp.
  destruct (wf_queued_side b (opp side) p Hwf Hp) as (op & Hop & Hside).
  exists op. unfold traded in Ht. rewrite Hop in Ht. simpl in Ht.
  destruct Ht as [Hprice Hids]. split_and!; try done.
  - by rewrite Hprice.
  - rewrite Hid. destruct side; by destruct Hids.
Qed.

Lemma trades_print_at_passive_price_witness :
  wf ask_book ∧ 0 < OrderPool.available (pool_ ask_book) ∧
  0 ≤ 90 < 2 ^ 64 ∧
  ∃ r b' ps,
    add_order Buy Limit 10200 90 ask_book = (inr r, b') ∧
    Forall2 (λ p tr, ∃ op,
        p ∈ slots (abs ask_book (opp Buy)) ∧
        mem ask_book !! p = Some op ∧ Order.side op = opp Buy ∧
        Trade.price tr = Order.price op ∧
        (Order.price op ≠ 10200 → Trade.price tr ≠ 10200) ∧
        match Buy with
        | Buy => Trade.buy_order_id tr = OrderResult.order_id r ∧
                 Trade.sell_order_id tr = Order.id op
        | Sell => Trade.sell_order_id tr = OrderResult.order_id r ∧
                  Trade.buy_order_id tr = Order.id op
        end) ps (OrderResult.trades r).
Proof.
  assert (Hwf : wf ask_book) by evaluate.
  assert (Hq : 0 ≤ 90 < 2 ^ 64) by lia.
  split; [exact Hwf|]. split; [reflexivity|]. split; [exact Hq|].
  apply (trades_print_at_passive_price Buy Limit 10200 90 ask_book Hwf);
    [reflexivity|exact Hq].
Defined.

(** C4: when the pool has no free slot, [add_order] fails with
    [PoolExhausted] and the book is the same after the call: the side maps,
    the order index, the pool and all four counters. *)
Theorem add_order_pool_exhausted (side : Side) (type : OrderType)
    (price quantity : Z) (b : t) :
  OrderPool.available (pool_ b) = 0 →
  add_order side type price quantity b = (inl PoolExhausted, b).
Proof. apply add_order_exhausted. Qed.

Lemma add_order_pool_exhausted_witness :
  OrderPool.available (pool_ full_book) = 0 ∧
  add_order Sell Limit 10100 30 full_book = (inl PoolExhausted, full_book).
Proof.
  split; [reflexivity|].
  apply (add_order_pool_exhausted Sell Limit 10100 30 full_book). reflexivity.
Defined.

(** C5: for an id that no resting order of a well-formed book carries
    (whatever became of the order it was issued to, if any), [cancel_order]
    and [modify_order] return [false] and the book is the same after the
    call. *)
Theorem cancel_modify_unknown_order (order_id new_quantity : Z) (b : t) :
  wf b →
  Forall (λ p, ident (mem b) p ≠ order_id) (queued (abs b)) →
  cancel_order order_id b = (inr false, b) ∧
  modify_order order_id new_quantity b = (inr false, b).
Proof.
  intros (Hr & _) Hnot.
  assert (Hnone : orders_ b !! order_id = None).
  { destruct (orders_ b !! order_id) as [p|] eqn:Hidx; [|done].
    destruct Hr as (_ & _ & _ & _ & _ & Hi).
    destruct (Hi _ _ Hidx) as [Hlive Hid]. simpl in Hlive.
    rewrite Forall_forall in Hnot. specialize (Hnot p Hlive).
    unfold ident in Hnot. by destruct (mem b !! p). }
  split; [by apply cancel_order_unknown|by apply modify_order_unknown].
Qed.

Lemma cancel_modify_unknown_order_witness :
  wf ask_book ∧
  Forall (λ p, ident (mem ask_book) p ≠ 4) (queued (abs ask_book)) ∧
  cancel_order 4 ask_book = (inr false, ask_book) ∧
  modify_order 4 300 ask_book = (inr false, ask_book).
Proof.
  assert (Hwf : wf ask_book) by evaluate.
  assert (Hnot : Forall (λ p, ident (mem ask_book) p ≠ 4)
                   (queued (abs ask_book))) by evaluate.
  split; [exact Hwf|]. split; [exact Hnot|].
  apply (cancel_modify_unknown_order 4 300 ask_book Hwf Hnot).
Defined.

(** C6, as stated, fails: [total_quantity] is a 64-bit counter.  After two
    asks of [2 ^ 63] at one price, the level caches the total 0 while the
    queued orders have [2 ^ 64] open. *)
Lemma cached_total_wraps :
  ∃ l, PriceMap.find 10000 (asks_ big_book) = Some l ∧
       queue_of (mem big_book) l = [0%nat; 1%nat] ∧
       PriceLevel.total_quantity l = 0 ∧
       sum_open (mem big_book) (queue_of (mem big_book) l) = 2 ^ 64.
Proof. eexists. split; [vm_compute; reflexivity|]. by vm_compute. Qed.

(** C6, amended: in every book reached from a new book by [add_order],
    [cancel_order] and [modify_order], every level of either side map has a
    non-empty queue, its [order_count] is the length of the queue modulo
    [2 ^ 32] and its [total_quantity] is the sum of
    [quantity - filled_quantity] over the queue modulo [2 ^ 64]; so both are
    exact as long as the length and the sum fit their fields. *)
Theorem levels_cache_their_queues (b : t) :
  reachable b →
  ∀ s k l, PriceMap.find k (levels s b) = Some l →
    let q := queue_of (mem b) l in
    level_consistent (mem b) l ∧
    (Z.of_nat (length q) < 2 ^ 32 →
     PriceLevel.order_count l = Z.of_nat (length q)) ∧
    (sum_open (mem b) q < 2 ^ 64 →
     PriceLevel.total_quantity l = sum_open (mem b) q).
Proof.
  intros Hwf%reachable_wf s k l Hf q.
  destruct (wf_level b s k l Hwf Hf) as [Hlev Hne]. fold q in Hlev, Hne.
  destruct Hlev as (_ & _ & Hc & Ht & Hrest). simpl in *.
  split_and!; try done.
  - intros Hlen. rewrite Hc. apply wrap32_small. lia.
  - intros Hsum. rewrite Ht. apply wrap64_small.
    pose proof (sum_open_nonneg _ _ _ _ Hrest). lia.
Qed.

Lemma levels_cache_their_queues_witness :
  reachable ask_book ∧
  ∀ s k l, PriceMap.find k (levels s ask_book) = Some l →
    let q := queue_of (mem ask_book) l in
    level_consistent (mem ask_book) l ∧
    (Z.of_nat (length q) < 2 ^ 32 →
     PriceLevel.order_count l = Z.of_nat (length q)) ∧
    (sum_open (mem ask_book) q < 2 ^ 64 →
     PriceLevel.total_quantity l = sum_open (mem ask_book) q).
Proof.
  assert (Hreach : reachable ask_book).
  { unfold ask_book. repeat (apply reach_add; [|lia]). apply reach_make. lia. }
  split; [exact Hreach|]. apply (levels_cache_their_queues ask_book Hreach).
Defined.

(** C7: the trades of one submission follow price-time priority.  In a book
    that is well-formed and in which every queue is in the order of the
    timestamps (as it is until the 64-bit counters wrap around), take the
    orders resting on the opposite side, the level of the most aggressive
    price first (the lowest ask, the highest bid) and each level from its
    head.  The trades of the submitted order are, in order and one each,
    against the first orders [ps] of that list; [waiting] are the others.
    The whole list is strictly in price-time priority: each order is before
    all later ones, at a strictly better price, or at the same price with a
    strictly smaller timestamp.  So every trade is against an order that is
    before the orders of all later trades and before every order of the
    opposite side that does not trade. *)
Theorem trades_in_price_time_priority (side : Side) (type : OrderType)
    (price quantity : Z) (b : t) :
  ordered b → 0 < OrderPool.available (pool_ b) → 0 ≤ quantity < 2 ^ 64 →
  let submitted := new_order (wrap64 (next_id_ b + 1)) price quantity side type
                     (wrap64 (timestamp_counter_ b + 1)) in
  ∃ r b' ps waiting,
    add_order side type price quantity b = (inr r, b') ∧
    slots (best_first (opp side) (abs b (opp side))) = ps ++ waiting ∧
    Forall2 (traded (mem b) submitted) ps (OrderResult.trades r) ∧
    StronglySorted (before (mem b) (opp side)) (ps ++ waiting) ∧
    (∀ p x, p ∈ ps → x ∈ slots (abs b (opp side)) → x ∉ ps →
            before (mem b) (opp side) p x).
Proof.
  intros ((Hr & HnB & HnS) & Hst & _) Hfree Hq submitted.
  destruct (add_order_spec side type price quantity b _ Hr HnB HnS Hfree Hq)
    as (a & f & r & b' & Q' & ps & _ & Hrun & _ & _ & _ & _ & _ & _ & _ & _
        & Hps & Htr & _).
  pose proof (repr_before [] b _ (opp side) Hr Hst) as Hsorted.
  destruct Hps as [waiting Hall]. rewrite Hall in Hsorted.
  exists r, b', ps, waiting. split_and!; try done.
  intros p x Hp Hx Hnx.
  assert (Hxw : x ∈ waiting).
  { assert (x ∈ ps ++ waiting) as [?|?]%elem_of_app; [|done|done].
    rewrite <- Hall. destruct (opp side); simpl; [|done].
    by apply elem_of_slots_reverse. }
  by apply (StronglySorted_app_1_elem_of _ ps waiting).
Qed.

Lemma trades_in_price_time_priority_witness :
  ordered four_ask_book ∧ 0 < OrderPool.available (pool_ four_ask_book) ∧
  0 ≤ 90 < 2 ^ 64 ∧
  ∃ r b' ps waiting,
    add_order Buy Limit 10200 90 four_ask_book = (inr r, b') ∧
    slots (best_first (opp Buy) (abs four_ask_book (opp Buy)))
      = ps ++ waiting ∧
    Forall2 (traded (mem four_ask_book)
               (new_order (wrap64 (next_id_ four_ask_book + 1)) 10200 90 Buy
                  Limit (wrap64 (timestamp_counter_ four_ask_book + 1))))
      ps (OrderResult.trades r) ∧
    StronglySorted (before (mem four_ask_book) (opp Buy)) (ps ++ waiting) ∧
    (∀ p x, p ∈ ps → x ∈ slots (abs four_ask_book (opp Buy)) → x ∉ ps →
            before (mem four_ask_book) (opp Buy) p x).
Proof.
  assert (Hord : ordered four_ask_book) by evaluate.
  assert (Hq : 0 ≤ 90 < 2 ^ 64) by lia.
  split; [exact Hord|]. split; [reflexivity|]. split; [exact Hq|].
  apply (trades_in_price_time_priority Buy Limit 10200 90 four_ask_book Hord);
    [reflexivity|exact Hq].
Defined.

(** C8: reducing a resting order.  For the order [o] in slot [p] indexed
    under [order_id] in a well-formed book, and a new quantity strictly
    between its filled and its total quantity, [modify_order] returns [true];
    the store changes only in the [quantity] field of slot [p]; the level of
    the order changes only in [total_quantity], which is decremented by the
    reduction (in 64-bit arithmetic; exactly, when the cached total is not
    smaller than the reduction); the other levels, the other side, the order
    index, the pool's free stack and all counters are the same, and so are
    all queues. *)
Theorem modify_order_reduce_frame (order_id new_quantity : Z) (p : nat)
    (o : Order.t) (b : t) :
  wf b → orders_ b !! order_id = Some p → mem b !! p = Some o →
  Order.filled_quantity o < new_quantity < Order.quantity o →
  ∃ l b',
    let s := Order.side o in
    let k := Order.price o in
    let reduction := Order.quantity o - new_quantity in
    let l' := PriceLevel.set_total_quantity
                (wrap64 (PriceLevel.total_quantity l - reduction)) l in
    PriceMap.find k (levels s b) = Some l ∧
    modify_order order_id new_quantity b = (inr true, b') ∧
    mem b' = alter (Order.set_quantity new_quantity) p (mem b) ∧
    levels s b' = PriceMap.set k l' (levels s b) ∧
    (reduction ≤ PriceLevel.total_quantity l →
     PriceLevel.total_quantity l' = PriceLevel.total_quantity l - reduction) ∧
    levels (opp s) b' = levels (opp s) b ∧
    orders_ b' = orders_ b ∧
    OrderPool.free_stack_ (pool_ b') = OrderPool.free_stack_ (pool_ b) ∧
    OrderPool.free_count_ (pool_ b') = OrderPool.free_count_ (pool_ b) ∧
    OrderPool.size_ (pool_ b') = OrderPool.size_ (pool_ b) ∧
    OrderPool.capacity_ (pool_ b') = OrderPool.capacity_ (pool_ b) ∧
    next_id_ b' = next_id_ b ∧
    timestamp_counter_ b' = timestamp_counter_ b ∧
    trade_count_ b' = trade_count_ b ∧
    total_volume_ b' = total_volume_ b ∧
    (∀ s', abs b' s' = abs b s') ∧
    wf b'.
Proof.
  intros (Hr & HnB & HnS) Hidx Hp Hnq.
  destruct (modify_order_reduce order_id p o new_quantity b _ Hr Hidx Hp Hnq)
    as (l & q & Hfl & Hf & Hpq & Hlev & Hrun & Hr').
  match type of Hrun with _ = (_, ?x) => set (b' := x) in * end.
  assert (Habs : ∀ s', abs b' s' = abs b s').
  { intros s'. by rewrite (repr_abs _ _ _ s' Hr'). }
  exists l, b'. simpl. split_and!; try done.
  - subst b'. by rewrite mem_set_levels, mem_set_mem.
  - subst b'. by rewrite levels_set_levels.
  - intros Hle. apply wrap64_small.
    destruct Hlev as (_ & _ & _ & Ht & _). simpl in Ht.
    pose proof (wrap64_range (sum_open (mem b) q)). lia.
  - subst b'. rewrite levels_set_levels_ne by (symmetry; apply opp_ne).
    by rewrite levels_set_mem.
  - subst b'. by destruct (Order.side o).
  - subst b'. by destruct (Order.side o).
  - subst b'. by destruct (Order.side o).
  - subst b'. by destruct (Order.side o).
  - subst b'. by destruct (Order.side o).
  - subst b'. by destruct (Order.side o).
  - subst b'. by destruct (Order.side o).
  - subst b'. by destruct (Order.side o).
  - subst b'. by destruct (Order.side o).
  - apply wf_repr. exists (abs b). split; [done|]. by split.
Qed.

Lemma modify_order_reduce_frame_witness :
  wf ask_book ∧ orders_ ask_book !! 1 = Some 0%nat ∧
  mem ask_book !! 0%nat = Some first_ask ∧
  Order.filled_quantity first_ask < 40 < Order.quantity first_ask ∧
  ∃ l b',
    let s := Order.side first_ask in
    let k := Order.price first_ask in
    let reduction := Order.quantity first_ask - 40 in
    let l' := PriceLevel.set_total_quantity
                (wrap64 (PriceLevel.total_quantity l - reduction)) l in
    PriceMap.find k (levels s ask_book) = Some l ∧
    modify_order 1 40 ask_book = (inr true, b') ∧
    mem b' = alter (Order.set_quantity 40) 0%nat (mem ask_book) ∧
    levels s b' = PriceMap.set k l' (levels s ask_book) ∧
    (reduction ≤ PriceLevel.total_quantity l →
     PriceLevel.total_quantity l' = PriceLevel.total_quantity l - reduction) ∧
    levels (opp s) b' = levels (opp s) ask_book ∧
    orders_ b' = orders_ ask_book ∧
    OrderPool.free_stack_ (pool_ b') = OrderPool.free_stack_ (pool_ ask_book) ∧
    OrderPool.free_count_ (pool_ b') = OrderPool.free_count_ (pool_ ask_book) ∧
    OrderPool.size_ (pool_ b') = OrderPool.size_ (pool_ ask_book) ∧
    OrderPool.capacity_ (pool_ b') = OrderPool.capacity_ (pool_ ask_book) ∧
    next_id_ b' = next_id_ ask_book ∧
    timestamp_counter_ b' = timestamp_counter_ ask_book ∧
    trade_count_ b' = trade_count_ ask_book ∧
    total_volume_ b' = total_volume_ ask_book ∧
    (∀ s', abs b' s' = abs ask_book s') ∧
    wf b'.
Proof.
  assert (Hwf : wf ask_book) by evaluate.
  assert (Hidx : orders_ ask_book !! 1 = Some 0%nat) by reflexivity.
  assert (Hp : mem ask_book !! 0%nat = Some first_ask) by reflexivity.
  assert (Hnq : Order.filled_quantity first_ask < 40 < Order.quantity first_ask)
    by (simpl; lia).
  split; [exact Hwf|]. split; [exact Hidx|]. split; [exact Hp|].
  split; [exact Hnq|].
  apply (modify_order_reduce_frame 1 40 0%nat first_ask ask_book
           Hwf Hidx Hp Hnq).
Defined.

(** C9: submitting a limit order that does not cross and cancelling the
    returned id at once.  In a well-formed book with a free slot, where the
    next id is not in use (as it is until the id counter wraps around), the
    two calls succeed and leave both side maps, the order index, the pool's
    free stack with its counts, the trade count and the total volume as they
    were; the two counters have advanced by one, and the store differs at
    most in the free slot [a] that was used in between.  (With quantity 0
    there is nothing to cancel and [cancel_order] returns [false].) *)
Theorem submit_then_cancel (side : Side) (price quantity : Z) (b : t) :
  wf b → 0 < OrderPool.available (pool_ b) → 0 ≤ quantity < 2 ^ 64 →
  no_cross side price b →
  orders_ b !! wrap64 (next_id_ b + 1) = None →
  ∃ a r b1 b2,
    OrderPool.free_stack_ (pool_ b)
      !! Z.to_nat (OrderPool.free_count_ (pool_ b) - 1) = Some a ∧
    add_order side Limit price quantity b = (inr r, b1) ∧
    cancel_order (OrderResult.order_id r) b1
      = (inr (bool_decide (0 < quantity)), b2) ∧
    bids_ b2 = bids_ b ∧ asks_ b2 = asks_ b ∧ orders_ b2 = orders_ b ∧
    OrderPool.free_stack_ (pool_ b2) = OrderPool.free_stack_ (pool_ b) ∧
    OrderPool.free_count_ (pool_ b2) = OrderPool.free_count_ (pool_ b) ∧
    OrderPool.size_ (pool_ b2) = OrderPool.size_ (pool_ b) ∧
    OrderPool.capacity_ (pool_ b2) = OrderPool.capacity_ (pool_ b) ∧
    trade_count_ b2 = trade_count_ b ∧ total_volume_ b2 = total_volume_ b ∧
    next_id_ b2 = wrap64 (next_id_ b + 1) ∧
    timestamp_counter_ b2 = wrap64 (timestamp_counter_ b + 1) ∧
    (∀ x, x ≠ a → mem b2 !! x = mem b !! x).
Proof.
  intros (Hr & HnB & HnS) Hfree Hq Hnc Hfresh.
  destruct (decide (quantity = 0)) as [->|Hq0].
  - destruct (add_order_zero side Limit price b _ Hr Hfree)
      as (a & b1 & Htop & Hrun & _ & HB & HA & HO & Hrest).
    eexists a, _, b1, b1. split; [exact Htop|]. split; [exact Hrun|].
    split.
    { apply cancel_order_unknown. simpl. by rewrite HO. }
    split; [exact HB|]. split; [exact HA|]. split; [exact HO|]. exact Hrest.
  - destruct (submit_cancel_queued side price quantity b _ Hr HnB HnS Hfree)
      as (a & r & b1 & b2 & Htop & Hrun & Hid & Hcancel & Hlev & Hrest);
      [lia|done|done|].
    exists a, r, b1, b2. split; [exact Htop|]. split; [exact Hrun|].
    rewrite bool_decide_true by lia. split; [exact Hcancel|].
    split; [exact (Hlev Buy)|]. split; [exact (Hlev Sell)|]. exact Hrest.
Qed.

Lemma submit_then_cancel_witness :
  wf bid_book ∧ 0 < OrderPool.available (pool_ bid_book) ∧
  0 ≤ 30 < 2 ^ 64 ∧ no_cross Sell 10100 bid_book ∧
  orders_ bid_book !! wrap64 (next_id_ bid_book + 1) = None ∧
  ∃ a r b1 b2,
    OrderPool.free_stack_ (pool_ bid_book)
      !! Z.to_nat (OrderPool.free_count_ (pool_ bid_book) - 1) = Some a ∧
    add_order Sell Limit 10100 30 bid_book = (inr r, b1) ∧
    cancel_order (OrderResult.order_id r) b1
      = (inr (bool_decide (0 < 30)), b2) ∧
    bids_ b2 = bids_ bid_book ∧ asks_ b2 = asks_ bid_book ∧
    orders_ b2 = orders_ bid_book ∧
    OrderPool.free_stack_ (pool_ b2) = OrderPool.free_stack_ (pool_ bid_book) ∧
    OrderPool.free_count_ (pool_ b2) = OrderPool.free_count_ (pool_ bid_book) ∧
    OrderPool.size_ (pool_ b2) = OrderPool.size_ (pool_ bid_book) ∧
    OrderPool.capacity_ (pool_ b2) = OrderPool.capacity_ (pool_ bid_book) ∧
    trade_count_ b2 = trade_count_ bid_book ∧
    total_volume_ b2 = total_volume_ bid_book ∧
    next_id_ b2 = wrap64 (next_id_ bid_book + 1) ∧
    timestamp_counter_ b2 = wrap64 (timestamp_counter_ bid_book + 1) ∧
    (∀ x, x ≠ a → mem b2 !! x = mem bid_book !! x).
Proof.
  assert (Hwf : wf bid_book) by evaluate.
  assert (Hq : 0 ≤ 30 < 2 ^ 64) by lia.
  assert (Hnc : no_cross Sell 10100 bid_book) by evaluate.
  assert (Hfresh : orders_ bid_book !! wrap64 (next_id_ bid_book + 1) = None)
    by reflexivity.
  split; [exact Hwf|]. split; [reflexivity|]. split; [exact Hq|].
  split; [exact Hnc|]. split; [exact Hfresh|].
  apply (submit_then_cancel Sell 10100 30 bid_book Hwf); [reflexivity|exact Hq|exact Hnc|exact Hfresh].
Defined.

(** C10: at a price with no level on the given side, [volume_at_price] and
    [order_count_at_price] return 0, and the book is the same after the
    call. *)
Theorem queries_at_absent_price (side : Side) (price : Z) (b : t) :
  PriceMap.find price (levels side b) = None →
  volume_at_price side price b = (inr 0, b) ∧
  order_count_at_price side price b = (inr 0, b).
Proof.
  intros Hnone. unfold volume_at_price, order_count_at_price.
  split; (erewrite bind_ok by reflexivity); by rewrite Hnone.
Qed.

Lemma queries_at_absent_price_witness :
  PriceMap.find 9900 (levels Sell ask_book) = None ∧
  volume_at_price Sell 9900 ask_book = (inr 0, ask_book) ∧
  order_count_at_price Sell 9900 ask_book = (inr 0, ask_book).
Proof.
  split; [reflexivity|].
  apply (queries_at_absent_price Sell 9900 ask_book). reflexivity.
Defined.
(** * Further properties of the code

    Properties read off the source, beside those of the specification. *)

(** * The pool and the price level on their own *)

Lemma pool_ok_stack pl :
  pool_ok pl →
  length (OrderPool.free_stack_ pl) = Z.to_nat (OrderPool.capacity_ pl) ∧
  length (OrderPool.orders_ pl) = Z.to_nat (OrderPool.capacity_ pl).
Proof. intros (Hlen & Hcap & _). rewrite Hlen, Hcap. lia. Qed.

Lemma dll_ends (st : store) hd q tl :
  dll st None hd q tl → hd = head q ∧ tl = last q.
Proof.
  intros Hd. split.
  - rewrite (dllseg_head _ _ _ _ _ _ Hd). by destruct q.
  - rewrite (dllseg_last _ _ _ _ _ _ Hd). by destruct (last q).
Qed.

Lemma queue_of_dll (st : store) l q :
  dll st None (PriceLevel.head l) q (PriceLevel.tail l) → NoDup q →
  queue_of st l = q.
Proof.
  intros Hd Hnd. unfold queue_of. eapply walk_dllseg; [exact Hd|].
  apply NoDup_bounded_length; [done|].
  eapply Forall_impl; [by eapply dllseg_valid|].
  intros p Hp. by apply lookup_lt_is_Some.
Qed.

(** X1: the [k]-th allocation from a new pool returns slot [k].  Once [k]
    slots of a pool of [capacity] slots are handed out in this order, the
    next [allocate] resets slot [k] and returns it, the size goes up and
    the number of free slots goes down by one; with no slot left it throws. *)
Theorem allocate_in_slot_order (capacity k : nat) (st : store) :
  length st = capacity → Z.of_nat capacity < 2 ^ 64 → (k ≤ capacity)%nat →
  OrderPool.allocate
    (OrderPool.mk st (reverse (seq 0 capacity)) (Z.of_nat capacity)
       (Z.of_nat k) (Z.of_nat capacity - Z.of_nat k)) =
  if decide (k = capacity) then inl PoolExhausted
  else inr (k, OrderPool.mk (alter Order.reset k st)
                 (reverse (seq 0 capacity)) (Z.of_nat capacity)
                 (Z.of_nat k + 1) (Z.of_nat capacity - Z.of_nat k - 1)).
Proof.
  intros Hlen Hcap Hk. unfold OrderPool.allocate. simpl.
  destruct (decide (k = capacity)) as [->|Hne].
  { by rewrite Z.sub_diag. }
  destruct (Z.eqb_spec (Z.of_nat capacity - Z.of_nat k) 0) as [|_]; [lia|].
  rewrite (wrap64_small (_ - 1)) by lia.
  assert (Hget : reverse (seq 0 capacity)
                   !! Z.to_nat (Z.of_nat capacity - Z.of_nat k - 1)
                 = Some k).
  { rewrite reverse_lookup by (rewrite length_seq; lia).
    rewrite length_seq. rewrite lookup_seq_lt by lia. f_equal. lia. }
  rewrite Hget. unfold update.
  destruct (lookup_lt_is_Some_2 st k) as [o ->]; [lia|].
  by rewrite wrap64_small by lia.
Qed.

Lemma allocate_in_slot_order_witness :
  length (OrderPool.orders_ (OrderPool.make 4)) = 4%nat ∧
  Z.of_nat 4 < 2 ^ 64 ∧ (2 ≤ 4)%nat ∧
  OrderPool.allocate
    (OrderPool.mk (OrderPool.orders_ (OrderPool.make 4))
       (reverse (seq 0 4)) (Z.of_nat 4) (Z.of_nat 2)
       (Z.of_nat 4 - Z.of_nat 2)) =
  if decide (2%nat = 4%nat) then inl PoolExhausted
  else inr (2%nat,
            OrderPool.mk
              (alter Order.reset 2%nat (OrderPool.orders_ (OrderPool.make 4)))
              (reverse (seq 0 4)) (Z.of_nat 4)
              (Z.of_nat 2 + 1) (Z.of_nat 4 - Z.of_nat 2 - 1)).
Proof.
  split; [reflexivity|]. split; [reflexivity|]. split; [lia|].
  apply (allocate_in_slot_order 4 2 (OrderPool.orders_ (OrderPool.make 4)));
    [reflexivity|reflexivity|lia].
Defined.

(** X2: the pool is a stack.  In a consistent pool with a slot handed out,
    [deallocate p] followed by [allocate] returns the same slot [p], reset,
    and the size and the number of free slots are as before. *)
Theorem deallocate_then_allocate (p : nat) (pl : OrderPool.t) :
  pool_ok pl → OrderPool.free_count_ pl < OrderPool.capacity_ pl →
  (p < length (OrderPool.orders_ pl))%nat →
  ∃ pl1 pl2,
    OrderPool.deallocate p pl = Some pl1 ∧
    OrderPool.available pl1 = OrderPool.available pl + 1 ∧
    OrderPool.size pl1 = OrderPool.size pl - 1 ∧
    OrderPool.allocate pl1 = inr (p, pl2) ∧
    OrderPool.available pl2 = OrderPool.available pl ∧
    OrderPool.size pl2 = OrderPool.size pl ∧
    OrderPool.orders_ pl2 = alter Order.reset p (OrderPool.orders_ pl).
Proof.
  intros Hok Hfc Hp.
  destruct (pool_ok_stack pl Hok) as [Hls Hlo].
  destruct Hok as (Hlen & Hcap & Hcap64 & Hfc0 & Hfcc & Hsz).
  unfold OrderPool.deallocate.
  destruct (decide (Z.to_nat (OrderPool.free_count_ pl)
                    < length (OrderPool.free_stack_ pl))%nat) as [Hlt|]; [|lia].
  eexists _, _. split; [reflexivity|].
  unfold OrderPool.available, OrderPool.size. simpl.
  rewrite (wrap64_small (OrderPool.free_count_ pl + 1)) by lia.
  rewrite (wrap64_small (OrderPool.size_ pl - 1)) by lia.
  split; [done|]. split; [done|].
  unfold OrderPool.allocate. simpl.
  destruct (Z.eqb_spec (OrderPool.free_count_ pl + 1) 0) as [|_]; [lia|].
  replace (OrderPool.free_count_ pl + 1 - 1) with (OrderPool.free_count_ pl)
    by lia.
  rewrite (wrap64_small (OrderPool.free_count_ pl)) by lia.
  rewrite list_lookup_insert_eq by done. unfold update.
  destruct (lookup_lt_is_Some_2 (OrderPool.orders_ pl) p) as [o ->]; [lia|].
  split; [reflexivity|]. simpl.
  rewrite wrap64_small by lia. split_and!; [done|lia|done].
Qed.

Lemma deallocate_then_allocate_witness :
  pool_ok (pool_ bid_book) ∧
  OrderPool.free_count_ (pool_ bid_book) < OrderPool.capacity_ (pool_ bid_book) ∧
  (0 < length (OrderPool.orders_ (pool_ bid_book)))%nat ∧
  ∃ pl1 pl2,
    OrderPool.deallocate 0 (pool_ bid_book) = Some pl1 ∧
    OrderPool.available pl1 = OrderPool.available (pool_ bid_book) + 1 ∧
    OrderPool.size pl1 = OrderPool.size (pool_ bid_book) - 1 ∧
    OrderPool.allocate pl1 = inr (0%nat, pl2) ∧
    OrderPool.available pl2 = OrderPool.available (pool_ bid_book) ∧
    OrderPool.size pl2 = OrderPool.size (pool_ bid_book) ∧
    OrderPool.orders_ pl2
      = alter Order.reset 0%nat (OrderPool.orders_ (pool_ bid_book)).
Proof.
  assert (Hok : pool_ok (pool_ bid_book)) by evaluate.
  assert (Hfc : OrderPool.free_count_ (pool_ bid_book)
                < OrderPool.capacity_ (pool_ bid_book)) by reflexivity.
  assert (Hp : (0 < length (OrderPool.orders_ (pool_ bid_book)))%nat)
    by (vm_compute; lia).
  split; [exact Hok|]. split; [exact Hfc|]. split; [exact Hp|].
  apply (deallocate_then_allocate 0 (pool_ bid_book) Hok Hfc Hp).
Defined.

(** X3: in a consistent pool with a free slot, where the free stack holds
    slots of the pool, [allocate] followed by [deallocate] of the slot it
    returned restores the pool: the free stack, the size and the number of
    free slots are as before, and the only change is that the slot has been
    reset. *)
Theorem allocate_then_deallocate (pl : OrderPool.t) :
  pool_ok pl → 0 < OrderPool.free_count_ pl →
  Forall (λ p, (p < length (OrderPool.orders_ pl))%nat) (free pl) →
  ∃ p pl1,
    OrderPool.allocate pl = inr (p, pl1) ∧
    OrderPool.available pl1 = OrderPool.available pl - 1 ∧
    OrderPool.size pl1 = OrderPool.size pl + 1 ∧
    OrderPool.deallocate p pl1 =
      Some (OrderPool.mk (alter Order.reset p (OrderPool.orders_ pl))
              (OrderPool.free_stack_ pl) (OrderPool.capacity_ pl)
              (OrderPool.size_ pl) (OrderPool.free_count_ pl)).
Proof.
  intros Hok Hfc Hval.
  destruct (pool_ok_stack pl Hok) as [Hls Hlo].
  pose proof Hok as (Hlen & Hcap & Hcap64 & Hfc0 & Hfcc & Hsz).
  unfold OrderPool.allocate.
  destruct (Z.eqb_spec (OrderPool.free_count_ pl) 0) as [|_]; [lia|].
  rewrite (wrap64_small (OrderPool.free_count_ pl - 1)) by lia.
  destruct (lookup_lt_is_Some_2 (OrderPool.free_stack_ pl)
              (Z.to_nat (OrderPool.free_count_ pl - 1))) as [p Hp]; [lia|].
  rewrite Hp. unfold update.
  assert (Hin : p ∈ free pl).
  { unfold free.
    apply (list_elem_of_lookup_2 _ (Z.to_nat (OrderPool.free_count_ pl - 1))).
    by rewrite lookup_take_lt by lia. }
  rewrite Forall_forall in Hval.
  destruct (lookup_lt_is_Some_2 (OrderPool.orders_ pl) p) as [o ->];
    [by apply Hval|].
  eexists p, _. split; [reflexivity|].
  unfold OrderPool.available, OrderPool.size. simpl.
  rewrite (wrap64_small (OrderPool.size_ pl + 1)) by lia.
  split; [done|]. split; [done|].
  unfold OrderPool.deallocate. simpl.
  destruct (decide (Z.to_nat (OrderPool.free_count_ pl - 1)
                    < length (OrderPool.free_stack_ pl))%nat); [|lia].
  rewrite list_insert_id by done.
  replace (OrderPool.size_ pl + 1 - 1) with (OrderPool.size_ pl) by lia.
  replace (OrderPool.free_count_ pl - 1 + 1) with (OrderPool.free_count_ pl)
    by lia.
  by rewrite !wrap64_small by lia.
Qed.

Lemma allocate_then_deallocate_witness :
  pool_ok (pool_ bid_book) ∧ 0 < OrderPool.free_count_ (pool_ bid_book) ∧
  Forall (λ p, (p < length (OrderPool.orders_ (pool_ bid_book)))%nat)
    (free (pool_ bid_book)) ∧
  ∃ p pl1,
    OrderPool.allocate (pool_ bid_book) = inr (p, pl1) ∧
    OrderPool.available pl1 = OrderPool.available (pool_ bid_book) - 1 ∧
    OrderPool.size pl1 = OrderPool.size (pool_ bid_book) + 1 ∧
    OrderPool.deallocate p pl1 =
      Some (OrderPool.mk
              (alter Order.reset p (OrderPool.orders_ (pool_ bid_book)))
              (OrderPool.free_stack_ (pool_ bid_book))
              (OrderPool.capacity_ (pool_ bid_book))
              (OrderPool.size_ (pool_ bid_book))
              (OrderPool.free_count_ (pool_ bid_book))).
Proof.
  assert (Hok : pool_ok (pool_ bid_book)) by evaluate.
  assert (Hfc : 0 < OrderPool.free_count_ (pool_ bid_book)) by reflexivity.
  assert (Hval : Forall
            (λ p, (p < length (OrderPool.orders_ (pool_ bid_book)))%nat)
            (free (pool_ bid_book))) by evaluate.
  split; [exact Hok|]. split; [exact Hfc|]. split; [exact Hval|].
  apply (allocate_then_deallocate (pool_ bid_book) Hok Hfc Hval).
Defined.

(** X4: [PriceLevel::add_order] appends at the tail.  For a level whose
    links form the queue [q] and an order [p] that is not in it, the queue
    read from the head is [q ++ [p]] afterwards, the front is the oldest
    order, the count goes up by one and the total by the remaining quantity
    of [p] (in 32-bit and 64-bit arithmetic), and no order changes apart
    from its links. *)
Theorem level_add_order_appends (st : store) (l : PriceLevel.t)
    (q : list nat) (p : nat) (op : Order.t) :
  dll st None (PriceLevel.head l) q (PriceLevel.tail l) → NoDup q →
  p ∉ q → st !! p = Some op →
  ∃ l' st',
    PriceLevel.add_order p l st = Some (l', st') ∧
    queue_of st' l' = q ++ [p] ∧
    PriceLevel.front l' = head (q ++ [p]) ∧
    PriceLevel.tail l' = Some p ∧
    PriceLevel.empty l' = false ∧
    PriceLevel.price l' = PriceLevel.price l ∧
    PriceLevel.order_count l' = wrap32 (PriceLevel.order_count l + 1) ∧
    PriceLevel.total_quantity l' =
      wrap64 (PriceLevel.total_quantity l + Order.remaining op) ∧
    (∀ x, strip <$> st' !! x = strip <$> st !! x).
Proof.
  intros Hd Hnd Hp Hop.
  destruct (level_add_order_spec st l q p op Hd Hnd Hp Hop)
    as (l' & st' & Hrun & Hd' & Hpr & Hc & Ht & Hlen & Hstrip & _).
  assert (Hnd' : NoDup (q ++ [p])).
  { apply NoDup_app. split_and!; [done| |apply NoDup_singleton].
    intros x Hx ->%list_elem_of_singleton. done. }
  destruct (dll_ends _ _ _ _ Hd') as [Hh Htl].
  exists l', st'. split_and!; try done.
  - by apply queue_of_dll.
  - by rewrite Htl, last_snoc.
  - unfold PriceLevel.empty. rewrite Hh. by destruct q.
Qed.

Lemma level_add_order_appends_witness :
  dll pending_store None (PriceLevel.head first_level) [0%nat; 1%nat]
    (PriceLevel.tail first_level) ∧
  NoDup [0%nat; 1%nat] ∧ (3%nat ∉ [0%nat; 1%nat]) ∧
  pending_store !! 3%nat = Some fourth_ask ∧
  ∃ l' st',
    PriceLevel.add_order 3 first_level pending_store = Some (l', st') ∧
    queue_of st' l' = [0%nat; 1%nat] ++ [3%nat] ∧
    PriceLevel.front l' = head ([0%nat; 1%nat] ++ [3%nat]) ∧
    PriceLevel.tail l' = Some 3%nat ∧
    PriceLevel.empty l' = false ∧
    PriceLevel.price l' = PriceLevel.price first_level ∧
    PriceLevel.order_count l'
      = wrap32 (PriceLevel.order_count first_level + 1) ∧
    PriceLevel.total_quantity l' =
      wrap64 (PriceLevel.total_quantity first_level
              + Order.remaining fourth_ask) ∧
    (∀ x, strip <$> st' !! x = strip <$> pending_store !! x).
Proof.
  assert (Hd : dll pending_store None (PriceLevel.head first_level)
                 [0%nat; 1%nat] (PriceLevel.tail first_level)) by evaluate.
  assert (Hnd : NoDup [0%nat; 1%nat]) by evaluate.
  assert (Hp : 3%nat ∉ [0%nat; 1%nat]) by evaluate.
  assert (Hop : pending_store !! 3%nat = Some fourth_ask) by reflexivity.
  split; [exact Hd|]. split; [exact Hnd|]. split; [exact Hp|].
  split; [exact Hop|].
  apply (level_add_order_appends pending_store first_level [0%nat; 1%nat]
           3 fourth_ask Hd Hnd Hp Hop).
Defined.

(** X5: [PriceLevel::remove_order] unlinks an order from anywhere in the
    queue.  For a level whose links form the queue [q1 ++ p :: q2], the queue
    read from the head is [q1 ++ q2] afterwards, the level is empty exactly
    when [p] was alone, the count goes down by one and the total by the
    remaining quantity of [p], the links of [p] are null, and no order
    changes apart from its links. *)
Theorem level_remove_order_unlinks (st : store) (l : PriceLevel.t)
    (q1 : list nat) (p : nat) (q2 : list nat) (op : Order.t) :
  dll st None (PriceLevel.head l) (q1 ++ p :: q2) (PriceLevel.tail l) →
  NoDup (q1 ++ p :: q2) → st !! p = Some op →
  ∃ l' st',
    PriceLevel.remove_order p l st = Some (l', st') ∧
    queue_of st' l' = q1 ++ q2 ∧
    PriceLevel.front l' = head (q1 ++ q2) ∧
    (PriceLevel.empty l' = true ↔ q1 ++ q2 = []) ∧
    PriceLevel.price l' = PriceLevel.price l ∧
    PriceLevel.order_count l' = wrap32 (PriceLevel.order_count l - 1) ∧
    PriceLevel.total_quantity l' =
      wrap64 (PriceLevel.total_quantity l - Order.remaining op) ∧
    st' !! p = Some (Order.set_next None (Order.set_prev None op)) ∧
    (∀ x, strip <$> st' !! x = strip <$> st !! x).
Proof.
  intros Hd Hnd Hop.
  destruct (level_remove_order_spec st l q1 p q2 op Hd Hnd Hop)
    as (l' & st' & Hrun & Hd' & Hpr & Hc & Ht & Hlen & Hstrip & Hp' & _).
  assert (Hnd' : NoDup (q1 ++ q2)).
  { eapply sublist_NoDup; [exact Hnd|apply sublist_app; [done|]; by apply sublist_cons]. }
  destruct (dll_ends _ _ _ _ Hd') as [Hh Htl].
  exists l', st'. split_and!; try done.
  - by apply queue_of_dll.
  - unfold PriceLevel.empty. rewrite Hh.
    split; [by destruct (q1 ++ q2)|by intros ->].
Qed.

Lemma level_remove_order_unlinks_witness :
  PriceMap.find 10100 (asks_ ask_book) = Some first_level ∧
  dll (mem ask_book) None (PriceLevel.head first_level) ([] ++ 0%nat :: [1%nat])
    (PriceLevel.tail first_level) ∧
  NoDup ([] ++ 0%nat :: [1%nat]) ∧
  mem ask_book !! 0%nat = Some first_ask ∧
  ∃ l' st',
    PriceLevel.remove_order 0 first_level (mem ask_book) = Some (l', st') ∧
    queue_of st' l' = [] ++ [1%nat] ∧
    PriceLevel.front l' = head ([] ++ [1%nat]) ∧
    (PriceLevel.empty l' = true ↔ [] ++ [1%nat] = []) ∧
    PriceLevel.price l' = PriceLevel.price first_level ∧
    PriceLevel.order_count l' = wrap32 (PriceLevel.order_count first_level - 1) ∧
    PriceLevel.total_quantity l' =
      wrap64 (PriceLevel.total_quantity first_level - Order.remaining first_ask) ∧
    st' !! 0%nat
      = Some (Order.set_next None (Order.set_prev None first_ask)) ∧
    (∀ x, strip <$> st' !! x = strip <$> mem ask_book !! x).
Proof.
  split; [reflexivity|].
  assert (Hd : dll (mem ask_book) None (PriceLevel.head first_level)
                 ([] ++ 0%nat :: [1%nat]) (PriceLevel.tail first_level)) by evaluate.
  assert (Hnd : NoDup ([] ++ 0%nat :: [1%nat])) by evaluate.
  assert (Hop : mem ask_book !! 0%nat = Some first_ask) by reflexivity.
  split; [exact Hd|]. split; [exact Hnd|]. split; [exact Hop|].
  apply (level_remove_order_unlinks (mem ask_book) first_level [] 0 [1%nat] first_ask
           Hd Hnd Hop).
Defined.

(** X6: adding an order to a level and removing it again restores the
    level (head, tail, count and total, for a count and a total in the
    range of their fields) and every other order of the store; the order
    itself is left with null links. *)
Theorem level_add_then_remove (st : store) (l : PriceLevel.t)
    (q : list nat) (p : nat) (op : Order.t) :
  dll st None (PriceLevel.head l) q (PriceLevel.tail l) → NoDup q →
  p ∉ q → st !! p = Some op →
  0 ≤ PriceLevel.order_count l < 2 ^ 32 →
  0 ≤ PriceLevel.total_quantity l < 2 ^ 64 →
  ∃ l1 st1 st2,
    PriceLevel.add_order p l st = Some (l1, st1) ∧
    PriceLevel.remove_order p l1 st1 = Some (l, st2) ∧
    st2 !! p = Some (Order.set_next None (Order.set_prev None op)) ∧
    (∀ x, x ≠ p → st2 !! x = st !! x).
Proof.
  intros Hd Hnd Hp Hop Hc0 Ht0.
  destruct (level_add_order_spec st l q p op Hd Hnd Hp Hop)
    as (l1 & st1 & Hrun1 & Hd1 & Hpr1 & Hc1 & Ht1 & Hlen1 & Hstrip1 & Hp1
        & Hx1).
  assert (Hnd1 : NoDup (q ++ [p])).
  { apply NoDup_app. split_and!; [done| |apply NoDup_singleton].
    intros x Hx ->%list_elem_of_singleton. done. }
  destruct (level_remove_order_spec st1 l1 q p [] _ Hd1 Hnd1 Hp1)
    as (l2 & st2 & Hrun2 & Hd2 & Hpr2 & Hc2 & Ht2 & Hlen2 & Hstrip2 & Hp2
        & Hx2).
  rewrite app_nil_r in Hd2.
  assert (l2 = l) as ->.
  { destruct (dll_ends _ _ _ _ Hd) as [Hh Htl].
    destruct (dll_ends _ _ _ _ Hd2) as [Hh2 Htl2].
    destruct l as [pr t c h tl], l2 as [pr2 t2 c2 h2 tl2]. simpl in *.
    rewrite Hc1, wrap32_sub_l in Hc2. rewrite Ht1 in Ht2.
    replace (Order.remaining
               (Order.set_next None (Order.set_prev tl op)))
      with (Order.remaining op) in Ht2 by done.
    rewrite wrap64_sub_l in Ht2.
    replace (c + 1 - 1) with c in Hc2 by lia.
    replace (t + Order.remaining op - Order.remaining op) with t in Ht2
      by lia.
    rewrite wrap32_small in Hc2 by done. rewrite wrap64_small in Ht2 by done.
    congruence. }
  exists l1, st1, st2. split_and!; [done|done|done|].
  intros x Hx. rewrite (Hx2 x Hx). simpl. rewrite (Hx1 x Hx).
  destruct (decide (last q = Some x)) as [Hl|Hl]; [|done].
  destruct (dll_last_next _ _ _ _ _ _ Hd Hl) as (o & -> & Hn). simpl.
  f_equal. destruct o. simpl in *. by subst.
Qed.

Lemma level_add_then_remove_witness :
  PriceMap.find 10200 (asks_ ask_book) = Some second_level ∧
  dll (mem ask_book) None (PriceLevel.head second_level) [2%nat] (PriceLevel.tail second_level) ∧
  NoDup [2%nat] ∧ (3%nat ∉ [2%nat]) ∧
  mem ask_book !! 3%nat = Some (Order.reset first_ask) ∧
  0 ≤ PriceLevel.order_count second_level < 2 ^ 32 ∧
  0 ≤ PriceLevel.total_quantity second_level < 2 ^ 64 ∧
  ∃ l1 st1 st2,
    PriceLevel.add_order 3 second_level (mem ask_book) = Some (l1, st1) ∧
    PriceLevel.remove_order 3 l1 st1 = Some (second_level, st2) ∧
    st2 !! 3%nat
      = Some (Order.set_next None
                (Order.set_prev None (Order.reset first_ask))) ∧
    (∀ x, x ≠ 3%nat → st2 !! x = mem ask_book !! x).
Proof.
  split; [reflexivity|].
  assert (Hd : dll (mem ask_book) None (PriceLevel.head second_level) [2%nat]
                 (PriceLevel.tail second_level)) by evaluate.
  assert (Hnd : NoDup [2%nat]) by evaluate.
  assert (Hp : 3%nat ∉ [2%nat]) by evaluate.
  assert (Hop : mem ask_book !! 3%nat = Some (Order.reset first_ask))
    by reflexivity.
  assert (Hc : 0 ≤ PriceLevel.order_count second_level < 2 ^ 32) by (simpl; lia).
  assert (Ht : 0 ≤ PriceLevel.total_quantity second_level < 2 ^ 64) by (simpl; lia).
  split; [exact Hd|]. split; [exact Hnd|]. split; [exact Hp|].
  split; [exact Hop|]. split; [exact Hc|]. split; [exact Ht|].
  apply (level_add_then_remove (mem ask_book) second_level [2%nat] 3
           (Order.reset first_ask) Hd Hnd Hp Hop Hc Ht).
Defined.

(** * Market data *)

Lemma find_is_Some_keys {V} (m : PriceMap.t V) k :
  is_Some (PriceMap.find k m) ↔ k ∈ m.*1.
Proof.
  rewrite <- not_eq_None_Some, find_None_keys.
  split; [apply dec_stable|by intros ? ?].
Qed.

Lemma wf_sorted b s : wf b → StronglySorted Z.lt (levels s b).*1.
Proof. intros (Hr & _). by destruct (repr_side _ _ _ s Hr). Qed.

(** X7: in a well-formed book, [best_bid] is the highest price with a bid
    level and [best_ask] the lowest price with an ask level; on an empty
    side they return [INVALID_PRICE]. *)
Theorem best_prices_are_extreme (b : t) :
  wf b →
  (∀ k, is_Some (PriceMap.find k (bids_ b)) →
        k ≤ best_bid b ∧ is_Some (PriceMap.find (best_bid b) (bids_ b))) ∧
  (∀ k, is_Some (PriceMap.find k (asks_ b)) →
        best_ask b ≤ k ∧ is_Some (PriceMap.find (best_ask b) (asks_ b))) ∧
  (bids_ b = [] → best_bid b = INVALID_PRICE) ∧
  (asks_ b = [] → best_ask b = INVALID_PRICE).
Proof.
  intros Hwf. split_and!.
  - intros k Hk%find_is_Some_keys.
    destruct (rbegin_max _ _ (wf_sorted b Buy Hwf) Hk) as (k0 & Hb & Hle).
    simpl in Hb. unfold best_bid. rewrite Hb. split; [done|].
    apply find_is_Some_keys. unfold PriceMap.rbegin in Hb.
    destruct (last (bids_ b)) as [[k1 l1]|] eqn:Hl; [|done].
    simpl in Hb. injection Hb as ->. apply list_elem_of_fmap.
    exists (k0, l1). split; [done|]. by apply last_Some_elem_of.
  - intros k Hk%find_is_Some_keys.
    destruct (begin_min _ _ (wf_sorted b Sell Hwf) Hk) as (k0 & Hb & Hle).
    simpl in Hb. unfold best_ask. rewrite Hb. split; [done|].
    apply find_is_Some_keys. unfold PriceMap.begin in Hb.
    destruct (asks_ b) as [|[k1 l1] m]; [done|]. simpl in Hb.
    injection Hb as ->. csimpl. by left.
  - unfold best_bid. by intros ->.
  - unfold best_ask. by intros ->.
Qed.

Lemma best_prices_are_extreme_witness :
  wf two_sided_book ∧
  (∀ k, is_Some (PriceMap.find k (bids_ two_sided_book)) →
        k ≤ best_bid two_sided_book ∧
        is_Some (PriceMap.find (best_bid two_sided_book)
                   (bids_ two_sided_book))) ∧
  (∀ k, is_Some (PriceMap.find k (asks_ two_sided_book)) →
        best_ask two_sided_book ≤ k ∧
        is_Some (PriceMap.find (best_ask two_sided_book)
                   (asks_ two_sided_book))) ∧
  (bids_ two_sided_book = [] → best_bid two_sided_book = INVALID_PRICE) ∧
  (asks_ two_sided_book = [] → best_ask two_sided_book = INVALID_PRICE).
Proof.
  assert (Hwf : wf two_sided_book) by evaluate.
  split; [exact Hwf|]. apply (best_prices_are_extreme two_sided_book Hwf).
Defined.

(** X8: a book reached by the public operations is never crossed: with
    orders on both sides, [best_bid] is below [best_ask].  Then [spread] is
    their positive difference, provided neither best price is 0 (which
    [spread] takes for a missing side and answers [INVALID_PRICE]) and the
    difference is below [2 ^ 64], as it is for prices of the 64-bit price
    type. *)
Theorem reachable_book_not_crossed (b : t) :
  reachable b → bids_ b ≠ [] → asks_ b ≠ [] →
  best_bid b < best_ask b ∧
  (best_bid b = 0 ∨ best_ask b = 0 → spread b = INVALID_PRICE) ∧
  (best_bid b ≠ 0 → best_ask b ≠ 0 → best_ask b - best_bid b < 2 ^ 64 →
   spread b = best_ask b - best_bid b ∧ 0 < spread b).
Proof.
  intros Hreach HB HA.
  pose proof (reachable_uncrossed b Hreach) as Hun.
  assert (Hlt : best_bid b < best_ask b).
  { unfold uncrossed in Hun. unfold best_bid, best_ask.
    unfold PriceMap.rbegin, PriceMap.begin.
    destruct (bids_ b) as [|eb mb _] using rev_ind; [done|].
    destruct (asks_ b) as [|ea ma]; [done|].
    rewrite last_snoc. simpl. rewrite fmap_app in Hun.
    apply Forall_app in Hun as [_ Hun]. csimpl in Hun.
    apply Forall_cons in Hun as [Hun _].
    by apply Forall_cons in Hun as [Hun _]. }
  split; [done|]. unfold spread, INVALID_PRICE. split.
  - intros [->| ->]; [done|]. by rewrite orb_true_r.
  - intros H1 H2 H3.
    destruct (Z.eqb_spec (best_bid b) 0) as [|_]; [done|].
    destruct (Z.eqb_spec (best_ask b) 0) as [|_]; [done|]. simpl.
    rewrite wrap64_small by lia. lia.
Qed.

Lemma reachable_book_not_crossed_witness :
  reachable two_sided_book ∧ bids_ two_sided_book ≠ [] ∧
  asks_ two_sided_book ≠ [] ∧
  best_bid two_sided_book < best_ask two_sided_book ∧
  (best_bid two_sided_book = 0 ∨ best_ask two_sided_book = 0 →
   spread two_sided_book = INVALID_PRICE) ∧
  (best_bid two_sided_book ≠ 0 → best_ask two_sided_book ≠ 0 →
   best_ask two_sided_book - best_bid two_sided_book < 2 ^ 64 →
   spread two_sided_book = best_ask two_sided_book - best_bid two_sided_book ∧
   0 < spread two_sided_book).
Proof.
  assert (Hreach : reachable two_sided_book).
  { unfold two_sided_book, ask_book. repeat (apply reach_add; [|lia]).
    apply reach_make. lia. }
  assert (HB : bids_ two_sided_book ≠ []) by (vm_compute; discriminate).
  assert (HA : asks_ two_sided_book ≠ []) by (vm_compute; discriminate).
  split; [exact Hreach|]. split; [exact HB|]. split; [exact HA|].
  apply (reachable_book_not_crossed two_sided_book Hreach HB HA).
Defined.

(** ** Depth *)

Lemma depth_loop_take it count levels depth :
  depth_loop it count levels depth =
  depth ++ ((λ e, (e.1, PriceLevel.total_quantity e.2))
              <$> take (levels - count) it).
Proof.
  revert count depth. induction it as [|e it IH]; intros count depth; simpl.
  - by rewrite take_nil, app_nil_r.
  - destruct (Nat.ltb_spec count levels) as [Hlt|Hge].
    + rewrite IH. replace (levels - count)%nat with (S (levels - S count))
        by lia.
      by rewrite <- (assoc (++)).
    + replace (levels - count)%nat with 0%nat by lia. by rewrite app_nil_r.
Qed.

Lemma keys_take_sorted {V} (R : relation Z) (m : PriceMap.t V) n :
  StronglySorted R m.*1 → StronglySorted R (take n m).*1.
Proof.
  intros Hs. rewrite fmap_take.
  eapply StronglySorted_sublist; [apply sublist_take|exact Hs].
Qed.


(** X9: [ask_depth n] lists the [n] lowest ask levels, or all of them if
    there are fewer, from the best price upwards, each with the total that
    [volume_at_price] reports for it. *)
Theorem ask_depth_lists_best_levels (n : nat) (b : t) :
  wf b →
  ask_depth n b =
    (λ e, (e.1, PriceLevel.total_quantity e.2)) <$> take n (asks_ b) ∧
  length (ask_depth n b) = (n `min` ask_levels b)%nat ∧
  StronglySorted Z.lt (ask_depth n b).*1 ∧
  (∀ k v, (k, v) ∈ ask_depth n b → volume_at_price Sell k b = (inr v, b)) ∧
  ((0 < n)%nat → asks_ b ≠ [] →
   (ask_depth n b).*1 !! 0%nat = Some (best_ask b)).
Proof.
  intros Hwf. pose proof (wf_sorted b Sell Hwf) as Hs. simpl in Hs.
  assert (Heq : ask_depth n b =
    (λ e, (e.1, PriceLevel.total_quantity e.2)) <$> take n (asks_ b)).
  { unfold ask_depth. rewrite depth_loop_take. simpl. by rewrite Nat.sub_0_r. }
  split; [done|]. rewrite Heq. split_and!.
  - rewrite length_fmap, length_take. unfold ask_levels, PriceMap.size. lia.
  - rewrite <- list_fmap_compose.
    by apply (keys_take_sorted Z.lt (asks_ b) n).
  - intros k v ([k' l] & [= -> ->] & Hin)%list_elem_of_fmap.
    unfold volume_at_price. erewrite bind_ok by reflexivity. simpl.
    rewrite (elem_of_find_Some k' l (asks_ b) Hs); [done|].
    eapply elem_of_sublist; [exact Hin|]. apply sublist_take.
  - intros Hn HA. unfold best_ask, PriceMap.begin.
    destruct (asks_ b) as [|[k l] m]; [done|]. by destruct n; [lia|].
Qed.

Lemma ask_depth_lists_best_levels_witness :
  wf ask_book ∧
  ask_depth 1 ask_book =
    (λ e, (e.1, PriceLevel.total_quantity e.2)) <$> take 1 (asks_ ask_book) ∧
  length (ask_depth 1 ask_book) = (1 `min` ask_levels ask_book)%nat ∧
  StronglySorted Z.lt (ask_depth 1 ask_book).*1 ∧
  (∀ k v, (k, v) ∈ ask_depth 1 ask_book →
          volume_at_price Sell k ask_book = (inr v, ask_book)) ∧
  ((0 < 1)%nat → asks_ ask_book ≠ [] →
   (ask_depth 1 ask_book).*1 !! 0%nat = Some (best_ask ask_book)).
Proof.
  assert (Hwf : wf ask_book) by evaluate.
  split; [exact Hwf|]. apply (ask_depth_lists_best_levels 1 ask_book Hwf).
Defined.



(** ** Counting the resting orders *)

(** X11: in a book reached in fewer than [2 ^ 64] calls, the index holds
    exactly the resting orders: [total_orders] is their number, [empty]
    holds when there is none, and [cancel_order] finds every resting order
    under the id stored in it. *)
Theorem index_holds_resting_orders (n : nat) (b : t) :
  reached n b → Z.of_nat n < 2 ^ 64 →
  total_orders b = length (queued (abs b)) ∧
  (empty b = true ↔ queued (abs b) = []) ∧
  (∀ p, p ∈ queued (abs b) →
        orders_ b !! ident (mem b) p = Some p ∧
        (cancel_order (ident (mem b) p) b).1 = inr true).
Proof.
  intros Hreach Hn.
  destruct (reached_ordered n b Hreach Hn) as ((Hwf & _) & _).
  pose proof (reached_indexed n b Hreach Hn) as Hidx.
  pose proof (indexed_size b Hwf Hidx) as Hsize.
  split; [done|]. split.
  - unfold empty. rewrite bool_decide_eq_true, <- map_size_empty_iff, Hsize.
    apply length_zero_iff_nil.
  - intros p Hp. unfold indexed in Hidx. rewrite Forall_forall in Hidx.
    pose proof (Hidx p Hp) as Hip. split; [done|].
    destruct Hwf as (Hr & HnB & HnS).
    destruct (cancel_order_keeps _ p b _ Hr HnB HnS Hip)
      as (o & b' & Q' & _ & Hrun & _).
    by rewrite Hrun.
Qed.

Lemma index_holds_resting_orders_witness :
  reached 4 two_sided_book ∧ Z.of_nat 4 < 2 ^ 64 ∧
  total_orders two_sided_book = length (queued (abs two_sided_book)) ∧
  (empty two_sided_book = true ↔ queued (abs two_sided_book) = []) ∧
  (∀ p, p ∈ queued (abs two_sided_book) →
        orders_ two_sided_book !! ident (mem two_sided_book) p = Some p ∧
        (cancel_order (ident (mem two_sided_book) p) two_sided_book).1
          = inr true).
Proof.
  assert (Hreach : reached 4 two_sided_book).
  { unfold two_sided_book, ask_book. repeat (apply reached_add; [|lia]).
    apply reached_make. lia. }
  assert (Hn : Z.of_nat 4 < 2 ^ 64) by reflexivity.
  split; [exact Hreach|]. split; [exact Hn|].
  apply (index_holds_resting_orders 4 two_sided_book Hreach Hn).
Defined.

(** X12: in a book reached by the public operations, every slot of the
    pool is free or holds a resting order: the free slots and the resting
    orders add up to the capacity, and the size of the pool is the number of
    resting orders. *)
Theorem pool_holds_resting_orders (b : t) :
  reachable b →
  OrderPool.available (pool_ b) + Z.of_nat (length (queued (abs b)))
    = OrderPool.capacity (pool_ b) ∧
  OrderPool.size (pool_ b) = Z.of_nat (length (queued (abs b))).
Proof.
  intros Hreach. pose proof (reachable_balanced b Hreach) as Hbal.
  destruct (reachable_wf b Hreach) as (((_ & _ & _ & _ & _ & Hsz) & _) & _).
  unfold balanced in Hbal.
  unfold OrderPool.available, OrderPool.capacity, OrderPool.size.
  split; [done|]. lia.
Qed.

Lemma pool_holds_resting_orders_witness :
  reachable two_sided_book ∧
  OrderPool.available (pool_ two_sided_book)
    + Z.of_nat (length (queued (abs two_sided_book)))
    = OrderPool.capacity (pool_ two_sided_book) ∧
  OrderPool.size (pool_ two_sided_book)
    = Z.of_nat (length (queued (abs two_sided_book))).
Proof.
  assert (Hreach : reachable two_sided_book).
  { unfold two_sided_book, ask_book. repeat (apply reach_add; [|lia]).
    apply reach_make. lia. }
  split; [exact Hreach|].
  apply (pool_holds_resting_orders two_sided_book Hreach).
Defined.

(** * Submission: what the trades account for *)

Lemma wf_NoDup b : wf b → NoDup (queued (abs b)).
Proof.
  intros ((_ & _ & _ & Hnd & _) & _). simpl in Hnd.
  by apply NoDup_app in Hnd as (Hnd & _).
Qed.

(** X13: a submission conserves quantity.  The filled quantity of the
    result is the sum of the quantities of its trades, filled and remaining
    add up to the submitted quantity, the status is [Filled] exactly when
    nothing remains, and the statistics of the book advance by the number of
    trades and by the filled quantity (modulo [2 ^ 64]). *)
Theorem add_order_conserves_quantity (side : Side) (type : OrderType)
    (price quantity : Z) (b : t) :
  wf b → 0 < OrderPool.available (pool_ b) → 0 ≤ quantity < 2 ^ 64 →
  ∃ r b',
    add_order side type price quantity b = (inr r, b') ∧
    OrderResult.filled_quantity r = volume (OrderResult.trades r) ∧
    OrderResult.filled_quantity r + OrderResult.remaining_quantity r
      = quantity ∧
    0 ≤ OrderResult.filled_quantity r ≤ quantity ∧
    (OrderResult.status r = Filled ↔ OrderResult.remaining_quantity r = 0) ∧
    (0 ≤ total_trades b < 2 ^ 64 →
     total_trades b' =
       wrap64 (total_trades b + Z.of_nat (length (OrderResult.trades r)))) ∧
    (0 ≤ total_volume b < 2 ^ 64 →
     total_volume b' =
       wrap64 (total_volume b + OrderResult.filled_quantity r)).
Proof.
  intros (Hr & HnB & HnS) Hfc Hq.
  destruct (add_order_full side type price quantity b _ Hr HnB HnS Hfc Hq)
    as (a & f & r & b' & Q' & ps & rs & Htop & Hrun & Hr' & HnB' & HnS' & Hf
        & Hoid & Hfq & Hrem & Hstat & Hps & Htr & Hsh & Hown & Hst & Hsta
        & Hnid & Hts & Hqty & Hrs & Hpre & Hlen & Hvol & Htc & Htv & Hord
        & Hfc' & Hperm & Hend & Hstrip & Hopen & Hcap & Hwi & Hpart).
  exists r, b'. rewrite Hfq, Hrem. unfold total_trades, total_volume.
  split_and!; try done; try lia.
  rewrite Hstat. destruct (Z.leb_spec quantity f).
  - split; [lia|done].
  - split; [by destruct type, (0 <? f)|lia].
Qed.

Lemma add_order_conserves_quantity_witness :
  wf ask_book ∧ 0 < OrderPool.available (pool_ ask_book) ∧
  0 ≤ 90 < 2 ^ 64 ∧
  ∃ r b',
    add_order Buy Limit 10200 90 ask_book = (inr r, b') ∧
    OrderResult.filled_quantity r = volume (OrderResult.trades r) ∧
    OrderResult.filled_quantity r + OrderResult.remaining_quantity r = 90 ∧
    0 ≤ OrderResult.filled_quantity r ≤ 90 ∧
    (OrderResult.status r = Filled ↔ OrderResult.remaining_quantity r = 0) ∧
    (0 ≤ total_trades ask_book < 2 ^ 64 →
     total_trades b' =
       wrap64 (total_trades ask_book
               + Z.of_nat (length (OrderResult.trades r)))) ∧
    (0 ≤ total_volume ask_book < 2 ^ 64 →
     total_volume b' =
       wrap64 (total_volume ask_book + OrderResult.filled_quantity r)).
Proof.
  assert (Hwf : wf ask_book) by evaluate.
  assert (Hq : 0 ≤ 90 < 2 ^ 64) by lia.
  split; [exact Hwf|]. split; [reflexivity|]. split; [exact Hq|].
  apply (add_order_conserves_quantity Buy Limit 10200 90 ask_book Hwf);
    [reflexivity|exact Hq].
Defined.

(** X14: the trades of a submission.  The trades are, one each and in
    order, against pairwise different orders [ps] that rest on the opposite
    side before the call: each trade names its resting order by id on the
    passive side and the submitted order on the other, at the price of the
    resting order, for a positive quantity that is at most what the resting
    order had open, and it carries the timestamp issued to the submitted
    order.  Every trade but the last fills its resting order completely,
    and that order is no longer queued afterwards. *)
Theorem add_order_trades_fill_resting_orders (side : Side)
    (type : OrderType) (price quantity : Z) (b : t) :
  wf b → 0 < OrderPool.available (pool_ b) → 0 ≤ quantity < 2 ^ 64 →
  let submitted := new_order (wrap64 (next_id_ b + 1)) price quantity side type
                     (wrap64 (timestamp_counter_ b + 1)) in
  ∃ r b' ps,
    add_order side type price quantity b = (inr r, b') ∧
    NoDup ps ∧
    Forall2 (λ p tr,
        p ∈ slots (abs b (opp side)) ∧
        traded (mem b) submitted p tr ∧
        0 < Trade.quantity tr ≤ open_quantity (mem b) p ∧
        Trade.timestamp tr = wrap64 (timestamp_counter_ b + 1))
      ps (OrderResult.trades r) ∧
    (∀ i p tr,
       ps !! i = Some p → OrderResult.trades r !! i = Some tr →
       (S i < length ps)%nat →
       Trade.quantity tr = open_quantity (mem b) p ∧
       p ∉ queued (abs b')).
Proof.
  intros Hwf Hfc Hq submitted. pose proof (wf_NoDup b Hwf) as Hnd.
  pose proof Hwf as (Hr & HnB & HnS).
  destruct (add_order_full side type price quantity b _ Hr HnB HnS Hfc Hq)
    as (a & f & r & b' & Q' & ps & rs & Htop & Hrun & Hr' & HnB' & HnS' & Hf
        & Hoid & Hfq & Hrem & Hstat & Hps & Htr & Hsh & Hown & Hst & Hsta
        & Hnid & Hts & Hqty & Hrs & Hpre & Hlen & Hvol & Htc & Htv & Hord
        & Hfc' & Hperm & Hend & Hstrip & Hopen & Hcap & Hwi & Hpart).
  pose proof (top_not_queued _ _ _ _ Hr Hfc Htop) as Haq.
  assert (Hin : ∀ x, x ∈ ps → x ∈ slots (abs b (opp side))).
  { intros x Hx. apply (elem_of_best_first (opp side)).
    by eapply elem_of_prefix. }
  assert (Hndps : NoDup ps).
  { assert (NoDup (slots (best_first (opp side) (abs b (opp side)))))
      as Hbf; [|destruct Hps as [k Hk]; rewrite Hk in Hbf;
                by apply NoDup_app in Hbf as (? & _)].
    destruct (opp side); simpl.
    - unfold slots. rewrite fmap_reverse.
      apply (NoDup_Permutation_proper _ (slots (abs b Buy))).
      + unfold slots. clear. induction (abs b Buy).*2 as [|x l IH]; [done|].
        rewrite reverse_cons, join_app. simpl. rewrite app_nil_r, IH.
        apply Permutation_app_comm.
      + by apply NoDup_app in Hnd as (? & _).
    - by apply NoDup_app in Hnd as (_ & _ & ?). }
  assert (Hnd' : NoDup (rs ++ queued Q')).
  { destruct (rests type quantity f); rewrite <- Hperm; [|done].
    by apply NoDup_cons. }
  exists r, b', ps. split_and!; [done|done| |].
  - assert (Hboth : Forall2 (λ p tr,
        traded (mem b) submitted p tr ∧
        0 < Trade.quantity tr ≤ open_quantity (mem b) p ∧
        Trade.timestamp tr = wrap64 (timestamp_counter_ b + 1))
      ps (OrderResult.trades r)).
    { clear -Htr Hqty. induction Htr as [|p tr ps' ts' Hptr _ IH];
        [constructor|].
      apply Forall2_cons in Hqty as [[? ?] Hqty'].
      constructor; [done|by apply IH]. }
    eapply Forall2_impl_strong; [exact Hboth|]. intros p tr Hp (? & ? & ?).
    split; [by apply Hin|done].
  - intros i p tr Hi Htri Hlt.
    assert (Hirs : rs !! i = Some p).
    { destruct Hpre as [k ->]. rewrite lookup_app_l in Hi; [done|].
      rewrite length_app in Hlen, Hlt. lia. }
    split.
    + assert (Htk : take (length rs) (OrderResult.trades r) !! i = Some tr).
      { rewrite lookup_take_lt; [done|]. by eapply lookup_lt_Some. }
      exact (Forall2_lookup_lr _ _ _ _ _ _ Hrs Hirs Htk).
    + rewrite (queued_abs _ _ _ Hr').
      apply NoDup_app in Hnd' as (_ & Hdis & _). apply Hdis.
      by eapply list_elem_of_lookup_2.
Qed.

Lemma add_order_trades_fill_resting_orders_witness :
  wf ask_book ∧ 0 < OrderPool.available (pool_ ask_book) ∧
  0 ≤ 90 < 2 ^ 64 ∧
  ∃ r b' ps,
    add_order Buy Limit 10200 90 ask_book = (inr r, b') ∧
    NoDup ps ∧
    Forall2 (λ p tr,
        p ∈ slots (abs ask_book (opp Buy)) ∧
        traded (mem ask_book)
          (new_order (wrap64 (next_id_ ask_book + 1)) 10200 90 Buy Limit
             (wrap64 (timestamp_counter_ ask_book + 1))) p tr ∧
        0 < Trade.quantity tr ≤ open_quantity (mem ask_book) p ∧
        Trade.timestamp tr = wrap64 (timestamp_counter_ ask_book + 1))
      ps (OrderResult.trades r) ∧
    (∀ i p tr,
       ps !! i = Some p → OrderResult.trades r !! i = Some tr →
       (S i < length ps)%nat →
       Trade.quantity tr = open_quantity (mem ask_book) p ∧
       p ∉ queued (abs b')).
Proof.
  assert (Hwf : wf ask_book) by evaluate.
  assert (Hq : 0 ≤ 90 < 2 ^ 64) by lia.
  split; [exact Hwf|]. split; [reflexivity|]. split; [exact Hq|].
  apply (add_order_trades_fill_resting_orders Buy Limit 10200 90 ask_book
           Hwf); [reflexivity|exact Hq].
Defined.

(** X15: a market order never rests.  Its own side of the book is as
    before, the result is [Filled] or [Cancelled], and it is [Cancelled]
    only when the order took the whole opposite side and something of it
    remains. *)
Theorem market_order_never_rests (side : Side) (price quantity : Z) (b : t) :
  wf b → 0 < OrderPool.available (pool_ b) → 0 ≤ quantity < 2 ^ 64 →
  ∃ r b',
    add_order side Market price quantity b = (inr r, b') ∧
    wf b' ∧ abs b' side = abs b side ∧
    (OrderResult.status r = Filled ∨ OrderResult.status r = Cancelled) ∧
    (OrderResult.status r = Cancelled →
     0 < OrderResult.remaining_quantity r ∧ abs b' (opp side) = []).
Proof.
  intros (Hr & HnB & HnS) Hfc Hq.
  destruct (add_order_full side Market price quantity b _ Hr HnB HnS Hfc Hq)
    as (a & f & r & b' & Q' & ps & rs & Htop & Hrun & Hr' & HnB' & HnS' & Hf
        & Hoid & Hfq & Hrem & Hstat & Hps & Htr & Hsh & Hown & Hst & Hsta
        & Hnid & Hts & Hqty & Hrs & Hpre & Hlen & Hvol & Htc & Htv & Hord
        & Hfc' & Hperm & Hend & Hstrip & Hopen & Hcap & Hwi & Hpart).
  exists r, b'. rewrite Hstat, Hrem, !(repr_abs _ _ _ _ Hr'), Hown.
  split_and!; [done|apply wf_repr; by exists Q'| | |].
  - by destruct (quantity <=? f).
  - destruct (quantity <=? f); [by left|by right].
  - destruct (Z.leb_spec quantity f); [done|]. intros _. split; [lia|].
    destruct Hend as [->|Hend]; [lia|].
    unfold out_of_reach in Hend. simpl in Hend.
    destruct side; simpl in *.
    + destruct (Q' Sell) as [|[k q] m]; [done|]. simpl in Hend. by destruct Hend.
    + destruct (Q' Buy) as [|[k q] m _] using rev_ind; [done|].
      unfold PriceMap.rbegin in Hend. rewrite last_snoc in Hend.
      simpl in Hend. by destruct Hend.
Qed.

Lemma market_order_never_rests_witness :
  wf ask_book ∧ 0 < OrderPool.available (pool_ ask_book) ∧
  0 ≤ 500 < 2 ^ 64 ∧
  ∃ r b',
    add_order Buy Market 0 500 ask_book = (inr r, b') ∧
    wf b' ∧ abs b' Buy = abs ask_book Buy ∧
    (OrderResult.status r = Filled ∨ OrderResult.status r = Cancelled) ∧
    (OrderResult.status r = Cancelled →
     0 < OrderResult.remaining_quantity r ∧ abs b' (opp Buy) = []).
Proof.
  assert (Hwf : wf ask_book) by evaluate.
  assert (Hq : 0 ≤ 500 < 2 ^ 64) by lia.
  split; [exact Hwf|]. split; [reflexivity|]. split; [exact Hq|].
  apply (market_order_never_rests Buy 0 500 ask_book Hwf);
    [reflexivity|exact Hq].
Defined.

(** X16: a limit order that is not filled rests.  It is queued last at the
    level of its price on its own side, with the remaining quantity of the
    result open, it is indexed under the id of the result, and no level of
    the opposite side is left within its price. *)
Theorem unfilled_limit_order_rests (side : Side) (price quantity : Z)
    (b : t) :
  wf b → 0 < OrderPool.available (pool_ b) → 0 ≤ quantity < 2 ^ 64 →
  ∃ r b' a,
    add_order side Limit price quantity b = (inr r, b') ∧ wf b' ∧
    (OrderResult.status r ≠ Filled →
     (OrderResult.status r = Active ∧ OrderResult.filled_quantity r = 0 ∨
      OrderResult.status r = PartiallyFilled ∧
      0 < OrderResult.filled_quantity r) ∧
     0 < OrderResult.remaining_quantity r ∧
     open_quantity (mem b') a = OrderResult.remaining_quantity r ∧
     orders_ b' !! OrderResult.order_id r = Some a ∧
     PriceMap.find price (abs b' side)
       = Some (default [] (PriceMap.find price (abs b side)) ++ [a]) ∧
     no_cross side price b').
Proof.
  intros (Hr & HnB & HnS) Hfc Hq.
  destruct (add_order_full side Limit price quantity b _ Hr HnB HnS Hfc Hq)
    as (a & f & r & b' & Q' & ps & rs & Htop & Hrun & Hr' & HnB' & HnS' & Hf
        & Hoid & Hfq & Hrem & Hstat & Hps & Htr & Hsh & Hown & Hst & Hsta
        & Hnid & Hts & Hqty & Hrs & Hpre & Hlen & Hvol & Htc & Htv & Hord
        & Hfc' & Hperm & Hend & Hstrip & Hopen & Hcap & Hwi & Hpart).
  exists r, b', a. split; [done|]. split; [apply wf_repr; by exists Q'|].
  rewrite Hstat, Hfq, Hrem, Hoid, (repr_abs _ _ _ _ Hr'), Hown.
  unfold rests in Hord.
  destruct (Z.leb_spec quantity f) as [|Hlt]; [done|]. intros _.
  split_and!.
  - destruct (Z.ltb_spec 0 f); [right|left]; split; (done || lia).
  - lia.
  - done.
  - rewrite Hord. by rewrite bool_decide_true.
  - rewrite find_set, decide_True by done.
    rewrite find_try_emplace by by eapply repr_sorted.
    by rewrite decide_True.
  - destruct Hend as [->|Hend]; [lia|].
    unfold out_of_reach in Hend. unfold no_cross.
    destruct side; simpl in *.
    + change (asks_ b') with (levels Sell b').
      rewrite (begin_keys _ _ (repr_keys _ _ _ Sell Hr')).
      destruct (PriceMap.begin (Q' Sell)); [by destruct Hend|done].
    + change (bids_ b') with (levels Buy b').
      rewrite (rbegin_keys _ _ (repr_keys _ _ _ Buy Hr')).
      destruct (PriceMap.rbegin (Q' Buy)); [by destruct Hend|done].
Qed.

Lemma unfilled_limit_order_rests_witness :
  wf ask_book ∧ 0 < OrderPool.available (pool_ ask_book) ∧
  0 ≤ 90 < 2 ^ 64 ∧
  ∃ r b' a,
    add_order Buy Limit 10100 90 ask_book = (inr r, b') ∧ wf b' ∧
    (OrderResult.status r ≠ Filled →
     (OrderResult.status r = Active ∧ OrderResult.filled_quantity r = 0 ∨
      OrderResult.status r = PartiallyFilled ∧
      0 < OrderResult.filled_quantity r) ∧
     0 < OrderResult.remaining_quantity r ∧
     open_quantity (mem b') a = OrderResult.remaining_quantity r ∧
     orders_ b' !! OrderResult.order_id r = Some a ∧
     PriceMap.find 10100 (abs b' Buy)
       = Some (default [] (PriceMap.find 10100 (abs ask_book Buy)) ++ [a]) ∧
     no_cross Buy 10100 b').
Proof.
  assert (Hwf : wf ask_book) by evaluate.
  assert (Hq : 0 ≤ 90 < 2 ^ 64) by lia.
  split; [exact Hwf|]. split; [reflexivity|]. split; [exact Hq|].
  apply (unfilled_limit_order_rests Buy 10100 90 ask_book Hwf);
    [reflexivity|exact Hq].
Defined.

(** X17: a submission leaves the other orders alone.  A resting order that
    is in none of the trades stays queued, and its record is as before up to
    the links of its queue. *)
Theorem add_order_leaves_other_orders (side : Side) (type : OrderType)
    (price quantity : Z) (b : t) :
  wf b → 0 < OrderPool.available (pool_ b) → 0 ≤ quantity < 2 ^ 64 →
  let submitted := new_order (wrap64 (next_id_ b + 1)) price quantity side type
                     (wrap64 (timestamp_counter_ b + 1)) in
  ∃ r b' ps,
    add_order side type price quantity b = (inr r, b') ∧
    Forall2 (traded (mem b) submitted) ps (OrderResult.trades r) ∧
    (∀ x, x ∈ queued (abs b) → x ∉ ps →
          x ∈ queued (abs b') ∧
          strip <$> mem b' !! x = strip <$> mem b !! x).
Proof.
  intros (Hr & HnB & HnS) Hfc Hq submitted.
  destruct (add_order_full side type price quantity b _ Hr HnB HnS Hfc Hq)
    as (a & f & r & b' & Q' & ps & rs & Htop & Hrun & Hr' & HnB' & HnS' & Hf
        & Hoid & Hfq & Hrem & Hstat & Hps & Htr & Hsh & Hown & Hst & Hsta
        & Hnid & Hts & Hqty & Hrs & Hpre & Hlen & Hvol & Htc & Htv & Hord
        & Hfc' & Hperm & Hend & Hstrip & Hopen & Hcap & Hwi & Hpart).
  pose proof (top_not_queued _ _ _ _ Hr Hfc Htop) as Haq.
  exists r, b', ps. split; [done|]. split; [done|].
  intros x Hx Hxps.
  assert (Hxa : x ≠ a) by (by intros ->).
  split; [|by apply Hstrip].
  rewrite (queued_abs _ _ _ Hr').
  assert (Hin : x ∈ rs ++ queued Q').
  { destruct (rests type quantity f); rewrite <- Hperm; [by right|done]. }
  apply elem_of_app in Hin as [Hin|Hin]; [|done].
  destruct Hxps. by eapply elem_of_prefix.
Qed.

Lemma add_order_leaves_other_orders_witness :
  wf ask_book ∧ 0 < OrderPool.available (pool_ ask_book) ∧
  0 ≤ 60 < 2 ^ 64 ∧
  ∃ r b' ps,
    add_order Buy Limit 10200 60 ask_book = (inr r, b') ∧
    Forall2 (traded (mem ask_book)
               (new_order (wrap64 (next_id_ ask_book + 1)) 10200 60 Buy Limit
                  (wrap64 (timestamp_counter_ ask_book + 1))))
      ps (OrderResult.trades r) ∧
    (∀ x, x ∈ queued (abs ask_book) → x ∉ ps →
          x ∈ queued (abs b') ∧
          strip <$> mem b' !! x = strip <$> mem ask_book !! x).
Proof.
  assert (Hwf : wf ask_book) by evaluate.
  assert (Hq : 0 ≤ 60 < 2 ^ 64) by lia.
  split; [exact Hwf|]. split; [reflexivity|]. split; [exact Hq|].
  apply (add_order_leaves_other_orders Buy Limit 10200 60 ask_book Hwf);
    [reflexivity|exact Hq].
Defined.

(** ** Limit prices *)

Lemma Forall2_Forall_r {A B} (R : A → B → Prop) (P : A → Prop)
    (P' : B → Prop) l k :
  Forall2 R l k → Forall P l → (∀ x y, R x y → P x → P' y) → Forall P' k.
Proof.
  intros HF. induction HF as [|x y l k Hxy _ IH]; intros HP Himp;
    [constructor|].
  apply Forall_cons in HP as [Hx HP]. constructor; [by eapply Himp|].
  by apply IH.
Qed.

(** X18: a limit order never trades through its price: every trade of a
    buy limit order is at its price or lower, and every trade of a sell
    limit order is at its price or higher. *)
Theorem limit_order_trades_within_price (side : Side) (price quantity : Z)
    (b : t) :
  wf b → 0 < OrderPool.available (pool_ b) → 0 ≤ quantity < 2 ^ 64 →
  ∃ r b',
    add_order side Limit price quantity b = (inr r, b') ∧
    Forall (λ tr, match side with
                  | Buy => Trade.price tr ≤ price
                  | Sell => price ≤ Trade.price tr
                  end) (OrderResult.trades r).
Proof.
  intros (Hr & HnB & HnS) Hfc Hq.
  destruct (add_order_full side Limit price quantity b _ Hr HnB HnS Hfc Hq)
    as (a & f & r & b' & Q' & ps & rs & Htop & Hrun & Hr' & HnB' & HnS' & Hf
        & Hoid & Hfq & Hrem & Hstat & Hps & Htr & Hsh & Hown & Hst & Hsta
        & Hnid & Hts & Hqty & Hrs & Hpre & Hlen & Hvol & Htc & Htv & Hord
        & Hfc' & Hperm & Hend & Hstrip & Hopen & Hcap & Hwi & Hpart).
  exists r, b'. split; [done|].
  eapply Forall2_Forall_r; [exact Htr|exact Hwi|].
  intros p tr Hpt Hw. unfold traded in Hpt. unfold within, price_at in Hw.
  simpl in Hw. destruct (mem b !! p) as [op|]; [|done].
  destruct Hpt as [-> _]. by apply Hw.
Qed.

Lemma limit_order_trades_within_price_witness :
  wf ask_book ∧ 0 < OrderPool.available (pool_ ask_book) ∧
  0 ≤ 90 < 2 ^ 64 ∧
  ∃ r b',
    add_order Buy Limit 10100 90 ask_book = (inr r, b') ∧
    Forall (λ tr, match Buy with
                  | Buy => Trade.price tr ≤ 10100
                  | Sell => 10100 ≤ Trade.price tr
                  end) (OrderResult.trades r).
Proof.
  assert (Hwf : wf ask_book) by evaluate.
  assert (Hq : 0 ≤ 90 < 2 ^ 64) by lia.
  split; [exact Hwf|]. split; [reflexivity|]. split; [exact Hq|].
  apply (limit_order_trades_within_price Buy 10100 90 ask_book Hwf);
    [reflexivity|exact Hq].
Defined.

(** ** The level of a resting order *)

(** What the two queries at a price report, in terms of the queue. *)
Lemma level_queries fl b Q s k :
  repr fl b Q →
  let q := default [] (PriceMap.find k (Q s)) in
  volume_at_price s k b = (inr (wrap64 (sum_open (mem b) q)), b) ∧
  order_count_at_price s k b = (inr (wrap32 (Z.of_nat (length q))), b).
Proof.
  intros Hr q. unfold volume_at_price, order_count_at_price.
  erewrite !bind_ok by reflexivity.
  destruct (PriceMap.find k (Q s)) as [q'|] eqn:Hf.
  - destruct (repr_find_level _ _ _ _ _ _ Hr Hf) as (l & -> & Hlev).
    destruct Hlev as (_ & _ & Hc & Ht & _). simpl in *.
    by rewrite Hc, Ht.
  - rewrite (find_keys_None (levels s b) (Q s) k); [done| |done].
    by eapply repr_keys.
Qed.

(** X19: what a submitted limit order adds to the level of its price.  If
    the order is filled, [volume_at_price] and [order_count_at_price] at its
    price on its own side are as before; if it rests, the volume goes up by
    its remaining quantity and the count by one (modulo [2 ^ 64] and
    [2 ^ 32]). *)
Theorem resting_order_adds_to_its_level (side : Side) (price quantity : Z)
    (b : t) :
  wf b → 0 < OrderPool.available (pool_ b) → 0 ≤ quantity < 2 ^ 64 →
  ∃ r b' v c,
    add_order side Limit price quantity b = (inr r, b') ∧
    volume_at_price side price b = (inr v, b) ∧
    order_count_at_price side price b = (inr c, b) ∧
    volume_at_price side price b' =
      (inr (if decide (OrderResult.status r = Filled) then v
            else wrap64 (v + OrderResult.remaining_quantity r)), b') ∧
    order_count_at_price side price b' =
      (inr (if decide (OrderResult.status r = Filled) then c
            else wrap32 (c + 1)), b').
Proof.
  intros Hwf Hfc Hq. pose proof (wf_NoDup b Hwf) as Hnd.
  pose proof Hwf as (Hr & HnB & HnS).
  destruct (add_order_full side Limit price quantity b _ Hr HnB HnS Hfc Hq)
    as (a & f & r & b' & Q' & ps & rs & Htop & Hrun & Hr' & HnB' & HnS' & Hf
        & Hoid & Hfq & Hrem & Hstat & Hps & Htr & Hsh & Hown & Hst & Hsta
        & Hnid & Hts & Hqty & Hrs & Hpre & Hlen & Hvol & Htc & Htv & Hord
        & Hfc' & Hperm & Hend & Hstrip & Hopen & Hcap & Hwi & Hpart).
  pose proof (top_not_queued _ _ _ _ Hr Hfc Htop) as Haq.
  set (q := default [] (PriceMap.find price (abs b side))) in *.
  destruct (level_queries _ b _ side price Hr) as [Hv Hc]. fold q in Hv, Hc.
  destruct (level_queries _ b' _ side price Hr') as [Hv' Hc'].
  assert (Hq0 : ∀ x, x ∈ q → x ∈ slots (abs b side)).
  { intros x Hx. subst q.
    destruct (PriceMap.find price (abs b side)) as [q'|] eqn:Hfq';
      [|by apply elem_of_nil in Hx].
    by eapply find_elem_of_slots. }
  assert (Hsum : sum_open (mem b') q = sum_open (mem b) q).
  { apply sum_open_strip. intros x Hx. apply Hstrip.
    - intros ->. apply Haq. apply elem_of_queued. exists side. by apply Hq0.
    - intros Hxps.
      assert (Hxo : x ∈ slots (abs b (opp side))).
      { apply (elem_of_best_first (opp side)). by eapply elem_of_prefix. }
      pose proof (Hq0 x Hx) as Hxs. unfold queued in Hnd.
      apply NoDup_app in Hnd as (_ & Hdis & _).
      destruct side; simpl in *; by eapply Hdis. }
  exists r, b', (wrap64 (sum_open (mem b) q)),
    (wrap32 (Z.of_nat (length q))).
  split; [done|]. split; [done|]. split; [done|].
  rewrite Hv', Hc', Hown, Hstat, Hrem.
  destruct (Z.leb_spec quantity f) as [|Hlt].
  - rewrite decide_True by done. fold q. by rewrite Hsum.
  - rewrite decide_False by by destruct (0 <? f).
    rewrite find_set, decide_True by done.
    rewrite find_try_emplace by by eapply repr_sorted.
    rewrite decide_True by done. simpl. fold q.
    rewrite sum_open_app, Hsum, length_app. simpl.
    rewrite Hopen, Z.add_0_r, wrap64_add_l, wrap32_add_l.
    repeat case_decide; try (by destruct (0 <? f)).
    split; do 3 f_equal; lia.
Qed.

Lemma resting_order_adds_to_its_level_witness :
  wf ask_book ∧ 0 < OrderPool.available (pool_ ask_book) ∧
  0 ≤ 40 < 2 ^ 64 ∧
  ∃ r b' v c,
    add_order Sell Limit 10100 40 ask_book = (inr r, b') ∧
    volume_at_price Sell 10100 ask_book = (inr v, ask_book) ∧
    order_count_at_price Sell 10100 ask_book = (inr c, ask_book) ∧
    volume_at_price Sell 10100 b' =
      (inr (if decide (OrderResult.status r = Filled) then v
            else wrap64 (v + OrderResult.remaining_quantity r)), b') ∧
    order_count_at_price Sell 10100 b' =
      (inr (if decide (OrderResult.status r = Filled) then c
            else wrap32 (c + 1)), b').
Proof.
  assert (Hwf : wf ask_book) by evaluate.
  assert (Hq : 0 ≤ 40 < 2 ^ 64) by lia.
  split; [exact Hwf|]. split; [reflexivity|]. split; [exact Hq|].
  apply (resting_order_adds_to_its_level Sell 10100 40 ask_book Hwf);
    [reflexivity|exact Hq].
Defined.

(** ** The resting order of the last trade *)

Lemma last_in_prefix {A} (rs ps : list A) x :
  NoDup ps → rs `prefix_of` ps → last ps = Some x → x ∈ rs → rs = ps.
Proof.
  intros Hnd [k ->] Hl Hx. destruct k as [|y k _] using rev_ind.
  - by rewrite app_nil_r.
  - rewrite (assoc (++)), last_snoc in Hl. injection Hl as ->.
    apply NoDup_app in Hnd as (_ & Hdis & _). destruct (Hdis x Hx).
    apply elem_of_app. right. by left.
Qed.

Lemma Forall2_last {A B} (R : A → B → Prop) l k x y :
  Forall2 R l k → last l = Some x → last k = Some y → R x y.
Proof.
  intros HF [l' ->]%last_Some [k' ->]%last_Some.
  apply Forall2_app_inv in HF as [_ HF].
  - by apply Forall2_cons_1 in HF as [? _].
  - apply Forall2_length in HF. rewrite !length_app in HF. simpl in HF. lia.
Qed.

(** X20: a resting order that the last trade fills only in part keeps its
    place.  It stays queued, its open quantity goes down by the quantity of
    the trade, and the rest of its record, including its status, is as
    before: a resting order that is filled in part does not become
    [PartiallyFilled]. *)
Theorem partial_fill_keeps_the_resting_order (side : Side)
    (type : OrderType) (price quantity : Z) (b : t) :
  wf b → 0 < OrderPool.available (pool_ b) → 0 ≤ quantity < 2 ^ 64 →
  let submitted := new_order (wrap64 (next_id_ b + 1)) price quantity side type
                     (wrap64 (timestamp_counter_ b + 1)) in
  ∃ r b' ps,
    add_order side type price quantity b = (inr r, b') ∧
    Forall2 (traded (mem b) submitted) ps (OrderResult.trades r) ∧
    (∀ p tr,
       last ps = Some p → last (OrderResult.trades r) = Some tr →
       Trade.quantity tr < open_quantity (mem b) p →
       p ∈ queued (abs b') ∧
       open_quantity (mem b') p
         = open_quantity (mem b) p - Trade.quantity tr ∧
       strip <$> mem b' !! p
         = strip <$> (fill (Trade.quantity tr) <$> mem b !! p) ∧
       Order.status <$> mem b' !! p = Order.status <$> mem b !! p).
Proof.
  intros Hwf Hfc Hq submitted. pose proof (wf_NoDup b Hwf) as Hnd.
  pose proof Hwf as (Hr & HnB & HnS).
  destruct (add_order_full side type price quantity b _ Hr HnB HnS Hfc Hq)
    as (a & f & r & b' & Q' & ps & rs & Htop & Hrun & Hr' & HnB' & HnS' & Hf
        & Hoid & Hfq & Hrem & Hstat & Hps & Htr & Hsh & Hown & Hst & Hsta
        & Hnid & Hts & Hqty & Hrs & Hpre & Hlen & Hvol & Htc & Htv & Hord
        & Hfc' & Hperm & Hend & Hstrip & Hopen & Hcap & Hwi & Hpart).
  exists r, b', ps. split; [done|]. split; [done|].
  intros p tr Hlp Hlt Hlt'.
  assert (Hpps : p ∈ ps).
  { apply last_Some in Hlp as [l' ->]. apply elem_of_app. right. by left. }
  assert (Hpq : p ∈ queued (abs b)).
  { apply elem_of_queued. exists (opp side).
    apply (elem_of_best_first (opp side)). by eapply elem_of_prefix. }
  assert (Hndps : NoDup ps).
  { assert (NoDup (slots (best_first (opp side) (abs b (opp side)))))
      as Hbf; [|destruct Hps as [k Hk]; rewrite Hk in Hbf;
                by apply NoDup_app in Hbf as (? & _)].
    destruct (opp side); simpl.
    - unfold slots. rewrite fmap_reverse.
      apply (NoDup_Permutation_proper _ (slots (abs b Buy))).
      + unfold slots. clear. induction (abs b Buy).*2 as [|x l IH]; [done|].
        rewrite reverse_cons, join_app. simpl. rewrite app_nil_r, IH.
        apply Permutation_app_comm.
      + by apply NoDup_app in Hnd as (? & _).
    - by apply NoDup_app in Hnd as (_ & _ & ?). }
  assert (Hprs : p ∉ rs).
  { intros Hin.
    pose proof (last_in_prefix rs ps p Hndps Hpre Hlp Hin) as ->.
    rewrite take_ge in Hrs
      by (apply Forall2_length in Hqty; lia).
    pose proof (Forall2_last _ _ _ _ _ Hrs Hlp Hlt) as Heq. simpl in Heq.
    lia. }
  destruct (Hpart p Hpps Hprs) as (tr' & Hl' & _ & Heq).
  rewrite Hlt in Hl'. injection Hl' as <-.
  pose proof (Forall2_last _ _ _ _ _ Htr Hlp Hlt) as Htd.
  unfold traded in Htd. destruct (mem b !! p) as [op|] eqn:Hp; [|done].
  simpl in Heq. destruct (mem b' !! p) as [op'|] eqn:Hp'; [|done].
  assert (Heq' : strip op' = strip (fill (Trade.quantity tr) op))
    by (simpl in Heq; by apply (inj Some) in Heq).
  clear Heq. split_and!.
  - rewrite (queued_abs _ _ _ Hr').
    assert (Hin : p ∈ rs ++ queued Q').
    { destruct (rests type quantity f); rewrite <- Hperm; [by right|done]. }
    by apply elem_of_app in Hin as [Hin|Hin].
  - unfold open_quantity. rewrite Hp, Hp'.
    destruct op, op'. unfold strip, fill in Heq'. simpl in *.
    simplify_eq. lia.
  - simpl. by rewrite Heq'.
  - simpl. f_equal. destruct op, op'. unfold strip, fill in Heq'.
    simpl in *. by simplify_eq.
Qed.

Lemma partial_fill_keeps_the_resting_order_witness :
  wf ask_book ∧ 0 < OrderPool.available (pool_ ask_book) ∧
  0 ≤ 60 < 2 ^ 64 ∧
  ∃ r b' ps,
    add_order Buy Limit 10200 60 ask_book = (inr r, b') ∧
    Forall2 (traded (mem ask_book)
               (new_order (wrap64 (next_id_ ask_book + 1)) 10200 60 Buy Limit
                  (wrap64 (timestamp_counter_ ask_book + 1))))
      ps (OrderResult.trades r) ∧
    (∀ p tr,
       last ps = Some p → last (OrderResult.trades r) = Some tr →
       Trade.quantity tr < open_quantity (mem ask_book) p →
       p ∈ queued (abs b') ∧
       open_quantity (mem b') p
         = open_quantity (mem ask_book) p - Trade.quantity tr ∧
       strip <$> mem b' !! p
         = strip <$> (fill (Trade.quantity tr) <$> mem ask_book !! p) ∧
       Order.status <$> mem b' !! p = Order.status <$> mem ask_book !! p).
Proof.
  assert (Hwf : wf ask_book) by evaluate.
  assert (Hq : 0 ≤ 60 < 2 ^ 64) by lia.
  split; [exact Hwf|]. split; [reflexivity|]. split; [exact Hq|].
  apply (partial_fill_keeps_the_resting_order Buy Limit 10200 60 ask_book
           Hwf); [reflexivity|exact Hq].
Defined.

(** * Cancellation and modification *)

(** X21: [cancel_order] on the id of an indexed order returns [true] and
    takes exactly this order out of the book: it leaves the queue of its
    level (the level goes when the order was alone in it), its index entry
    is erased, its slot goes back to the pool with status [Cancelled], and
    every other order, the counters and the statistics are as before.  A
    second [cancel_order] with the same id returns [false] and changes
    nothing. *)
Theorem cancel_order_removes_the_order (oid : Z) (p : nat) (b : t) :
  wf b → orders_ b !! oid = Some p →
  ∃ o q1 q2 b',
    let s := Order.side o in
    let k := Order.price o in
    mem b !! p = Some o ∧ Order.id o = oid ∧
    PriceMap.find k (abs b s) = Some (q1 ++ p :: q2) ∧
    cancel_order oid b = (inr true, b') ∧ wf b' ∧
    abs b' (opp s) = abs b (opp s) ∧
    abs b' s = (if decide (q1 ++ q2 = []) then PriceMap.erase k (abs b s)
                else PriceMap.set k (q1 ++ q2) (abs b s)) ∧
    orders_ b' = delete oid (orders_ b) ∧
    OrderPool.available (pool_ b') = OrderPool.available (pool_ b) + 1 ∧
    Order.status <$> mem b' !! p = Some Cancelled ∧
    (∀ x, x ≠ p → strip <$> mem b' !! x = strip <$> mem b !! x) ∧
    next_id_ b' = next_id_ b ∧
    timestamp_counter_ b' = timestamp_counter_ b ∧
    total_trades b' = total_trades b ∧ total_volume b' = total_volume b ∧
    cancel_order oid b' = (inr false, b').
Proof.
  intros (Hr & HnB & HnS) Hidx.
  destruct (cancel_order_spec oid p b _ Hr HnB HnS Hidx)
    as (o & q1 & q2 & l & l' & st' & b' & Q' & Hp & Hid & Hf & Hrun & Hr'
        & HnB' & HnS' & Hopp & Hown & Hst & Hord & Hnid & Hts & Htc & Htv
        & Hfl & Hlev & Hrem & Hlev' & Hpr & Hls & Hlo & Hmem & Hp' & Hx
        & Hfs & Hfc & Hsz & Hcap).
  simpl in *. exists o, q1, q2, b'. simpl.
  rewrite !(repr_abs _ _ _ _ Hr'), Hopp, Hown.
  split_and!; try done.
  - apply wf_repr. by exists Q'.
  - rewrite Hmem, list_lookup_alter_eq, Hp'. done.
  - intros x Hxp. rewrite Hmem, list_lookup_alter_ne by done.
    rewrite (Hx x Hxp).
    repeat case_decide; destruct (mem b !! x); simpl;
      by rewrite ?strip_set_next, ?strip_set_prev.
  - apply cancel_order_unknown. rewrite Hord. apply lookup_delete_eq.
Qed.

Lemma cancel_order_removes_the_order_witness :
  wf ask_book ∧ orders_ ask_book !! 1 = Some 0%nat ∧
  ∃ o q1 q2 b',
    let s := Order.side o in
    let k := Order.price o in
    mem ask_book !! 0%nat = Some o ∧ Order.id o = 1 ∧
    PriceMap.find k (abs ask_book s) = Some (q1 ++ 0%nat :: q2) ∧
    cancel_order 1 ask_book = (inr true, b') ∧ wf b' ∧
    abs b' (opp s) = abs ask_book (opp s) ∧
    abs b' s =
      (if decide (q1 ++ q2 = []) then PriceMap.erase k (abs ask_book s)
       else PriceMap.set k (q1 ++ q2) (abs ask_book s)) ∧
    orders_ b' = delete 1 (orders_ ask_book) ∧
    OrderPool.available (pool_ b')
      = OrderPool.available (pool_ ask_book) + 1 ∧
    Order.status <$> mem b' !! 0%nat = Some Cancelled ∧
    (∀ x, x ≠ 0%nat → strip <$> mem b' !! x = strip <$> mem ask_book !! x) ∧
    next_id_ b' = next_id_ ask_book ∧
    timestamp_counter_ b' = timestamp_counter_ ask_book ∧
    total_trades b' = total_trades ask_book ∧
    total_volume b' = total_volume ask_book ∧
    cancel_order 1 b' = (inr false, b').
Proof.
  assert (Hwf : wf ask_book) by evaluate.
  assert (Hidx : orders_ ask_book !! 1 = Some 0%nat) by reflexivity.
  split; [exact Hwf|]. split; [exact Hidx|].
  apply (cancel_order_removes_the_order 1 0 ask_book Hwf Hidx).
Defined.

(** X22: [modify_order] with the quantity the order already has changes
    nothing.  In a well-formed book an id of the index leads to an order
    that is not filled (less is filled than its quantity), so the call does
    not take the path of a cancellation: it returns [true] and the book is
    the same, the order keeping its place in its queue. *)
Theorem modify_order_same_quantity_keeps_book (oid : Z) (p : nat) (b : t) :
  wf b → orders_ b !! oid = Some p →
  ∃ o,
    mem b !! p = Some o ∧ Order.id o = oid ∧
    Order.filled_quantity o < Order.quantity o ∧
    modify_order oid (Order.quantity o) b = (inr true, b).
Proof.
  intros (Hr & _) Hidx.
  destruct (modify_order_cases oid p 0 b _ Hr Hidx)
    as (o & Hp & Hid & Hfq & Hq64 & _).
  destruct (modify_order_cases oid p (Order.quantity o) b _ Hr Hidx)
    as (o' & Hp' & _ & _ & _ & Hrun).
  rewrite Hp in Hp'. injection Hp' as <-.
  exists o. split_and!; [done|done|lia|]. rewrite Hrun.
  destruct (Z.leb_spec (Order.quantity o) (Order.filled_quantity o)); [lia|].
  by rewrite !Z.ltb_irrefl.
Qed.

Lemma modify_order_same_quantity_keeps_book_witness :
  wf ask_book ∧ orders_ ask_book !! 1 = Some 0%nat ∧
  ∃ o,
    mem ask_book !! 0%nat = Some o ∧ Order.id o = 1 ∧
    Order.filled_quantity o < Order.quantity o ∧
    modify_order 1 (Order.quantity o) ask_book = (inr true, ask_book).
Proof.
  assert (Hwf : wf ask_book) by evaluate.
  assert (Hidx : orders_ ask_book !! 1 = Some 0%nat) by reflexivity.
  split; [exact Hwf|]. split; [exact Hidx|].
  apply (modify_order_same_quantity_keeps_book 1 0 ask_book Hwf Hidx).
Defined.

(** X23: increasing the quantity of a resting order loses its place.  In a
    book reached by the public operations, [modify_order] with a new
    quantity above the present one is a [cancel_order] followed by an
    [add_order] of a limit order on the same side at the same price: the
    order leaves its queue and a new order is queued last at the same level,
    under the next id and the next timestamp, with the new quantity and
    nothing filled, whatever had been filled before.  No trade takes place,
    and the old id is no longer in the index (it is not the next id, as long
    as the id counter has not wrapped around). *)
Theorem modify_order_increase_requeues (oid new_quantity : Z) (p : nat)
    (o : Order.t) (b : t) :
  reachable b → orders_ b !! oid = Some p → mem b !! p = Some o →
  Order.quantity o < new_quantity < 2 ^ 64 →
  oid ≠ wrap64 (next_id_ b + 1) →
  ∃ q1 q2 b1 a b2,
    let s := Order.side o in
    let k := Order.price o in
    let new_id := wrap64 (next_id_ b + 1) in
    PriceMap.find k (abs b s) = Some (q1 ++ p :: q2) ∧
    cancel_order oid b = (inr true, b1) ∧
    add_order s Limit k new_quantity b1
      = (inr (OrderResult.mk new_id Active 0 new_quantity []), b2) ∧
    modify_order oid new_quantity b = (inr true, b2) ∧
    wf b2 ∧
    PriceMap.find k (abs b2 s) = Some ((q1 ++ q2) ++ [a]) ∧
    abs b2 (opp s) = abs b (opp s) ∧
    strip <$> mem b2 !! a
      = Some (new_order new_id k new_quantity s Limit
                (wrap64 (timestamp_counter_ b + 1))) ∧
    orders_ b2 = <[new_id := a]> (delete oid (orders_ b)) ∧
    orders_ b2 !! oid = None ∧
    total_trades b2 = total_trades b ∧ total_volume b2 = total_volume b.
Proof.
  intros Hreach Hidx Hp Hnq Hoid.
  pose proof (reachable_uncrossed b Hreach) as Hun.
  pose proof (reachable_wf b Hreach) as Hwf.
  pose proof Hwf as (Hr & HnB & HnS).
  destruct (modify_order_cases oid p new_quantity b _ Hr Hidx)
    as (o' & Hp' & Hid' & Hfq & Hq64 & Hmod).
  rewrite Hp in Hp'. injection Hp' as <-.
  destruct (cancel_order_spec oid p b _ Hr HnB HnS Hidx)
    as (o' & q1 & q2 & l & l' & st' & b1 & Q1 & Hp' & Hid & Hf & Hrun & Hr1
        & HnB1 & HnS1 & Hopp & Hown & Hst & Hord & Hnid & Hts & Htc & Htv
        & Hfl & Hlev & Hrem & Hlev' & Hpr & Hls & Hlo & Hmem & Hp1 & Hx
        & Hfs & Hfc & Hsz & Hcap).
  rewrite Hp in Hp'. injection Hp' as <-. simpl in *.
  set (s := Order.side o) in *. set (k := Order.price o) in *.
  assert (Hfc1 : 0 < OrderPool.free_count_ (pool_ b1)).
  { pose proof (free_count_nonneg _ _ _ Hr). lia. }
  assert (Hnc : no_cross s k b1).
  { unfold no_cross. unfold uncrossed in Hun.
    assert (Hk : k ∈ (levels s b).*1).
    { apply find_is_Some_keys. by rewrite Hfl. }
    rewrite Forall_forall in Hun.
    destruct s; simpl in *.
    - rewrite Hlo. destruct (PriceMap.begin (asks_ b)) as [ka|] eqn:Hb; [|done].
      specialize (Hun k Hk). rewrite Forall_forall in Hun. apply Hun.
      unfold PriceMap.begin in Hb. destruct (asks_ b) as [|[k1 l1] m]; [done|].
      simpl in Hb. injection Hb as ->. csimpl. by left.
    - rewrite Hlo. destruct (PriceMap.rbegin (bids_ b)) as [kb|] eqn:Hb; [|done].
      assert (Hkb : kb ∈ (bids_ b).*1).
      { unfold PriceMap.rbegin in Hb.
        destruct (last (bids_ b)) as [[k1 l1]|] eqn:Hl; [|done].
        simpl in Hb. injection Hb as ->. apply list_elem_of_fmap.
        exists (kb, l1). split; [done|]. by apply last_Some_elem_of. }
      specialize (Hun kb Hkb). rewrite Forall_forall in Hun. by apply Hun. }
  destruct (add_order_no_cross s k new_quantity b1 Q1 Hr1 Hfc1)
    as (a & l2 & l2' & st2 & Htop & Hadd & Hr2 & _ & _ & _ & _ & _ & Ha2 & _);
    [lia|done|].
  set (b2 := set_orders_ _ _) in *.
  rewrite Hnid in Hadd. rewrite Hnid, Hts in Ha2.
  assert (Hq1 : default [] (PriceMap.find k (Q1 s)) = q1 ++ q2).
  { rewrite Hown. pose proof (repr_sorted _ _ _ s Hr) as Hs.
    destruct (decide (q1 ++ q2 = [])) as [->|Hne].
    - rewrite find_erase by done. by rewrite decide_True.
    - rewrite find_set, decide_True by done. by rewrite Hf. }
  rewrite Hq1 in Hr2.
  exists q1, q2, b1, a, b2. simpl.
  rewrite !(repr_abs _ _ _ _ Hr2).
  split_and!; try done.
  - rewrite Hmod.
    destruct (Z.leb_spec new_quantity (Order.filled_quantity o)); [lia|].
    destruct (Z.ltb_spec new_quantity (Order.quantity o)); [lia|].
    destruct (Z.ltb_spec (Order.quantity o) new_quantity); [|lia].
    erewrite bind_ok by exact Hrun. by erewrite bind_ok by exact Hadd.
  - apply wf_repr. eexists. split; [exact Hr2|].
    split.
    + destruct s; simpl.
      * rewrite fn_lookup_insert.
        apply nonempty_set_emplace; [by eapply repr_sorted|done|].
        by destruct (q1 ++ q2).
      * by rewrite fn_lookup_insert_ne.
    + destruct s; simpl.
      * by rewrite fn_lookup_insert_ne.
      * rewrite fn_lookup_insert.
        apply nonempty_set_emplace; [by eapply repr_sorted|done|].
        by destruct (q1 ++ q2).
  - rewrite fn_lookup_insert, find_set, decide_True by done.
    rewrite find_try_emplace by by eapply repr_sorted.
    by rewrite decide_True.
  - by rewrite fn_lookup_insert_ne by (symmetry; apply opp_ne).
  - change (mem b2) with st2. by rewrite Ha2.
  - by rewrite Hnid, Hord.
  - rewrite Hnid, lookup_insert_ne by done. rewrite Hord.
    apply lookup_delete_eq.
  - unfold total_trades. rewrite <- Htc. by destruct s.
  - unfold total_volume. rewrite <- Htv. by destruct s.
Qed.

Lemma modify_order_increase_requeues_witness :
  reachable ask_book ∧ orders_ ask_book !! 1 = Some 0%nat ∧
  mem ask_book !! 0%nat = Some first_ask ∧
  Order.quantity first_ask < 70 < 2 ^ 64 ∧
  1 ≠ wrap64 (next_id_ ask_book + 1) ∧
  ∃ q1 q2 b1 a b2,
    let s := Order.side first_ask in
    let k := Order.price first_ask in
    let new_id := wrap64 (next_id_ ask_book + 1) in
    PriceMap.find k (abs ask_book s) = Some (q1 ++ 0%nat :: q2) ∧
    cancel_order 1 ask_book = (inr true, b1) ∧
    add_order s Limit k 70 b1
      = (inr (OrderResult.mk new_id Active 0 70 []), b2) ∧
    modify_order 1 70 ask_book = (inr true, b2) ∧
    wf b2 ∧
    PriceMap.find k (abs b2 s) = Some ((q1 ++ q2) ++ [a]) ∧
    abs b2 (opp s) = abs ask_book (opp s) ∧
    strip <$> mem b2 !! a
      = Some (new_order new_id k 70 s Limit
                (wrap64 (timestamp_counter_ ask_book + 1))) ∧
    orders_ b2 = <[new_id := a]> (delete 1 (orders_ ask_book)) ∧
    orders_ b2 !! 1 = None ∧
    total_trades b2 = total_trades ask_book ∧
    total_volume b2 = total_volume ask_book.
Proof.
  assert (Hreach : reachable ask_book).
  { unfold ask_book. repeat (apply reach_add; [|lia]). apply reach_make. lia. }
  assert (Hidx : orders_ ask_book !! 1 = Some 0%nat) by reflexivity.
  assert (Hp : mem ask_book !! 0%nat = Some first_ask) by reflexivity.
  assert (Hnq : Order.quantity first_ask < 70 < 2 ^ 64) by (simpl; lia).
  assert (Hoid : 1 ≠ wrap64 (next_id_ ask_book + 1)) by (vm_compute; lia).
  split; [exact Hreach|]. split; [exact Hidx|]. split; [exact Hp|].
  split; [exact Hnq|]. split; [exact Hoid|].
  apply (modify_order_increase_requeues 1 70 0 first_ask ask_book Hreach Hidx
           Hp Hnq Hoid).
Defined.

(** X24: what a cancellation takes from the level of the order:
    [volume_at_price] at its price on its side goes down by the open
    quantity of the order and [order_count_at_price] by one (modulo
    [2 ^ 64] and [2 ^ 32]). *)
Theorem cancel_order_takes_from_its_level (oid : Z) (p : nat) (o : Order.t)
    (b : t) :
  wf b → orders_ b !! oid = Some p → mem b !! p = Some o →
  ∃ b' v c,
    cancel_order oid b = (inr true, b') ∧
    volume_at_price (Order.side o) (Order.price o) b = (inr v, b) ∧
    order_count_at_price (Order.side o) (Order.price o) b = (inr c, b) ∧
    volume_at_price (Order.side o) (Order.price o) b'
      = (inr (wrap64 (v - (Order.quantity o - Order.filled_quantity o))),
         b') ∧
    order_count_at_price (Order.side o) (Order.price o) b'
      = (inr (wrap32 (c - 1)), b').
Proof.
  intros Hwf Hidx Hp. pose proof (wf_NoDup b Hwf) as Hnd.
  pose proof Hwf as (Hr & HnB & HnS).
  destruct (cancel_order_spec oid p b _ Hr HnB HnS Hidx)
    as (o' & q1 & q2 & l & l' & st' & b' & Q' & Hp' & Hid & Hf & Hrun & Hr'
        & HnB' & HnS' & Hopp & Hown & Hst & Hord & Hnid & Hts & Htc & Htv
        & Hfl & Hlev & Hrem & Hlev' & Hpr & Hls & Hlo & Hmem & Hp1 & Hx
        & Hfs & Hfc & Hsz & Hcap).
  rewrite Hp in Hp'. injection Hp' as <-. simpl in *.
  set (s := Order.side o) in *. set (k := Order.price o) in *.
  destruct (level_queries _ b _ s k Hr) as [Hv Hc].
  destruct (level_queries _ b' _ s k Hr') as [Hv' Hc'].
  rewrite Hf in Hv, Hc. simpl in Hv, Hc.
  assert (Hq' : default [] (PriceMap.find k (Q' s)) = q1 ++ q2).
  { rewrite Hown. pose proof (repr_sorted _ _ _ s Hr) as Hs.
    destruct (decide (q1 ++ q2 = [])) as [->|Hne].
    - rewrite find_erase by done. by rewrite decide_True.
    - rewrite find_set, decide_True by done. by rewrite Hf. }
  rewrite Hq' in Hv', Hc'.
  assert (Hndq : NoDup (q1 ++ p :: q2)).
  { apply (repr_queue_NoDup _ b _ s (k, q1 ++ p :: q2) Hr).
    by apply find_Some_elem_of. }
  assert (Hsum : sum_open (mem b') (q1 ++ q2) = sum_open (mem b) (q1 ++ q2)).
  { apply sum_open_strip. intros x Hxq.
    assert (Hxp : x ≠ p).
    { intros ->. apply NoDup_app in Hndq as (_ & Hdis & Hnd2).
      apply NoDup_cons in Hnd2 as [Hp2 _].
      apply elem_of_app in Hxq as [Hx1|Hx2]; [|done].
      apply (Hdis p Hx1). by left. }
    rewrite Hmem, list_lookup_alter_ne by done. rewrite (Hx x Hxp).
    repeat case_decide; destruct (mem b !! x); simpl;
      by rewrite ?strip_set_next, ?strip_set_prev. }
  exists b', (wrap64 (sum_open (mem b) (q1 ++ p :: q2))),
    (wrap32 (Z.of_nat (length (q1 ++ p :: q2)))).
  split; [done|]. split; [done|]. split; [done|].
  rewrite Hv', Hc', Hsum, wrap64_sub_l, wrap32_sub_l.
  rewrite !sum_open_app, sum_open_cons, !length_app.
  rewrite (open_quantity_lookup _ _ _ Hp). simpl.
  split; do 3 f_equal; lia.
Qed.

Lemma cancel_order_takes_from_its_level_witness :
  wf ask_book ∧ orders_ ask_book !! 1 = Some 0%nat ∧
  mem ask_book !! 0%nat = Some first_ask ∧
  ∃ b' v c,
    cancel_order 1 ask_book = (inr true, b') ∧
    volume_at_price (Order.side first_ask) (Order.price first_ask) ask_book
      = (inr v, ask_book) ∧
    order_count_at_price (Order.side first_ask) (Order.price first_ask)
      ask_book = (inr c, ask_book) ∧
    volume_at_price (Order.side first_ask) (Order.price first_ask) b'
      = (inr (wrap64 (v - (Order.quantity first_ask
                           - Order.filled_quantity first_ask))), b') ∧
    order_count_at_price (Order.side first_ask) (Order.price first_ask) b'
      = (inr (wrap32 (c - 1)), b').
Proof.
  assert (Hwf : wf ask_book) by evaluate.
  assert (Hidx : orders_ ask_book !! 1 = Some 0%nat) by reflexivity.
  assert (Hp : mem ask_book !! 0%nat = Some first_ask) by reflexivity.
  split; [exact Hwf|]. split; [exact Hidx|]. split; [exact Hp|].
  apply (cancel_order_takes_from_its_level 1 0 first_ask ask_book Hwf Hidx Hp).
Defined.

(** ** The sizes of the book *)

Lemma nonempty_length (qs : queues) :
  nonempty qs → (length qs ≤ length (slots qs))%nat.
Proof.
  induction 1 as [|[k q] qs Hq _ IH]; [done|].
  rewrite slots_cons, length_app. simpl in *. destruct q; [done|].
  simpl. lia.
Qed.

(** X25: in a book reached by the public operations, neither the levels
    nor the index outnumber the resting orders, and these fit the pool:
    [bid_levels + ask_levels] and [total_orders] are at most the number of
    resting orders, which is at most the capacity of the pool. *)
Theorem book_sizes_are_bounded (b : t) :
  reachable b →
  (bid_levels b + ask_levels b ≤ length (queued (abs b)))%nat ∧
  (total_orders b ≤ length (queued (abs b)))%nat ∧
  Z.of_nat (length (queued (abs b))) ≤ OrderPool.capacity (pool_ b).
Proof.
  intros Hreach. pose proof (reachable_wf b Hreach) as Hwf.
  pose proof (wf_NoDup b Hwf) as Hnd.
  pose proof (reachable_balanced b Hreach) as Hbal.
  pose proof Hwf as (Hr & HnB & HnS). split_and!.
  - unfold bid_levels, ask_levels, PriceMap.size, queued.
    rewrite length_app.
    pose proof (nonempty_length _ HnB). pose proof (nonempty_length _ HnS).
    pose proof (repr_length _ _ _ Buy Hr) as HlB.
    pose proof (repr_length _ _ _ Sell Hr) as HlS. simpl in HlB, HlS. lia.
  - unfold total_orders.
    destruct Hr as (_ & _ & _ & _ & _ & Hi). simpl in Hi.
    rewrite <- length_map_to_list.
    rewrite <- (length_fmap snd (map_to_list (orders_ b))).
    apply submseteq_length, NoDup_submseteq.
    + apply NoDup_fmap_2_strong; [|apply NoDup_map_to_list].
      intros [i1 p1] [i2 p2] H1%elem_of_map_to_list H2%elem_of_map_to_list.
      simpl. intros ->. destruct (Hi _ _ H1) as [_ Hid1].
      destruct (Hi _ _ H2) as [_ Hid2].
      destruct (mem b !! p2); [|done]. by subst.
    + intros x ([i p] & -> & Hip%elem_of_map_to_list)%list_elem_of_fmap.
      by destruct (Hi _ _ Hip).
  - unfold balanced in Hbal. pose proof (free_count_nonneg _ _ _ Hr).
    unfold OrderPool.capacity. lia.
Qed.

Lemma book_sizes_are_bounded_witness :
  reachable two_sided_book ∧
  (bid_levels two_sided_book + ask_levels two_sided_book
   ≤ length (queued (abs two_sided_book)))%nat ∧
  (total_orders two_sided_book ≤ length (queued (abs two_sided_book)))%nat ∧
  Z.of_nat (length (queued (abs two_sided_book)))
    ≤ OrderPool.capacity (pool_ two_sided_book).
Proof.
  assert (Hreach : reachable two_sided_book).
  { unfold two_sided_book, ask_book. repeat (apply reach_add; [|lia]).
    apply reach_make. lia. }
  split; [exact Hreach|].
  apply (book_sizes_are_bounded two_sided_book Hreach).
Defined.


(** ** Ids and timestamps *)

(** X26: ids and timestamps are issued in order.  In a book reached in
    fewer calls than the counters can count, a submission gets the next id
    and the next timestamp: the id of the result is one more than the last
    id issued, it is greater than the id of every resting order and not in
    the index before the call, and the timestamp issued with it is greater
    than that of every resting order. *)
Theorem order_ids_are_issued_in_order (n : nat) (side : Side)
    (type : OrderType) (price quantity : Z) (b : t) :
  reached n b → Z.of_nat n + 1 < 2 ^ 64 →
  0 < OrderPool.available (pool_ b) → 0 ≤ quantity < 2 ^ 64 →
  ∃ r b',
    add_order side type price quantity b = (inr r, b') ∧
    OrderResult.order_id r = next_id_ b + 1 ∧
    next_id_ b' = next_id_ b + 1 ∧
    timestamp_counter_ b' = timestamp_counter_ b + 1 ∧
    orders_ b !! OrderResult.order_id r = None ∧
    Forall (λ p, ident (mem b) p < OrderResult.order_id r ∧
                 stamp (mem b) p < timestamp_counter_ b')
      (queued (abs b)).
Proof.
  intros Hreach Hn Hfc Hq.
  destruct (reached_ordered n b Hreach) as (Hord & Hi & Ht); [lia|].
  pose proof (ordered_fresh b Hord) as Hfresh.
  destruct Hord as ((Hr & HnB & HnS) & (_ & _ & Hst) & Hi0 & Ht0).
  destruct (add_order_spec side type price quantity b _ Hr HnB HnS Hfc Hq)
    as (a & f & r & b' & Q' & ps & _ & Hrun & _ & _ & _ & _ & Hoid & _ & _
        & _ & _ & _ & _ & _ & _ & _ & Hnid & Hts).
  rewrite wrap64_small in Hoid, Hnid, Hts, Hfresh by lia.
  exists r, b'. rewrite Hoid, Hnid, Hts. split_and!; try done.
  - apply Hfresh. lia.
  - eapply Forall_impl; [exact Hst|]. intros p [? ?]. simpl in *. lia.
Qed.

Lemma order_ids_are_issued_in_order_witness :
  reached 3 ask_book ∧ Z.of_nat 3 + 1 < 2 ^ 64 ∧
  0 < OrderPool.available (pool_ ask_book) ∧ 0 ≤ 90 < 2 ^ 64 ∧
  ∃ r b',
    add_order Buy Limit 10200 90 ask_book = (inr r, b') ∧
    OrderResult.order_id r = next_id_ ask_book + 1 ∧
    next_id_ b' = next_id_ ask_book + 1 ∧
    timestamp_counter_ b' = timestamp_counter_ ask_book + 1 ∧
    orders_ ask_book !! OrderResult.order_id r = None ∧
    Forall (λ p, ident (mem ask_book) p < OrderResult.order_id r ∧
                 stamp (mem ask_book) p < timestamp_counter_ b')
      (queued (abs ask_book)).
Proof.
  assert (Hreach : reached 3 ask_book).
  { unfold ask_book. repeat (apply reached_add; [|lia]).
    apply reached_make. lia. }
  assert (Hn : Z.of_nat 3 + 1 < 2 ^ 64) by reflexivity.
  assert (Hq : 0 ≤ 90 < 2 ^ 64) by lia.
  split; [exact Hreach|]. split; [exact Hn|]. split; [reflexivity|].
  split; [exact Hq|].
  apply (order_ids_are_issued_in_order 3 Buy Limit 10200 90 ask_book Hreach
           Hn); [reflexivity|exact Hq].
Defined.

(** ** A market order with nothing to take *)

Lemma match_order_empty a oa r b :
  mem b !! a = Some oa → levels (opp (Order.side oa)) b = [] →
  match_order a r b = (inr r, b).
Proof.
  intros Ha Hl. unfold match_order. erewrite bind_ok by (by apply deref_ok).
  destruct (Order.side oa); simpl in Hl.
  - unfold match_against_asks. erewrite bind_ok by reflexivity.
    rewrite Hl. apply match_asks_end.
  - unfold match_against_bids. erewrite bind_ok by reflexivity.
    rewrite Hl. apply match_bids_end.
Qed.

(** X27: a market order that finds the opposite side empty is cancelled
    at once: the result is [Cancelled] with nothing filled, the whole
    quantity remaining and no trade; its slot goes back to the pool, and the
    levels, the index and the statistics of the book are as before. *)
Theorem market_order_on_empty_side (side : Side) (price quantity : Z)
    (b : t) :
  wf b → 0 < OrderPool.available (pool_ b) → 0 < quantity < 2 ^ 64 →
  levels (opp side) b = [] →
  ∃ a b',
    add_order side Market price quantity b
      = (inr (OrderResult.mk (wrap64 (next_id_ b + 1)) Cancelled 0 quantity
                []), b') ∧
    wf b' ∧
    bids_ b' = bids_ b ∧ asks_ b' = asks_ b ∧ orders_ b' = orders_ b ∧
    OrderPool.available (pool_ b') = OrderPool.available (pool_ b) ∧
    OrderPool.size (pool_ b') = OrderPool.size (pool_ b) ∧
    total_trades b' = total_trades b ∧ total_volume b' = total_volume b ∧
    (∀ x, x ≠ a → mem b' !! x = mem b !! x).
Proof.
  intros (Hr & HnB & HnS) Hfc Hq Hl.
  destruct (add_order_begin side Market price quantity b _ Hr Hfc)
    as (a & Htop & Hrun0 & Hr0 & Hu0 & Ha0 & Hfr0).
  set (b0 := begun a side Market price quantity b) in *.
  set (oa := new_order _ _ _ _ _ _) in *.
  destruct (repr_deallocate [] b0 _ a Hr0 Hu0) as [Hrun2 Hr2].
  set (b2 := set_pool_ _ b0) in *.
  exists a, b2. split_and!; try done.
  - rewrite Hrun0.
    erewrite bind_ok.
    2:{ eapply match_order_empty; [exact Ha0|]. simpl.
        by destruct side. }
    unfold finish_order. erewrite bind_ok by (by apply deref_ok).
    unfold Order.is_filled. simpl.
    destruct (Z.leb_spec quantity 0) as [|_]; [lia|].
    erewrite bind_ok by exact Hrun2.
    unfold Order.remaining. simpl.
    by rewrite Z.sub_0_r, wrap64_small by lia.
  - apply wf_repr. by exists (abs b).
  - unfold OrderPool.available. simpl. lia.
  - unfold OrderPool.size. simpl. lia.
Qed.

Lemma market_order_on_empty_side_witness :
  wf ask_book ∧ 0 < OrderPool.available (pool_ ask_book) ∧
  0 < 25 < 2 ^ 64 ∧ levels (opp Sell) ask_book = [] ∧
  ∃ a b',
    add_order Sell Market 0 25 ask_book
      = (inr (OrderResult.mk (wrap64 (next_id_ ask_book + 1)) Cancelled 0 25
                []), b') ∧
    wf b' ∧
    bids_ b' = bids_ ask_book ∧ asks_ b' = asks_ ask_book ∧
    orders_ b' = orders_ ask_book ∧
    OrderPool.available (pool_ b') = OrderPool.available (pool_ ask_book) ∧
    OrderPool.size (pool_ b') = OrderPool.size (pool_ ask_book) ∧
    total_trades b' = total_trades ask_book ∧
    total_volume b' = total_volume ask_book ∧
    (∀ x, x ≠ a → mem b' !! x = mem ask_book !! x).
Proof.
  assert (Hwf : wf ask_book) by evaluate.
  assert (Hq : 0 < 25 < 2 ^ 64) by lia.
  assert (Hl : levels (opp Sell) ask_book = []) by reflexivity.
  split; [exact Hwf|]. split; [reflexivity|]. split; [exact Hq|].
  split; [exact Hl|].
  apply (market_order_on_empty_side Sell 0 25 ask_book Hwf); 
    [reflexivity|exact Hq|exact Hl].
Defined.
